(** * CSV-driven manifest generation (csv_to_json.py): model and properties

    A shallow embedding of [src/generate-manifest-scripts/csv_to_json.py].
    Python objects live in an explicit store: dictionaries and lists are
    heap objects reached through references, so that aliasing, in-place
    mutation and [copy.deepcopy] are modelled as the interpreter performs
    them.  Exceptions are results of the store monad.

    Strings are sequences of code points below 256; [str.strip] and
    [str.lower] follow Python on that range. *)

From Stdlib Require Import ZArith Ascii String List Lia Bool DecimalString.
From stdpp Require Import base list strings gmap.

Local Open Scope Z_scope.

(** ** Python string primitives *)

Module Str.

(** [str.isspace] on one code point (below 256). *)
Definition is_space (c : ascii) : bool :=
  let n := nat_of_ascii c in
  (((9 <=? n) && (n <=? 13)) || ((28 <=? n) && (n <=? 32))
   || (n =? 133) || (n =? 160))%nat.

Fixpoint lstrip (s : string) : string :=
  match s with
  | EmptyString => EmptyString
  | String c s' => if is_space c then lstrip s' else s
  end.

Fixpoint rstrip (s : string) : string :=
  match s with
  | EmptyString => EmptyString
  | String c s' =>
      match rstrip s' with
      | EmptyString => if is_space c then EmptyString else String c EmptyString
      | r => String c r
      end
  end.

(** [s.strip()] *)
Definition strip (s : string) : string := rstrip (lstrip s).

Definition lower_char (c : ascii) : ascii :=
  let n := nat_of_ascii c in
  if (((65 <=? n) && (n <=? 90))
      || ((192 <=? n) && (n <=? 222) && negb (n =? 215)))%nat
  then ascii_of_nat (n + 32) else c.

(** [s.lower()] *)
Fixpoint lower (s : string) : string :=
  match s with
  | EmptyString => EmptyString
  | String c s' => String (lower_char c) (lower s')
  end.

(** [s.startswith(p)] *)
Definition startswith (s p : string) : bool := String.prefix p s.

Fixpoint rev_acc (s acc : string) : string :=
  match s with
  | EmptyString => acc
  | String c s' => rev_acc s' (String c acc)
  end.

Definition rev (s : string) : string := rev_acc s EmptyString.

(** [s.endswith(p)] *)
Definition endswith (s p : string) : bool := String.prefix (rev p) (rev s).

Fixpoint find_from (sub s : string) (i : nat) : option nat :=
  if String.prefix sub s then Some i
  else match s with
       | EmptyString => None
       | String _ s' => find_from sub s' (S i)
       end.

(** [s.find(sub)]: the lowest index of [sub] in [s], or [None] for -1. *)
Definition find (s sub : string) : option nat := find_from sub s 0.

Fixpoint drop (n : nat) (s : string) : string :=
  match n, s with
  | O, _ => s
  | S n', String _ s' => drop n' s'
  | S _, EmptyString => EmptyString
  end.

Fixpoint take (n : nat) (s : string) : string :=
  match n, s with
  | S n', String c s' => String c (take n' s')
  | _, _ => EmptyString
  end.

(** [s[lo:hi]] for non-negative [lo], [hi]. *)
Definition slice (lo hi : nat) (s : string) : string :=
  take (hi - lo) (drop lo s).

(** [s[:-n]] for a positive [n]. *)
Definition drop_last (n : nat) (s : string) : string :=
  take (String.length s - n) s.

Fixpoint replace_go (fuel : nat) (old new s : string) : string :=
  match fuel with
  | O => s
  | S fuel' =>
      if String.prefix old s
      then new +:+ replace_go fuel' old new (drop (String.length old) s)
      else match s with
           | EmptyString => EmptyString
           | String c s' => String c (replace_go fuel' old new s')
           end
  end.

(** [s.replace(old, new)]; an empty [old] matches before every character
    and at the end. *)
Definition replace (s old new : string) : string :=
  match old with
  | EmptyString =>
      (fix go (s : string) : string :=
         match s with
         | EmptyString => new
         | String c s' => new +:+ String c (go s')
         end) s
  | _ => replace_go (S (String.length s)) old new s
  end.

Fixpoint split_go (sep : ascii) (s cur : string) : list string :=
  match s with
  | EmptyString => [rev cur]
  | String c s' =>
      if Ascii.eqb c sep then rev cur :: split_go sep s' EmptyString
      else split_go sep s' (String c cur)
  end.

(** [s.split(sep)] for a one-character separator. *)
Definition split (s : string) (sep : ascii) : list string :=
  split_go sep s EmptyString.

(** [sep.join(l)] *)
Fixpoint join (sep : string) (l : list string) : string :=
  match l with
  | [] => EmptyString
  | [x] => x
  | x :: l' => x +:+ sep +:+ join sep l'
  end.

(** [str(z)] for an integer. *)
Definition of_Z (z : Z) : string := NilZero.string_of_int (Z.to_int z).

Definition is_digit (c : ascii) : bool :=
  let n := nat_of_ascii c in ((48 <=? n) && (n <=? 57))%nat.

Definition digit_val (c : ascii) : Z := Z.of_nat (nat_of_ascii c) - 48.

(** Digits with single underscores between them, as [int()] accepts. *)
Fixpoint digits_go (s : string) (acc : Z) (after_digit : bool) : option Z :=
  match s with
  | EmptyString => if after_digit then Some acc else None
  | String c s' =>
      if is_digit c then digits_go s' (10 * acc + digit_val c) true
      else if Ascii.eqb c "_"%char
           then if after_digit then digits_go s' acc false else None
           else None
  end.

(** [int(s)]: surrounding white space, an optional sign, decimal digits;
    [None] is ValueError. *)
Definition to_Z (s : string) : option Z :=
  match strip s with
  | String "-"%char r => z ← digits_go r 0 false; Some (- z)
  | String "+"%char r => digits_go r 0 false
  | r => digits_go r 0 false
  end.

End Str.

(** ** The regular expressions of the module, as matchers *)

Module Re.

Definition is_nonzero_digit (c : ascii) : bool :=
  let n := nat_of_ascii c in ((49 <=? n) && (n <=? 57))%nat.

Fixpoint skip_digits (s : string) : string :=
  match s with
  | String c s' => if Str.is_digit c then skip_digits s' else s
  | EmptyString => s
  end.

(** [s] is [d] groups, each an underscore, a digit 1-9 and further digits. *)
Fixpoint indexed_suffix (d : nat) (s : string) : bool :=
  match d with
  | O => String.eqb s EmptyString
  | S d' =>
      match s with
      | String "_"%char (String c s') =>
          is_nonzero_digit c && indexed_suffix d' (skip_digits s')
      | _ => false
      end
  end.

(** [re.fullmatch(pattern, name)] for the pattern built from [re.escape(key)]
    followed by [d] index groups. *)
Definition fullmatch_indexed (key : string) (d : nat) (name : string) : bool :=
  String.prefix key name && indexed_suffix d (Str.drop (String.length key) name).

(** A match of [pattern_remove] at the start of [s]: what follows it. *)
Definition tag_at (s : string) : option string :=
  if String.prefix "$$_oneOf_" s || String.prefix "$$_anyOf_" s then
    match Str.drop 9 s with
    | String c r =>
        if is_nonzero_digit c then
          let r' := skip_digits r in
          if String.prefix "$$" r' then Some (Str.drop 2 r') else None
        else None
    | EmptyString => None
    end
  else None.

Fixpoint sub_tags_go (fuel : nat) (s : string) : string :=
  match fuel with
  | O => s
  | S fuel' =>
      match tag_at s with
      | Some rest => sub_tags_go fuel' rest
      | None =>
          match s with
          | EmptyString => EmptyString
          | String c s' => String c (sub_tags_go fuel' s')
          end
      end
  end.

(** [pattern_remove.sub('', s)] *)
Definition sub_tags (s : string) : string := sub_tags_go (S (String.length s)) s.

Definition typed_funcs : list string :=
  ["int"; "float"; "bool"; "datetime_YYYY-MM-DD"; "datetime_MM/DD/YYYY"]%string.

(** [re.fullmatch(pattern, s)] for the typed-placeholder pattern: one of the
    five function names, an opening bracket, the parameter, a closing one. *)
Definition fullmatch_typed (parameter s : string) : bool :=
  existsb (fun f => String.eqb s (f +:+ "(" +:+ parameter +:+ ")")) typed_funcs.

End Re.

(** ** Python values and the object store *)

Abbreviation addr := nat.

(** Dictionary keys and list indices, as they occur in key paths. *)
Inductive key := KStr (s : string) | KInt (z : Z).

(** Values: immutable ones by value, dictionaries and lists by reference.
    A float is its IEEE-754 binary64 bit pattern. *)
Inductive val :=
| VNone
| VBool (b : bool)
| VInt (z : Z)
| VFloat (bits : Z)
| VStr (s : string)
| VRef (a : addr).

(** Insertion-ordered dictionaries and lists. *)
Inductive obj :=
| ODict (items : list (key * val))
| OList (items : list val).

Abbreviation heap := (list obj).

Inductive pytype := TyNone | TyBool | TyInt | TyFloat | TyStr | TyDict | TyList.

Inductive exn :=
| AssertionError
| AttributeError
| IndexError
| KeyError
| TypeError
| ValueError
| PyException (msg arg : string).

(** The result of running a piece of code on a store: a value, a raised
    exception (the store keeps the mutations made so far), or [Stuck] when
    the recursion budget of the model is exhausted or a reference dangles
    (neither is a behaviour of the program). *)
Inductive outcome (A : Type) :=
| Ok (a : A) (h : heap)
| Raise (e : exn) (h : heap)
| Stuck.
Arguments Ok {A} a h.
Arguments Raise {A} e h.
Arguments Stuck {A}.

Definition M (A : Type) : Type := heap -> outcome A.

Definition ret {A} (a : A) : M A := fun h => Ok a h.

Definition bind {A B} (m : M A) (f : A -> M B) : M B := fun h =>
  match m h with
  | Ok a h' => f a h'
  | Raise e h' => Raise e h'
  | Stuck => Stuck
  end.

Declare Scope py_scope.
Delimit Scope py_scope with py.
Notation "x ← y ; z" := (bind y (fun x => z))
  (at level 20, y at level 100, z at level 200, only parsing) : py_scope.
Notation "' x ← y ; z" := (bind y (fun x => z))
  (at level 20, x pattern, y at level 100, z at level 200, only parsing) : py_scope.
Notation "x ;; z" := (bind x (fun _ => z))
  (at level 100, z at level 200, only parsing, right associativity) : py_scope.
Local Open Scope py_scope.

Definition raise {A} (e : exn) : M A := fun h => Raise e h.
Definition stuck {A} : M A := fun _ => Stuck.

(** [try: m except Exception: handler] *)
Definition catch {A} (m : M A) (handler : exn -> M A) : M A := fun h =>
  match m h with
  | Raise e h' => handler e h'
  | r => r
  end.

Definition alloc (o : obj) : M val := fun h => Ok (VRef (length h)) (h ++ [o]).

Definition deref (a : addr) : M obj := fun h =>
  match h !! a with
  | Some o => Ok o h
  | None => Stuck
  end.

Definition store (a : addr) (o : obj) : M unit := fun h =>
  if (a <? length h)%nat then Ok tt (<[a:=o]> h) else Stuck.

Definition new_dict (items : list (key * val)) : M val := alloc (ODict items).
Definition new_list (items : list val) : M val := alloc (OList items).

(** [for x in l: acc = f(acc, x)] *)
Fixpoint foldM {A B} (f : A -> B -> M A) (l : list B) (acc : A) : M A :=
  match l with
  | [] => ret acc
  | x :: l' => acc' ← f acc x; foldM f l' acc'
  end.

(** [for x in l: f(x)] *)
Fixpoint forM_ {B} (f : B -> M unit) (l : list B) : M unit :=
  match l with
  | [] => ret tt
  | x :: l' => f x;; forM_ f l'
  end.

Definition key_eqb (k1 k2 : key) : bool :=
  match k1, k2 with
  | KStr s1, KStr s2 => String.eqb s1 s2
  | KInt z1, KInt z2 => Z.eqb z1 z2
  | _, _ => false
  end.

Fixpoint dict_get (k : key) (d : list (key * val)) : option val :=
  match d with
  | [] => None
  | (k', v) :: d' => if key_eqb k k' then Some v else dict_get k d'
  end.

(** [d[k] = v]: an existing key keeps its position. *)
Fixpoint dict_set (k : key) (v : val) (d : list (key * val)) : list (key * val) :=
  match d with
  | [] => [(k, v)]
  | (k', v') :: d' =>
      if key_eqb k k' then (k', v) :: d' else (k', v') :: dict_set k v d'
  end.

Fixpoint dict_del (k : key) (d : list (key * val)) : list (key * val) :=
  match d with
  | [] => []
  | (k', v') :: d' => if key_eqb k k' then d' else (k', v') :: dict_del k d'
  end.

(** A Python sequence index, negative ones counted from the end. *)
Definition list_index (z : Z) (n : nat) : option nat :=
  if 0 <=? z then (if z <? Z.of_nat n then Some (Z.to_nat z) else None)
  else if 0 <=? z + Z.of_nat n then Some (Z.to_nat (z + Z.of_nat n)) else None.

Definition type_of (v : val) : M pytype :=
  match v with
  | VNone => ret TyNone
  | VBool _ => ret TyBool
  | VInt _ => ret TyInt
  | VFloat _ => ret TyFloat
  | VStr _ => ret TyStr
  | VRef a =>
      o ← deref a;
      ret (match o with ODict _ => TyDict | OList _ => TyList end)
  end.

Definition pytype_eqb (t1 t2 : pytype) : bool :=
  match t1, t2 with
  | TyNone, TyNone | TyBool, TyBool | TyInt, TyInt | TyFloat, TyFloat
  | TyStr, TyStr | TyDict, TyDict | TyList, TyList => true
  | _, _ => false
  end.

(** [v[k]] *)
Definition getitem (v : val) (k : key) : M val :=
  match v with
  | VRef a =>
      o ← deref a;
      match o with
      | ODict d =>
          match dict_get k d with
          | Some x => ret x
          | None => raise KeyError
          end
      | OList l =>
          match k with
          | KInt z =>
              match list_index z (length l) with
              | Some i =>
                  match l !! i with
                  | Some x => ret x
                  | None => raise IndexError
                  end
              | None => raise IndexError
              end
          | KStr _ => raise TypeError
          end
      end
  | VStr s =>
      match k with
      | KInt z =>
          match list_index z (String.length s) with
          | Some i => ret (VStr (Str.slice i (S i) s))
          | None => raise IndexError
          end
      | KStr _ => raise TypeError
      end
  | _ => raise TypeError
  end.

(** [v[k] = x] *)
Definition setitem (v : val) (k : key) (x : val) : M unit :=
  match v with
  | VRef a =>
      o ← deref a;
      match o with
      | ODict d => store a (ODict (dict_set k x d))
      | OList l =>
          match k with
          | KInt z =>
              match list_index z (length l) with
              | Some i => store a (OList (<[i:=x]> l))
              | None => raise IndexError
              end
          | KStr _ => raise TypeError
          end
      end
  | _ => raise TypeError
  end.

(** [del v[k]] *)
Definition delitem (v : val) (k : key) : M unit :=
  match v with
  | VRef a =>
      o ← deref a;
      match o with
      | ODict d =>
          match dict_get k d with
          | Some _ => store a (ODict (dict_del k d))
          | None => raise KeyError
          end
      | OList l =>
          match k with
          | KInt z =>
              match list_index z (length l) with
              | Some i => store a (OList (delete i l))
              | None => raise IndexError
              end
          | KStr _ => raise TypeError
          end
      end
  | _ => raise TypeError
  end.

(** [d.get(k)], [None] when absent. *)
Definition py_get (v : val) (k : key) : M val :=
  match v with
  | VRef a =>
      o ← deref a;
      match o with
      | ODict d => ret (default VNone (dict_get k d))
      | OList _ => raise AttributeError
      end
  | _ => raise AttributeError
  end.

(** [k in d], for a dictionary [d]. *)
Definition py_contains (v : val) (k : key) : M bool :=
  match v with
  | VRef a =>
      o ← deref a;
      match o with
      | ODict d => ret (bool_decide (is_Some (dict_get k d)))
      | OList _ => ret false
      end
  | _ => raise TypeError
  end.

(** [d.pop(k, None)] *)
Definition py_pop_default (v : val) (k : key) : M val :=
  match v with
  | VRef a =>
      o ← deref a;
      match o with
      | ODict d =>
          match dict_get k d with
          | Some x => store a (ODict (dict_del k d));; ret x
          | None => ret VNone
          end
      | OList _ => raise TypeError
      end
  | _ => raise AttributeError
  end.

(** [d.pop(k)] *)
Definition py_pop (v : val) (k : key) : M val :=
  match v with
  | VRef a =>
      o ← deref a;
      match o with
      | ODict d =>
          match dict_get k d with
          | Some x => store a (ODict (dict_del k d));; ret x
          | None => raise KeyError
          end
      | OList _ => raise TypeError
      end
  | _ => raise AttributeError
  end.

(** [list(d.items())] *)
Definition py_items (v : val) : M (list (key * val)) :=
  match v with
  | VRef a =>
      o ← deref a;
      match o with
      | ODict d => ret d
      | OList _ => raise AttributeError
      end
  | _ => raise AttributeError
  end.

(** [len(v)] *)
Definition py_len (v : val) : M nat :=
  match v with
  | VRef a =>
      o ← deref a;
      ret (match o with ODict d => length d | OList l => length l end)
  | VStr s => ret (String.length s)
  | _ => raise TypeError
  end.

(** [v.append(x)] *)
Definition py_append (v : val) (x : val) : M unit :=
  match v with
  | VRef a =>
      o ← deref a;
      match o with
      | OList l => store a (OList (l ++ [x]))
      | ODict _ => raise AttributeError
      end
  | _ => raise AttributeError
  end.

(** [copy.deepcopy(v)], on objects without sharing or cycles (the only
    ones [json.load] and this module build). *)
Fixpoint deepcopy (fuel : nat) (v : val) : M val :=
  match v with
  | VRef a =>
      match fuel with
      | O => stuck
      | S fuel' =>
          o ← deref a;
          match o with
          | ODict d =>
              d' ← foldM (fun acc kv =>
                            x ← deepcopy fuel' kv.2; ret (acc ++ [(kv.1, x)]))
                         d [];
              new_dict d'
          | OList l =>
              l' ← foldM (fun acc x => y ← deepcopy fuel' x; ret (acc ++ [y]))
                         l [];
              new_list l'
          end
      end
  | _ => ret v
  end.

(** ** Equality of Python values ([==]) *)

Definition float_exp (bits : Z) : Z := Z.land (Z.shiftr bits 52) 2047.
Definition float_man (bits : Z) : Z := Z.land bits (2 ^ 52 - 1).
Definition float_is_zero (bits : Z) : bool :=
  (float_exp bits =? 0) && (float_man bits =? 0).

(** Two floats: equal bit patterns (the same object, or the same value) or
    two zeros. *)
Definition float_eqb (b1 b2 : Z) : bool :=
  (b1 =? b2) || (float_is_zero b1 && float_is_zero b2).

(** A float and an integer: the float is finite and has that exact value. *)
Definition float_eq_Z (bits z : Z) : bool :=
  let e := float_exp bits in
  let m := float_man bits in
  if e =? 2047 then false
  else
    let mm := if e =? 0 then m else m + 2 ^ 52 in
    let ee := if e =? 0 then -1074 else e - 1075 in
    let sm := if Z.testbit bits 63 then - mm else mm in
    if 0 <=? ee then z =? sm * 2 ^ ee else z * 2 ^ (- ee) =? sm.

(** [x == y] for values that are not references. *)
Definition imm_eqb (x y : val) : bool :=
  match x, y with
  | VNone, VNone => true
  | VBool a, VBool b => Bool.eqb a b
  | VBool a, VInt z | VInt z, VBool a => Z.b2z a =? z
  | VBool a, VFloat f | VFloat f, VBool a => float_eq_Z f (Z.b2z a)
  | VInt a, VInt b => a =? b
  | VInt z, VFloat f | VFloat f, VInt z => float_eq_Z f z
  | VFloat a, VFloat b => float_eqb a b
  | VStr a, VStr b => String.eqb a b
  | _, _ => false
  end.

(** Element-wise comparison of two sequences, lengths first. *)
Fixpoint all2M {A} (f : A -> A -> M bool) (l1 l2 : list A) : M bool :=
  match l1, l2 with
  | [], [] => ret true
  | x :: l1', y :: l2' => b ← f x y; if b then all2M f l1' l2' else ret false
  | _, _ => ret false
  end.

Definition seq_eqM {A} (f : A -> A -> M bool) (l1 l2 : list A) : M bool :=
  if (length l1 =? length l2)%nat then all2M f l1 l2 else ret false.

(** Every item of the first dictionary has an equal value in the second. *)
Fixpoint dict_subM (f : val -> val -> M bool) (d1 d2 : list (key * val)) : M bool :=
  match d1 with
  | [] => ret true
  | (k, x) :: d1' =>
      match dict_get k d2 with
      | None => ret false
      | Some y => b ← f y x; if b then dict_subM f d1' d2 else ret false
      end
  end.

(** [x == y]; an object equals itself. *)
Fixpoint py_eq (fuel : nat) (x y : val) : M bool :=
  match x, y with
  | VRef a, VRef b =>
      if (a =? b)%nat then ret true
      else
        match fuel with
        | O => stuck
        | S fuel' =>
            ox ← deref a;
            oy ← deref b;
            match ox, oy with
            | ODict d1, ODict d2 =>
                if (length d1 =? length d2)%nat
                then dict_subM (py_eq fuel') d1 d2 else ret false
            | OList l1, OList l2 => seq_eqM (py_eq fuel') l1 l2
            | _, _ => ret false
            end
        end
  | VRef _, _ | _, VRef _ => ret false
  | _, _ => ret (imm_eqb x y)
  end.

(** ** The parameter index *)

(** A key path: dictionary keys and list indices. *)
Definition keypath : Type := list key.

(** An array anchor [(array-root object, key path to the array)]. *)
Definition anchor : Type := val * list key.

(** An occurrence record [(root_object, keys, root_list)]. *)
Definition prec : Type := val * list key * list anchor.

(** [parameters_object]: placeholder text to its occurrences, in insertion
    order. *)
Definition index : Type := list (string * list prec).

Fixpoint index_get (p : string) (po : index) : option (list prec) :=
  match po with
  | [] => None
  | (p', recs) :: po' => if String.eqb p p' then Some recs else index_get p po'
  end.

(** [parameters_object.get(parameter)], created when absent, then
    [parameter_recs.append(rec)]. *)
Fixpoint index_append {R} (p : string) (r : R) (po : list (string * list R))
    : list (string * list R) :=
  match po with
  | [] => [(p, [r])]
  | (p', recs) :: po' =>
      if String.eqb p p' then (p', recs ++ [r]) :: po'
      else (p', recs) :: index_append p r po'
  end.

Definition keys_eqb (k1 k2 : list key) : bool :=
  (length k1 =? length k2)%nat && forallb (fun p => key_eqb p.1 p.2) (zip k1 k2).

Definition anchor_eq (fuel : nat) (a1 a2 : anchor) : M bool :=
  b ← py_eq fuel a1.1 a2.1;
  if b then ret (keys_eqb a1.2 a2.2) else ret false.

Definition prec_eq (fuel : nat) (r1 r2 : prec) : M bool :=
  b ← py_eq fuel r1.1.1 r2.1.1;
  if b then
    if keys_eqb r1.1.2 r2.1.2 then seq_eqM (anchor_eq fuel) r1.2 r2.2
    else ret false
  else ret false.

Fixpoint index_subM (fuel : nat) (po1 po2 : index) : M bool :=
  match po1 with
  | [] => ret true
  | (p, recs1) :: po1' =>
      match index_get p po2 with
      | None => ret false
      | Some recs2 =>
          b ← seq_eqM (prec_eq fuel) recs2 recs1;
          if b then index_subM fuel po1' po2 else ret false
      end
  end.

(** [po1 == po2] for two parameter indexes. *)
Definition index_eq (fuel : nat) (po1 po2 : index) : M bool :=
  if (length po1 =? length po2)%nat then index_subM fuel po1 po2 else ret false.

Definition parameter_start_delimiter : string := "{{".
Definition parameter_end_delimiter : string := "}}".
Definition tag_file_name : string := "$filename".
Definition tag_schema_id : string := "$schema".
Definition tag_array_parent : string := "$array_parent".
Definition tag_object_parent : string := "$object_parent".
Definition tag_kind_parent : string := "$kind_parent".
Definition tag_required_template : string := "$required_template".
Definition tag_optional_field : string := "$".

(** Whether [val] holds both delimiters, as [str.find] reports them. *)
Definition has_parameter (val : string) : bool :=
  bool_decide (is_Some (Str.find val parameter_start_delimiter))
  && bool_decide (is_Some (Str.find val parameter_end_delimiter)).

(** [parse_str], for the record [(root_object, keys, root_list)] it appends
    at every placeholder.  Every call after the first works on a strictly
    shorter string, so a budget of the length of the leaf plus one is never
    used up. *)
Fixpoint parse_str_go {R} (fuel : nat) (parameter_rec : R) (val : string)
    (po : list (string * list R)) : list (string * list R) :=
  match fuel with
  | O => po
  | S fuel' =>
      let val := Str.strip val in
      match Str.find val parameter_start_delimiter,
            Str.find val parameter_end_delimiter with
      | Some parameter_start_index, Some parameter_end_index =>
          let stop := (parameter_end_index + String.length parameter_end_delimiter)%nat in
          let parameter := Str.slice parameter_start_index stop val in
          let po :=
            if (0 <? String.length parameter)%nat
            then index_append parameter parameter_rec po
            else po in
          let val_left := Str.drop stop val in
          if (0 <? String.length val_left)%nat
          then parse_str_go fuel' parameter_rec val_left po
          else po
      | _, _ => po
      end
  end.

Definition parse_str (root_object : val) (keys : list key) (val : string)
    (root_list : list anchor) (po : index) : index :=
  parse_str_go (S (String.length val)) (root_object, keys, root_list) val po.

(** The body of the loop over the items of [parent_object]; [parse_dict] is
    the recursive call. *)
Definition parse_item
    (parse_dict : val -> val -> keypath -> list anchor -> index -> M index)
    (root_object : val) (keys : keypath) (root_list : list anchor)
    (po : index) (kv : key * val) : M index :=
  let new_keys := keys ++ [kv.1] in
  ty ← type_of kv.2;
  match ty, kv.2 with
  | TyDict, _ => parse_dict kv.2 root_object new_keys root_list po
  | TyList, _ =>
      n ← py_len kv.2;
      if (n =? 1)%nat then
        let new_root_list := root_list ++ [(root_object, new_keys)] in
        e ← getitem kv.2 (KInt 0);
        new_root_object ← new_dict [(KInt 0, e)];
        parse_dict new_root_object new_root_object [] new_root_list po
      else ret po
  | TyStr, VStr s => ret (parse_str root_object new_keys s root_list po)
  | _, _ => ret po
  end.

Fixpoint parse_dict (fuel : nat) (parent_object root_object : val)
    (keys : keypath) (root_list : list anchor) (po : index) : M index :=
  match fuel with
  | O => stuck
  | S fuel' =>
      items ← py_items parent_object;
      foldM (parse_item (parse_dict fuel') root_object keys root_list) items po
  end.

Definition parse_template_parameters (fuel : nat) (root_object : val)
    (parameters_object : index) : M index :=
  parse_dict fuel root_object root_object [] [] parameters_object.

(** ** Column binding *)

(** A bound parameter: one column, or a list of [[i1, ..., id, column]]. *)
Inductive binding := BInt (col : Z) | BList (cells : list (list Z)).

Definition colmap : Type := list (string * binding).

Fixpoint colmap_get (p : string) (m : colmap) : option binding :=
  match m with
  | [] => None
  | (p', b) :: m' => if String.eqb p p' then Some b else colmap_get p m'
  end.

Fixpoint colmap_set (p : string) (b : binding) (m : colmap) : colmap :=
  match m with
  | [] => [(p, b)]
  | (p', b') :: m' =>
      if String.eqb p p' then (p', b) :: m' else (p', b') :: colmap_set p b m'
  end.

(** [l.index(x)] from position [i]; [None] is ValueError. *)
Fixpoint index_of (x : string) (l : list string) (i : nat) : option nat :=
  match l with
  | [] => None
  | y :: l' => if String.eqb x y then Some i else index_of x l' (S i)
  end.

Definition get_column_index (col_names : list string) (col_name : string) : M Z :=
  match index_of col_name col_names 0 with
  | Some idx =>
      match index_of col_name (drop (S idx) col_names) (S idx) with
      | Some _ => raise (PyException "Duplicate parameter found in csv file:" col_name)
      | None => ret (Z.of_nat idx)
      end
  | None => ret (-1)
  end.

(** [l[i]] where the index is known to be in range. *)
Definition nthZ (l : list Z) (i : nat) : Z := default 0 (l !! i).

(** [for j in range(d - 1, i - 1, -1): indexes_column[j] = 0] *)
Definition zero_from (i d : nat) (indexes_column : list Z) : list Z :=
  fold_right (fun j l => <[j:=0]> l) indexes_column (seq i (d - i)).

(** The iterations [i = n - 1, ..., 0] of the carry loop; [done] is left as
    it is by [break]. *)
Fixpoint advance (n d : nat) (indexes_count indexes_column : list Z)
    (done : bool) : list Z * bool :=
  match n with
  | O => (indexes_column, done)
  | S i =>
      let temp_val := nthZ indexes_column i + 1 in
      if temp_val <? nthZ indexes_count i
      then (<[i:=temp_val]> (zero_from i d indexes_column), done)
      else advance i d indexes_count indexes_column (i =? 0)%nat
  end.

(** [parameter_key + '_' + str(i1 + 1) + ... + '_' + str(id + 1)] *)
Definition parameter_with_indexes (parameter_key : string) (d : nat)
    (indexes_column : list Z) : string :=
  fold_left (fun s i => s +:+ "_" +:+ Str.of_Z (nthZ indexes_column i + 1))
            (seq 0 d) parameter_key.

(** The [while not done] loop. *)
Fixpoint bind_cells (fuel : nat) (column_names : list string)
    (parameter_key : string) (d : nat) (indexes_count indexes_column : list Z)
    (parameter_column : list (list Z)) : M (list (list Z)) :=
  match fuel with
  | O => stuck
  | S fuel' =>
      csv_index ← get_column_index column_names
                    (parameter_with_indexes parameter_key d indexes_column);
      let indexes_column :=
        if csv_index >=? 0 then <[d:=csv_index]> indexes_column
        else indexes_column in
      let parameter_column :=
        if csv_index >=? 0 then parameter_column ++ [indexes_column]
        else parameter_column in
      let '(indexes_column, done) :=
        advance d d indexes_count indexes_column false in
      if done then ret parameter_column
      else bind_cells fuel' column_names parameter_key d indexes_count
             indexes_column parameter_column
  end.

(** The largest index seen at each position among the matching headers. *)
Definition max_indexes (column_names : list string) (parameter_key : string)
    (d : nat) : list Z :=
  fold_left
    (fun indexes_count column_name =>
       if Re.fullmatch_indexed parameter_key d column_name then
         let temp_name := Str.drop (String.length parameter_key + 1) column_name in
         let col_nums := map (fun n => default 0 (Str.to_Z n)) (Str.split temp_name "_") in
         fold_left (fun cnt i => <[i:=Z.max (nthZ cnt i) (nthZ col_nums i)]> cnt)
                   (seq 0 d) indexes_count
       else indexes_count)
    column_names (replicate d 0).

(** The number of coordinate vectors in the box of the maxima: the product,
    over the first [n] positions, of the maximum there (at least 1).  The
    loop below makes that many turns. *)
Fixpoint box_size (n : nat) (indexes_count : list Z) : nat :=
  match n with
  | O => 1%nat
  | S i => (box_size i indexes_count * Z.to_nat (Z.max (nthZ indexes_count i) 1))%nat
  end.

(** The body of the loop over the occurrences of one parameter. *)
Definition bind_occurrence (column_names : list string) (parameter : string)
    (parameter_key : string) (m : colmap) (parameter_rec : prec) : M colmap :=
  let d_array := length parameter_rec.2 in
  if (d_array =? 0)%nat then
    match colmap_get parameter m with
    | None =>
        csv_index ← get_column_index column_names parameter_key;
        if csv_index >=? 0 then ret (colmap_set parameter (BInt csv_index) m)
        else ret m
    | Some _ => ret m
    end
  else
    match colmap_get parameter m with
    | Some _ => raise (PyException "Duplicate array parameter not allowed:" parameter)
    | None =>
        let m := colmap_set parameter (BList []) m in
        let indexes_count := max_indexes column_names parameter_key d_array in
        let indexes_column := replicate d_array 0 ++ [-1] in
        cells ← bind_cells (box_size d_array indexes_count) column_names parameter_key
                  d_array indexes_count indexes_column [];
        ret (colmap_set parameter (BList cells) m)
    end.

(** [parameter[len('{{'):-len('}}')].strip().lower()] *)
Definition parameter_key_of (parameter : string) : string :=
  Str.lower (Str.strip
    (Str.slice (String.length parameter_start_delimiter)
               (String.length parameter - String.length parameter_end_delimiter)
               parameter)).

(** [map_csv_column_names_to_parameters], from the header row as read
    (each name stripped and lower-cased by the caller below). *)
Definition bind_parameters (column_names : list string)
    (parameters_object : index) : M colmap :=
  foldM (fun m pr =>
           foldM (bind_occurrence column_names pr.1 (parameter_key_of pr.1)) pr.2 m)
        parameters_object [].

(** [csv_file] is given by its rows; only the first one is read. *)
Definition map_csv_column_names_to_parameters (csv_file : list (list string))
    (parameters_object : index) : M colmap :=
  let column_names :=
    match csv_file with
    | [] => []
    | rows :: _ => map (fun colname => Str.lower (Str.strip colname)) rows
    end in
  bind_parameters column_names parameters_object.

(** ** JSON documents *)

#[warnings="-register-all"]
Inductive json :=
| JNull
| JBool (b : bool)
| JInt (z : Z)
| JFloat (bits : Z)
| JStr (s : string)
| JList (items : list json)
| JDict (items : list (string * json)).

(** The elements of an array and the members of an object, loaded in
    order; a repeated name keeps its first position and its last value. *)
Fixpoint load_list (load : json -> M val) (l : list json) : M (list val) :=
  match l with
  | [] => ret []
  | x :: l' => v ← load x; vs ← load_list load l'; ret (v :: vs)
  end.

Fixpoint load_members (load : json -> M val) (d : list (string * json))
    (acc : list (key * val)) : M (list (key * val)) :=
  match d with
  | [] => ret acc
  | kx :: d' => v ← load kx.2; load_members load d' (dict_set (KStr kx.1) v acc)
  end.

(** [json.load]: builds the objects of a document, children first. *)
Fixpoint json_load (t : json) : M val :=
  match t with
  | JNull => ret VNone
  | JBool b => ret (VBool b)
  | JInt z => ret (VInt z)
  | JFloat f => ret (VFloat f)
  | JStr s => ret (VStr s)
  | JList l => vs ← load_list json_load l; new_list vs
  | JDict d => items ← load_members json_load d []; new_dict items
  end.

(** [list(v)] for a list object. *)
Definition py_list_items (v : val) : M (list val) :=
  match v with
  | VRef a =>
      o ← deref a;
      match o with
      | OList l => ret l
      | ODict d => ret (map (fun kv : key * val =>
                               match kv.1 with KStr s => VStr s | KInt z => VInt z end) d)
      end
  | _ => raise TypeError
  end.

Definition key_name (k : key) : string :=
  match k with
  | KStr s => s
  | KInt z => Str.of_Z z
  end.

(** What [json.dump] writes for a value: the document it denotes. *)
Fixpoint json_dump (fuel : nat) (v : val) : M json :=
  match v with
  | VNone => ret JNull
  | VBool b => ret (JBool b)
  | VInt z => ret (JInt z)
  | VFloat f => ret (JFloat f)
  | VStr s => ret (JStr s)
  | VRef a =>
      match fuel with
      | O => stuck
      | S fuel' =>
          o ← deref a;
          match o with
          | OList l =>
              ts ← foldM (fun acc x => t ← json_dump fuel' x; ret (acc ++ [t])) l [];
              ret (JList ts)
          | ODict d =>
              ts ← foldM (fun acc (kv : key * val) =>
                            t ← json_dump fuel' kv.2; ret (acc ++ [(key_name kv.1, t)]))
                         d [];
              ret (JDict ts)
          end
      end
  end.

(** ** Library conversions

    [float()], the two [datetime] conversions and the JSON text codec are
    Python library code; the module is modelled over any behaviour of
    theirs.  [None] stands for the ValueError they raise. *)
Class PyLib := {
  (** [float(s)], as a bit pattern *)
  py_float : string -> option Z;
  (** [datetime.strptime(s, '%Y-%m-%d').strftime('%Y-%m-%dT%H:%M:%SZ')] *)
  py_datetime_ymd : string -> option string;
  (** [datetime.strptime(s, '%m/%d/%Y').isoformat()] *)
  py_datetime_mdy : string -> option string;
  (** [json.dumps(obj)] *)
  json_dumps : json -> string;
  (** [json.loads(s)] *)
  json_loads : string -> option json;
}.

(** ** Row materialization *)

Section Materialize.

Context {lib : PyLib}.

(** The loop [for k in keys[1:]: parent_object = parent_object[key]; key = k]. *)
Fixpoint descend (parent_object : val) (k0 : key) (ks : keypath) : M (val * key) :=
  match ks with
  | [] => ret (parent_object, k0)
  | k :: ks' => p ← getitem parent_object k0; descend p k ks'
  end.

Definition get_deepest_key_object (root_object : val) (keys : keypath)
    : M (val * key) :=
  match keys with
  | [] => r ← new_dict [(KInt 0, root_object)]; ret (r, KInt 0)
  | k0 :: ks => descend root_object k0 ks
  end.

Definition true_words : list string := ["true"; "yes"; "y"; "t"; "1"]%string.

(** [col_index] is what the caller passes: nothing, a column number, or (for
    a scalar occurrence of an array-bound parameter) a list. *)
Definition replace_parameter_with_data (root_object : val) (keys : list key)
    (parameter : string) (data_row : list string) (col_index : option binding)
    : M unit :=
  data ← match col_index with
         | None => ret EmptyString
         | Some (BList _) => raise TypeError
         | Some (BInt c) =>
             if c >? -1 then
               match data_row !! Z.to_nat c with
               | Some cell => ret (Str.strip cell)
               | None => raise IndexError
               end
             else ret EmptyString
         end;
  if (String.length data =? 0)%nat then ret tt
  else
    ' (parent_object, key) ← get_deepest_key_object root_object keys;
    cur ← getitem parent_object key;
    match cur with
    | VStr s =>
        let result := Str.replace s parameter data in
        if Re.fullmatch_typed parameter (Str.strip s) then
          if Str.startswith result "bool" then
            setitem parent_object key
              (VBool (existsb (String.eqb (Str.lower data)) true_words))
          else if Str.startswith result "datetime_YYYY-MM-DD" then
            match py_datetime_ymd data with
            | Some r => setitem parent_object key (VStr r)
            | None => raise ValueError
            end
          else if Str.startswith result "datetime_MM/DD/YYYY" then
            match py_datetime_mdy data with
            | Some r => setitem parent_object key (VStr r)
            | None => raise ValueError
            end
          else if Str.startswith result "int" then
            match Str.to_Z data with
            | Some z => setitem parent_object key (VInt z)
            | None => raise ValueError
            end
          else if Str.startswith result "float" then
            match py_float data with
            | Some f => setitem parent_object key (VFloat f)
            | None => raise ValueError
            end
          else ret tt
        else setitem parent_object key (VStr result)
    | _ => raise AttributeError
    end.

(** [while len(array_object) <= index: array_object.append(deepcopy(t))];
    every turn adds one element, so [index + 1] turns are enough. *)
Fixpoint grow_array (turns fuel : nat) (array_object : val) (index : Z)
    (child_object_template : val) : M unit :=
  n ← py_len array_object;
  if Z.of_nat n <=? index then
    match turns with
    | O => stuck
    | S turns' =>
        c ← deepcopy fuel child_object_template;
        py_append array_object c;;
        grow_array turns' fuel array_object index child_object_template
    end
  else ret tt.

Definition get_root_object (fuel : nat) (root_object_key_list : list anchor)
    (indexes : list Z) : M (val * list key) :=
  match root_object_key_list with
  | [] => raise IndexError
  | (root_object, root_keys) :: _ =>
      ' (parent_object, key) ← get_deepest_key_object root_object root_keys;
      array_object ← getitem parent_object key;
      r ← foldM (fun (st : val * (val * keypath)) (i : nat) =>
                   let array_object := st.1 in
                   let index := nthZ indexes i in
                   match root_object_key_list !! S i with
                   | None => raise IndexError
                   | Some (child_object_template, child_keys) =>
                       match child_keys with
                       | [] => raise IndexError
                       | k0 :: child_rest =>
                           ' (child_object_template, child_keys) ←
                             (if key_eqb k0 (KInt 0)
                              then t ← getitem child_object_template k0;
                                   ret (t, child_rest)
                              else ret (child_object_template, child_keys));
                           grow_array (S (Z.to_nat index)) fuel array_object index
                             child_object_template;;
                           return_root ← getitem array_object (KInt index);
                           ty ← type_of return_root;
                           let '(return_root, return_keys) :=
                             match ty with
                             | TyStr => (array_object, [KInt index])
                             | _ => (return_root, child_keys)
                             end in
                           ' (parent_object, key) ←
                             get_deepest_key_object return_root return_keys;
                           array_object ← getitem parent_object key;
                           ret (array_object, (return_root, return_keys))
                       end
                   end)
                (seq 0 (length indexes)) (array_object, (VNone, []));
      ret r.2
  end.

(** [for i in range(n - 1, -1, -1)] *)
Definition range_down (n : nat) : list nat := rev (seq 0 n).

(** [for x in l: if not f(x): return False] and then [return True]. *)
Fixpoint allM {A} (f : A -> M bool) (l : list A) : M bool :=
  match l with
  | [] => ret true
  | x :: l' => b ← f x; if b then allM f l' else ret false
  end.

Fixpoint is_item_empty (fuel : nat) (item : val) : M bool :=
  match fuel with
  | O => stuck
  | S fuel' =>
      ty ← type_of item;
      match ty with
      | TyDict =>
          items ← py_items item;
          allM (fun kv : key * val => is_item_empty fuel' kv.2) items
      | TyList =>
          items ← py_list_items item;
          allM (is_item_empty fuel') items
      | _ => ret false
      end
  end.

Definition str_has_parameter (v : val) : bool :=
  match v with
  | VStr s => has_parameter s
  | _ => false
  end.

Fixpoint clear_list (fuel : nat) (lst : val) : M unit :=
  match fuel with
  | O => stuck
  | S fuel' =>
      n ← py_len lst;
      forM_ (fun i : nat =>
               list_val ← getitem lst (KInt (Z.of_nat i));
               ty ← type_of list_val;
               match ty with
               | TyDict => clear_dict fuel' list_val
               | TyList => clear_list fuel' list_val
               | TyStr =>
                   if str_has_parameter list_val
                   then delitem lst (KInt (Z.of_nat i)) else ret tt
               | _ => ret tt
               end)
            (range_down n);;
      n ← py_len lst;
      forM_ (fun i : nat =>
               item ← getitem lst (KInt (Z.of_nat i));
               b ← is_item_empty fuel' item;
               if b then delitem lst (KInt (Z.of_nat i)) else ret tt)
            (range_down n)
  end
with clear_dict (fuel : nat) (d : val) : M unit :=
  match fuel with
  | O => stuck
  | S fuel' =>
      items ← py_items d;
      to_be_deleted ←
        foldM (fun (acc : list key) (kv : key * val) =>
                 ty ← type_of kv.2;
                 match ty with
                 | TyDict =>
                     clear_dict fuel' kv.2;;
                     n ← py_len kv.2;
                     ret (if (n =? 0)%nat then acc ++ [kv.1] else acc)
                 | TyList =>
                     clear_list fuel' kv.2;;
                     n ← py_len kv.2;
                     ret (if (n =? 0)%nat then acc ++ [kv.1] else acc)
                 | TyStr =>
                     ret (if str_has_parameter kv.2 then acc ++ [kv.1] else acc)
                 | _ => ret acc
                 end)
              items [];
      forM_ (fun del_key => delitem d del_key) to_be_deleted
  end.

Definition clear_non_filled_parameters (fuel : nat) (ldm : val) : M unit :=
  clear_dict fuel ldm.

Definition val_is_none (v : val) : bool :=
  match v with VNone => true | _ => false end.

Fixpoint remove_list_tags (fuel : nat) (lst : val) : M unit :=
  match fuel with
  | O => stuck
  | S fuel' =>
      items ← py_list_items lst;
      forM_ (fun item =>
               ty ← type_of item;
               match ty with
               | TyDict => remove_dict_tags fuel' item
               | TyList => remove_list_tags fuel' item
               | _ => ret tt
               end) items
  end
with remove_dict_tags (fuel : nat) (d : val) : M unit :=
  match fuel with
  | O => stuck
  | S fuel' =>
      items ← py_items d;
      (* the keys of [items] are distinct: appending is [to_be_replaced[key] = new_key] *)
      to_be_replaced ←
        foldM (fun (acc : list (string * string)) (kv : key * val) =>
                 key ← match kv.1 with
                       | KStr s => ret s
                       | KInt _ => raise TypeError
                       end;
                 let new_key := Re.sub_tags key in
                 let acc := if String.eqb new_key key then acc
                            else acc ++ [(key, new_key)] in
                 ty ← type_of kv.2;
                 match ty with
                 | TyDict => remove_dict_tags fuel' kv.2;; ret acc
                 | TyList => remove_list_tags fuel' kv.2;; ret acc
                 | _ => ret acc
                 end)
              items [];
      forM_ (fun on : string * string =>
               cur ← py_get d (KStr on.2);
               if val_is_none cur then
                 x ← py_pop d (KStr on.1);
                 setitem d (KStr on.2) x
               else raise (PyException "Detected duplicate attributes:" on.1))
            to_be_replaced
  end.

Definition remove_special_tags (fuel : nat) (ldm : val) : M unit :=
  remove_dict_tags fuel ldm.

Fixpoint add_fields_list (fuel : nat) (des_list src_list : val) : M unit :=
  match fuel with
  | O => stuck
  | S fuel' =>
      ns ← py_len src_list;
      nd ← py_len des_list;
      if ((ns =? 0) || (nd =? 0))%nat then ret tt
      else
        srcs ← py_list_items src_list;
        forM_ (fun item_src =>
                 dess ← py_list_items des_list;
                 forM_ (fun item_des =>
                          ts ← type_of item_src;
                          td ← type_of item_des;
                          if pytype_eqb ts td then
                            match ts with
                            | TyDict => add_fields_dict fuel' item_des item_src
                            | TyList => add_fields_list fuel' item_des item_src
                            | _ => ret tt
                            end
                          else ret tt) dess) srcs
  end
with add_fields_dict (fuel : nat) (des_dict src_dict : val) : M unit :=
  match fuel with
  | O => stuck
  | S fuel' =>
      items ← py_items src_dict;
      forM_ (fun kv : key * val =>
               let v_src := kv.2 in
               k ← match kv.1 with
                   | KStr s => ret s
                   | KInt _ => raise AttributeError
                   end;
               let optional_field := Str.startswith k tag_optional_field in
               let k := if optional_field
                        then Str.drop (String.length tag_optional_field) k else k in
               present ← py_contains des_dict (KStr k);
               ts ← type_of v_src;
               (if negb present && negb optional_field then
                  match ts with
                  | TyDict => x ← new_dict []; setitem des_dict (KStr k) x
                  | TyList => x ← new_list []; setitem des_dict (KStr k) x
                  | _ => setitem des_dict (KStr k) v_src
                  end
                else ret tt);;
               v_des ← py_get des_dict (KStr k);
               td ← type_of v_des;
               if negb (val_is_none v_des) && pytype_eqb ts td then
                 match ts with
                 | TyDict => add_fields_dict fuel' v_des v_src
                 | TyList => add_fields_list fuel' v_des v_src
                 | _ => ret tt
                 end
               else ret tt) items
  end.

Definition add_required_fields (fuel : nat) (ldm required_template : val) : M unit :=
  match required_template with
  | VNone => ret tt
  | _ =>
      n ← py_len required_template;
      if (n =? 0)%nat then ret tt else add_fields_dict fuel ldm required_template
  end.

(** Truth value of an optional string argument. *)
Definition truthy (o : option string) : bool :=
  match o with
  | Some s => negb (String.eqb s EmptyString)
  | None => false
  end.

Definition isinstance_dict (v : val) : M bool :=
  ty ← type_of v;
  ret (match ty with TyDict => true | _ => false end).

Definition set_acl_values (manifest : val) (acl_viewer acl_owner : option string)
    : M unit :=
  is_dict ← isinstance_dict manifest;
  if negb is_dict then ret tt
  else
    py_pop_default manifest (KStr "acl");;
    acl ← new_dict [];
    setitem manifest (KStr "acl") acl;;
    (if truthy acl_viewer then
       l ← new_list [VStr (default EmptyString acl_viewer)];
       setitem acl (KStr "viewers") l
     else ret tt);;
    (if truthy acl_owner then
       l ← new_list [VStr (default EmptyString acl_owner)];
       setitem acl (KStr "owners") l
     else ret tt).

Definition set_legal_tag (manifest : val) (legal_tag : string) : M unit :=
  is_dict ← isinstance_dict manifest;
  if negb is_dict then ret tt
  else
    legal ← py_get manifest (KStr "legal");
    tags ← new_list [VStr legal_tag];
    setitem legal (KStr "legaltags") tags;;
    countries ← new_list [VStr "US"];
    setitem legal (KStr "otherRelevantDataCountries") countries.

(** [assert c] *)
Definition py_assert (c : bool) : M unit :=
  if c then ret tt else raise AssertionError.

Definition create_manifest_from_row (fuel : nat) (root_template required_template : val)
    (parameters_object : index) (map_parameter_column : colmap)
    (data_row : list string) (acl_viewer acl_owner legal_tag : option string)
    : M val :=
  ldm ← deepcopy fuel root_template;
  new_parameters_object ← parse_template_parameters fuel ldm [];
  same ← index_eq fuel new_parameters_object parameters_object;
  py_assert same;;
  (* empty top-level array object *)
  forM_ (fun pr : string * list prec =>
           forM_ (fun parameter_rec : prec =>
                    match parameter_rec.2 with
                    | [] => ret tt
                    | (top_object, top_keys) :: _ =>
                        ' (parent_object, key) ←
                          get_deepest_key_object top_object top_keys;
                        empty ← new_list [];
                        setitem parent_object key empty
                    end) pr.2)
        new_parameters_object;;
  (* replace parameters with data *)
  forM_ (fun pr : string * list prec =>
           let parameter := pr.1 in
           forM_ (fun parameter_rec : prec =>
                    let '(root_object, keys, root_list) := parameter_rec in
                    let d_array := length root_list in
                    if (d_array =? 0)%nat then
                      replace_parameter_with_data root_object keys parameter data_row
                        (colmap_get parameter map_parameter_column)
                    else
                      let new_root_list := root_list ++ [(root_object, keys)] in
                      match colmap_get parameter map_parameter_column with
                      | Some (BList parameter_column) =>
                          forM_ (fun indexes_column : list Z =>
                                   ' (new_root_object, new_keys) ←
                                     get_root_object fuel new_root_list
                                       (removelast indexes_column);
                                   match last indexes_column with
                                   | None => raise IndexError
                                   | Some col =>
                                       replace_parameter_with_data new_root_object
                                         new_keys parameter data_row (Some (BInt col))
                                   end)
                                parameter_column
                      | _ => raise TypeError
                      end) pr.2)
        new_parameters_object;;
  clear_non_filled_parameters fuel ldm;;
  remove_special_tags fuel ldm;;
  add_required_fields fuel ldm required_template;;
  (if truthy acl_viewer || truthy acl_owner
   then set_acl_values ldm acl_viewer acl_owner else ret tt);;
  (if truthy legal_tag
   then set_legal_tag ldm (default EmptyString legal_tag) else ret tt);;
  ret ldm.

End Materialize.

(** ** The assembler: one CSV file end to end *)

(** [os.path.basename] and [os.path.join] (POSIX). *)
Definition basename (p : string) : string :=
  default EmptyString (last (Str.split p "/")).

Definition path_join (a b : string) : string :=
  if Str.startswith b "/" then b
  else if String.eqb a EmptyString || Str.endswith a "/" then a +:+ b
  else a +:+ "/" +:+ b.

(** The arguments of [create_manifest_from_csv]. *)
Record config := {
  input_csv : string;
  template_json : string;
  output_path : string;
  schema_path : option string;
  schema_ns_name : option string;
  schema_ns_value : option string;
  required_template : option string;
  array_parent : option string;
  object_parent : option string;
  group_filename : option string;
  acl_viewer : option string;
  acl_owner : option string;
  legal_tag : option string;
}.

(** What the run reads: the parsed template file, the rows of the CSV file,
    and the outcome of loading and inspecting the schema directory (lines
    579-592; its results are not used afterwards, only a fault matters). *)
Record world := {
  template_file : json;
  csv_rows : list (list string);
  schema_fault : option exn;
}.

Inductive log_entry :=
| LogWarning (msg : string)
| LogException (msg : string) (e : exn)
| LogInfo (msg : string).

(** The variables of the row loop, the output directory and the log. *)
Record run_state := {
  row_count : Z;
  processed : gset string;
  processed_lower : gset string;
  empty_row_count : Z;
  files : gmap string json;
  log : list log_entry;
}.

Definition nonempty (o : option string) : bool :=
  match o with
  | Some s => (0 <? String.length s)%nat
  | None => false
  end.

(** [try: m except Exception as e], with the exception as a value. *)
Definition try_ {A} (m : M A) : M (exn + A) := fun h =>
  match m h with
  | Ok a h' => Ok (inr a) h'
  | Raise e h' => Ok (inl e) h'
  | Stuck => Stuck
  end.

(** [v.replace(old, new)] *)
Definition py_str_replace (v : val) (old new : string) : M val :=
  match v with
  | VStr s => ret (VStr (Str.replace s old new))
  | _ => raise AttributeError
  end.

(** [v.split(".")] *)
Definition py_str_split (v : val) : M (list string) :=
  match v with
  | VStr s => ret (Str.split s ".")
  | _ => raise AttributeError
  end.

(** [a + ":"] for an optional string. *)
Definition add_colon (a : option string) : M string :=
  match a with
  | Some s => ret (s +:+ ":")
  | None => raise TypeError
  end.

(** [v is not None and len(v) > 0] *)
Definition not_none_nonempty (v : val) : M bool :=
  if val_is_none v then ret false else n ← py_len v; ret (0 <? n)%nat.

(** The renaming loop for names that differ only in case. *)
Fixpoint rename_loop (fuel : nat) (processed_lower : gset string)
    (output_file : string) (duplicate_name_count : Z) : option string :=
  if bool_decide (Str.lower output_file ∈ processed_lower) then
    match fuel with
    | O => None
    | S fuel' =>
        let name_parts := Str.split output_file "." in
        let n := length name_parts in
        let output_file :=
          if (1 <? n)%nat then
            Str.join "."
              (<[(n - 2)%nat :=
                   default EmptyString (name_parts !! (n - 2)%nat) +:+ "_"
                   +:+ Str.of_Z duplicate_name_count]> name_parts)
          else output_file +:+ "_" +:+ Str.of_Z duplicate_name_count in
        rename_loop fuel' processed_lower output_file (duplicate_name_count + 1)
    end
  else Some output_file.

Section Assembler.

Context {lib : PyLib}.

Definition replace_json_namespace (fuel : nat) (json_obj : val)
    (ns_name ns_value : string) : M val :=
  if (0 <? String.length ns_name)%nat then
    t ← json_dump fuel json_obj;
    match json_loads (Str.replace (json_dumps t) ns_name ns_value) with
    | Some t' => json_load t'
    | None => raise ValueError
    end
  else ret json_obj.

(** The generation directives read from the template. *)
Record directives := {
  schema_id : val;
  required : val;
  output_array_parent : val;
  output_object_parent : val;
  output_kind_parent : val;
}.

(** [del root_template[k]] for a key read from the template: a dictionary or
    a list is not hashable. *)
Definition del_by_value (root_template k : val) : M unit :=
  match k with
  | VStr s => delitem root_template (KStr s)
  | VRef _ => raise TypeError
  | _ => raise KeyError
  end.

(** Lines 527-555: the reserved keys are read and removed. *)
Definition extract_directives (cfg : config) (root_template : val) : M directives :=
  schema_id ← py_get root_template (KStr tag_schema_id);
  (if val_is_none schema_id then ret tt
   else delitem root_template (KStr tag_schema_id));;
  required_template_from_template ← py_get root_template (KStr tag_required_template);
  (if val_is_none required_template_from_template then ret tt
   else del_by_value root_template required_template_from_template);;
  required_template ←
    (if nonempty (required_template cfg) then
       match json_loads (default EmptyString (required_template cfg)) with
       | Some t => json_load t
       | None => raise ValueError
       end
     else ret required_template_from_template);
  output_array_parent ← py_get root_template (KStr tag_array_parent);
  (if val_is_none output_array_parent then ret tt
   else delitem root_template (KStr tag_array_parent));;
  let output_array_parent :=
    if nonempty (array_parent cfg)
    then VStr (default EmptyString (array_parent cfg)) else output_array_parent in
  output_object_parent ← py_get root_template (KStr tag_object_parent);
  (if val_is_none output_object_parent then ret tt
   else delitem root_template (KStr tag_object_parent));;
  let output_object_parent :=
    if nonempty (object_parent cfg)
    then VStr (default EmptyString (object_parent cfg)) else output_object_parent in
  output_kind_parent ← py_get root_template (KStr tag_kind_parent);
  output_kind_parent ←
    (if val_is_none output_kind_parent then ret output_kind_parent
     else
       delitem root_template (KStr tag_kind_parent);;
       if nonempty (schema_ns_name cfg) then
         old ← add_colon (schema_ns_name cfg);
         new ← add_colon (schema_ns_value cfg);
         py_str_replace output_kind_parent old new
       else ret output_kind_parent);
  ret {| schema_id := schema_id;
         required := required_template;
         output_array_parent := output_array_parent;
         output_object_parent := output_object_parent;
         output_kind_parent := output_kind_parent |}.

(** Lines 557-576: the group document, when a group file name is given.
    Returns the document, the list the rows are appended to, the file name
    and the log. *)
Definition setup_group (cfg : config) (dv : directives)
    : M (option (val * val * string) * list log_entry) :=
  if nonempty (group_filename cfg) then
    let group_filename := default EmptyString (group_filename cfg) in
    missing ← (if val_is_none (output_array_parent dv) then ret true
               else n ← py_len (output_array_parent dv); ret (n =? 0)%nat);
    let log :=
      if missing
      then [LogWarning "Array parent is needed to group generated load manifests"]
      else [] in
    let group_filename :=
      if Str.endswith group_filename ".json" then group_filename
      else group_filename +:+ ".json" in
    let output_group_filename := path_join (output_path cfg) group_filename in
    group_lm ← new_dict [];
    has_kind ← not_none_nonempty (output_kind_parent dv);
    (if has_kind then setitem group_lm (KStr "kind") (output_kind_parent dv)
     else ret tt);;
    parent_items ← py_str_split (output_array_parent dv);
    group_lm_parent ←
      foldM (fun group_lm_parent parent_item =>
               let parent_item := Str.strip parent_item in
               x ← new_dict [];
               setitem group_lm (KStr parent_item) x;;
               getitem group_lm_parent (KStr parent_item))
            (removelast parent_items) group_lm;
    let leaf := default EmptyString (last parent_items) in
    x ← new_list [];
    setitem group_lm_parent (KStr leaf) x;;
    group_lm_parent ← getitem group_lm_parent (KStr leaf);
    ret (Some (group_lm, group_lm_parent, output_group_filename), log)
  else ret (None, []).

(** Lines 664-674 and 676-686: the manifest under a dotted parent path;
    [leaf] is [[lm]] for an array parent and [lm] for an object parent. *)
Definition wrap_in_parent (parent kind : val) (leaf : val) : M val :=
  parent_items ← py_str_split parent;
  new_lm ← new_dict [];
  has_kind ← not_none_nonempty kind;
  (if has_kind then setitem new_lm (KStr "kind") kind else ret tt);;
  lm_parent ←
    foldM (fun lm_parent parent_item =>
             let parent_item := Str.strip parent_item in
             x ← new_dict [];
             setitem lm_parent (KStr parent_item) x;;
             getitem lm_parent (KStr parent_item))
          (removelast parent_items) new_lm;
  setitem lm_parent (KStr (default EmptyString (last parent_items))) leaf;;
  ret new_lm.

(** Updates of the loop variables. *)
Definition next_row (st : run_state) : run_state :=
  {| row_count := row_count st + 1;
     processed := processed st;
     processed_lower := processed_lower st;
     empty_row_count := empty_row_count st;
     files := files st;
     log := log st |}.

Definition count_empty_row (st : run_state) : run_state :=
  {| row_count := row_count st;
     processed := processed st;
     processed_lower := processed_lower st;
     empty_row_count := empty_row_count st + 1;
     files := files st;
     log := log st |}.

Definition add_log (st : run_state) (entry : log_entry) : run_state :=
  {| row_count := row_count st;
     processed := processed st;
     processed_lower := processed_lower st;
     empty_row_count := empty_row_count st;
     files := files st;
     log := log st ++ [entry] |}.

(** The [except Exception] branch of the row: log, remove the file. *)
Definition row_failed (st : run_state) (e : exn) (output_file : string) : run_state :=
  {| row_count := row_count st;
     processed := processed st;
     processed_lower := processed_lower st;
     empty_row_count := empty_row_count st;
     files := delete output_file (files st);
     log := log st ++ [LogException ("Unable to process data row: "
                                     +:+ Str.of_Z (row_count st)) e] |}.

(** Line 625: the name used when the manifest asks for none. *)
Definition default_output_file (cfg : config) (row_count : Z) : string :=
  path_join (output_path cfg)
    (Str.drop_last 4 (basename (input_csv cfg)) +:+ "_"
     +:+ Str.of_Z row_count +:+ ".json").

(** Line 647. *)
Definition duplicate_warning (row_count : Z) (output_file_name : val) : log_entry :=
  LogWarning ("Duplicate rows found. Row: " +:+ Str.of_Z row_count
              +:+ " , File name: "
              +:+ match output_file_name with
                  | VStr name => name
                  | _ => EmptyString
                  end).

Definition is_blank_row (rows : list string) : bool :=
  forallb (fun row_column => (String.length (Str.strip row_column) =? 0)%nat) rows.

(** Lines 627-642: the manifest of the row and the file name it asks for. *)
Definition row_manifest (fuel : nat) (cfg : config) (root_template required_template : val)
    (parameters_object : index) (map_parameter_column : colmap)
    (rows : list string) : M (val * val) :=
  lm ← create_manifest_from_row fuel root_template required_template
         parameters_object map_parameter_column rows
         (acl_viewer cfg) (acl_owner cfg) (legal_tag cfg);
  lm ← (if nonempty (schema_ns_name cfg) then
          old ← add_colon (schema_ns_name cfg);
          new ← add_colon (schema_ns_value cfg);
          replace_json_namespace fuel lm old new
        else ret lm);
  output_file_name ← py_get lm (KStr tag_file_name);
  output_file_name ← py_str_replace output_file_name "/" "-";
  output_file_name ← py_str_replace output_file_name "\" "-";
  ret (lm, output_file_name).

(** Lines 660-697: wrap, write or collect, and record the name. *)
Definition row_output (fuel : nat) (dv : directives) (group : option (val * val * string))
    (st : run_state) (lm : val) (output_file : string) : M run_state :=
  lm ← (if negb (val_is_none (output_array_parent dv)) then
          match group with
          | Some (_, group_lm_parent, _) => py_append group_lm_parent lm;; ret lm
          | None =>
              leaf ← new_list [lm];
              wrap_in_parent (output_array_parent dv) (output_kind_parent dv) leaf
          end
        else if negb (val_is_none (output_object_parent dv)) then
          wrap_in_parent (output_object_parent dv) (output_kind_parent dv) lm
        else ret lm);
  files ← match group with
          | None => t ← json_dump fuel lm; ret (<[output_file := t]> (files st))
          | Some _ => ret (files st)
          end;
  ret {| row_count := row_count st;
         processed := processed st ∪ {[output_file]};
         processed_lower := processed_lower st ∪ {[Str.lower output_file]};
         empty_row_count := empty_row_count st;
         files := files;
         log := log st |}.

(** The body of the loop over the data rows (lines 613-703). *)
Definition process_row (fuel : nat) (cfg : config) (dv : directives)
    (group : option (val * val * string)) (root_template : val)
    (parameters_object : index) (map_parameter_column : colmap)
    (st : run_state) (rows : list string) : M run_state :=
  let st := next_row st in
  if is_blank_row rows then ret (count_empty_row st)
  else
    let output_file := default_output_file cfg (row_count st) in
    r ← try_ (row_manifest fuel cfg root_template (required dv) parameters_object
                map_parameter_column rows);
    match r with
    | inl e => ret (row_failed st e output_file)
    | inr (lm, output_file_name) =>
        let output_file :=
          match output_file_name with
          | VStr name => path_join (output_path cfg) name
          | _ => output_file
          end in
        r ← try_ (if val_is_none output_file_name then ret tt
                  else delitem lm (KStr tag_file_name));
        match r with
        | inl e => ret (row_failed st e output_file)
        | inr _ =>
            if bool_decide (output_file ∈ processed st) then
              let st := add_log st (duplicate_warning (row_count st) output_file_name) in
              r ← try_ (row_output fuel dv group st lm output_file);
              match r with
              | inl e => ret (row_failed st e output_file)
              | inr st' => ret st'
              end
            else
              (* Windows file name is not case-sensitive *)
              match rename_loop (S (size (processed_lower st))) (processed_lower st)
                      output_file 1 with
              | None => stuck
              | Some output_file =>
                  r ← try_ (row_output fuel dv group st lm output_file);
                  match r with
                  | inl e => ret (row_failed st e output_file)
                  | inr st' => ret st'
                  end
              end
        end
    end.

Definition initial_state (log : list log_entry) : run_state :=
  {| row_count := 0;
     processed := ∅;
     processed_lower := ∅;
     empty_row_count := 0;
     files := ∅;
     log := log |}.

(** The loop over the data rows. *)
Definition process_rows (fuel : nat) (cfg : config) (dv : directives)
    (group : option (val * val * string)) (root_template : val)
    (parameters_object : index) (map_parameter_column : colmap)
    (data_rows : list (list string)) (st : run_state) : M run_state :=
  foldM (process_row fuel cfg dv group root_template parameters_object
           map_parameter_column) data_rows st.

(** Lines 705-715: the group file and the summary. *)
Definition finish (fuel : nat) (group : option (val * val * string))
    (st : run_state) : M run_state :=
  files ← match group with
          | Some (group_lm, _, output_group_filename) =>
              t ← json_dump fuel group_lm;
              ret (<[output_group_filename := t]> (files st))
          | None => ret (files st)
          end;
  let log :=
    log st ++ [LogInfo ("Generated " +:+ Str.of_Z (Z.of_nat (size (processed st)))
                        +:+ " load manifests.")] in
  let log :=
    if 0 <? empty_row_count st
    then log ++ [LogInfo ("Skipped " +:+ Str.of_Z (empty_row_count st)
                          +:+ " empty rows.")]
    else log in
  ret {| row_count := row_count st;
         processed := processed st;
         processed_lower := processed_lower st;
         empty_row_count := empty_row_count st;
         files := files;
         log := log |}.

Definition create_manifest_from_csv (fuel : nat) (cfg : config) (w : world)
    : M run_state :=
  root_template ← json_load (template_file w);
  dv ← extract_directives cfg root_template;
  ' (group, log) ← setup_group cfg dv;
  (* load schemas if available *)
  let do_validate := nonempty (schema_path cfg) && negb (val_is_none (schema_id dv)) in
  (if do_validate then
     match schema_fault w with
     | Some e => raise e
     | None => ret tt
     end
   else ret tt);;
  parameters_object ← parse_template_parameters fuel root_template [];
  (* read csv column names *)
  map_parameter_column ← map_csv_column_names_to_parameters (csv_rows w) parameters_object;
  (* output each csv row as one json file *)
  st ← process_rows fuel cfg dv group root_template parameters_object
         map_parameter_column (tail (csv_rows w)) (initial_state log);
  finish fuel group st.

End Assembler.

(** ** Documents represented in the store *)

(** Nesting depth of a document; scalars have depth 0. *)
Fixpoint depth (t : json) : nat :=
  match t with
  | JList l => S (fold_right Nat.max 0%nat (map depth l))
  | JDict d => S (fold_right Nat.max 0%nat (map (fun kx : string * json => depth kx.2) d))
  | _ => 0%nat
  end.

(** [d[k] = x] on the members of a JSON object. *)
Fixpoint jset (k : string) (x : json) (d : list (string * json)) : list (string * json) :=
  match d with
  | [] => [(k, x)]
  | (k', x') :: d' =>
      if String.eqb k k' then (k', x) :: d' else (k', x') :: jset k x d'
  end.

(** The document [json.load] builds: a repeated name keeps its first
    position and its last value. *)
Fixpoint norm (t : json) : json :=
  match t with
  | JList l => JList (map norm l)
  | JDict d =>
      JDict (fold_left (fun acc (kx : string * json) => jset kx.1 (norm kx.2) acc) d [])
  | _ => t
  end.

(** [repr h v t]: in the store [h] the value [v] denotes the document [t];
    dictionaries have distinct keys. *)
#[warnings="-register-all"]
Inductive repr (h : heap) : val -> json -> Prop :=
| repr_null : repr h VNone JNull
| repr_bool b : repr h (VBool b) (JBool b)
| repr_int z : repr h (VInt z) (JInt z)
| repr_float f : repr h (VFloat f) (JFloat f)
| repr_str s : repr h (VStr s) (JStr s)
| repr_list a vs ts :
    h !! a = Some (OList vs) ->
    Forall2 (repr h) vs ts ->
    repr h (VRef a) (JList ts)
| repr_dict a d ts :
    h !! a = Some (ODict d) ->
    NoDup d.*1 ->
    Forall2 (fun (kv : key * val) (kt : string * json) =>
               kv.1 = KStr kt.1 /\ repr h kv.2 kt.2) d ts ->
    repr h (VRef a) (JDict ts).

Definition repr_item (h : heap) (kv : key * val) (kt : string * json) : Prop :=
  kv.1 = KStr kt.1 /\ repr h kv.2 kt.2.

(** The store [h'] is [h] with further objects allocated. *)
Definition ext (h h' : heap) : Prop := exists l, h' = h ++ l.

(** A root object of an occurrence, seen as a document: the document itself,
    or (flag set) the one-entry dictionary [{0: element}] built for a
    single-element array. *)
Definition vroot : Type := bool * json.

Definition repr_root (h : heap) (v : val) (r : vroot) : Prop :=
  if r.1 then
    exists a e, v = VRef a /\ h !! a = Some (ODict [(KInt 0, e)]) /\ repr h e r.2
  else exists d, r.2 = JDict d /\ repr h v r.2.

Definition vanchor : Type := vroot * keypath.
Definition vprec : Type := vroot * keypath * list vanchor.
Definition vindex : Type := list (string * list vprec).

Definition repr_anchor (h : heap) (a : anchor) (va : vanchor) : Prop :=
  repr_root h a.1 va.1 /\ a.2 = va.2.

Definition repr_prec (h : heap) (r : prec) (vr : vprec) : Prop :=
  repr_root h r.1.1 vr.1.1 /\ r.1.2 = vr.1.2 /\ Forall2 (repr_anchor h) r.2 vr.2.

(** Two indexes with the same placeholders and pairwise related records. *)
Definition index_rel {R R'} (P : R -> R' -> Prop)
    (po : list (string * list R)) (vpo : list (string * list R')) : Prop :=
  Forall2 (fun e ve => e.1 = ve.1 /\ Forall2 P e.2 ve.2) po vpo.

Definition repr_index (h : heap) (po : index) (vpo : vindex) : Prop :=
  index_rel (repr_prec h) po vpo.

Definition jitems (d : list (string * json)) : list (key * json) :=
  map (fun kt : string * json => (KStr kt.1, kt.2)) d.

(** The parameter index of a document, computed on the document: the
    recursion of [parse_dict] with every object replaced by what it denotes. *)
Definition index_of_item
    (index_of_items : list (key * json) -> vroot -> keypath -> list vanchor -> vindex -> vindex)
    (root : vroot) (keys : keypath) (root_list : list vanchor)
    (po : vindex) (kt : key * json) : vindex :=
  let new_keys := keys ++ [kt.1] in
  match kt.2 with
  | JDict d => index_of_items (jitems d) root new_keys root_list po
  | JList [e] =>
      index_of_items [(KInt 0, e)] (true, e) [] (root_list ++ [(root, new_keys)]) po
  | JStr s => parse_str_go (S (String.length s)) (root, new_keys, root_list) s po
  | _ => po
  end.

Fixpoint index_of_items (fuel : nat) (items : list (key * json)) (root : vroot)
    (keys : keypath) (root_list : list vanchor) (po : vindex) : vindex :=
  match fuel with
  | O => po
  | S fuel' => fold_left (index_of_item (index_of_items fuel') root keys root_list) items po
  end.

(** The index of a JSON object, as [parse_template_parameters] builds it. *)
Definition document_index (fuel : nat) (d : list (string * json)) : vindex :=
  index_of_items fuel (jitems d) (false, JDict d) [] [] [].

Definition repr_kitem (h : heap) (kv : key * val) (kt : key * json) : Prop :=
  kv.1 = kt.1 /\ repr h kv.2 kt.2.


(** What [parse_dict] is to satisfy with a given budget. *)
Definition parse_spec (fuel : nat) : Prop :=
  forall parent items vitems root vr keys root_list vroot_list po vpo h,
    (0 < fuel)%nat ->
    py_items parent h = Ok items h ->
    Forall2 (repr_kitem h) items vitems ->
    (forall kt, kt ∈ vitems -> depth kt.2 < fuel)%nat ->
    repr_root h root vr ->
    Forall2 (repr_anchor h) root_list vroot_list ->
    repr_index h po vpo ->
    exists po' h',
      parse_dict fuel parent root keys root_list po h = Ok po' h'
      /\ ext h h'
      /\ repr_index h' po' (index_of_items fuel vitems vr keys vroot_list vpo).


Definition vroot_depth (r : vroot) : nat :=
  if r.1 then S (depth r.2) else depth r.2.


(** The roots of a record stay within a depth. *)
Definition vprec_depth (n : nat) (vr : vprec) : Prop :=
  (vroot_depth vr.1.1 <= n)%nat /\ Forall (fun va : vanchor => vroot_depth va.1 <= n)%nat vr.2.


(** The conditions under which two indexes denoting [vpo] compare equal. *)
Definition vindex_ok (n : nat) (vpo : vindex) : Prop :=
  NoDup vpo.*1 /\ Forall (fun ve : string * list vprec => Forall (vprec_depth n) ve.2) vpo.


(** The condition of C10 on the two sets holds throughout a run. *)
Definition lower_names_recorded (st : run_state) : Prop :=
  forall l, l ∈ processed_lower st -> exists p, p ∈ processed st /\ Str.lower p = l.


(** ** The coordinate counter of the column binder *)

(** The coordinate vectors still to visit after [indexes_column], counting
    the first [n] positions as a mixed-radix number. *)
Fixpoint remaining (n : nat) (indexes_count indexes_column : list Z) : Z :=
  match n with
  | O => 0
  | S i =>
      remaining i indexes_count indexes_column * Z.max (nthZ indexes_count i) 1
      + (Z.max (nthZ indexes_count i) 1 - 1 - nthZ indexes_column i)
  end.

(** Every coordinate is within its radix. *)
Definition digits_ok (d : nat) (indexes_count indexes_column : list Z) : Prop :=
  forall i, (i < d)%nat ->
    0 <= nthZ indexes_column i <= Z.max (nthZ indexes_count i) 1 - 1.

(** A computation that leaves the store alone and either returns or raises
    one of the module's own exceptions. *)
Definition returns_or_faults {A} (h : heap) (r : outcome A) : Prop :=
  (exists a, r = Ok a h) \/ (exists msg arg, r = Raise (PyException msg arg) h).

(** An array-nested occurrence of the parameter comes after an occurrence
    that binds it: an earlier array-nested one, or an earlier scalar one
    whose column is in the header. *)
Definition rebinds_array (column_names : list string) (parameter : string)
    (recs : list prec) : Prop :=
  exists l1 r1 l2 r2 l3,
    recs = l1 ++ r1 :: l2 ++ r2 :: l3
    /\ r2.2 <> []
    /\ (r1.2 <> [] \/ is_Some (index_of (parameter_key_of parameter) column_names 0)).

(** The header row as the binder reads it. *)
Definition header_names (csv_file : list (list string)) : list string :=
  match csv_file with
  | [] => []
  | rows :: _ => map (fun colname => Str.lower (Str.strip colname)) rows
  end.

(** ** Objects older than a mark are left alone *)

(** The value is not a reference to an object below address [n]. *)
Definition fresh_val (n : nat) (v : val) : Prop :=
  match v with
  | VRef a => (n <= a)%nat
  | _ => True
  end.

Definition closed_obj (n : nat) (o : obj) : Prop :=
  match o with
  | ODict d => Forall (fun kv : key * val => fresh_val n kv.2) d
  | OList l => Forall (fresh_val n) l
  end.

(** The store [h] still has every object of [h0] as it was, and the objects
    allocated since refer to such newer objects only. *)
Definition keeps (h0 h : heap) : Prop :=
  (length h0 <= length h)%nat
  /\ (forall a : nat, (a < length h0)%nat -> h !! a = h0 !! a)
  /\ (forall (a : nat) (o : obj), (length h0 <= a)%nat -> h !! a = Some o ->
        closed_obj (length h0) o).

(** From any store that keeps [h0], the computation ends in a store that
    keeps [h0], with a result satisfying [Q] when it returns. *)
Definition safe {A} (h0 : heap) (m : M A) (Q : A -> Prop) : Prop :=
  forall h, keeps h0 h ->
    match m h with
    | Ok a h' => keeps h0 h' /\ Q a
    | Raise _ h' => keeps h0 h'
    | Stuck => True
    end.

(** What [type(v)] tells about [v]: a value that is neither a dictionary
    nor a list is not a reference. *)
Definition type_fact (v : val) (ty : pytype) : Prop :=
  match ty with
  | TyDict | TyList => True
  | _ => forall n, fresh_val n v
  end.

Definition fresh_anchor (n : nat) (a : anchor) : Prop := fresh_val n a.1.

Definition fresh_prec (n : nat) (r : prec) : Prop :=
  fresh_val n r.1.1 /\ Forall (fresh_anchor n) r.2.

Definition fresh_index (n : nat) (po : index) : Prop :=
  Forall (fun e : string * list prec => Forall (fresh_prec n) e.2) po.

(** The computation [r] came to an end, normally or with an exception, in
    the store [h']. *)
Definition ends {A} (r : outcome A) (h' : heap) : Prop :=
  match r with
  | Ok _ h | Raise _ h => h = h'
  | Stuck => False
  end.

(** The value of a top-level key of a template, as [dict.get] reads it. *)
Definition directive (d : list (key * val)) (tag : string) : val :=
  default VNone (dict_get (KStr tag) d).

(** A template without the key [tag], when [tag] has a value that is not
    [None]. *)
Definition drop_directive (tag : string) (d : list (key * val))
    : list (key * val) :=
  if val_is_none (directive d tag) then d else dict_del (KStr tag) d.

(** The keys the assembler takes out of a template, in the order it does. *)
Definition removed_tags : list string :=
  [tag_schema_id; tag_array_parent; tag_object_parent; tag_kind_parent].

Definition without_directives (d : list (key * val)) : list (key * val) :=
  foldl (fun acc tag => drop_directive tag acc) d removed_tags.

(** A directive of the template, unless the run was given its own. *)
Definition overridden (given : option string) (from_template : val) : val :=
  if nonempty given then VStr (default EmptyString given) else from_template.

(** The kind of the parent document: the template's, with the schema
    namespace replaced when one is named. *)
Definition renamed_kind (cfg : config) (kind : val) : option val :=
  if val_is_none kind then Some kind
  else if nonempty (schema_ns_name cfg) then
    match kind, schema_ns_name cfg, schema_ns_value cfg with
    | VStr s, Some ns_name, Some ns_value =>
        Some (VStr (Str.replace s (ns_name +:+ ":") (ns_value +:+ ":")))
    | _, _, _ => None
    end
  else Some kind.

(** The index vector after a carry at position [i] of [d] positions. *)
Definition carried (d i : nat) (indexes_column : list Z) : list Z :=
  <[i:=nthZ indexes_column i + 1]> (zero_from i d indexes_column).


(** ** Further specifications *)

(** A cell [[i1, ..., id, column]] of an array binding names the column
    whose header is the parameter key followed by [_i1+1 ... _id+1]. *)
Definition cell_bound (column_names : list string) (parameter_key : string)
    (cell : list Z) : Prop :=
  let d := (length cell - 1)%nat in
  cell <> []
  /\ 0 <= nthZ cell d
  /\ column_names !! Z.to_nat (nthZ cell d)
     = Some (parameter_with_indexes parameter_key d cell).

(** A binding names columns of the header that carry the parameter's key. *)
Definition binding_sound (column_names : list string) (parameter : string)
    (b : binding) : Prop :=
  match b with
  | BInt c =>
      0 <= c /\ column_names !! Z.to_nat c = Some (parameter_key_of parameter)
  | BList cells => Forall (cell_bound column_names (parameter_key_of parameter)) cells
  end.

Definition colmap_sound (column_names : list string) (m : colmap) : Prop :=
  forall p b, colmap_get p m = Some b -> binding_sound column_names p b.

(** The binding of a parameter outside arrays: the first position of its
    key in the header, and nothing when the key is not a header. *)
Definition scalar_binding (names : list string) (parameter : string) : option binding :=
  match index_of (parameter_key_of parameter) names 0 with
  | Some j => Some (BInt (Z.of_nat j))
  | None => None
  end.

(** The [acl] section [set_acl_values] builds. *)
Definition acl_doc (acl_viewer acl_owner : option string) : json :=
  JDict ((if truthy acl_viewer
          then [("viewers"%string, JList [JStr (default EmptyString acl_viewer)])]
          else [])
         ++ (if truthy acl_owner
             then [("owners"%string, JList [JStr (default EmptyString acl_owner)])]
             else [])).

(** A document without a scalar at any depth: what [is_item_empty] tests. *)
Fixpoint jempty (t : json) : bool :=
  match t with
  | JDict members => forallb (fun kx : string * json => jempty kx.2) members
  | JList items => forallb jempty items
  | _ => false
  end.

(** The members of [{p1: {p2: ... {last: leaf}}}] put into an object that
    has the members [base]; every component but the last is stripped. *)
Fixpoint nested_members (items : list string) (last : string) (leaf : json)
    (base : list (string * json)) : list (string * json) :=
  match items with
  | [] => jset last leaf base
  | p :: ps => jset (Str.strip p) (JDict (nested_members ps last leaf [])) base
  end.

(** The [kind] member of a parent document, when a kind is given. *)
Definition kind_members (kind : val) : list (string * json) :=
  match kind with
  | VStr k => if (0 <? String.length k)%nat then [("kind"%string, JStr k)] else []
  | _ => []
  end.

(** The document [wrap_in_parent] builds around [leaf] for a dotted path. *)
Definition wrapped (path : string) (kind : val) (leaf : json) : json :=
  let parent_items := Str.split path "." in
  JDict (nested_members (removelast parent_items)
           (default EmptyString (last parent_items)) leaf (kind_members kind)).

(** The body of the loop over [parent_items[:-1]]: a new dictionary under
    the stripped component, and the step into it. *)
Definition descend_into (lm_parent : val) (parent_item : string) : M val :=
  let parent_item := Str.strip parent_item in
  x ← new_dict [];
  setitem lm_parent (KStr parent_item) x;;
  getitem lm_parent (KStr parent_item).

(** ** Documents held without sharing *)

(** [tree h v t fp]: in the store [h] the value [v] denotes the document [t]
    through objects of the region [fp] only, and the items of every list and
    dictionary lie in regions that are apart: no object is reached twice. *)
Inductive tree (h : heap) : val -> json -> gset addr -> Prop :=
| tree_null fp : tree h VNone JNull fp
| tree_bool b fp : tree h (VBool b) (JBool b) fp
| tree_int z fp : tree h (VInt z) (JInt z) fp
| tree_float f fp : tree h (VFloat f) (JFloat f) fp
| tree_str s fp : tree h (VStr s) (JStr s) fp
| tree_list (a : addr) vs ts fpc fp :
    h !! a = Some (OList vs) ->
    trees h vs ts fpc ->
    a ∉ fpc -> {[a]} ∪ fpc ⊆ fp ->
    tree h (VRef a) (JList ts) fp
| tree_dict (a : addr) d ts fpc fp :
    h !! a = Some (ODict d) ->
    NoDup d.*1 ->
    members h d ts fpc ->
    a ∉ fpc -> {[a]} ∪ fpc ⊆ fp ->
    tree h (VRef a) (JDict ts) fp
with trees (h : heap) : list val -> list json -> gset addr -> Prop :=
| trees_nil fp : trees h [] [] fp
| trees_cons v t vs ts fp1 fp2 fp :
    tree h v t fp1 -> trees h vs ts fp2 ->
    fp1 ## fp2 -> fp1 ∪ fp2 ⊆ fp ->
    trees h (v :: vs) (t :: ts) fp
with members (h : heap) : list (key * val) -> list (string * json) -> gset addr -> Prop :=
| members_nil fp : members h [] [] fp
| members_cons k v t d ts fp1 fp2 fp :
    tree h v t fp1 -> members h d ts fp2 ->
    fp1 ## fp2 -> fp1 ∪ fp2 ⊆ fp ->
    members h ((KStr k, v) :: d) ((k, t) :: ts) fp.

(** ** What [clear_non_filled_parameters] leaves of a document *)

(** A text leaf that still holds a placeholder. *)
Definition placeholder_leaf (t : json) : bool :=
  match t with
  | JStr s => has_parameter s
  | _ => false
  end.

(** [len(x) == 0] for a list or a dictionary. *)
Definition jlen0 (t : json) : bool :=
  match t with
  | JList [] | JDict [] => true
  | _ => false
  end.

(** The items of a list are cleared, texts with a placeholder go, then the
    items without content go; the members of a dictionary are cleared, and
    the texts with a placeholder and the lists and dictionaries left empty
    go. *)
Fixpoint jclear (t : json) : json :=
  match t with
  | JList items =>
      JList (List.filter (fun x => negb (jempty x))
               (List.filter (fun x => negb (placeholder_leaf x))
                  (map (fun x => match x with
                                 | JList _ | JDict _ => jclear x
                                 | _ => x
                                 end) items)))
  | JDict members =>
      JDict (List.filter
               (fun kx : string * json => negb (jlen0 kx.2 || placeholder_leaf kx.2))
               (map (fun kx : string * json =>
                       (kx.1, match kx.2 with
                              | JList _ | JDict _ => jclear kx.2
                              | _ => kx.2
                              end)) members))
  | _ => t
  end.

(** No text of the document holds a placeholder. *)
Fixpoint placeholder_free (t : json) : bool :=
  match t with
  | JStr s => negb (has_parameter s)
  | JList items => forallb placeholder_free items
  | JDict members => forallb (fun kx : string * json => placeholder_free kx.2) members
  | _ => true
  end.

(** An item after the first pass: lists and dictionaries are cleared. *)
Definition cleared_item (x : json) : json :=
  match x with
  | JList _ | JDict _ => jclear x
  | _ => x
  end.

Definition cleared_member (kx : string * json) : string * json :=
  (kx.1, cleared_item kx.2).

(** A member that [clear_dict] deletes, seen after its value was cleared. *)
Definition dropped (x : json) : bool := jlen0 x || placeholder_leaf x.

(** The keys [clear_dict] collects in [to_be_deleted], for members whose
    values were cleared already. *)
Definition dropped_keys (ms : list (string * json)) : list key :=
  map (fun kx : string * json => KStr kx.1)
      (List.filter (fun kx : string * json => dropped kx.2) ms).

(** The bodies of the loops of [clear_dict] and [clear_list]. *)
Definition clear_dict_body (fuel' : nat) (acc : list key) (kv : key * val)
    : M (list key) :=
  ty ← type_of kv.2;
  match ty with
  | TyDict =>
      clear_dict fuel' kv.2;;
      n ← py_len kv.2;
      ret (if (n =? 0)%nat then acc ++ [kv.1] else acc)
  | TyList =>
      clear_list fuel' kv.2;;
      n ← py_len kv.2;
      ret (if (n =? 0)%nat then acc ++ [kv.1] else acc)
  | TyStr =>
      ret (if str_has_parameter kv.2 then acc ++ [kv.1] else acc)
  | _ => ret acc
  end.

Definition clear_list_body (fuel' : nat) (lst : val) (i : nat) : M unit :=
  list_val ← getitem lst (KInt (Z.of_nat i));
  ty ← type_of list_val;
  match ty with
  | TyDict => clear_dict fuel' list_val
  | TyList => clear_list fuel' list_val
  | TyStr =>
      if str_has_parameter list_val
      then delitem lst (KInt (Z.of_nat i)) else ret tt
  | _ => ret tt
  end.

Definition drop_empty_body (fuel' : nat) (lst : val) (i : nat) : M unit :=
  item ← getitem lst (KInt (Z.of_nat i));
  b ← is_item_empty fuel' item;
  if b then delitem lst (KInt (Z.of_nat i)) else ret tt.

(** What the two functions are to do with a given budget. *)
Definition clear_spec (fuel : nat) : Prop :=
  forall v t fp h, tree h v t fp -> (depth t < fuel)%nat ->
    match t with
    | JDict _ =>
        exists h', clear_dict fuel v h = Ok tt h'
          /\ tree h' v (jclear t) fp
          /\ (forall b : addr, b ∉ fp -> h' !! b = h !! b)
    | JList _ =>
        exists h', clear_list fuel v h = Ok tt h'
          /\ tree h' v (jclear t) fp
          /\ (forall b : addr, b ∉ fp -> h' !! b = h !! b)
    | _ => True
    end.

(** The addresses from [lo] up to [hi], [hi] not included. *)
Definition span (lo hi : nat) : gset addr := list_to_set (seq lo (hi - lo)).

(** ** What [remove_special_tags] makes of a document *)

(** A key from which [pattern_remove.sub] takes something away. *)
Definition tagged (k : string) : bool := negb (String.eqb (Re.sub_tags k) k).

(** The new names of the tagged keys of a dictionary, in its order. *)
Definition retagged_names (ms : list (string * json)) : list string :=
  map (fun kx : string * json => Re.sub_tags kx.1)
      (List.filter (fun kx : string * json => tagged kx.1) ms).

(** The pairs [remove_dict_tags] collects in [to_be_replaced]. *)
Definition renames (ms : list (string * json)) : list (string * string) :=
  map (fun kx : string * json => (kx.1, Re.sub_tags kx.1))
      (List.filter (fun kx : string * json => tagged kx.1) ms).

(** The keys without a tag stay where they are; the tagged ones are popped
    and set again under their new name, which puts them last, in the order
    they had. *)
Definition retag_members {X} (ms : list (string * X)) : list (string * X) :=
  List.filter (fun kx : string * X => negb (tagged kx.1)) ms
  ++ map (fun kx : string * X => (Re.sub_tags kx.1, kx.2))
         (List.filter (fun kx : string * X => tagged kx.1) ms).

Fixpoint jretag (t : json) : json :=
  match t with
  | JList items => JList (map jretag items)
  | JDict members =>
      JDict (retag_members
               (map (fun kx : string * json => (kx.1, jretag kx.2)) members))
  | _ => t
  end.

(** In every dictionary of the document, the new names differ from one
    another and from every key of the dictionary. *)
Fixpoint retaggable (t : json) : bool :=
  match t with
  | JList items => forallb retaggable items
  | JDict members =>
      forallb (fun kx : string * json => retaggable kx.2) members
      && bool_decide (NoDup (map fst members ++ retagged_names members))
  | _ => true
  end.

(** No key of the document carries a tag. *)
Fixpoint tag_free (t : json) : bool :=
  match t with
  | JList items => forallb tag_free items
  | JDict members =>
      forallb (fun kx : string * json => negb (tagged kx.1) && tag_free kx.2) members
  | _ => true
  end.

(** The bodies of the loops of [remove_dict_tags] and [remove_list_tags]. *)
Definition retag_dict_body (fuel' : nat) (acc : list (string * string))
    (kv : key * val) : M (list (string * string)) :=
  key ← match kv.1 with
        | KStr s => ret s
        | KInt _ => raise TypeError
        end;
  let new_key := Re.sub_tags key in
  let acc := if String.eqb new_key key then acc
             else acc ++ [(key, new_key)] in
  ty ← type_of kv.2;
  match ty with
  | TyDict => remove_dict_tags fuel' kv.2;; ret acc
  | TyList => remove_list_tags fuel' kv.2;; ret acc
  | _ => ret acc
  end.

Definition retag_list_body (fuel' : nat) (item : val) : M unit :=
  ty ← type_of item;
  match ty with
  | TyDict => remove_dict_tags fuel' item
  | TyList => remove_list_tags fuel' item
  | _ => ret tt
  end.

Definition rename_body (d : val) (on : string * string) : M unit :=
  cur ← py_get d (KStr on.2);
  if val_is_none cur then
    x ← py_pop d (KStr on.1);
    setitem d (KStr on.2) x
  else raise (PyException "Detected duplicate attributes:" on.1).

(** The same on the items of a dictionary object. *)
Definition key_tagged (k : key) : bool :=
  match k with KStr s => tagged s | KInt _ => false end.

Definition key_sub (k : key) : key :=
  match k with KStr s => KStr (Re.sub_tags s) | KInt z => KInt z end.

Definition retag_items (d : list (key * val)) : list (key * val) :=
  List.filter (fun kv : key * val => negb (key_tagged kv.1)) d
  ++ map (fun kv : key * val => (key_sub kv.1, kv.2))
         (List.filter (fun kv : key * val => key_tagged kv.1) d).

(** What the two functions are to do with a given budget. *)
Definition retag_spec (fuel : nat) : Prop :=
  forall v t fp h, tree h v t fp -> (depth t < fuel)%nat -> retaggable t = true ->
    match t with
    | JDict _ =>
        exists h', remove_dict_tags fuel v h = Ok tt h'
          /\ tree h' v (jretag t) fp
          /\ (forall b : addr, b ∉ fp -> h' !! b = h !! b)
    | JList _ =>
        exists h', remove_list_tags fuel v h = Ok tt h'
          /\ tree h' v (jretag t) fp
          /\ (forall b : addr, b ∉ fp -> h' !! b = h !! b)
    | _ => True
    end.

Definition untouched_spec (fuel : nat) : Prop :=
  forall v t h, repr h v t -> (depth t < fuel)%nat -> tag_free t = true ->
    match t with
    | JDict _ => remove_dict_tags fuel v h = Ok tt h
    | JList _ => remove_list_tags fuel v h = Ok tt h
    | _ => True
    end.

(** ** What [add_required_fields] makes of a manifest *)

(** [type(x)] for the value that denotes [t]. *)
Definition jtype (t : json) : pytype :=
  match t with
  | JNull => TyNone
  | JBool _ => TyBool
  | JInt _ => TyInt
  | JFloat _ => TyFloat
  | JStr _ => TyStr
  | JList _ => TyList
  | JDict _ => TyDict
  end.

(** [d.get(k)] on the members of a JSON object. *)
Fixpoint jget (k : string) (d : list (string * json)) : option json :=
  match d with
  | [] => None
  | (k', x) :: d' => if String.eqb k k' then Some x else jget k d'
  end.

(** What is stored for a missing field: an empty dictionary or list for a
    dictionary or list of the template, the template's value otherwise. *)
Definition jinit (s : json) : json :=
  match s with
  | JDict _ => JDict []
  | JList _ => JList []
  | _ => s
  end.

Definition is_container (t : json) : bool :=
  match t with
  | JList _ | JDict _ => true
  | _ => false
  end.

Definition jnull (t : json) : bool :=
  match t with
  | JNull => true
  | _ => false
  end.

(** The name a key of the template stands for. *)
Definition required_name (k : string) : string :=
  if Str.startswith k tag_optional_field
  then Str.drop (String.length tag_optional_field) k else k.

(** The members once a missing field is added: a field is added when its
    name is not a key and the key of the template has no optional mark. *)
Definition with_field (k0 : string) (s : json) (dm : list (string * json))
    : list (string * json) :=
  match jget (required_name k0) dm with
  | Some _ => dm
  | None => if Str.startswith k0 tag_optional_field then dm
            else dm ++ [(required_name k0, jinit s)]
  end.

(** One member [(k0, s)] of the template, on the members [dm] of the
    manifest; [rec] is the recursive call for [s]. *)
Definition require_member (rec : json -> json) (dm : list (string * json))
    (k0 : string) (s : json) : list (string * json) :=
  let k := required_name k0 in
  let dm1 :=
    match jget k dm with
    | Some _ => dm
    | None => if Str.startswith k0 tag_optional_field then dm else dm ++ [(k, jinit s)]
    end in
  match jget k dm1 with
  | Some d =>
      if negb (jnull d) && pytype_eqb (jtype s) (jtype d) && is_container s
      then jset k (rec d) dm1 else dm1
  | None => dm1
  end.

(** One item [s] of a list of the template, on an item [d] of the list of
    the manifest. *)
Definition require_item (rec : json -> json) (s d : json) : json :=
  if pytype_eqb (jtype s) (jtype d) && is_container s then rec d else d.

Fixpoint jrequire (src des : json) {struct src} : json :=
  match src with
  | JDict sm =>
      match des with
      | JDict dm =>
          JDict (fold_left
                   (fun dm (kx : string * json) =>
                      require_member (jrequire kx.2) dm kx.1 kx.2) sm dm)
      | _ => des
      end
  | JList sl =>
      match des with
      | JList dl =>
          if ((length sl =? 0) || (length dl =? 0))%nat then des
          else JList (fold_left
                        (fun dl s => map (require_item (jrequire s) s) dl) sl dl)
      | _ => des
      end
  | _ => des
  end.

(** The bodies of the loops of [add_fields_dict] and [add_fields_list]. *)
Definition require_dict_body (fuel' : nat) (des_dict : val) (kv : key * val) : M unit :=
  let v_src := kv.2 in
  k ← match kv.1 with
      | KStr s => ret s
      | KInt _ => raise AttributeError
      end;
  let optional_field := Str.startswith k tag_optional_field in
  let k := if optional_field
           then Str.drop (String.length tag_optional_field) k else k in
  present ← py_contains des_dict (KStr k);
  ts ← type_of v_src;
  (if negb present && negb optional_field then
     match ts with
     | TyDict => x ← new_dict []; setitem des_dict (KStr k) x
     | TyList => x ← new_list []; setitem des_dict (KStr k) x
     | _ => setitem des_dict (KStr k) v_src
     end
   else ret tt);;
  v_des ← py_get des_dict (KStr k);
  td ← type_of v_des;
  if negb (val_is_none v_des) && pytype_eqb ts td then
    match ts with
    | TyDict => add_fields_dict fuel' v_des v_src
    | TyList => add_fields_list fuel' v_des v_src
    | _ => ret tt
    end
  else ret tt.

Definition require_inner_body (fuel' : nat) (item_src item_des : val) : M unit :=
  ts ← type_of item_src;
  td ← type_of item_des;
  if pytype_eqb ts td then
    match ts with
    | TyDict => add_fields_dict fuel' item_des item_src
    | TyList => add_fields_list fuel' item_des item_src
    | _ => ret tt
    end
  else ret tt.

Definition require_outer_body (fuel' : nat) (des_list item_src : val) : M unit :=
  dess ← py_list_items des_list;
  forM_ (require_inner_body fuel' item_src) dess.

(** Every address of the region is allocated. *)
Definition allocated (h : heap) (fp : gset addr) : Prop :=
  forall b : addr, b ∈ fp -> (b < length h)%nat.

(** What the two functions are to do with a given budget. *)
Definition require_spec (fuel : nat) : Prop :=
  forall des td fp src ts fps h,
    tree h des td fp -> tree h src ts fps -> fp ## fps ->
    allocated h fp -> allocated h fps -> (depth ts < fuel)%nat ->
    match ts, td with
    | JDict _, JDict _ =>
        exists h', add_fields_dict fuel des src h = Ok tt h'
          /\ (length h <= length h')%nat
          /\ tree h' des (jrequire ts td) (fp ∪ span (length h) (length h'))
          /\ (forall b : addr, (b < length h)%nat -> b ∉ fp -> h' !! b = h !! b)
    | JList _, JList _ =>
        exists h', add_fields_list fuel des src h = Ok tt h'
          /\ (length h <= length h')%nat
          /\ tree h' des (jrequire ts td) (fp ∪ span (length h) (length h'))
          /\ (forall b : addr, (b < length h)%nat -> b ∉ fp -> h' !! b = h !! b)
    | _, _ => True
    end.

(** ** Sample inputs *)

(** [r] is a normal return with value [a]. *)
Definition returns {A} (r : outcome A) (a : A) : Prop := exists h, r = Ok a h.

(** [r] is an exception [e]. *)
Definition raises {A} (r : outcome A) (e : exn) : Prop := exists h, r = Raise e h.

(** Index the template, bind the header row, materialize one data row and
    read the manifest back, as the assembler does for a row. *)
Definition materialize {lib : PyLib} (fuel : nat) (template required_fields : json)
    (header data_row : list string) (acl_viewer acl_owner legal_tag : option string)
    : M json :=
  root_template ← json_load template;
  required_template ← json_load required_fields;
  parameters_object ← parse_template_parameters fuel root_template [];
  map_parameter_column ← map_csv_column_names_to_parameters [header] parameters_object;
  lm ← create_manifest_from_row fuel root_template required_template
         parameters_object map_parameter_column data_row
         acl_viewer acl_owner legal_tag;
  json_dump fuel lm.

Definition items_template : json :=
  JDict [("items", JList [JDict [("v", JStr "{{x}}")]])]%string.

Definition scalar_template : json := JDict [("a", JStr "{{x}}")]%string.

Definition sample_config : config :=
  {| input_csv := "data/wells.csv";
     template_json := "template.json";
     output_path := "out";
     schema_path := None;
     schema_ns_name := None;
     schema_ns_value := None;
     required_template := None;
     array_parent := None;
     object_parent := None;
     group_filename := None;
     acl_viewer := None;
     acl_owner := None;
     legal_tag := None |}.

(** A library for the closed examples: conversions that reject every input
    and a codec that decodes nothing.  No example below reaches them. *)
Definition strict_lib : PyLib :=
  {| py_float := fun _ => None;
     py_datetime_ymd := fun _ => None;
     py_datetime_mdy := fun _ => None;
     json_dumps := fun _ => EmptyString;
     json_loads := fun _ => None |}.

Definition bool_leaf_heap : heap := [ODict [(KStr "t", VStr "bool({{x}})")]]%string.


(** A template that names its output file, loaded at address 0, with its
    index and the bindings for the header [n,x]. *)
Definition named_heap : heap :=
  [ODict [(KStr "$filename", VStr "{{n}}.json"); (KStr "v", VStr "{{x}}")]]%string.

Definition named_index : index :=
  [("{{n}}", [(VRef 0%nat, [KStr "$filename"], [])]);
   ("{{x}}", [(VRef 0%nat, [KStr "v"], [])])]%string.

Definition named_colmap : colmap := [("{{n}}", BInt 0); ("{{x}}", BInt 1)]%string.

Definition no_directives : directives :=
  {| schema_id := VNone;
     required := VNone;
     output_array_parent := VNone;
     output_object_parent := VNone;
     output_kind_parent := VNone |}.

(** The loop variables after a first row has written [out/a.json]. *)
Definition after_first_row : run_state :=
  {| row_count := 1;
     processed := {["out/a.json"%string]};
     processed_lower := {["out/a.json"%string]};
     empty_row_count := 0;
     files := {["out/a.json"%string := JDict [("v", JStr "1")]%string]};
     log := [] |}.

(** A template whose array element uses one placeholder twice. *)
Definition twice_template : json :=
  JDict [("i", JList [JDict [("a", JStr "{{x}}"); ("b", JStr "{{x}}")]])]%string.

Definition twice_world : world :=
  {| template_file := twice_template;
     csv_rows := [["x_1"]; ["p"]]%string;
     schema_fault := None |}.

(** A template with a schema id under [$id], as a schema file has it. *)
Definition id_template : json :=
  JDict [("$id", JStr "urn:wells"); ("a", JStr "{{x}}")]%string.

(** A template with directives, loaded at address 0. *)
Definition directive_heap : heap :=
  [ODict [(KStr "$schema", VStr "urn:wells"); (KStr "$array_parent", VStr "Data.Wells");
          (KStr "$id", VStr "urn:wells"); (KStr "v", VStr "{{x}}")]]%string.

(** A template that points to its required fields. *)
Definition required_template_heap : heap :=
  [ODict [(KStr "$required_template", VStr "kind"); (KStr "kind", VStr "{{k}}")]]%string.

(** A template whose required fields are an object, as [add_required_fields]
    reads them. *)
Definition required_fields_heap : heap :=
  [ODict [(KStr "kind", VStr "well")];
   ODict [(KStr "$required_template", VRef 0%nat); (KStr "kind", VStr "{{k}}")]]%string.


(** A run that collects its manifests in one group file, under a parent
    path of three components. *)
Definition group_config : config :=
  {| input_csv := "data/wells.csv";
     template_json := "template.json";
     output_path := "out";
     schema_path := None;
     schema_ns_name := None;
     schema_ns_value := None;
     required_template := None;
     array_parent := None;
     object_parent := None;
     group_filename := Some "all"%string;
     acl_viewer := None;
     acl_owner := None;
     legal_tag := None |}.

Definition deep_parent_directives : directives :=
  {| schema_id := VNone;
     required := VNone;
     output_array_parent := VStr "Data.Wells.Items";
     output_object_parent := VNone;
     output_kind_parent := VNone |}.

(** A manifest after substitution, with two placeholders left unfilled: the
    list at address 0, the manifest at address 1. *)
Definition unfilled_heap : heap :=
  [OList [VStr "{{t}}"; VStr "x"];
   ODict [(KStr "a", VStr "{{x}}"); (KStr "tags", VRef 0%nat); (KStr "b", VStr "5")]]%string.

Definition unfilled_members : list (string * json) :=
  [("a", JStr "{{x}}"); ("tags", JList [JStr "{{t}}"; JStr "x"]); ("b", JStr "5")]%string.

(** A manifest with two tagged keys: a dictionary at address 0, the list that
    holds it at address 1, the manifest at address 2. *)
Definition tagged_heap : heap :=
  [ODict [(KStr "$$_anyOf_2$$b", VInt 2)];
   OList [VRef 0%nat];
   ODict [(KStr "$$_oneOf_1$$name", VStr "n"); (KStr "items", VRef 1%nat)]]%string.

Definition tagged_members : list (string * json) :=
  [("$$_oneOf_1$$name", JStr "n");
   ("items", JList [JDict [("$$_anyOf_2$$b", JInt 2)]])]%string.

(** A manifest in which a tagged key would take the name of another key. *)
Definition clashing_heap : heap :=
  [ODict [(KStr "id", VInt 7); (KStr "$$_oneOf_1$$name", VStr "n");
          (KStr "name", VStr "m")]]%string.

Definition clashing_members : list (string * json) :=
  [("id", JInt 7); ("$$_oneOf_1$$name", JStr "n"); ("name", JStr "m")]%string.

(** A manifest at address 0 and a required template at address 2, whose
    [data] dictionary is at address 1. *)
Definition require_heap : heap :=
  [ODict [(KStr "a", VInt 1)];
   ODict [(KStr "x", VInt 0)];
   ODict [(KStr "a", VInt 9); (KStr "data", VRef 1%nat); (KStr "$opt", VStr "o")]]%string.

Definition require_manifest : list (string * json) := [("a", JInt 1)]%string.

Definition require_template : list (string * json) :=
  [("a", JInt 9); ("data", JDict [("x", JInt 0)]); ("$opt", JStr "o")]%string.

(** * Properties *)

(** ** Laws of the store monad *)

Lemma bind_ok {A B} (m : M A) (f : A -> M B) h a h' :
  m h = Ok a h' -> bind m f h = f a h'.
Proof. intros E. unfold bind. now rewrite E. Qed.

Lemma bind_raise {A B} (m : M A) (f : A -> M B) h e h' :
  m h = Raise e h' -> bind m f h = Raise e h'.
Proof. intros E. unfold bind. now rewrite E. Qed.

Lemma bind_stuck {A B} (m : M A) (f : A -> M B) h :
  m h = Stuck -> bind m f h = Stuck.
Proof. intros E. unfold bind. now rewrite E. Qed.

Lemma bind_ret {A B} (a : A) (f : A -> M B) h : bind (ret a) f h = f a h.
Proof. reflexivity. Qed.

Lemma try_ok {A} (m : M A) h a h' : m h = Ok a h' -> try_ m h = Ok (inr a) h'.
Proof. intros E. unfold try_. now rewrite E. Qed.

Lemma try_raise {A} (m : M A) h e h' : m h = Raise e h' -> try_ m h = Ok (inl e) h'.
Proof. intros E. unfold try_. now rewrite E. Qed.

(** ** Strings *)

Lemma rstrip_app (s t : string) :
  t <> EmptyString -> Str.rstrip t = t -> Str.rstrip (s +:+ t) = s +:+ t.
Proof.
  intros Hne Ht. induction s as [|c s IH]; [exact Ht|].
  change (String c s +:+ t) with (String c (s +:+ t)).
  cbn [Str.rstrip]. rewrite IH. destruct (s +:+ t) eqn:E; [|reflexivity].
  destruct s; [now elim Hne|discriminate].
Qed.

Lemma length_zero_eqb (s : string) :
  (String.length s =? 0)%nat = String.eqb s EmptyString.
Proof. destruct s; reflexivity. Qed.

Section Coercion.

Context {lib : PyLib}.

(** The typed leaf [bool({{x}})] is its own stripped form, matches the
    typed-placeholder pattern, and still starts with [bool] after the
    placeholder is replaced. *)
Lemma bool_leaf_strip (x : string) :
  Str.strip ("bool(" +:+ ("{{" +:+ x +:+ "}}") +:+ ")") = "bool(" +:+ ("{{" +:+ x +:+ "}}") +:+ ")".
Proof.
  assert (E : "bool(" +:+ ("{{" +:+ x +:+ "}}") +:+ ")"
              = "bool({{" +:+ ((x +:+ "}}") +:+ ")")) by reflexivity.
  rewrite E. unfold Str.strip.
  assert (L : Str.lstrip ("bool({{" +:+ ((x +:+ "}}") +:+ ")"))
              = "bool({{" +:+ ((x +:+ "}}") +:+ ")")) by reflexivity.
  rewrite L. apply rstrip_app; [destruct x; discriminate|].
  apply rstrip_app; [discriminate|reflexivity].
Qed.

Lemma bool_leaf_typed (x : string) :
  Re.fullmatch_typed ("{{" +:+ x +:+ "}}") ("bool(" +:+ ("{{" +:+ x +:+ "}}") +:+ ")") = true.
Proof.
  unfold Re.fullmatch_typed. apply existsb_exists.
  exists "bool"%string. split; [simpl; tauto|apply String.eqb_eq; reflexivity].
Qed.

Lemma bool_leaf_replaced (x data : string) :
  Str.startswith
    (Str.replace ("bool(" +:+ ("{{" +:+ x +:+ "}}") +:+ ")") ("{{" +:+ x +:+ "}}") data)
    "bool" = true.
Proof. reflexivity. Qed.

(** C5 (as amended). For the typed leaf [bool({{x}})] and a bound column
    whose cell is not blank, substitution stores the boolean that is true
    exactly when the trimmed, lower-cased cell is one of true, yes, y, t, 1
    (so "no" gives false); for a blank cell nothing is substituted and the
    leaf is left as it is. *)
Theorem C5_bool_coercion (x : string) (root_object parent_object : val)
    (keys : keypath) (key : key) (data_row : list string) (c : Z) (cell : string)
    (h : heap) :
  let parameter := ("{{" +:+ x +:+ "}}")%string in
  get_deepest_key_object root_object keys h = Ok (parent_object, key) h ->
  getitem parent_object key h = Ok (VStr ("bool(" +:+ parameter +:+ ")")) h ->
  0 <= c ->
  data_row !! Z.to_nat c = Some cell ->
  replace_parameter_with_data root_object keys parameter data_row (Some (BInt c)) h =
    if String.eqb (Str.strip cell) EmptyString then Ok tt h
    else setitem parent_object key
           (VBool (bool_decide (Str.lower (Str.strip cell) ∈ true_words))) h.
Proof.
  intros parameter Hdeep Hget Hc Hcell.
  unfold replace_parameter_with_data.
  replace (c >? -1) with true by (symmetry; apply Z.gtb_lt; lia).
  rewrite Hcell. rewrite bind_ret. rewrite length_zero_eqb.
  destruct (String.eqb (Str.strip cell) EmptyString); [reflexivity|].
  rewrite (bind_ok _ _ _ _ _ Hdeep). rewrite (bind_ok _ _ _ _ _ Hget).
  unfold parameter. rewrite bool_leaf_strip, bool_leaf_typed, bool_leaf_replaced.
  f_equal. f_equal.
  apply eq_true_iff_eq. rewrite existsb_exists, bool_decide_eq_true.
  split.
  - intros (w & Hin & Heq). apply String.eqb_eq in Heq. subst w.
    now apply list_elem_of_In.
  - intros Hin. exists (Str.lower (Str.strip cell)).
    split; [now apply list_elem_of_In|apply String.eqb_refl].
Qed.

End Coercion.

Lemma C5_bool_coercion_witness :
  (0 <= 0
   /\ ["Yes"]%string !! Z.to_nat 0 = Some "Yes"%string)
  /\ replace_parameter_with_data (lib := strict_lib) (VRef 0%nat) [KStr "t"]
       "{{x}}" ["Yes"]%string (Some (BInt 0)) bool_leaf_heap
     = Ok tt [ODict [(KStr "t", VBool true)]]%string.
Proof.
  split; [split; [lia|reflexivity]|].
  exact (C5_bool_coercion (lib := strict_lib) "x" (VRef 0%nat) (VRef 0%nat)
           [KStr "t"] (KStr "t") ["Yes"]%string 0 "Yes" bool_leaf_heap
           eq_refl eq_refl (Z.le_refl 0) eq_refl).
Defined.

(** C5 as stated fails for a blank cell: nothing is stored, so the leaf is
    not the boolean false afterwards. *)
Lemma C5_blank_cell_counterexample :
  ~ exists h',
      replace_parameter_with_data (lib := strict_lib) (VRef 0%nat) [KStr "t"]
        "{{x}}" [""]%string (Some (BInt 0)) bool_leaf_heap = Ok tt h'
      /\ getitem (VRef 0%nat) (KStr "t") h' = Ok (VBool false) h'.
Proof.
  intros (h' & Hrun & Hleaf).
  vm_compute in Hrun. injection Hrun as <-.
  vm_compute in Hleaf. discriminate.
Qed.

(** ** The row loop *)

Lemma bind_inv_ok {A B} (m : M A) (f : A -> M B) h b h' :
  bind m f h = Ok b h' -> exists a h1, m h = Ok a h1 /\ f a h1 = Ok b h'.
Proof.
  unfold bind. destruct (m h) as [a h1| |]; [|discriminate..].
  intros E. now exists a, h1.
Qed.

Lemma try_inv_ok {A} (m : M A) h r h' :
  try_ m h = Ok r h' ->
  match r with
  | inr a => m h = Ok a h'
  | inl e => m h = Raise e h'
  end.
Proof.
  unfold try_. destruct (m h); intros E; inversion E; subst; reflexivity.
Qed.

Lemma rename_loop_changed fuel pl f c f' :
  rename_loop fuel pl f c = Some f' -> f' <> f -> Str.lower f ∈ pl.
Proof.
  destruct fuel; simpl; case_bool_decide; try discriminate; try tauto.
  all: intros E; inversion E; subst; tauto.
Qed.

#[local] Set Warnings "-clear-no-such-hyp".

Section RowLoop.

Context {lib : PyLib}.
Variables (fuel : nat) (cfg : config) (dv : directives).
Variables (group : option (val * val * string)) (root_template : val).
Variables (map_parameter_column : colmap).

(** What a successful [row_output] leaves in the loop variables. *)
Lemma row_output_ok st lm output_file h st' h' :
  row_output fuel dv group st lm output_file h = Ok st' h' ->
  processed st' = processed st ∪ {[output_file]}
  /\ processed_lower st' = processed_lower st ∪ {[Str.lower output_file]}
  /\ log st' = log st
  /\ row_count st' = row_count st
  /\ match group with
     | None =>
         exists t lm' hd,
           json_dump fuel lm' hd = Ok t h'
           /\ files st' = <[output_file := t]> (files st)
           /\ (output_array_parent dv = VNone ->
               output_object_parent dv = VNone -> lm' = lm)
     | Some _ => files st' = files st
     end.
Proof.
  unfold row_output. intros E.
  apply bind_inv_ok in E as (lm' & h1 & Ewrap & E).
  apply bind_inv_ok in E as (fs & h2 & Efiles & E).
  inversion E; subst; clear E. simpl. repeat split.
  destruct group as [[[g gp] gf]|].
  - now inversion Efiles.
  - apply bind_inv_ok in Efiles as (t & h3 & Edump & E).
    inversion E; subst. exists t, lm', h1. repeat split; [exact Edump|].
    intros Ha Ho. rewrite Ha, Ho in Ewrap. simpl in Ewrap. now inversion Ewrap.
Qed.

(** C1 (as amended). When the index re-derived from the deep copy differs
    from the supplied one, [create_manifest_from_row] raises AssertionError;
    the assembler confines the fault to that row: it logs the row, removes
    the row's default output file and goes on with the remaining rows. *)
Theorem C1_drift_is_confined_to_the_row (parameters_object new_parameters_object : index)
    (st : run_state) (rows : list string) (rest : list (list string))
    (ldm : val) (h h1 h2 h3 : heap) :
  is_blank_row rows = false ->
  deepcopy fuel root_template h = Ok ldm h1 ->
  parse_template_parameters fuel ldm [] h1 = Ok new_parameters_object h2 ->
  index_eq fuel new_parameters_object parameters_object h2 = Ok false h3 ->
  create_manifest_from_row fuel root_template (required dv) parameters_object
    map_parameter_column rows (acl_viewer cfg) (acl_owner cfg) (legal_tag cfg) h
  = Raise AssertionError h3
  /\ process_rows fuel cfg dv group root_template parameters_object
       map_parameter_column (rows :: rest) st h
     = process_rows fuel cfg dv group root_template parameters_object
         map_parameter_column rest
         (row_failed (next_row st) AssertionError
            (default_output_file cfg (row_count st + 1))) h3.
Proof.
  intros Hrow Hcopy Hparse Heq.
  assert (Hraise :
    create_manifest_from_row fuel root_template (required dv) parameters_object
      map_parameter_column rows (acl_viewer cfg) (acl_owner cfg) (legal_tag cfg) h
    = Raise AssertionError h3).
  { unfold create_manifest_from_row.
    rewrite (bind_ok _ _ _ _ _ Hcopy), (bind_ok _ _ _ _ _ Hparse),
      (bind_ok _ _ _ _ _ Heq).
    reflexivity. }
  split; [exact Hraise|].
  assert (Hstep :
    process_row fuel cfg dv group root_template parameters_object
      map_parameter_column st rows h
    = Ok (row_failed (next_row st) AssertionError
            (default_output_file cfg (row_count st + 1))) h3).
  { assert (Hman :
      row_manifest fuel cfg root_template (required dv) parameters_object
        map_parameter_column rows h = Raise AssertionError h3).
    { unfold row_manifest. now rewrite (bind_raise _ _ _ _ _ Hraise). }
    unfold process_row. rewrite Hrow.
    now rewrite (bind_ok _ _ _ _ _ (try_raise _ _ _ _ Hman)). }
  unfold process_rows. cbn [foldM].
  now rewrite (bind_ok _ _ _ _ _ Hstep).
Qed.


End RowLoop.

Lemma lower_names_recorded_after_first_row : lower_names_recorded after_first_row.
Proof.
  intros l Hl. exists "out/a.json"%string.
  unfold after_first_row in *. simpl in *. set_solver.
Qed.


(** C1 as stated fails: with an index that differs from the re-derived one,
    the first row raises the assertion fault, yet the loop returns normally
    and has gone on to the second row. *)
Lemma C1_run_continues_counterexample :
  raises
    (create_manifest_from_row (lib := strict_lib) 8 (VRef 0%nat) VNone [] named_colmap
       ["a"; "1"]%string None None None named_heap)
    AssertionError
  /\ exists st,
       returns
         (process_rows (lib := strict_lib) 8 sample_config no_directives None
            (VRef 0%nat) [] named_colmap [["a"; "1"]; ["b"; "2"]]%string
            (initial_state []) named_heap)
         st
       /\ log st = [LogException "Unable to process data row: 1" AssertionError;
                    LogException "Unable to process data row: 2" AssertionError].
Proof.
  split; [eexists; vm_compute; reflexivity|].
  eexists. split; [eexists; vm_compute; reflexivity|reflexivity].
Qed.

Lemma C1_drift_witness :
  exists h3,
    process_rows (lib := strict_lib) 8 sample_config no_directives None (VRef 0%nat) []
      named_colmap [["a"; "1"]; ["b"; "2"]]%string (initial_state []) named_heap
    = process_rows (lib := strict_lib) 8 sample_config no_directives None (VRef 0%nat) []
        named_colmap [["b"; "2"]]%string
        (row_failed (next_row (initial_state [])) AssertionError "out/wells_1.json")
        h3.
Proof.
  eexists.
  refine (proj2 (C1_drift_is_confined_to_the_row (lib := strict_lib) 8 sample_config
                   no_directives None (VRef 0%nat) named_colmap [] _
                   (initial_state []) ["a"; "1"]%string [["b"; "2"]]%string
                   _ named_heap _ _ _ eq_refl _ _ _)).
  - vm_compute. reflexivity.
  - vm_compute. reflexivity.
  - vm_compute. reflexivity.
Defined.

Section Examples.

Context {lib : PyLib}.

(** C7. For the template [{"items":[{"v":"{{x}}"}]}], headers [x_1,x_2,x_3]
    and the data row [a,b,c], the materialized manifest has an [items] array
    of exactly three elements, [{"v":"a"}], [{"v":"b"}], [{"v":"c"}], in
    index order. *)
Theorem C7_array_expansion :
  returns
    (materialize 8 items_template JNull ["x_1"; "x_2"; "x_3"]%string
       ["a"; "b"; "c"]%string None None None [])
    (JDict [("items",
             JList [JDict [("v", JStr "a")];
                    JDict [("v", JStr "b")];
                    JDict [("v", JStr "c")]])]%string).
Proof. eexists. vm_compute. reflexivity. Qed.

(** C4, at a failing input. The template [{"a":"{{x}}"}] has no [legal]
    section and no required-fields template adds one: with a legal tag
    supplied, [set_legal_tag] subscripts [None] and the row ends in a
    TypeError instead of a manifest carrying the tag. *)
Theorem C4_legal_tag_without_legal_section :
  raises
    (materialize 8 scalar_template JNull ["x"]%string ["5"]%string
       None None (Some "T1"%string) [])
    TypeError.
Proof. eexists. vm_compute. reflexivity. Qed.

(** C2, at a failing input. The template [{"a":"{{x}}"}] has no [$filename]
    leaf: the row is not written under [wells_1.json]; [.replace] on [None]
    raises AttributeError, the row is logged and no file is produced. *)
Theorem C2_row_without_filename_is_dropped :
  exists st,
    returns
      (create_manifest_from_csv 8 sample_config
         {| template_file := scalar_template;
            csv_rows := [["x"]; ["5"]]%string;
            schema_fault := None |} [])
      st
    /\ files st = ∅
    /\ processed st = ∅
    /\ log st = [LogException "Unable to process data row: 1" AttributeError;
                 LogInfo "Generated 0 load manifests."].
Proof.
  eexists. split; [eexists; vm_compute; reflexivity|].
  repeat split.
Qed.

End Examples.

(** ** Documents in the store: allocation only extends what is denoted *)

Lemma json_ind' (P : json -> Prop) :
  P JNull -> (forall b, P (JBool b)) -> (forall z, P (JInt z)) ->
  (forall f, P (JFloat f)) -> (forall s, P (JStr s)) ->
  (forall l, Forall P l -> P (JList l)) ->
  (forall d, Forall (fun kx : string * json => P kx.2) d -> P (JDict d)) ->
  forall t, P t.
Proof.
  intros Hn Hb Hi Hf Hs Hl Hd. fix IH 1. intros [| b | z | f | s | l | d].
  - exact Hn.
  - apply Hb.
  - apply Hi.
  - apply Hf.
  - apply Hs.
  - apply Hl. induction l as [|x l IHl]; constructor; [apply IH|exact IHl].
  - apply Hd. induction d as [|[k x] d IHd]; constructor; [apply IH|exact IHd].
Qed.

Lemma ext_refl h : ext h h.
Proof. exists []. now rewrite app_nil_r. Qed.

Lemma ext_trans h1 h2 h3 : ext h1 h2 -> ext h2 h3 -> ext h1 h3.
Proof. intros [l1 ->] [l2 ->]. exists (l1 ++ l2). now rewrite app_assoc. Qed.

Lemma ext_app h l : ext h (h ++ l).
Proof. now exists l. Qed.

Lemma ext_lookup h h' (a : addr) (o : obj) :
  ext h h' -> h !! a = Some o -> h' !! a = Some o.
Proof. intros [l ->] E. now apply lookup_app_l_Some. Qed.

Lemma repr_ext h h' : ext h h' -> forall t v, repr h v t -> repr h' v t.
Proof.
  intros He t. induction t as [| | | | | l IH | d IH] using json_ind';
    intros v Hr; inversion Hr as [| | | | | a vs ts Ha Hvs | a dd ts Ha Hnd Hds];
    subst; try constructor.
  - econstructor; [eapply ext_lookup; eassumption|].
    clear Hr Ha. induction Hvs as [|x t vs ts Hx Hvs IHvs]; constructor.
    + inversion IH; subst; auto.
    + inversion IH; subst; auto.
  - econstructor; [eapply ext_lookup; eassumption|assumption|].
    clear Hr Ha Hnd. induction Hds as [|kv kt dd ts [Hk Hx] Hds IHds]; constructor.
    + inversion IH; subst; auto.
    + inversion IH; subst; auto.
Qed.

Lemma depth_list_le (x : json) (l : list json) :
  x ∈ l -> (depth x < depth (JList l))%nat.
Proof.
  simpl. induction 1; simpl; lia.
Qed.

Lemma depth_dict_le (kx : string * json) (d : list (string * json)) :
  kx ∈ d -> (depth kx.2 < depth (JDict d))%nat.
Proof.
  simpl. induction 1; simpl; lia.
Qed.

(** ** [copy.deepcopy] builds a fresh object denoting the same document *)

Lemma alloc_lookup (h : heap) (o : obj) : (h ++ [o]) !! length h = Some o.
Proof. rewrite lookup_app_r by lia. now rewrite Nat.sub_diag. Qed.

Lemma deref_ok (h : heap) (a : addr) (o : obj) :
  h !! a = Some o -> deref a h = Ok o h.
Proof. intros E. unfold deref. now rewrite E. Qed.

Lemma Forall2_repr_ext h h' vs ts :
  ext h h' -> Forall2 (repr h) vs ts -> Forall2 (repr h') vs ts.
Proof.
  intros He H. eapply Forall2_impl; [exact H|]. intros x t. now apply repr_ext.
Qed.

Lemma Forall2_repr_item_ext h h' d ts :
  ext h h' -> Forall2 (repr_item h) d ts -> Forall2 (repr_item h') d ts.
Proof.
  intros He H. eapply Forall2_impl; [exact H|]. intros x t [Hk Hx].
  split; [exact Hk|now apply (repr_ext h h')].
Qed.

Section DeepcopyStep.

Variable fuel : nat.
Hypothesis IH : forall v t h, repr h v t -> (depth t <= fuel)%nat ->
  exists v' h', deepcopy fuel v h = Ok v' h' /\ ext h h' /\ repr h' v' t.

Lemma deepcopy_list_fold vs ts :
  forall acc tacc h0,
    Forall2 (repr h0) vs ts ->
    Forall2 (repr h0) acc tacc ->
    (forall x, x ∈ ts -> depth x <= fuel)%nat ->
    exists l' h',
      foldM (fun acc x => y ← deepcopy fuel x; ret (acc ++ [y])) vs acc h0 = Ok l' h'
      /\ ext h0 h' /\ Forall2 (repr h') l' (tacc ++ ts).
Proof.
  revert ts. induction vs as [|x vs IHvs]; intros ts acc tacc h0 Hvs Hacc Hdep;
    inversion Hvs as [|x' t vs' ts' Hx Hvs']; subst.
  - exists acc, h0. rewrite app_nil_r.
    split; [reflexivity|]. split; [apply ext_refl|exact Hacc].
  - destruct (IH x t h0 Hx) as (y & h1 & Hy & He1 & Hry).
    { apply Hdep. left. }
    destruct (IHvs ts' (acc ++ [y]) (tacc ++ [t]) h1) as (l' & h' & Hl & He & Hr).
    { eapply Forall2_repr_ext; eassumption. }
    { apply Forall2_app; [eapply Forall2_repr_ext; eassumption|].
      constructor; [exact Hry|constructor]. }
    { intros z Hz. apply Hdep. now right. }
    exists l', h'. split.
    + cbn [foldM]. rewrite (bind_ok _ _ h0 (acc ++ [y]) h1); [exact Hl|].
      now rewrite (bind_ok _ _ _ _ _ Hy).
    + split; [eapply ext_trans; eassumption|].
      now rewrite <- app_assoc in Hr.
Qed.

Lemma deepcopy_dict_fold d ts :
  forall acc tacc h0,
    Forall2 (repr_item h0) d ts ->
    Forall2 (repr_item h0) acc tacc ->
    (forall kx, kx ∈ ts -> depth kx.2 <= fuel)%nat ->
    exists d' h',
      foldM (fun acc (kv : key * val) =>
               x ← deepcopy fuel kv.2; ret (acc ++ [(kv.1, x)])) d acc h0 = Ok d' h'
      /\ ext h0 h' /\ Forall2 (repr_item h') d' (tacc ++ ts)
      /\ d'.*1 = acc.*1 ++ d.*1.
Proof.
  revert ts. induction d as [|kv d IHd]; intros ts acc tacc h0 Hd Hacc Hdep;
    inversion Hd as [|kv' kt d0 ts' [Hk Hx] Hd']; subst.
  - exists acc, h0. rewrite !app_nil_r.
    split; [reflexivity|]. split; [apply ext_refl|]. split; [exact Hacc|reflexivity].
  - destruct (IH kv.2 kt.2 h0 Hx) as (y & h1 & Hy & He1 & Hry).
    { apply (Hdep kt). left. }
    destruct (IHd ts' (acc ++ [(kv.1, y)]) (tacc ++ [kt]) h1)
      as (d' & h' & Hl & He & Hr & Hkeys).
    { eapply Forall2_repr_item_ext; eassumption. }
    { apply Forall2_app; [eapply Forall2_repr_item_ext; eassumption|].
      constructor; [split; [exact Hk|exact Hry]|constructor]. }
    { intros z Hz. apply Hdep. now right. }
    exists d', h'. split.
    + cbn [foldM]. rewrite (bind_ok _ _ h0 (acc ++ [(kv.1, y)]) h1); [exact Hl|].
      now rewrite (bind_ok _ _ _ _ _ Hy).
    + split; [eapply ext_trans; eassumption|].
      split; [now rewrite <- app_assoc in Hr|].
      rewrite Hkeys, fmap_app. cbn. now rewrite <- app_assoc.
Qed.

End DeepcopyStep.

Lemma deepcopy_repr (fuel : nat) :
  forall v t h, repr h v t -> (depth t <= fuel)%nat ->
  exists v' h', deepcopy fuel v h = Ok v' h' /\ ext h h' /\ repr h' v' t.
Proof.
  induction fuel as [|fuel IH]; intros v t h Hr Hd.
  - inversion Hr; subst; simpl in Hd; try lia;
      (eexists _, h; split; [reflexivity|split; [apply ext_refl|constructor]]).
  - inversion Hr as [| | | | | a vs ts Ha Hvs | a d ts Ha Hnd Hds]; subst;
      try (eexists _, h; split; [reflexivity|split; [apply ext_refl|constructor]]).
    + destruct (deepcopy_list_fold fuel IH vs ts [] [] h Hvs) as (l' & h' & Hl & He & Hr').
      { constructor. }
      { intros x Hx. apply depth_list_le in Hx. lia. }
      exists (VRef (length h')), (h' ++ [OList l']). split.
      * cbn [deepcopy]. rewrite (bind_ok _ _ _ _ _ (deref_ok _ _ _ Ha)).
        now rewrite (bind_ok _ _ _ _ _ Hl).
      * split; [eapply ext_trans; [exact He|apply ext_app]|].
        econstructor; [apply alloc_lookup|].
        eapply Forall2_repr_ext; [apply ext_app|exact Hr'].
    + destruct (deepcopy_dict_fold fuel IH d ts [] [] h Hds)
        as (d' & h' & Hl & He & Hr' & Hkeys).
      { constructor. }
      { intros x Hx. apply depth_dict_le in Hx. lia. }
      exists (VRef (length h')), (h' ++ [ODict d']). split.
      * cbn [deepcopy]. rewrite (bind_ok _ _ _ _ _ (deref_ok _ _ _ Ha)).
        now rewrite (bind_ok _ _ _ _ _ Hl).
      * split; [eapply ext_trans; [exact He|apply ext_app]|].
        econstructor; [apply alloc_lookup|now rewrite Hkeys|].
        eapply Forall2_repr_item_ext; [apply ext_app|exact Hr'].
Qed.

(** ** Indexing a stored document computes the index of the document *)

Lemma index_append_rel {R R'} (P : R -> R' -> Prop) p r vr po vpo :
  index_rel P po vpo -> P r vr ->
  index_rel P (index_append p r po) (index_append p vr vpo).
Proof.
  intros Hpo Hr.
  induction Hpo as [|[p1 recs] [p2 vrecs] po vpo [Hk Hrecs] Hpo IH]; simpl.
  - constructor; [|constructor]. split; [reflexivity|].
    constructor; [exact Hr|constructor].
  - simpl in Hk. subst p2. destruct (String.eqb p p1).
    + constructor; [|exact Hpo]. split; [reflexivity|].
      apply Forall2_app; [exact Hrecs|]. constructor; [exact Hr|constructor].
    + constructor; [|exact IH]. split; [reflexivity|exact Hrecs].
Qed.

Lemma parse_str_go_rel {R R'} (P : R -> R' -> Prop) fuel r vr :
  P r vr -> forall s po vpo,
  index_rel P po vpo ->
  index_rel P (parse_str_go fuel r s po) (parse_str_go fuel vr s vpo).
Proof.
  intros Hr. induction fuel as [|fuel IH]; intros s po vpo Hpo; simpl; [exact Hpo|].
  destruct (Str.find _ parameter_start_delimiter); [|exact Hpo].
  destruct (Str.find _ parameter_end_delimiter); [|exact Hpo].
  destruct (0 <? String.length (Str.slice _ _ _))%nat;
    destruct (0 <? String.length (Str.drop _ _))%nat;
    auto using index_append_rel.
Qed.

Lemma repr_root_ext h h' v r : ext h h' -> repr_root h v r -> repr_root h' v r.
Proof.
  intros He. unfold repr_root. destruct r.1.
  - intros (a & e & -> & Ha & He'). exists a, e.
    split; [reflexivity|]. split; [eapply ext_lookup; eassumption|].
    eapply repr_ext; eassumption.
  - intros (d & Hd & Hr). exists d. split; [exact Hd|]. eapply repr_ext; eassumption.
Qed.

Lemma repr_anchors_ext h h' l vl :
  ext h h' -> Forall2 (repr_anchor h) l vl -> Forall2 (repr_anchor h') l vl.
Proof.
  intros He H. eapply Forall2_impl; [exact H|].
  intros a va [Hr Hk]. split; [eapply repr_root_ext; eassumption|exact Hk].
Qed.

Lemma repr_index_ext h h' po vpo :
  ext h h' -> repr_index h po vpo -> repr_index h' po vpo.
Proof.
  intros He H. eapply Forall2_impl; [exact H|].
  intros e ve [Hk Hrecs]. split; [exact Hk|].
  eapply Forall2_impl; [exact Hrecs|].
  intros r vr (Hroot & Hkeys & Hanch). split; [eapply repr_root_ext; eassumption|].
  split; [exact Hkeys|eapply repr_anchors_ext; eassumption].
Qed.

Lemma repr_kitems_ext h h' l vl :
  ext h h' -> Forall2 (repr_kitem h) l vl -> Forall2 (repr_kitem h') l vl.
Proof.
  intros He H. eapply Forall2_impl; [exact H|].
  intros a va [Hk Hr]. split; [exact Hk|eapply repr_ext; eassumption].
Qed.

Lemma repr_items_jitems h d ts :
  Forall2 (repr_item h) d ts -> Forall2 (repr_kitem h) d (jitems ts).
Proof.
  induction 1 as [|kv kt d ts [Hk Hr] _ IH]; simpl; constructor; [|exact IH].
  split; [exact Hk|exact Hr].
Qed.

Lemma type_of_list h (a : addr) vs :
  h !! a = Some (OList vs) -> type_of (VRef a) h = Ok TyList h.
Proof. intros E. unfold type_of, bind, deref. now rewrite E. Qed.

Lemma type_of_dict h (a : addr) d :
  h !! a = Some (ODict d) -> type_of (VRef a) h = Ok TyDict h.
Proof. intros E. unfold type_of, bind, deref. now rewrite E. Qed.

Lemma py_len_list h (a : addr) vs :
  h !! a = Some (OList vs) -> py_len (VRef a) h = Ok (length vs) h.
Proof. intros E. unfold py_len, bind, deref. now rewrite E. Qed.

Lemma py_items_dict h (a : addr) d :
  h !! a = Some (ODict d) -> py_items (VRef a) h = Ok d h.
Proof. intros E. unfold py_items, bind, deref. now rewrite E. Qed.

Lemma getitem_list_0 h (a : addr) x vs :
  h !! a = Some (OList (x :: vs)) -> getitem (VRef a) (KInt 0) h = Ok x h.
Proof. intros E. unfold getitem, bind, deref. now rewrite E. Qed.

Section ParseStep.

Variable fuel : nat.
Hypothesis IH : parse_spec fuel.

Lemma parse_item_repr root vr keys root_list vroot_list po vpo kv kt h :
  repr_kitem h kv kt ->
  (depth kt.2 <= fuel)%nat ->
  repr_root h root vr ->
  Forall2 (repr_anchor h) root_list vroot_list ->
  repr_index h po vpo ->
  exists po' h',
    parse_item (parse_dict fuel) root keys root_list po kv h = Ok po' h'
    /\ ext h h'
    /\ repr_index h' po'
         (index_of_item (index_of_items fuel) vr keys vroot_list vpo kt).
Proof.
  intros [Hk Hr] Hd Hroot Hanch Hpo.
  destruct kv as [k v], kt as [k' t]. simpl in *. subst k'.
  unfold parse_item, index_of_item. cbn [fst snd].
  inversion Hr as [| | | | | a vs ts Ha Hvs | a d ts Ha Hnd Hds]; subst;
    try (exists po, h; split; [reflexivity|split; [apply ext_refl|exact Hpo]]).
  - (* a string leaf *)
    eexists _, h. split; [reflexivity|]. split; [apply ext_refl|].
    apply parse_str_go_rel; [|exact Hpo].
    split; [exact Hroot|]. split; [reflexivity|exact Hanch].
  - (* a list *)
    rewrite (bind_ok _ _ _ _ _ (type_of_list _ _ _ Ha)).
    rewrite (bind_ok _ _ _ _ _ (py_len_list _ _ _ Ha)).
    destruct Hvs as [|x e vs ts Hx Hvs]; [|destruct Hvs as [|x2 e2 vs ts Hx2 Hvs]].
    + exists po, h. split; [reflexivity|]. split; [apply ext_refl|exact Hpo].
    + (* one element: a new array root *)
      cbn [length Nat.eqb].
      rewrite (bind_ok _ _ _ _ _ (getitem_list_0 _ _ _ _ Ha)).
      set (h1 := h ++ [ODict [(KInt 0, x)]]).
      assert (He1 : ext h h1) by apply ext_app.
      assert (Hnew : new_dict [(KInt 0, x)] h = Ok (VRef (length h)) h1) by reflexivity.
      rewrite (bind_ok _ _ _ _ _ Hnew).
      destruct (IH (VRef (length h)) [(KInt 0, x)] [(KInt 0, e)] (VRef (length h))
                  (true, e) [] (root_list ++ [(root, keys ++ [k])])
                  (vroot_list ++ [(vr, keys ++ [k])]) po vpo h1)
        as (po' & h' & Hrun & He & Hres).
      * simpl in Hd. lia.
      * apply py_items_dict. apply alloc_lookup.
      * constructor; [|constructor]. split; [reflexivity|].
        eapply repr_ext; eassumption.
      * intros kt Hkt. apply list_elem_of_singleton in Hkt. subst kt.
        simpl in *. lia.
      * exists (length h), x. split; [reflexivity|].
        split; [apply alloc_lookup|]. eapply repr_ext; eassumption.
      * apply Forall2_app; [eapply repr_anchors_ext; eassumption|].
        constructor; [|constructor].
        split; [eapply repr_root_ext; eassumption|reflexivity].
      * eapply repr_index_ext; eassumption.
      * exists po', h'. split; [exact Hrun|].
        split; [eapply ext_trans; eassumption|exact Hres].
    + exists po, h. split; [reflexivity|]. split; [apply ext_refl|exact Hpo].
  - (* a dictionary *)
    rewrite (bind_ok _ _ _ _ _ (type_of_dict _ _ _ Ha)).
    destruct (IH (VRef a) d (jitems ts) root vr (keys ++ [k]) root_list vroot_list
                po vpo h) as (po' & h' & Hrun & He & Hres); try assumption.
    + simpl in Hd. lia.
    + now apply py_items_dict.
    + now apply repr_items_jitems.
    + intros kt Hkt. unfold jitems in Hkt. apply list_elem_of_fmap in Hkt.
      destruct Hkt as (kx & -> & Hkx). apply depth_dict_le in Hkx. simpl in *. lia.
    + exists po', h'. split; [exact Hrun|]. split; [exact He|exact Hres].
Qed.

Lemma parse_items_repr items vitems :
  forall root vr keys root_list vroot_list po vpo h,
    Forall2 (repr_kitem h) items vitems ->
    (forall kt, kt ∈ vitems -> depth kt.2 <= fuel)%nat ->
    repr_root h root vr ->
    Forall2 (repr_anchor h) root_list vroot_list ->
    repr_index h po vpo ->
    exists po' h',
      foldM (parse_item (parse_dict fuel) root keys root_list) items po h = Ok po' h'
      /\ ext h h'
      /\ repr_index h' po'
           (fold_left (index_of_item (index_of_items fuel) vr keys vroot_list)
              vitems vpo).
Proof.
  revert vitems. induction items as [|kv items IHitems];
    intros vitems root vr keys root_list vroot_list po vpo h Hitems Hd Hroot Hanch Hpo;
    inversion Hitems as [|kv' kt items' vitems' Hkv Hrest]; subst.
  - exists po, h. split; [reflexivity|]. split; [apply ext_refl|exact Hpo].
  - destruct (parse_item_repr root vr keys root_list vroot_list po vpo kv kt h)
      as (po1 & h1 & Hrun1 & He1 & Hres1); try assumption.
    { apply Hd. left. }
    destruct (IHitems vitems' root vr keys root_list vroot_list po1
                (index_of_item (index_of_items fuel) vr keys vroot_list vpo kt) h1)
      as (po' & h' & Hrun & He & Hres).
    + eapply repr_kitems_ext; eassumption.
    + intros z Hz. apply Hd. now right.
    + eapply repr_root_ext; eassumption.
    + eapply repr_anchors_ext; eassumption.
    + exact Hres1.
    + exists po', h'. split.
      * cbn [foldM]. now rewrite (bind_ok _ _ _ _ _ Hrun1).
      * split; [eapply ext_trans; eassumption|exact Hres].
Qed.

End ParseStep.

Lemma parse_dict_repr : forall fuel, parse_spec fuel.
Proof.
  induction fuel as [|fuel IH]; [intros ? ? ? ? ? ? ? ? ? ? ? Hf; lia|].
  intros parent items vitems root vr keys root_list vroot_list po vpo h
    _ Hitems Hrel Hd Hroot Hanch Hpo.
  cbn [parse_dict index_of_items]. rewrite (bind_ok _ _ _ _ _ Hitems).
  apply (parse_items_repr fuel IH); try assumption.
  intros kt Hkt. specialize (Hd kt Hkt). lia.
Qed.

(** ** Equality of objects that denote the same document *)

Lemma key_eqb_eq (k1 k2 : key) : key_eqb k1 k2 = true <-> k1 = k2.
Proof.
  destruct k1, k2; simpl; try (split; [discriminate|congruence]).
  - rewrite String.eqb_eq. split; congruence.
  - rewrite Z.eqb_eq. split; congruence.
Qed.

Lemma key_eqb_refl (k : key) : key_eqb k k = true.
Proof. now apply key_eqb_eq. Qed.

Lemma dict_get_repr h d ts :
  Forall2 (repr_item h) d ts -> NoDup d.*1 ->
  forall kt, kt ∈ ts ->
  exists y, dict_get (KStr kt.1) d = Some y /\ repr h y kt.2.
Proof.
  induction 1 as [|kv kt0 d ts [Hk Hr] Hrest IH]; intros Hnd kt Hin.
  - inversion Hin.
  - destruct kv as [k v]. simpl in *. subst k.
    inversion Hnd as [|? ? Hnotin Hnd']; subst.
    apply elem_of_cons in Hin. cbn [dict_get]. destruct Hin as [->|Hin].
    + exists v. rewrite String.eqb_refl. now split.
    + destruct (String.eqb kt.1 kt0.1) eqn:E.
      * apply String.eqb_eq in E. exfalso. apply Hnotin. rewrite <- E.
        clear -Hrest Hin. induction Hrest as [|kv' kt' d ts [Hk' _] _ IH'].
        -- inversion Hin.
        -- apply elem_of_cons in Hin. destruct Hin as [->|Hin].
           ++ simpl. rewrite Hk'. left.
           ++ simpl. right. now apply IH'.
      * now apply IH.
Qed.

Section PyEqStep.

Variable fuel : nat.
Variable h : heap.
Hypothesis IH : forall x y t, repr h x t -> repr h y t -> (depth t <= fuel)%nat ->
  py_eq fuel x y h = Ok true h.

Lemma all2M_repr vs1 : forall vs2 ts,
  Forall2 (repr h) vs1 ts -> Forall2 (repr h) vs2 ts ->
  (forall t, t ∈ ts -> depth t <= fuel)%nat ->
  all2M (py_eq fuel) vs1 vs2 h = Ok true h.
Proof.
  induction vs1 as [|x vs1 IHvs]; intros vs2 ts H1 H2 Hd;
    inversion H1; subst; inversion H2; subst; [reflexivity|].
  cbn [all2M]. rewrite (bind_ok _ _ _ true h).
  - eapply IHvs; try eassumption. intros t Ht. apply Hd. now right.
  - eapply IH; try eassumption. apply Hd. left.
Qed.

Lemma dict_subM_repr d2 ts2 :
  Forall2 (repr_item h) d2 ts2 -> NoDup d2.*1 ->
  forall d1 ts1,
    Forall2 (repr_item h) d1 ts1 ->
    (forall kt, kt ∈ ts1 -> kt ∈ ts2) ->
    (forall kt, kt ∈ ts2 -> depth kt.2 <= fuel)%nat ->
    dict_subM (py_eq fuel) d1 d2 h = Ok true h.
Proof.
  intros H2 Hnd. induction d1 as [|[k x] d1 IHd]; intros ts1 H1 Hsub Hd;
    inversion H1 as [|kv kt d' ts' [Hk Hr] Hrest]; subst; [reflexivity|].
  simpl in Hk. subst k. cbn [dict_subM].
  destruct (dict_get_repr h d2 ts2 H2 Hnd kt) as (y & Hy & Hry).
  { apply Hsub. left. }
  rewrite Hy. rewrite (bind_ok _ _ _ true h).
  - eapply IHd; try eassumption. intros z Hz. apply Hsub. now right.
  - eapply IH; try eassumption. apply Hd. apply Hsub. left.
Qed.

End PyEqStep.

Lemma Forall2_length_eq {A B C} (P : A -> C -> Prop) (Q : B -> C -> Prop) l1 l2 l :
  Forall2 P l1 l -> Forall2 Q l2 l -> length l1 = length l2.
Proof.
  intros H1 H2. apply Forall2_length in H1, H2. congruence.
Qed.

Lemma py_eq_scalar fuel h x y t :
  repr h x t -> repr h y t -> (depth t = 0)%nat -> py_eq fuel x y h = Ok true h.
Proof.
  intros Hx Hy Hd.
  destruct t; try discriminate; inversion Hx; subst; inversion Hy; subst;
    destruct fuel; simpl; unfold ret; f_equal;
    try apply Z.eqb_refl; try apply String.eqb_refl.
  all: try (now destruct b).
  all: unfold float_eqb; now rewrite Z.eqb_refl.
Qed.

Lemma py_eq_repr (fuel : nat) :
  forall h x y t, repr h x t -> repr h y t -> (depth t <= fuel)%nat ->
  py_eq fuel x y h = Ok true h.
Proof.
  induction fuel as [|fuel IH]; intros h x y t Hx Hy Hd.
  - apply (py_eq_scalar 0 h x y t Hx Hy). lia.
  - destruct t as [| | | | | l | dd];
      try (apply (py_eq_scalar (S fuel) h x y _ Hx Hy); reflexivity).
    + inversion Hx as [| | | | | a vs ts Ha Hvs |]; subst.
      inversion Hy as [| | | | | a2 vs' ts' Ha2 Hvs' |]; subst.
      cbn [py_eq]. destruct (a =? a2)%nat; [reflexivity|].
      rewrite (bind_ok _ _ _ _ _ (deref_ok _ _ _ Ha)).
      rewrite (bind_ok _ _ _ _ _ (deref_ok _ _ _ Ha2)).
      unfold seq_eqM. rewrite (Forall2_length_eq _ _ _ _ _ Hvs Hvs'), Nat.eqb_refl.
      eapply all2M_repr; try eassumption.
      * intros; eapply IH; eassumption.
      * intros t Ht. apply depth_list_le in Ht. lia.
    + inversion Hx as [| | | | | | a d ts Ha Hnd Hds]; subst.
      inversion Hy as [| | | | | | a2 d' ts' Ha2 Hnd' Hds']; subst.
      cbn [py_eq]. destruct (a =? a2)%nat; [reflexivity|].
      rewrite (bind_ok _ _ _ _ _ (deref_ok _ _ _ Ha)).
      rewrite (bind_ok _ _ _ _ _ (deref_ok _ _ _ Ha2)).
      rewrite (Forall2_length_eq _ _ _ _ _ Hds Hds'), Nat.eqb_refl.
      eapply dict_subM_repr; try eassumption.
      * intros; eapply IH; eassumption.
      * auto.
      * intros kt Ht. apply depth_dict_le in Ht. lia.
Qed.

(** ** Equality of two indexes that denote the same document index *)

Lemma py_eq_root fuel h x y r :
  repr_root h x r -> repr_root h y r -> (vroot_depth r <= fuel)%nat ->
  py_eq fuel x y h = Ok true h.
Proof.
  unfold repr_root, vroot_depth. destruct r as [[] t]; simpl.
  - intros (a & e & -> & Ha & He) (b & e' & -> & Hb & He') Hd.
    destruct fuel as [|fuel]; [lia|]. simpl.
    destruct (a =? b)%nat; [reflexivity|].
    rewrite (bind_ok _ _ _ _ _ (deref_ok _ _ _ Ha)).
    rewrite (bind_ok _ _ _ _ _ (deref_ok _ _ _ Hb)).
    simpl. rewrite (bind_ok _ _ _ true h); [reflexivity|].
    eapply py_eq_repr; try eassumption. lia.
  - intros (d & -> & Hx) (d' & _ & Hy) Hd. eapply py_eq_repr; eassumption.
Qed.

Lemma keys_eqb_refl (k : keypath) : keys_eqb k k = true.
Proof.
  unfold keys_eqb. rewrite Nat.eqb_refl. simpl.
  induction k as [|x k IH]; [reflexivity|]. simpl. now rewrite key_eqb_refl.
Qed.

Lemma anchors_eq fuel h l1 : forall l2 vl,
  Forall2 (repr_anchor h) l1 vl -> Forall2 (repr_anchor h) l2 vl ->
  Forall (fun va : vanchor => vroot_depth va.1 <= fuel)%nat vl ->
  all2M (anchor_eq fuel) l1 l2 h = Ok true h.
Proof.
  induction l1 as [|a l1 IH]; intros l2 vl H1 H2 Hd;
    inversion H1 as [|? va ? ? [Hr1 Hk1]]; subst;
    inversion H2 as [|b ? ? ? [Hr2 Hk2]]; subst; [reflexivity|].
  inversion Hd; subst. cbn [all2M].
  rewrite (bind_ok _ _ _ true h); [eapply IH; eassumption|].
  unfold anchor_eq. rewrite (bind_ok _ _ _ true h).
  - rewrite Hk1, Hk2, keys_eqb_refl. reflexivity.
  - eapply py_eq_root; eassumption.
Qed.

Lemma prec_eq_repr fuel h r1 r2 vr :
  repr_prec h r1 vr -> repr_prec h r2 vr -> vprec_depth fuel vr ->
  prec_eq fuel r1 r2 h = Ok true h.
Proof.
  intros (Hr1 & Hk1 & Ha1) (Hr2 & Hk2 & Ha2) [Hd Hda].
  unfold prec_eq. rewrite (bind_ok _ _ _ true h).
  - rewrite Hk1, Hk2, keys_eqb_refl. unfold seq_eqM.
    rewrite (Forall2_length_eq _ _ _ _ _ Ha1 Ha2), Nat.eqb_refl.
    eapply anchors_eq; eassumption.
  - eapply py_eq_root; eassumption.
Qed.

Lemma precs_eq fuel h l1 : forall l2 vl,
  Forall2 (repr_prec h) l1 vl -> Forall2 (repr_prec h) l2 vl ->
  Forall (vprec_depth fuel) vl ->
  all2M (prec_eq fuel) l1 l2 h = Ok true h.
Proof.
  induction l1 as [|a l1 IH]; intros l2 vl H1 H2 Hd;
    inversion H1; subst; inversion H2; subst; [reflexivity|].
  inversion Hd; subst. cbn [all2M].
  rewrite (bind_ok _ _ _ true h); [eapply IH; eassumption|].
  eapply prec_eq_repr; eassumption.
Qed.

Lemma index_get_rel h po vpo :
  repr_index h po vpo -> NoDup vpo.*1 ->
  forall ve, ve ∈ vpo ->
  exists recs, index_get ve.1 po = Some recs /\ Forall2 (repr_prec h) recs ve.2.
Proof.
  induction 1 as [|[p recs] ve0 po vpo [Hk Hr] Hrest IH]; intros Hnd ve Hin.
  - inversion Hin.
  - simpl in Hk. subst p. inversion Hnd as [|? ? Hnotin Hnd']; subst.
    apply elem_of_cons in Hin. destruct Hin as [->|Hin]; simpl.
    + rewrite String.eqb_refl. now exists recs.
    + destruct (String.eqb ve.1 ve0.1) eqn:E.
      * apply String.eqb_eq in E. exfalso. apply Hnotin. rewrite <- E.
        apply list_elem_of_fmap. now exists ve.
      * now apply IH.
Qed.

Lemma index_subM_repr fuel h po2 vpo :
  repr_index h po2 vpo -> vindex_ok fuel vpo ->
  forall po1 vpo1,
    repr_index h po1 vpo1 ->
    (forall ve, ve ∈ vpo1 -> ve ∈ vpo) ->
    index_subM fuel po1 po2 h = Ok true h.
Proof.
  intros H2 [Hnd Hd]. induction po1 as [|[p recs1] po1 IH]; intros vpo1 H1 Hsub;
    inversion H1 as [|e ve po' vpo' [Hk Hr] Hrest]; subst; [reflexivity|].
  simpl in Hk. subst p. cbn [index_subM].
  destruct (index_get_rel h po2 vpo H2 Hnd ve) as (recs2 & Hget & Hr2).
  { apply Hsub. left. }
  rewrite Hget. rewrite (bind_ok _ _ _ true h).
  - eapply IH; try eassumption. intros z Hz. apply Hsub. now right.
  - unfold seq_eqM. rewrite (Forall2_length_eq _ _ _ _ _ Hr2 Hr), Nat.eqb_refl.
    eapply precs_eq; try eassumption.
    rewrite Forall_forall in Hd. apply (Hd ve). apply Hsub. left.
Qed.

Lemma index_eq_repr fuel h po1 po2 vpo :
  repr_index h po1 vpo -> repr_index h po2 vpo -> vindex_ok fuel vpo ->
  index_eq fuel po1 po2 h = Ok true h.
Proof.
  intros H1 H2 Hok. unfold index_eq.
  rewrite (Forall2_length_eq _ _ _ _ _ H1 H2), Nat.eqb_refl.
  eapply index_subM_repr; try eassumption. auto.
Qed.

(** ** [json.load] builds the document it reads *)

Lemma dict_set_rel h acc tacc k v t :
  Forall2 (repr_item h) acc tacc -> repr h v t ->
  Forall2 (repr_item h) (dict_set (KStr k) v acc) (jset k t tacc).
Proof.
  intros Hacc Hv. induction Hacc as [|[k1 v1] [k2 t2] acc tacc [Hk Hr] Hacc IH]; simpl.
  - constructor; [now split|constructor].
  - simpl in Hk. subst k1. simpl. destruct (String.eqb k k2).
    + constructor; [now split|exact Hacc].
    + constructor; [now split|exact IH].
Qed.

Lemma dict_set_keys k v d :
  ((dict_set k v d).*1 = d.*1) \/ ((k ∉ d.*1) /\ (dict_set k v d).*1 = d.*1 ++ [k]).
Proof.
  induction d as [|[k1 v1] d IH].
  - right. split; [apply not_elem_of_nil|reflexivity].
  - cbn [dict_set]. destruct (key_eqb k k1) eqn:E; [now left|].
    rewrite !fmap_cons. cbn [fst].
    destruct IH as [IH|[Hn IH]].
    + left. now rewrite IH.
    + right. split.
      * apply not_elem_of_cons. split; [|exact Hn].
        intros ->. rewrite key_eqb_refl in E. discriminate.
      * now rewrite IH.
Qed.

Lemma dict_set_NoDup k v d : NoDup d.*1 -> NoDup (dict_set k v d).*1.
Proof.
  intros Hnd. destruct (dict_set_keys k v d) as [->|[Hn ->]]; [exact Hnd|].
  apply NoDup_app. split; [exact Hnd|]. split.
  - intros x Hx Hx'. apply list_elem_of_singleton in Hx'. now subst.
  - apply NoDup_singleton.
Qed.

Lemma load_list_repr (l : list json) :
  Forall (fun t => forall h, exists v h',
            json_load t h = Ok v h' /\ ext h h' /\ repr h' v (norm t)) l ->
  forall h, exists vs h',
    load_list json_load l h = Ok vs h' /\ ext h h' /\ Forall2 (repr h') vs (map norm l).
Proof.
  induction 1 as [|t l Ht _ IH]; intros h.
  - exists [], h. split; [reflexivity|]. split; [apply ext_refl|constructor].
  - destruct (Ht h) as (v & h1 & Hv & He1 & Hr1).
    destruct (IH h1) as (vs & h' & Hvs & He & Hr).
    exists (v :: vs), h'. split.
    + cbn [load_list]. rewrite (bind_ok _ _ _ _ _ Hv).
      now rewrite (bind_ok _ _ _ _ _ Hvs).
    + split; [eapply ext_trans; eassumption|].
      simpl. constructor; [eapply repr_ext; eassumption|exact Hr].
Qed.

Lemma load_members_repr (d : list (string * json)) :
  Forall (fun kx : string * json => forall h, exists v h',
            json_load kx.2 h = Ok v h' /\ ext h h' /\ repr h' v (norm kx.2)) d ->
  forall acc tacc h,
    Forall2 (repr_item h) acc tacc -> NoDup acc.*1 ->
    exists items h',
      load_members json_load d acc h = Ok items h' /\ ext h h'
      /\ Forall2 (repr_item h') items
           (fold_left (fun acc (kx : string * json) => jset kx.1 (norm kx.2) acc) d tacc)
      /\ NoDup items.*1.
Proof.
  induction 1 as [|kx d Ht _ IH]; intros acc tacc h Hacc Hnd.
  - exists acc, h. split; [reflexivity|]. split; [apply ext_refl|]. now split.
  - destruct (Ht h) as (v & h1 & Hv & He1 & Hr1).
    destruct (IH (dict_set (KStr kx.1) v acc) (jset kx.1 (norm kx.2) tacc) h1)
      as (items & h' & Hrun & He & Hr & Hnd').
    + apply dict_set_rel; [eapply Forall2_repr_item_ext; eassumption|exact Hr1].
    + now apply dict_set_NoDup.
    + exists items, h'. split.
      * cbn [load_members]. now rewrite (bind_ok _ _ _ _ _ Hv).
      * split; [eapply ext_trans; eassumption|]. now split.
Qed.

Lemma json_load_repr (t : json) :
  forall h, exists v h', json_load t h = Ok v h' /\ ext h h' /\ repr h' v (norm t).
Proof.
  induction t as [| | | | | l IH | d IH] using json_ind'; intros h;
    try (eexists _, h; split; [reflexivity|split; [apply ext_refl|constructor]]).
  - destruct (load_list_repr l IH h) as (vs & h' & Hvs & He & Hr).
    exists (VRef (length h')), (h' ++ [OList vs]). split.
    + cbn [json_load]. now rewrite (bind_ok _ _ _ _ _ Hvs).
    + split; [eapply ext_trans; [exact He|apply ext_app]|].
      cbn [norm]. econstructor; [apply alloc_lookup|].
      eapply Forall2_repr_ext; [apply ext_app|exact Hr].
  - destruct (load_members_repr d IH [] [] h) as (items & h' & Hrun & He & Hr & Hnd).
    { constructor. }
    { constructor. }
    exists (VRef (length h')), (h' ++ [ODict items]). split.
    + cbn [json_load]. now rewrite (bind_ok _ _ _ _ _ Hrun).
    + split; [eapply ext_trans; [exact He|apply ext_app]|].
      cbn [norm]. econstructor; [apply alloc_lookup|exact Hnd|].
      eapply Forall2_repr_item_ext; [apply ext_app|exact Hr].
Qed.

(** Normalizing a document does not deepen it. *)
Lemma depth_list_bound (n : nat) (l : list json) :
  Forall (fun t => depth t <= n)%nat l -> (depth (JList l) <= S n)%nat.
Proof. simpl. induction 1; simpl; lia. Qed.

Lemma depth_dict_bound (n : nat) (d : list (string * json)) :
  Forall (fun kx : string * json => depth kx.2 <= n)%nat d -> (depth (JDict d) <= S n)%nat.
Proof. simpl. induction 1; simpl; lia. Qed.

Lemma jset_depth (n : nat) k x d :
  (depth x <= n)%nat ->
  Forall (fun kx : string * json => depth kx.2 <= n)%nat d ->
  Forall (fun kx : string * json => depth kx.2 <= n)%nat (jset k x d).
Proof.
  intros Hx. induction 1 as [|[k1 x1] d H1 Hd IH]; simpl.
  - constructor; [exact Hx|constructor].
  - destruct (String.eqb k k1); constructor; auto.
Qed.

Lemma norm_depth (t : json) : (depth (norm t) <= depth t)%nat.
Proof.
  induction t as [| | | | | l IH | d IH] using json_ind'; try (simpl; lia).
  - cbn [norm]. destruct l as [|x l]; [simpl; lia|].
    change (depth (JList (x :: l))) with (S (Nat.pred (depth (JList (x :: l))))).
    apply depth_list_bound. rewrite Forall_forall in IH. apply Forall_forall.
    intros t Ht. apply list_elem_of_fmap in Ht. destruct Ht as (t0 & -> & Ht0).
    specialize (IH t0 Ht0). apply depth_list_le in Ht0. simpl in *. lia.
  - cbn [norm]. destruct d as [|kx d]; [simpl; lia|].
    change (depth (JDict (kx :: d))) with (S (Nat.pred (depth (JDict (kx :: d))))).
    apply depth_dict_bound.
    set (n := Nat.pred (depth (JDict (kx :: d)))).
    assert (Hall : Forall (fun kx : string * json => depth (norm kx.2) <= n)%nat (kx :: d)).
    { rewrite Forall_forall in IH. apply Forall_forall. intros kt Hkt.
      specialize (IH kt Hkt). apply depth_dict_le in Hkt. unfold n. simpl in *. lia. }
    clear IH. revert Hall. generalize (kx :: d). intros dd.
    assert (Hacc : Forall (fun kx : string * json => depth kx.2 <= n)%nat []) by constructor.
    revert Hacc. generalize (@nil (string * json)).
    induction dd as [|kt dd IHdd]; intros acc Hacc Hall; simpl; [exact Hacc|].
    inversion Hall; subst. apply IHdd; [|assumption].
    now apply jset_depth.
Qed.

(** ** The index of a document has distinct placeholders and shallow roots *)

Lemma index_append_keys {R} p (r : R) po :
  ((index_append p r po).*1 = po.*1)
  \/ ((p ∉ po.*1) /\ (index_append p r po).*1 = po.*1 ++ [p]).
Proof.
  induction po as [|[p1 recs] po IH].
  - right. split; [apply not_elem_of_nil|reflexivity].
  - cbn [index_append]. destruct (String.eqb p p1) eqn:E; [now left|].
    rewrite !fmap_cons. cbn [fst].
    destruct IH as [IH|[Hn IH]].
    + left. now rewrite IH.
    + right. split.
      * apply not_elem_of_cons. split; [|exact Hn].
        intros ->. rewrite String.eqb_refl in E. discriminate.
      * now rewrite IH.
Qed.

Lemma index_append_ok n p (r : vprec) po :
  vindex_ok n po -> vprec_depth n r -> vindex_ok n (index_append p r po).
Proof.
  intros [Hnd Hd] Hr. split.
  - destruct (index_append_keys p r po) as [->|[Hn ->]]; [exact Hnd|].
    apply NoDup_app. split; [exact Hnd|]. split.
    + intros x Hx Hx'. apply list_elem_of_singleton in Hx'. now subst.
    + apply NoDup_singleton.
  - clear Hnd. induction Hd as [|[p1 recs] po H1 Hd IH]; simpl.
    + constructor; [|constructor]. simpl. constructor; [exact Hr|constructor].
    + destruct (String.eqb p p1); constructor; auto.
      simpl in *. apply Forall_app. split; [exact H1|].
      constructor; [exact Hr|constructor].
Qed.

Lemma parse_str_go_ok n fuel (r : vprec) :
  vprec_depth n r -> forall s po, vindex_ok n po -> vindex_ok n (parse_str_go fuel r s po).
Proof.
  intros Hr. induction fuel as [|fuel IH]; intros s po Hpo; simpl; [exact Hpo|].
  destruct (Str.find _ parameter_start_delimiter); [|exact Hpo].
  destruct (Str.find _ parameter_end_delimiter); [|exact Hpo].
  destruct (0 <? String.length (Str.slice _ _ _))%nat;
    destruct (0 <? String.length (Str.drop _ _))%nat;
    auto using index_append_ok.
Qed.

Lemma index_of_items_ok n fuel :
  forall items root keys root_list po,
    vindex_ok n po ->
    (vroot_depth root <= n)%nat ->
    Forall (fun va : vanchor => vroot_depth va.1 <= n)%nat root_list ->
    (forall kt, kt ∈ items -> depth kt.2 <= n)%nat ->
    vindex_ok n (index_of_items fuel items root keys root_list po).
Proof.
  induction fuel as [|fuel IH]; intros items root keys root_list po Hpo Hroot Hanch Hd;
    [exact Hpo|].
  cbn [index_of_items]. revert po Hpo.
  induction items as [|[k t] items IHitems]; intros po Hpo; [exact Hpo|].
  cbn [fold_left]. apply IHitems.
  { intros kt Hkt. apply Hd. now right. }
  assert (Ht : (depth t <= n)%nat) by (apply (Hd (k, t)); left).
  unfold index_of_item. cbn [fst snd].
  destruct t as [| | | | s | l | d]; try exact Hpo.
  - apply parse_str_go_ok; [|exact Hpo]. split; [exact Hroot|exact Hanch].
  - destruct l as [|e [|e2 l]]; try exact Hpo.
    apply IH; try assumption.
    + unfold vroot_depth. simpl in *. lia.
    + apply Forall_app. split; [exact Hanch|]. constructor; [exact Hroot|constructor].
    + intros kt Hkt. apply list_elem_of_singleton in Hkt. subst kt. simpl in *. lia.
  - apply IH; try assumption.
    intros kt Hkt. unfold jitems in Hkt. apply list_elem_of_fmap in Hkt.
    destruct Hkt as (kx & -> & Hkx). apply depth_dict_le in Hkx. simpl in *. lia.
Qed.

Lemma document_index_ok n fuel d :
  (depth (JDict d) <= n)%nat -> vindex_ok n (document_index fuel d).
Proof.
  intros Hd. unfold document_index. apply index_of_items_ok.
  - split; constructor.
  - exact Hd.
  - constructor.
  - intros kt Hkt. unfold jitems in Hkt. apply list_elem_of_fmap in Hkt.
    destruct Hkt as (kx & -> & Hkx). apply depth_dict_le in Hkx. simpl in *. lia.
Qed.

(** ** Re-indexing a deep copy *)

Section Reindexing.

(** Indexing a stored JSON object gives an index denoting the index of the
    object. *)
Lemma parse_template_repr fuel h root d :
  repr h root (JDict d) -> (depth (JDict d) <= fuel)%nat ->
  exists po h',
    parse_template_parameters fuel root [] h = Ok po h'
    /\ ext h h' /\ repr_index h' po (document_index fuel d).
Proof.
  intros Hr Hd.
  inversion Hr as [| | | | | | a items ts Ha Hnd Hitems]; subst.
  unfold parse_template_parameters, document_index.
  apply (parse_dict_repr fuel (VRef a) items (jitems d) (VRef a) (false, JDict d)
           [] [] [] [] [] h).
  - simpl in Hd. lia.
  - now apply py_items_dict.
  - now apply repr_items_jitems.
  - intros kt Hkt. unfold jitems in Hkt. apply list_elem_of_fmap in Hkt.
    destruct Hkt as (kx & -> & Hkx). apply depth_dict_le in Hkx. simpl in *. lia.
  - exists d. split; [reflexivity|exact Hr].
  - constructor.
  - constructor.
Qed.

(** C6. For every template (a JSON object), the index computed on the loaded
    template and the index computed again on an independent deep copy are
    equal under [==]: same placeholders, same key paths, same anchor stacks,
    root objects compared field for field.  Any budget of at least the depth
    of the template is enough. *)
Theorem C6_reindexing_a_deep_copy_gives_an_equal_index
    (d : list (string * json)) (n : nat) (h : heap) :
  let fuel := (depth (JDict d) + n)%nat in
  returns
    ((root_template ← json_load (JDict d);
      parameters_object ← parse_template_parameters fuel root_template [];
      ldm ← deepcopy fuel root_template;
      new_parameters_object ← parse_template_parameters fuel ldm [];
      index_eq fuel new_parameters_object parameters_object) h)
    true.
Proof.
  intros fuel.
  destruct (json_load_repr (JDict d) h) as (root & h1 & Hload & _ & Hroot).
  assert (Hdepth : (depth (norm (JDict d)) <= fuel)%nat).
  { pose proof (norm_depth (JDict d)). unfold fuel. lia. }
  cbn [norm] in Hroot, Hdepth.
  set (d' := fold_left (fun acc (kx : string * json) => jset kx.1 (norm kx.2) acc) d [])
    in Hroot, Hdepth.
  destruct (parse_template_repr fuel h1 root d' Hroot Hdepth)
    as (po & h2 & Hparse & He2 & Hpo).
  destruct (deepcopy_repr fuel root (JDict d') h2) as (ldm & h3 & Hcopy & He3 & Hldm);
    [eapply repr_ext; eassumption|exact Hdepth|].
  destruct (parse_template_repr fuel h3 ldm d' Hldm Hdepth)
    as (po' & h4 & Hparse' & He4 & Hpo').
  exists h4.
  rewrite (bind_ok _ _ _ _ _ Hload), (bind_ok _ _ _ _ _ Hparse),
    (bind_ok _ _ _ _ _ Hcopy), (bind_ok _ _ _ _ _ Hparse').
  apply (index_eq_repr fuel h4 po' po (document_index fuel d')).
  - exact Hpo'.
  - eapply repr_index_ext; [|exact Hpo]. eapply ext_trans; eassumption.
  - now apply document_index_ok.
Qed.

End Reindexing.

(** ** Column binding: the coordinate loop ends *)

Lemma nthZ_insert_eq (l : list Z) (i : nat) (x : Z) :
  (i < length l)%nat -> nthZ (<[i:=x]> l) i = x.
Proof. intros H. unfold nthZ. now rewrite list_lookup_insert_eq. Qed.

Lemma nthZ_insert_ne (l : list Z) (i j : nat) (x : Z) :
  i <> j -> nthZ (<[i:=x]> l) j = nthZ l j.
Proof. intros H. unfold nthZ. now rewrite list_lookup_insert_ne. Qed.

Lemma zero_from_length i d l : length (zero_from i d l) = length l.
Proof.
  unfold zero_from. induction (seq i (d - i)) as [|j js IH]; simpl; [reflexivity|].
  now rewrite length_insert.
Qed.

Lemma nthZ_zero_from i d l j :
  (d <= length l)%nat ->
  nthZ (zero_from i d l) j = if bool_decide (i <= j < d)%nat then 0 else nthZ l j.
Proof.
  intros Hlen. unfold zero_from.
  assert (H : forall js,
             (forall x, x ∈ js -> x < length l)%nat ->
             nthZ (fold_right (fun j l => <[j:=0]> l) l js) j
             = if bool_decide (j ∈ js) then 0 else nthZ l j).
  { induction js as [|x js IH]; intros Hjs; cbn [fold_right].
    - rewrite bool_decide_false; [reflexivity|apply not_elem_of_nil].
    - destruct (decide (x = j)) as [->|Hne].
      + rewrite nthZ_insert_eq.
        * rewrite bool_decide_true; [reflexivity|left].
        * assert (Hl : length (fold_right (fun j l => <[j:=0]> l) l js) = length l).
          { clear. induction js; simpl; [reflexivity|now rewrite length_insert]. }
          rewrite Hl. apply Hjs. left.
      + rewrite nthZ_insert_ne by exact Hne. rewrite IH.
        * destruct (bool_decide (j ∈ js)) eqn:E.
          -- apply bool_decide_eq_true in E. rewrite bool_decide_true; [reflexivity|now right].
          -- apply bool_decide_eq_false in E. rewrite bool_decide_false; [reflexivity|].
             intros Hin. apply elem_of_cons in Hin. destruct Hin; [congruence|contradiction].
        * intros y Hy. apply Hjs. now right. }
  rewrite H.
  - destruct (bool_decide (i <= j < d)%nat) eqn:E.
    + apply bool_decide_eq_true in E. rewrite bool_decide_true; [reflexivity|].
      apply list_elem_of_In, in_seq. lia.
    + apply bool_decide_eq_false in E. rewrite bool_decide_false; [reflexivity|].
      intros Hin. apply list_elem_of_In, in_seq in Hin. lia.
  - intros x Hx. apply list_elem_of_In, in_seq in Hx. lia.
Qed.

Lemma remaining_agree n cnt ic ic' :
  (forall i, (i < n)%nat -> nthZ ic' i = nthZ ic i) ->
  remaining n cnt ic' = remaining n cnt ic.
Proof.
  induction n as [|n IH]; intros H; simpl; [reflexivity|].
  rewrite IH by (intros; apply H; lia). rewrite H by lia. reflexivity.
Qed.

Lemma remaining_nonneg n d cnt ic :
  digits_ok d cnt ic -> (n <= d)%nat -> 0 <= remaining n cnt ic.
Proof.
  intros Hok. induction n as [|n IH]; intros Hn; simpl; [lia|].
  specialize (Hok n ltac:(lia)). specialize (IH ltac:(lia)). nia.
Qed.

Section Counter.

Variables (d : nat) (indexes_count : list Z).

Lemma carried_digits i ic j :
  (i < d)%nat -> (d < length ic)%nat ->
  nthZ (carried d i ic) j =
    if decide (j = i) then nthZ ic i + 1
    else if bool_decide (i <= j < d)%nat then 0 else nthZ ic j.
Proof.
  intros Hi Hlen. unfold carried. destruct (decide (j = i)) as [->|Hne].
  - rewrite nthZ_insert_eq; [reflexivity|]. rewrite zero_from_length. lia.
  - rewrite nthZ_insert_ne by congruence. apply nthZ_zero_from. lia.
Qed.

Lemma carried_remaining i ic :
  (i < d)%nat -> (d < length ic)%nat ->
  digits_ok d indexes_count ic ->
  (forall j, (i < j < d)%nat -> nthZ ic j = Z.max (nthZ indexes_count j) 1 - 1) ->
  forall m, (i < m <= d)%nat ->
  remaining m indexes_count (carried d i ic) + 1 = remaining m indexes_count ic.
Proof.
  intros Hi Hlen Hok Hmax m Hm. induction m as [|m IH]; [lia|].
  cbn [remaining]. rewrite (carried_digits i ic m Hi Hlen).
  destruct (decide (m = i)) as [->|Hne].
  - rewrite (remaining_agree i indexes_count ic (carried d i ic)); [lia|].
    intros j Hj. rewrite (carried_digits i ic j Hi Hlen).
    destruct (decide (j = i)); [lia|].
    rewrite bool_decide_false by lia. reflexivity.
  - rewrite bool_decide_true by lia.
    specialize (IH ltac:(lia)). rewrite (Hmax m) by lia.
    assert (Hr : remaining m indexes_count (carried d i ic)
                 = remaining m indexes_count ic - 1) by lia.
    rewrite Hr. ring.
Qed.

Lemma carried_ok i ic :
  (i < d)%nat -> (d < length ic)%nat ->
  digits_ok d indexes_count ic ->
  nthZ ic i + 1 < nthZ indexes_count i ->
  digits_ok d indexes_count (carried d i ic).
Proof.
  intros Hi Hlen Hok Hlt j Hj. rewrite (carried_digits i ic j Hi Hlen).
  destruct (decide (j = i)) as [->|Hne].
  - specialize (Hok i Hi). lia.
  - destruct (bool_decide (i <= j < d)%nat); [lia|]. apply Hok, Hj.
Qed.

(** One pass of the carry loop either finds every coordinate at its maximum
    and reports the end, or moves to the next vector. *)
Lemma advance_spec n : forall ic done0,
  (n <= d)%nat -> (d < length ic)%nat ->
  digits_ok d indexes_count ic ->
  (forall j, (n <= j < d)%nat -> nthZ ic j = Z.max (nthZ indexes_count j) 1 - 1) ->
  let r := advance n d indexes_count ic done0 in
  (r.1 = ic /\ remaining d indexes_count ic = 0
   /\ r.2 = match n with O => done0 | S _ => true end)
  \/ ((0 < n)%nat /\ (r.2 = done0 \/ r.2 = false)
      /\ digits_ok d indexes_count r.1 /\ length r.1 = length ic
      /\ remaining d indexes_count r.1 + 1 = remaining d indexes_count ic).
Proof.
  induction n as [|i IH]; intros ic done0 Hn Hlen Hok Hmax r.
  - left. subst r. simpl. split; [reflexivity|]. split; [|reflexivity].
    clear Hn. assert (H : forall m, (m <= d)%nat -> remaining m indexes_count ic = 0).
    { induction m as [|m IHm]; intros Hm; simpl; [reflexivity|].
      rewrite IHm by lia. rewrite (Hmax m) by lia. lia. }
    now apply H.
  - subst r. cbn [advance].
    destruct (nthZ ic i + 1 <? nthZ indexes_count i) eqn:E.
    + apply Z.ltb_lt in E. right. cbn [fst snd].
      fold (carried d i ic).
      split; [lia|]. split; [now left|].
      split; [apply carried_ok; (lia || assumption)|].
      split.
      * unfold carried. now rewrite length_insert, zero_from_length.
      * apply carried_remaining; try assumption; lia.
    + apply Z.ltb_ge in E.
      assert (Hmax' : forall j, (i <= j < d)%nat ->
                 nthZ ic j = Z.max (nthZ indexes_count j) 1 - 1).
      { intros j Hj. destruct (decide (j = i)) as [->|Hne]; [|apply Hmax; lia].
        specialize (Hok i ltac:(lia)). lia. }
      destruct (IH ic (i =? 0)%nat ltac:(lia) Hlen Hok Hmax')
        as [(H1 & H2 & H3)|(H0 & H1 & H2 & H3 & H4)].
      * left. split; [exact H1|]. split; [exact H2|].
        rewrite H3. destruct i; reflexivity.
      * right. split; [lia|]. split.
        -- right. destruct H1 as [H1|H1]; [|exact H1].
           rewrite H1. apply Nat.eqb_neq. lia.
        -- split; [exact H2|]. split; [exact H3|exact H4].
Qed.

End Counter.

Lemma get_column_index_faults names name h :
  returns_or_faults h (get_column_index names name h).
Proof.
  unfold get_column_index.
  destruct (index_of name names 0) as [idx|]; [|left; eexists; reflexivity].
  destruct (index_of name (drop (S idx) names) (S idx));
    [right; do 2 eexists; reflexivity|left; eexists; reflexivity].
Qed.

Lemma digits_ok_insert_slot d cnt ic x :
  digits_ok d cnt ic -> digits_ok d cnt (<[d:=x]> ic).
Proof.
  intros Hok i Hi. rewrite nthZ_insert_ne by lia. now apply Hok.
Qed.

Lemma bind_cells_ends names key d cnt : forall fuel ic cells h,
  (0 < d)%nat -> (d < length ic)%nat ->
  digits_ok d cnt ic ->
  remaining d cnt ic < Z.of_nat fuel ->
  returns_or_faults h (bind_cells fuel names key d cnt ic cells h).
Proof.
  induction fuel as [|fuel IH]; intros ic cells h Hd Hlen Hok Hrem.
  - pose proof (remaining_nonneg d d cnt ic Hok ltac:(lia)). lia.
  - cbn [bind_cells].
    destruct (get_column_index_faults names (parameter_with_indexes key d ic) h)
      as [[csv Hcsv]|(msg & arg & Hcsv)];
      [|right; exists msg, arg; now rewrite (bind_raise _ _ _ _ _ Hcsv)].
    rewrite (bind_ok _ _ _ _ _ Hcsv).
    set (ic1 := if csv >=? 0 then <[d:=csv]> ic else ic).
    assert (Hlen1 : (d < length ic1)%nat).
    { unfold ic1. destruct (csv >=? 0); [now rewrite length_insert|exact Hlen]. }
    assert (Hok1 : digits_ok d cnt ic1).
    { unfold ic1. destruct (csv >=? 0); [now apply digits_ok_insert_slot|exact Hok]. }
    assert (Hrem1 : remaining d cnt ic1 = remaining d cnt ic).
    { unfold ic1. destruct (csv >=? 0); [|reflexivity].
      apply remaining_agree. intros i Hi. apply nthZ_insert_ne. lia. }
    pose proof (advance_spec d cnt d ic1 false ltac:(lia) Hlen1 Hok1 ltac:(intros; lia))
      as Hadv.
    cbv zeta in Hadv. destruct (advance d d cnt ic1 false) as [ic2 done].
    cbn [fst snd] in Hadv.
    destruct Hadv as [(_ & _ & Hdone)|(_ & Hdone & Hok2 & Hlen2 & Hrem2)].
    + destruct d; [lia|]. subst done. left. eexists; reflexivity.
    + assert (done = false) as -> by (destruct Hdone; assumption).
      apply IH; try assumption; lia.
Qed.

Lemma box_size_remaining d cnt :
  Z.of_nat (box_size d cnt) = remaining d cnt (replicate d 0 ++ [-1]) + 1.
Proof.
  assert (H : forall n, (n <= d)%nat ->
             Z.of_nat (box_size n cnt) = remaining n cnt (replicate d 0 ++ [-1]) + 1).
  { induction n as [|n IH]; intros Hn; [reflexivity|].
    cbn [box_size remaining]. rewrite Nat2Z.inj_mul, IH by lia.
    assert (Hz : nthZ (replicate d 0 ++ [-1]) n = 0).
    { unfold nthZ. rewrite lookup_app_l by (rewrite length_replicate; lia).
      rewrite lookup_replicate_2 by lia. reflexivity. }
    rewrite Hz, Z2Nat.id by lia. ring. }
  now apply H.
Qed.

Lemma zeros_ok d cnt : digits_ok d cnt (replicate d 0 ++ [-1]).
Proof.
  intros i Hi. unfold nthZ. rewrite lookup_app_l by (rewrite length_replicate; lia).
  rewrite lookup_replicate_2 by lia. simpl. lia.
Qed.

(** ** Column binding: a bound parameter met again inside an array *)

Lemma colmap_get_set_eq p b m : colmap_get p (colmap_set p b m) = Some b.
Proof.
  induction m as [|[p1 b1] m IH]; simpl; [now rewrite String.eqb_refl|].
  destruct (String.eqb p p1) eqn:E; simpl; rewrite E; [reflexivity|exact IH].
Qed.

Lemma foldM_app {A B} (f : A -> B -> M A) l1 l2 acc h :
  foldM f (l1 ++ l2) acc h = bind (foldM f l1 acc) (fun acc' => foldM f l2 acc') h.
Proof.
  revert acc h. induction l1 as [|x l1 IH]; intros acc h; [reflexivity|].
  cbn [foldM app]. unfold bind in *.
  destruct (f acc x h) as [a h1| |]; [|reflexivity..]. apply IH.
Qed.

Lemma foldM_faults {A B} (f : A -> B -> M A) :
  (forall acc x h, returns_or_faults h (f acc x h)) ->
  forall l acc h, returns_or_faults h (foldM f l acc h).
Proof.
  intros Hf. induction l as [|x l IH]; intros acc h; [left; eexists; reflexivity|].
  cbn [foldM]. destruct (Hf acc x h) as [[a Ha]|(msg & arg & Ha)].
  - rewrite (bind_ok _ _ _ _ _ Ha). apply IH.
  - right. exists msg, arg. now rewrite (bind_raise _ _ _ _ _ Ha).
Qed.

Section Binder.

Variables (column_names : list string) (parameter : string).

Let parameter_key := parameter_key_of parameter.

Lemma bind_occurrence_faults m r h :
  returns_or_faults h (bind_occurrence column_names parameter parameter_key m r h).
Proof.
  unfold bind_occurrence. destruct (length r.2 =? 0)%nat eqn:Ed.
  - destruct (colmap_get parameter m); [left; eexists; reflexivity|].
    destruct (get_column_index_faults column_names parameter_key h)
      as [[csv Hcsv]|(msg & arg & Hcsv)].
    + rewrite (bind_ok _ _ _ _ _ Hcsv).
      destruct (csv >=? 0); left; eexists; reflexivity.
    + right. exists msg, arg. now rewrite (bind_raise _ _ _ _ _ Hcsv).
  - destruct (colmap_get parameter m); [right; do 2 eexists; reflexivity|].
    apply Nat.eqb_neq in Ed.
    destruct (bind_cells_ends column_names parameter_key (length r.2)
                (max_indexes column_names parameter_key (length r.2))
                (box_size (length r.2)
                   (max_indexes column_names parameter_key (length r.2)))
                (replicate (length r.2) 0 ++ [-1]) [] h)
      as [[cells Hc]|(msg & arg & Hc)].
    + lia.
    + rewrite length_app, length_replicate. simpl. lia.
    + apply zeros_ok.
    + rewrite box_size_remaining. lia.
    + rewrite (bind_ok _ _ _ _ _ Hc). left. eexists; reflexivity.
    + right. exists msg, arg. now rewrite (bind_raise _ _ _ _ _ Hc).
Qed.

(** The fault itself: an array-nested occurrence of a parameter that already
    has a binding, scalar or array. *)
Lemma bind_occurrence_array_bound m r b h :
  r.2 <> [] -> colmap_get parameter m = Some b ->
  bind_occurrence column_names parameter parameter_key m r h
  = Raise (PyException "Duplicate array parameter not allowed:" parameter) h.
Proof.
  intros Hr Hb. unfold bind_occurrence.
  destruct r.2; [congruence|]. simpl. now rewrite Hb.
Qed.

Lemma bind_occurrence_binds m r h m' h' :
  bind_occurrence column_names parameter parameter_key m r h = Ok m' h' ->
  is_Some (colmap_get parameter m)
  \/ r.2 <> []
  \/ is_Some (index_of parameter_key column_names 0) ->
  is_Some (colmap_get parameter m').
Proof.
  unfold bind_occurrence. intros Hrun Hcase.
  destruct (length r.2 =? 0)%nat eqn:Ed.
  - destruct (colmap_get parameter m) as [b|] eqn:Hb.
    + inversion Hrun; subst. rewrite Hb. now eexists.
    + destruct Hcase as [[b Hb']|[Hr|[idx Hidx]]]; [discriminate| |].
      * destruct r.2; [congruence|discriminate].
      * unfold get_column_index in Hrun. rewrite Hidx in Hrun.
        destruct (index_of parameter_key (drop (S idx) column_names) (S idx));
          [discriminate|].
        rewrite bind_ret in Hrun.
        replace (Z.of_nat idx >=? 0) with true in Hrun
          by (symmetry; apply Z.geb_le; lia).
        inversion Hrun; subst. rewrite colmap_get_set_eq. now eexists.
  - destruct (colmap_get parameter m); [discriminate|].
    apply bind_inv_ok in Hrun as (cells & h1 & _ & Hret).
    inversion Hret; subst. rewrite colmap_get_set_eq. now eexists.
Qed.

Lemma bind_recs_bound_array l2 : forall m r2 l3 h,
  is_Some (colmap_get parameter m) -> r2.2 <> [] ->
  exists msg arg,
    foldM (bind_occurrence column_names parameter parameter_key) (l2 ++ r2 :: l3) m h
    = Raise (PyException msg arg) h.
Proof.
  induction l2 as [|r l2 IH]; intros m r2 l3 h [b Hb] Hr2; cbn [app foldM].
  - exists "Duplicate array parameter not allowed:"%string, parameter.
    now rewrite (bind_raise _ _ _ _ _ (bind_occurrence_array_bound m r2 b h Hr2 Hb)).
  - destruct (bind_occurrence_faults m r h) as [[m1 Hm1]|(msg & arg & Hm1)].
    + rewrite (bind_ok _ _ _ _ _ Hm1). apply IH; [|exact Hr2].
      apply (bind_occurrence_binds m r h m1 h Hm1). left. exists b. exact Hb.
    + exists msg, arg. now rewrite (bind_raise _ _ _ _ _ Hm1).
Qed.

Lemma bind_recs_rebinds recs m h :
  rebinds_array column_names parameter recs ->
  exists msg arg,
    foldM (bind_occurrence column_names parameter parameter_key) recs m h
    = Raise (PyException msg arg) h.
Proof.
  intros (l1 & r1 & l2 & r2 & l3 & -> & Hr2 & Hr1).
  rewrite foldM_app.
  destruct (foldM_faults _ bind_occurrence_faults l1 m h) as [[m1 Hm1]|(msg & arg & Hm1)];
    [|exists msg, arg; now rewrite (bind_raise _ _ _ _ _ Hm1)].
  rewrite (bind_ok _ _ _ _ _ Hm1). cbn [foldM].
  destruct (bind_occurrence_faults m1 r1 h) as [[m2 Hm2]|(msg & arg & Hm2)];
    [|exists msg, arg; now rewrite (bind_raise _ _ _ _ _ Hm2)].
  rewrite (bind_ok _ _ _ _ _ Hm2).
  apply bind_recs_bound_array; [|exact Hr2].
  apply (bind_occurrence_binds m1 r1 h m2 h Hm2). right. exact Hr1.
Qed.

End Binder.

Lemma bind_parameters_faults column_names po h :
  returns_or_faults h (bind_parameters column_names po h).
Proof.
  unfold bind_parameters. apply foldM_faults. intros m pr h'.
  apply foldM_faults. intros. apply bind_occurrence_faults.
Qed.

Lemma bind_parameters_rebinds column_names po parameter recs h :
  (parameter, recs) ∈ po ->
  rebinds_array column_names parameter recs ->
  exists msg arg, bind_parameters column_names po h = Raise (PyException msg arg) h.
Proof.
  intros Hin Hre. apply list_elem_of_split in Hin. destruct Hin as (pre & post & ->).
  unfold bind_parameters. rewrite foldM_app.
  fold (bind_parameters column_names pre).
  destruct (bind_parameters_faults column_names pre h) as [[m Hm]|(msg & arg & Hm)];
    [|exists msg, arg; now rewrite (bind_raise _ _ _ _ _ Hm)].
  rewrite (bind_ok _ _ _ _ _ Hm). cbn [foldM fst snd].
  destruct (bind_recs_rebinds column_names parameter recs m h Hre) as (msg & arg & Hr).
  exists msg, arg. now rewrite (bind_raise _ _ _ _ _ Hr).
Qed.

Section BinderRun.

Context {lib : PyLib}.


End BinderRun.


(** ** The frame of a row: what a computation may touch *)

Section Frame.

Variable h0 : heap.

Abbreviation n0 := (length h0).

Lemma keeps_refl : keeps h0 h0.
Proof.
  split; [lia|]. split; [reflexivity|].
  intros a o Ha Ho. apply lookup_lt_Some in Ho. lia.
Qed.

Lemma safe_ret {A} (a : A) (Q : A -> Prop) : Q a -> safe h0 (ret a) Q.
Proof. intros Hq h Hk. simpl. now split. Qed.

Lemma safe_raise {A} (e : exn) (Q : A -> Prop) : safe h0 (raise e) Q.
Proof. intros h Hk. exact Hk. Qed.

Lemma safe_stuck {A} (Q : A -> Prop) : safe h0 stuck Q.
Proof. intros h Hk. exact I. Qed.

Lemma safe_bind {A B} (m : M A) (f : A -> M B) (P : A -> Prop) (Q : B -> Prop) :
  safe h0 m P -> (forall a, P a -> safe h0 (f a) Q) -> safe h0 (bind m f) Q.
Proof.
  intros Hm Hf h Hk. specialize (Hm h Hk). unfold bind.
  destruct (m h) as [a h1|e h1|]; [|exact Hm|exact I].
  destruct Hm as [Hk1 Hp]. exact (Hf a Hp h1 Hk1).
Qed.

Lemma safe_weaken {A} (m : M A) (P Q : A -> Prop) :
  safe h0 m P -> (forall a, P a -> Q a) -> safe h0 m Q.
Proof.
  intros Hm Hpq h Hk. specialize (Hm h Hk).
  destruct (m h) as [a h1|e h1|]; [|exact Hm|exact I].
  destruct Hm as [Hk1 Hp]. split; [exact Hk1|now apply Hpq].
Qed.

Lemma safe_try {A} (m : M A) (Q : A -> Prop) :
  safe h0 m Q ->
  safe h0 (try_ m) (fun r => match r with inr a => Q a | inl _ => True end).
Proof.
  intros Hm h Hk. specialize (Hm h Hk). unfold try_.
  destruct (m h) as [a h1|e h1|]; [exact Hm| |exact I]. now split.
Qed.

Lemma safe_alloc (o : obj) :
  closed_obj n0 o -> safe h0 (alloc o) (fresh_val n0).
Proof.
  intros Ho h (Hlen & Hold & Hnew). unfold alloc. split; [split; [|split]|];
    cbn [length].
  - rewrite length_app. simpl. lia.
  - intros a Ha. rewrite lookup_app_l by lia. now apply Hold.
  - intros a o' Ha Hlook.
    destruct (decide (a < length h)%nat) as [Hlt|Hge].
    + rewrite lookup_app_l in Hlook by exact Hlt. now apply (Hnew a).
    + rewrite lookup_app_r in Hlook by lia.
      destruct (a - length h)%nat; simpl in Hlook; [|discriminate].
      now inversion Hlook; subst.
  - simpl. exact Hlen.
Qed.

(** Reading an object: a newer one is closed. *)
Lemma safe_deref (a : addr) :
  safe h0 (deref a) (fun o => (n0 <= a)%nat -> closed_obj n0 o).
Proof.
  intros h Hk. unfold deref. destruct (h !! a) as [o|] eqn:E; [|exact I].
  split; [exact Hk|]. intros Ha. destruct Hk as (_ & _ & Hnew). now apply (Hnew a).
Qed.

Lemma safe_store (a : addr) (o : obj) :
  (n0 <= a)%nat -> closed_obj n0 o -> safe h0 (store a o) (fun _ => True).
Proof.
  intros Ha Ho h (Hlen & Hold & Hnew). unfold store.
  destruct (a <? length h)%nat eqn:E; [|exact I]. apply Nat.ltb_lt in E.
  split; [|exact I]. split; [|split].
  - now rewrite length_insert.
  - intros b Hb. rewrite list_lookup_insert_ne by lia. now apply Hold.
  - intros b o' Hb Hlook. destruct (decide (a = b)) as [->|Hne].
    + rewrite list_lookup_insert_eq in Hlook by exact E. now inversion Hlook; subst.
    + rewrite list_lookup_insert_ne in Hlook by exact Hne. now apply (Hnew b).
Qed.

Lemma safe_foldM {A B} (f : A -> B -> M A) (I : A -> Prop) (P : B -> Prop) :
  (forall acc x, I acc -> P x -> safe h0 (f acc x) I) ->
  forall l acc, Forall P l -> I acc -> safe h0 (foldM f l acc) I.
Proof.
  intros Hf. induction l as [|x l IH]; intros acc Hl Hacc; cbn [foldM].
  - now apply safe_ret.
  - inversion Hl; subst. eapply safe_bind; [now apply Hf|].
    intros acc' Hacc'. now apply IH.
Qed.

Lemma safe_forM_ {B} (f : B -> M unit) (P : B -> Prop) :
  (forall x, P x -> safe h0 (f x) (fun _ => True)) ->
  forall l, Forall P l -> safe h0 (forM_ f l) (fun _ => True).
Proof.
  intros Hf. induction l as [|x l IH]; intros Hl; cbn [forM_].
  - now apply safe_ret.
  - inversion Hl; subst. eapply safe_bind; [now apply Hf|].
    intros _ _. now apply IH.
Qed.

Lemma safe_allM {B} (f : B -> M bool) (P : B -> Prop) :
  (forall x, P x -> safe h0 (f x) (fun _ => True)) ->
  forall l, Forall P l -> safe h0 (allM f l) (fun _ => True).
Proof.
  intros Hf. induction l as [|x l IH]; intros Hl; cbn [allM].
  - now apply safe_ret.
  - inversion Hl; subst. eapply safe_bind; [now apply Hf|].
    intros [] _; [now apply IH|now apply safe_ret].
Qed.

Lemma Forall_True {B} (l : list B) : Forall (fun _ => True) l.
Proof. induction l; constructor; auto. Qed.

(** *** The primitive operations *)

Lemma safe_type_of (v : val) : safe h0 (type_of v) (type_fact v).
Proof.
  destruct v; try (apply safe_ret; intros n; exact I).
  unfold type_of. eapply safe_bind; [apply safe_deref|].
  intros [d|l] _; apply safe_ret; exact I.
Qed.

Lemma fresh_dict_get n k d :
  Forall (fun kv : key * val => fresh_val n kv.2) d ->
  forall x, dict_get k d = Some x -> fresh_val n x.
Proof.
  induction 1 as [|[k1 v1] d H1 Hd IH]; intros x; simpl; [discriminate|].
  destruct (key_eqb k k1); [intros E; inversion E; subst; exact H1|apply IH].
Qed.

Lemma fresh_dict_set n k x d :
  fresh_val n x ->
  Forall (fun kv : key * val => fresh_val n kv.2) d ->
  Forall (fun kv : key * val => fresh_val n kv.2) (dict_set k x d).
Proof.
  intros Hx. induction 1 as [|[k1 v1] d H1 Hd IH]; simpl.
  - constructor; [exact Hx|constructor].
  - destruct (key_eqb k k1); constructor; auto.
Qed.

Lemma fresh_dict_del n k d :
  Forall (fun kv : key * val => fresh_val n kv.2) d ->
  Forall (fun kv : key * val => fresh_val n kv.2) (dict_del k d).
Proof.
  induction 1 as [|[k1 v1] d H1 Hd IH]; simpl; [constructor|].
  destruct (key_eqb k k1); [exact Hd|constructor; auto].
Qed.

Lemma fresh_lookup n (l : list val) (i : nat) x :
  Forall (fresh_val n) l -> l !! i = Some x -> fresh_val n x.
Proof.
  intros Hl Hi. rewrite Forall_forall in Hl. apply Hl.
  apply list_elem_of_lookup. now exists i.
Qed.

Lemma fresh_insert n (l : list val) (i : nat) x :
  fresh_val n x -> Forall (fresh_val n) l -> Forall (fresh_val n) (<[i:=x]> l).
Proof. intros Hx Hl. now apply Forall_insert. Qed.

Lemma fresh_delete n (l : list val) (i : nat) :
  Forall (fresh_val n) l -> Forall (fresh_val n) (delete i l).
Proof. intros Hl. now apply Forall_delete. Qed.

(** Reading through a value gives a newer value when the value is newer. *)
Lemma safe_getitem (v : val) (k : key) :
  safe h0 (getitem v k) (fun x => fresh_val n0 v -> fresh_val n0 x).
Proof.
  destruct v as [| | | | s |a]; try apply safe_raise.
  - simpl. destruct k; [apply safe_raise|].
    destruct (list_index z (String.length s)); [|apply safe_raise].
    apply safe_ret. intros _. exact I.
  - unfold getitem. eapply safe_bind; [apply safe_deref|].
    intros [d|l] Hc.
    + destruct (dict_get k d) as [x|] eqn:E; [|apply safe_raise].
      apply safe_ret. intros Ha. eapply fresh_dict_get; [apply Hc, Ha|exact E].
    + destruct k; [apply safe_raise|].
      destruct (list_index z (length l)); [|apply safe_raise].
      destruct (l !! n) as [x|] eqn:E; [|apply safe_raise].
      apply safe_ret. intros Ha. eapply fresh_lookup; [apply Hc, Ha|exact E].
Qed.

Lemma safe_setitem (v : val) (k : key) (x : val) :
  fresh_val n0 v -> fresh_val n0 x -> safe h0 (setitem v k x) (fun _ => True).
Proof.
  intros Hv Hx. destruct v as [| | | | s |a]; try apply safe_raise.
  unfold setitem. eapply safe_bind; [apply safe_deref|].
  intros [d|l] Hc.
  - apply safe_store; [exact Hv|]. apply fresh_dict_set; [exact Hx|apply Hc, Hv].
  - destruct k; [apply safe_raise|].
    destruct (list_index z (length l)); [|apply safe_raise].
    apply safe_store; [exact Hv|]. apply fresh_insert; [exact Hx|apply Hc, Hv].
Qed.

Lemma safe_delitem (v : val) (k : key) :
  fresh_val n0 v -> safe h0 (delitem v k) (fun _ => True).
Proof.
  intros Hv. destruct v as [| | | | s |a]; try apply safe_raise.
  unfold delitem. eapply safe_bind; [apply safe_deref|].
  intros [d|l] Hc.
  - destruct (dict_get k d); [|apply safe_raise].
    apply safe_store; [exact Hv|]. apply fresh_dict_del. apply Hc, Hv.
  - destruct k; [apply safe_raise|].
    destruct (list_index z (length l)); [|apply safe_raise].
    apply safe_store; [exact Hv|]. apply fresh_delete. apply Hc, Hv.
Qed.

Lemma safe_py_get (v : val) (k : key) :
  safe h0 (py_get v k) (fun x => fresh_val n0 v -> fresh_val n0 x).
Proof.
  destruct v as [| | | | s |a]; try apply safe_raise.
  unfold py_get. eapply safe_bind; [apply safe_deref|].
  intros [d|l] Hc; [|apply safe_raise].
  apply safe_ret. intros Ha. destruct (dict_get k d) as [x|] eqn:E; [|exact I].
  eapply fresh_dict_get; [apply Hc, Ha|exact E].
Qed.

Lemma safe_py_contains (v : val) (k : key) :
  safe h0 (py_contains v k) (fun _ => True).
Proof.
  destruct v as [| | | | s |a]; try apply safe_raise.
  unfold py_contains. eapply safe_bind; [apply safe_deref|].
  intros [d|l] _; now apply safe_ret.
Qed.

Lemma safe_py_pop_default (v : val) (k : key) :
  fresh_val n0 v -> safe h0 (py_pop_default v k) (fresh_val n0).
Proof.
  intros Hv. destruct v as [| | | | s |a]; try apply safe_raise.
  unfold py_pop_default. eapply safe_bind; [apply safe_deref|].
  intros [d|l] Hc; [|apply safe_raise].
  destruct (dict_get k d) as [x|] eqn:E; [|now apply safe_ret].
  eapply safe_bind.
  - apply safe_store; [exact Hv|]. apply fresh_dict_del. apply Hc, Hv.
  - intros _ _. apply safe_ret. eapply fresh_dict_get; [apply Hc, Hv|exact E].
Qed.

Lemma safe_py_pop (v : val) (k : key) :
  fresh_val n0 v -> safe h0 (py_pop v k) (fresh_val n0).
Proof.
  intros Hv. destruct v as [| | | | s |a]; try apply safe_raise.
  unfold py_pop. eapply safe_bind; [apply safe_deref|].
  intros [d|l] Hc; [|apply safe_raise].
  destruct (dict_get k d) as [x|] eqn:E; [|apply safe_raise].
  eapply safe_bind.
  - apply safe_store; [exact Hv|]. apply fresh_dict_del. apply Hc, Hv.
  - intros _ _. apply safe_ret. eapply fresh_dict_get; [apply Hc, Hv|exact E].
Qed.

Lemma safe_py_items (v : val) :
  safe h0 (py_items v)
    (fun items => fresh_val n0 v -> Forall (fun kv : key * val => fresh_val n0 kv.2) items).
Proof.
  destruct v as [| | | | s |a]; try apply safe_raise.
  unfold py_items. eapply safe_bind; [apply safe_deref|].
  intros [d|l] Hc; [|apply safe_raise]. apply safe_ret. exact Hc.
Qed.

Lemma safe_py_list_items (v : val) :
  safe h0 (py_list_items v) (fun items => fresh_val n0 v -> Forall (fresh_val n0) items).
Proof.
  destruct v as [| | | | s |a]; try apply safe_raise.
  unfold py_list_items. eapply safe_bind; [apply safe_deref|].
  intros [d|l] Hc; apply safe_ret; [|exact Hc].
  intros _. apply Forall_forall. intros x Hx. apply list_elem_of_fmap in Hx.
  destruct Hx as ([k y] & -> & _). now destruct k.
Qed.

Lemma safe_py_len (v : val) : safe h0 (py_len v) (fun _ => True).
Proof.
  destruct v as [| | | | s |a]; try apply safe_raise; [now apply safe_ret|].
  unfold py_len. eapply safe_bind; [apply safe_deref|].
  intros o _. now apply safe_ret.
Qed.

Lemma safe_py_append (v x : val) :
  fresh_val n0 v -> fresh_val n0 x -> safe h0 (py_append v x) (fun _ => True).
Proof.
  intros Hv Hx. destruct v as [| | | | s |a]; try apply safe_raise.
  unfold py_append. eapply safe_bind; [apply safe_deref|].
  intros [d|l] Hc; [apply safe_raise|].
  apply safe_store; [exact Hv|]. apply Forall_app. split; [apply Hc, Hv|].
  constructor; [exact Hx|constructor].
Qed.

Lemma safe_new_dict d :
  Forall (fun kv : key * val => fresh_val n0 kv.2) d -> safe h0 (new_dict d) (fresh_val n0).
Proof. intros Hd. now apply safe_alloc. Qed.

Lemma safe_new_list l :
  Forall (fresh_val n0) l -> safe h0 (new_list l) (fresh_val n0).
Proof. intros Hl. now apply safe_alloc. Qed.

Lemma safe_isinstance_dict v : safe h0 (isinstance_dict v) (fun _ => True).
Proof.
  unfold isinstance_dict. eapply safe_bind; [apply safe_type_of|].
  intros ty _. now apply safe_ret.
Qed.

(** [copy.deepcopy] allocates; its result is new whatever it copies. *)
Lemma safe_deepcopy (fuel : nat) : forall v, safe h0 (deepcopy fuel v) (fresh_val n0).
Proof.
  induction fuel as [|fuel IH]; intros v.
  - destruct v; try (now apply safe_ret). apply safe_stuck.
  - destruct v; try (now apply safe_ret).
    cbn [deepcopy]. eapply safe_bind; [apply safe_deref|].
    intros [d|l] _.
    + eapply safe_bind; [|intros d' Hd'; apply safe_new_dict; exact Hd'].
      apply (safe_foldM _ _ (fun _ => True)); [|apply Forall_True|constructor].
      intros acc kv Hacc _. eapply safe_bind; [apply IH|].
      intros x Hx. apply safe_ret. apply Forall_app. split; [exact Hacc|].
      constructor; [exact Hx|constructor].
    + eapply safe_bind; [|intros l' Hl'; apply safe_new_list; exact Hl'].
      apply (safe_foldM _ _ (fun _ => True)); [|apply Forall_True|constructor].
      intros acc x Hacc _. eapply safe_bind; [apply IH|].
      intros y Hy. apply safe_ret. apply Forall_app. split; [exact Hacc|].
      constructor; [exact Hy|constructor].
Qed.

End Frame.

(** ** The frame of a row: the functions of the module *)

Ltac fresh_fwd :=
  repeat match goal with
         | H : fresh_val _ ?v -> _, Hv : fresh_val _ ?v |- _ => specialize (H Hv)
         | H : True -> _ |- _ => specialize (H I)
         end.

Ltac safe_prim :=
  first
    [ apply safe_ret | apply safe_raise | apply safe_stuck
    | apply safe_type_of | apply safe_getitem | apply safe_py_get
    | apply safe_py_items | apply safe_py_list_items | apply safe_py_len
    | apply safe_py_contains | apply safe_isinstance_dict | apply safe_deepcopy
    | apply safe_setitem | apply safe_delitem | apply safe_py_append
    | apply safe_py_pop | apply safe_py_pop_default
    | apply safe_new_dict | apply safe_new_list ].

Ltac fresh_side :=
  try assumption; try exact I;
  try (repeat constructor; simpl; solve [assumption | exact I]).

(** One statement of a sequence: its rule, then the rest with what it gives. *)
Ltac safe_next :=
  eapply safe_bind; [safe_prim; fresh_side|cbv beta; intros ? ?; fresh_fwd].

Tactic Notation "safe_next" "as" ident(x) ident(H) :=
  eapply safe_bind; [safe_prim; fresh_side|cbv beta; intros x H; fresh_fwd].

Section FrameRow.

Variable h0 : heap.

Abbreviation n0 := (length h0).

Lemma safe_descend ks : forall parent_object k0,
  fresh_val n0 parent_object ->
  safe h0 (descend parent_object k0 ks) (fun r => fresh_val n0 r.1).
Proof.
  induction ks as [|k ks IH]; intros parent_object k0 Hp; cbn [descend].
  - now apply safe_ret.
  - safe_next. now apply IH.
Qed.

Lemma safe_get_deepest_key_object root_object keys :
  fresh_val n0 root_object ->
  safe h0 (get_deepest_key_object root_object keys) (fun r => fresh_val n0 r.1).
Proof.
  intros Hr. destruct keys as [|k0 ks]; cbn [get_deepest_key_object].
  - safe_next. now apply safe_ret.
  - now apply safe_descend.
Qed.

Section WithLib.

Context {lib : PyLib}.

Lemma safe_replace_parameter_with_data root_object keys parameter data_row col_index :
  fresh_val n0 root_object ->
  safe h0 (replace_parameter_with_data root_object keys parameter data_row col_index)
    (fun _ => True).
Proof.
  intros Hr. unfold replace_parameter_with_data.
  eapply (safe_bind _ _ _ (fun _ => True)).
  { destruct col_index as [[c|cells]|]; try safe_prim; try exact I.
    destruct (c >? -1); [|now apply safe_ret].
    destruct (data_row !! Z.to_nat c); safe_prim; exact I. }
  intros data _. destruct (String.length data =? 0)%nat; [now apply safe_ret|].
  eapply safe_bind; [now apply safe_get_deepest_key_object|].
  intros [parent_object key] Hp. cbn [fst] in Hp.
  safe_next as cur Hcur.
  destruct cur; try apply safe_raise.
  destruct (Re.fullmatch_typed _ _); [|safe_prim; fresh_side].
  repeat match goal with
         | |- safe _ (if ?b then _ else _) _ => destruct b
         | |- safe _ (match ?x with Some _ => _ | None => _ end) _ => destruct x
         end;
    safe_prim; fresh_side.
Qed.

Lemma safe_grow_array turns fuel array_object index child_object_template :
  fresh_val n0 array_object ->
  safe h0 (grow_array turns fuel array_object index child_object_template)
    (fun _ => True).
Proof.
  intros Ha. induction turns as [|turns IH]; cbn [grow_array].
  - safe_next. destruct (_ <=? _); [apply safe_stuck|now apply safe_ret].
  - safe_next. destruct (_ <=? _); [|now apply safe_ret].
    safe_next. safe_next. exact IH.
Qed.

Lemma safe_get_root_object fuel root_object_key_list indexes :
  Forall (fresh_anchor n0) root_object_key_list ->
  safe h0 (get_root_object fuel root_object_key_list indexes)
    (fun r => fresh_val n0 r.1).
Proof.
  intros Hl. unfold get_root_object.
  destruct root_object_key_list as [|[root_object root_keys] rest] eqn:El;
    [apply safe_raise|].
  rewrite <- El in *. 
  assert (Hroot : fresh_val n0 root_object).
  { rewrite El in Hl. inversion Hl; subst. assumption. }
  eapply safe_bind; [now apply safe_get_deepest_key_object|].
  intros [parent_object key] Hp. cbn [fst] in Hp.
  safe_next.
  eapply (safe_bind h0 _ _ (fun st => fresh_val n0 st.1 /\ fresh_val n0 st.2.1));
    [|intros r [_ Hr]; apply safe_ret; exact Hr].
  apply (safe_foldM h0 _ (fun st => fresh_val n0 st.1 /\ fresh_val n0 st.2.1)
           (fun _ => True)); [|apply Forall_True|split; [assumption|exact I]].
  intros [array_object st] i [Harr _] _. cbn [fst snd] in *.
  destruct (root_object_key_list !! S i) as [[child_object_template child_keys]|] eqn:Ei;
    [|apply safe_raise].
  assert (Hchild : fresh_val n0 child_object_template).
  { rewrite Forall_forall in Hl.
    apply (Hl (child_object_template, child_keys)).
    apply list_elem_of_lookup. now exists (S i). }
  destruct child_keys as [|k0 child_rest]; [apply safe_raise|].
  eapply (safe_bind _ _ _ (fun r => fresh_val n0 r.1)).
  { destruct (key_eqb k0 (KInt 0)); [|now apply safe_ret].
    safe_next. now apply safe_ret. }
  intros [template keys'] Ht. cbn [fst] in Ht.
  eapply safe_bind; [now apply safe_grow_array|]. intros _ _.
  safe_next. safe_next.
  match goal with
  | |- safe _ (let '(_, _) := ?e in _) _ =>
      assert (He : fresh_val n0 e.1)
        by (match goal with
            | |- context [match ?t with TyStr => _ | _ => _ end] => destruct t
            end; assumption);
      destruct e as [return_root return_keys]
  end.
  cbn [fst] in He.
  eapply safe_bind; [now apply safe_get_deepest_key_object|].
  intros [parent_object' key'] Hp'. cbn [fst] in Hp'.
  safe_next. apply safe_ret. now split.
Qed.

Lemma safe_is_item_empty fuel : forall item,
  safe h0 (is_item_empty fuel item) (fun _ => True).
Proof.
  induction fuel as [|fuel IH]; intros item; cbn [is_item_empty]; [apply safe_stuck|].
  safe_next as ty Hty. destruct ty; try (now apply safe_ret).
  - safe_next. apply (safe_allM h0 _ (fun _ => True)); [|apply Forall_True].
    intros [k x] _. apply IH.
  - safe_next. apply (safe_allM h0 _ (fun _ => True)); [|apply Forall_True].
    intros x _. apply IH.
Qed.

Lemma safe_clear fuel :
  (forall lst, fresh_val n0 lst -> safe h0 (clear_list fuel lst) (fun _ => True))
  /\ (forall d, fresh_val n0 d -> safe h0 (clear_dict fuel d) (fun _ => True)).
Proof.
  induction fuel as [|fuel [IHl IHd]]; (split; [intros lst Hv|intros d Hv]);
    try apply safe_stuck.
  - cbn [clear_list]. safe_next.
    eapply safe_bind.
    + apply (safe_forM_ h0 _ (fun _ => True)); [|apply Forall_True].
      intros i _. safe_next as list_val Hlv. safe_next as ty Hty.
      destruct ty; try (now apply safe_ret); try (now apply IHd); try (now apply IHl).
      destruct (str_has_parameter list_val); safe_prim; fresh_side.
    + intros _ _. safe_next.
      apply (safe_forM_ h0 _ (fun _ => True)); [|apply Forall_True].
      intros i _. safe_next.
      eapply safe_bind; [apply safe_is_item_empty|].
      intros [] _; safe_prim; fresh_side.
  - cbn [clear_dict]. safe_next.
    eapply (safe_bind h0 _ _ (fun _ => True)).
    + apply (safe_foldM h0 _ (fun _ => True) (fun kv : key * val => fresh_val n0 kv.2));
        [|assumption|exact I].
      intros acc [k v] _ Hkv. cbn [fst snd] in *. safe_next as ty Hty.
      destruct ty; try (now apply safe_ret).
      * eapply safe_bind; [now apply IHd|]. intros _ _. safe_next. now apply safe_ret.
      * eapply safe_bind; [now apply IHl|]. intros _ _. safe_next. now apply safe_ret.
    + intros to_be_deleted _.
      apply (safe_forM_ h0 _ (fun _ => True)); [|apply Forall_True].
      intros k _. safe_prim; fresh_side.
Qed.

Lemma safe_clear_non_filled_parameters fuel ldm :
  fresh_val n0 ldm -> safe h0 (clear_non_filled_parameters fuel ldm) (fun _ => True).
Proof. apply safe_clear. Qed.

Lemma safe_remove_tags fuel :
  (forall lst, fresh_val n0 lst -> safe h0 (remove_list_tags fuel lst) (fun _ => True))
  /\ (forall d, fresh_val n0 d -> safe h0 (remove_dict_tags fuel d) (fun _ => True)).
Proof.
  induction fuel as [|fuel [IHl IHd]]; (split; [intros lst Hv|intros d Hv]);
    try apply safe_stuck.
  - cbn [remove_list_tags]. safe_next.
    apply (safe_forM_ h0 _ (fresh_val n0)); [|assumption].
    intros item Hitem. safe_next as ty Hty.
    destruct ty; try (now apply safe_ret); [now apply IHd|now apply IHl].
  - cbn [remove_dict_tags]. safe_next.
    eapply (safe_bind h0 _ _ (fun _ => True)).
    + apply (safe_foldM h0 _ (fun _ => True) (fun kv : key * val => fresh_val n0 kv.2));
        [|assumption|exact I].
      intros acc [k v] _ Hkv. cbn [fst snd] in *.
      eapply (safe_bind h0 _ _ (fun _ => True));
        [destruct k; [now apply safe_ret|apply safe_raise]|].
      intros key _. safe_next as ty Hty.
      destruct ty; try (now apply safe_ret).
      * eapply safe_bind; [now apply IHd|]. intros _ _. now apply safe_ret.
      * eapply safe_bind; [now apply IHl|]. intros _ _. now apply safe_ret.
    + intros to_be_replaced _.
      apply (safe_forM_ h0 _ (fun _ => True)); [|apply Forall_True].
      intros [old new] _. cbn [fst snd]. safe_next as cur Hcur.
      destruct (val_is_none cur); [|apply safe_raise].
      safe_next. safe_prim; fresh_side.
Qed.

Lemma safe_remove_special_tags fuel ldm :
  fresh_val n0 ldm -> safe h0 (remove_special_tags fuel ldm) (fun _ => True).
Proof. apply safe_remove_tags. Qed.

Lemma type_fact_fresh v ty :
  type_fact v ty -> ty <> TyDict -> ty <> TyList -> fresh_val n0 v.
Proof. destruct ty; simpl; intros H H1 H2; try congruence; apply H. Qed.

Lemma safe_add_fields fuel :
  (forall des src, fresh_val n0 des -> safe h0 (add_fields_list fuel des src) (fun _ => True))
  /\ (forall des src, fresh_val n0 des -> safe h0 (add_fields_dict fuel des src) (fun _ => True)).
Proof.
  induction fuel as [|fuel [IHl IHd]]; (split; intros des src Hv);
    try apply safe_stuck.
  - cbn [add_fields_list]. safe_next. safe_next.
    destruct (_ || _); [now apply safe_ret|].
    safe_next.
    apply (safe_forM_ h0 _ (fun _ => True)); [|apply Forall_True].
    intros item_src _. safe_next.
    apply (safe_forM_ h0 _ (fresh_val n0)); [|assumption].
    intros item_des Hdes. safe_next as ts Hts. safe_next as td Htd.
    destruct (pytype_eqb _ _); [|now apply safe_ret].
    destruct ts; try (now apply safe_ret); [now apply IHd|now apply IHl].
  - cbn [add_fields_dict]. safe_next.
    apply (safe_forM_ h0 _ (fun _ => True)); [|apply Forall_True].
    intros [k0 v_src] _. cbn [fst snd].
    eapply (safe_bind h0 _ _ (fun _ => True));
      [destruct k0; [now apply safe_ret|apply safe_raise]|].
    intros k _. safe_next as present Hpresent. safe_next as ts Hts.
    eapply (safe_bind h0 _ _ (fun _ => True)).
    { destruct (_ && _); [|now apply safe_ret].
      destruct ts eqn:Ety;
        try (apply safe_setitem; [assumption|];
             apply (type_fact_fresh v_src ts); subst; [assumption|discriminate..]).
      - safe_next. safe_prim; fresh_side.
      - safe_next. safe_prim; fresh_side. }
    intros _ _. safe_next as v_des Hv_des. safe_next as td Htd.
    destruct (_ && _); [|now apply safe_ret].
    destruct ts; try (now apply safe_ret); [now apply IHd|now apply IHl].
Qed.

Lemma safe_add_required_fields fuel ldm required_template :
  fresh_val n0 ldm ->
  safe h0 (add_required_fields fuel ldm required_template) (fun _ => True).
Proof.
  intros Hv. unfold add_required_fields.
  destruct required_template; try (now apply safe_ret).
  all: eapply (safe_bind h0 _ _ (fun _ => True));
    [safe_prim; fresh_side|cbv beta; intros n _].
  all: destruct (n =? 0)%nat; [now apply safe_ret|now apply safe_add_fields].
Qed.

Lemma safe_set_acl_values manifest acl_viewer acl_owner :
  fresh_val n0 manifest ->
  safe h0 (set_acl_values manifest acl_viewer acl_owner) (fun _ => True).
Proof.
  intros Hv. unfold set_acl_values. safe_next as is_dict Hd.
  destruct (negb is_dict); [now apply safe_ret|].
  safe_next. safe_next. safe_next.
  eapply (safe_bind h0 _ _ (fun _ => True)).
  { destruct (truthy acl_viewer); [|now apply safe_ret].
    safe_next. safe_prim; fresh_side. }
  intros _ _.
  destruct (truthy acl_owner); [|now apply safe_ret].
  safe_next. safe_prim; fresh_side.
Qed.

Lemma safe_set_legal_tag manifest legal_tag :
  fresh_val n0 manifest ->
  safe h0 (set_legal_tag manifest legal_tag) (fun _ => True).
Proof.
  intros Hv. unfold set_legal_tag. safe_next as is_dict Hd.
  destruct (negb is_dict); [now apply safe_ret|].
  safe_next. safe_next. safe_next. safe_next. safe_prim; fresh_side.
Qed.

End WithLib.

End FrameRow.

(** ** The frame of a row: comparing and rebuilding the index *)

Section FrameIndex.

Variable h0 : heap.

Abbreviation n0 := (length h0).

Lemma safe_all2M {A} (f : A -> A -> M bool) :
  (forall x y, safe h0 (f x y) (fun _ => True)) ->
  forall l1 l2, safe h0 (all2M f l1 l2) (fun _ => True).
Proof.
  intros Hf. induction l1 as [|x l1 IH]; intros [|y l2]; cbn [all2M];
    try (now apply safe_ret).
  eapply safe_bind; [apply Hf|].
  intros [] _; [apply IH|now apply safe_ret].
Qed.

Lemma safe_seq_eqM {A} (f : A -> A -> M bool) l1 l2 :
  (forall x y, safe h0 (f x y) (fun _ => True)) ->
  safe h0 (seq_eqM f l1 l2) (fun _ => True).
Proof.
  intros Hf. unfold seq_eqM.
  destruct (_ =? _)%nat; [now apply safe_all2M|now apply safe_ret].
Qed.

Lemma safe_dict_subM (f : val -> val -> M bool) d2 :
  (forall x y, safe h0 (f x y) (fun _ => True)) ->
  forall d1, safe h0 (dict_subM f d1 d2) (fun _ => True).
Proof.
  intros Hf. induction d1 as [|[k x] d1 IH]; cbn [dict_subM].
  - now apply safe_ret.
  - destruct (dict_get k d2) as [y|]; [|now apply safe_ret].
    eapply safe_bind; [apply Hf|].
    intros [] _; [apply IH|now apply safe_ret].
Qed.

(** [==] reads the two values and writes nothing. *)
Lemma safe_py_eq fuel : forall x y, safe h0 (py_eq fuel x y) (fun _ => True).
Proof.
  induction fuel as [|fuel IH]; intros x y.
  - destruct x, y; cbn [py_eq]; try (now apply safe_ret).
    destruct (_ =? _)%nat; [now apply safe_ret|apply safe_stuck].
  - destruct x, y; cbn [py_eq]; try (now apply safe_ret).
    destruct (_ =? _)%nat; [now apply safe_ret|].
    eapply safe_bind; [apply safe_deref|]. intros ox _.
    eapply safe_bind; [apply safe_deref|]. intros oy _.
    destruct ox as [d1|l1], oy as [d2|l2]; try (now apply safe_ret).
    + destruct (_ =? _)%nat; [|now apply safe_ret].
      now apply safe_dict_subM.
    + now apply safe_seq_eqM.
Qed.

Lemma safe_anchor_eq fuel a1 a2 : safe h0 (anchor_eq fuel a1 a2) (fun _ => True).
Proof.
  unfold anchor_eq. eapply safe_bind; [apply safe_py_eq|].
  intros [] _; now apply safe_ret.
Qed.

Lemma safe_prec_eq fuel r1 r2 : safe h0 (prec_eq fuel r1 r2) (fun _ => True).
Proof.
  unfold prec_eq. eapply safe_bind; [apply safe_py_eq|].
  intros [] _; [|now apply safe_ret].
  destruct (keys_eqb _ _); [|now apply safe_ret].
  apply safe_seq_eqM. intros; apply safe_anchor_eq.
Qed.

Lemma safe_index_subM fuel po2 :
  forall po1, safe h0 (index_subM fuel po1 po2) (fun _ => True).
Proof.
  induction po1 as [|[p recs1] po1 IH]; cbn [index_subM].
  - now apply safe_ret.
  - destruct (index_get p po2) as [recs2|]; [|now apply safe_ret].
    eapply safe_bind; [apply safe_seq_eqM; intros; apply safe_prec_eq|].
    intros [] _; [apply IH|now apply safe_ret].
Qed.

Lemma safe_index_eq fuel po1 po2 : safe h0 (index_eq fuel po1 po2) (fun _ => True).
Proof.
  unfold index_eq.
  destruct (_ =? _)%nat; [apply safe_index_subM|now apply safe_ret].
Qed.

Lemma safe_py_assert c : safe h0 (py_assert c) (fun _ => True).
Proof. destruct c; [now apply safe_ret|apply safe_raise]. Qed.

(** *** Indexing a new tree gives an index of new objects *)

Lemma fresh_index_append n p r po :
  fresh_prec n r -> fresh_index n po -> fresh_index n (index_append p r po).
Proof.
  intros Hr. unfold fresh_index.
  induction po as [|[p' recs] po IH]; intros Hpo; cbn [index_append].
  - constructor; [|constructor]. constructor; [exact Hr|constructor].
  - inversion Hpo as [|? ? Hrecs Hrest]; subst.
    destruct (String.eqb p p').
    + constructor; [|exact Hrest]. cbn in *.
      apply Forall_app. split; [exact Hrecs|]. now constructor.
    + constructor; [exact Hrecs|now apply IH].
Qed.

Lemma fresh_parse_str_go n r fuel :
  fresh_prec n r ->
  forall val po, fresh_index n po -> fresh_index n (parse_str_go fuel r val po).
Proof.
  intros Hr. induction fuel as [|fuel IH]; intros val po Hpo; cbn [parse_str_go].
  - exact Hpo.
  - destruct (Str.find _ parameter_start_delimiter); [|exact Hpo].
    destruct (Str.find _ parameter_end_delimiter); [|exact Hpo].
    match goal with
    | |- context [if ?c then index_append ?p r po else po] =>
        assert (Hpo' : fresh_index n (if c then index_append p r po else po))
    end.
    { destruct (_ <? _)%nat; [now apply fresh_index_append|exact Hpo]. }
    destruct (0 <? String.length (Str.drop _ _))%nat; [now apply IH|exact Hpo'].
Qed.

Section ParseFrame.

Variable parse_dict : val -> val -> keypath -> list anchor -> index -> M index.

Hypothesis parse_dict_safe : forall parent_object root_object keys root_list po,
  fresh_val n0 parent_object -> fresh_val n0 root_object ->
  Forall (fresh_anchor n0) root_list -> fresh_index n0 po ->
  safe h0 (parse_dict parent_object root_object keys root_list po) (fresh_index n0).

Lemma safe_parse_item root_object keys root_list po kv :
  fresh_val n0 root_object -> Forall (fresh_anchor n0) root_list ->
  fresh_index n0 po -> fresh_val n0 kv.2 ->
  safe h0 (parse_item parse_dict root_object keys root_list po kv) (fresh_index n0).
Proof.
  intros Hroot Hrl Hpo Hv. unfold parse_item.
  destruct kv as [k v]; cbn [fst snd] in *.
  eapply safe_bind; [apply safe_type_of|]. intros ty _.
  destruct ty; try (destruct v; now apply safe_ret).
  - destruct v; try (now apply safe_ret).
    apply safe_ret. apply fresh_parse_str_go; [|exact Hpo].
    split; [exact Hroot|exact Hrl].
  - now apply parse_dict_safe.
  - eapply safe_bind; [apply safe_py_len|]. intros n _.
    destruct (n =? 1)%nat; [|now apply safe_ret].
    eapply safe_bind; [apply safe_getitem|]. intros e He. specialize (He Hv).
    eapply safe_bind; [apply safe_new_dict; repeat constructor; exact He|].
    intros new_root_object Hnew. apply parse_dict_safe; try assumption.
    apply Forall_app. split; [exact Hrl|]. repeat constructor. exact Hroot.
Qed.

End ParseFrame.

Lemma safe_parse_dict fuel : forall parent_object root_object keys root_list po,
  fresh_val n0 parent_object -> fresh_val n0 root_object ->
  Forall (fresh_anchor n0) root_list -> fresh_index n0 po ->
  safe h0 (parse_dict fuel parent_object root_object keys root_list po)
    (fresh_index n0).
Proof.
  induction fuel as [|fuel IH]; intros parent_object root_object keys root_list po
    Hp Hroot Hrl Hpo; cbn [parse_dict].
  - apply safe_stuck.
  - eapply safe_bind; [apply safe_py_items|]. intros items Hitems.
    specialize (Hitems Hp).
    eapply safe_foldM; [|exact Hitems|exact Hpo].
    intros acc kv Hacc Hkv. now apply safe_parse_item.
Qed.

Lemma safe_parse_template_parameters fuel root_object :
  fresh_val n0 root_object ->
  safe h0 (parse_template_parameters fuel root_object []) (fresh_index n0).
Proof.
  intros Hroot. unfold parse_template_parameters.
  apply safe_parse_dict; try assumption; constructor.
Qed.

End FrameIndex.

(** ** The frame of a row: [create_manifest_from_row] *)

Lemma keeps_ext h0 h : keeps h0 h -> ext h0 h.
Proof.
  intros (Hlen & Hold & _). exists (drop (length h0) h).
  rewrite <- (take_drop (length h0) h) at 1. f_equal.
  apply list_eq. intros a. destruct (decide (a < length h0)%nat) as [Ha|Ha].
  - rewrite lookup_take_lt by exact Ha. now apply Hold.
  - rewrite lookup_take_ge by lia. symmetry. apply lookup_ge_None. lia.
Qed.

Section FrameManifest.

Context {lib : PyLib}.

Variable h0 : heap.

Abbreviation n0 := (length h0).

Lemma safe_empty_arrays (po : index) :
  fresh_index n0 po ->
  safe h0
    (forM_ (fun pr : string * list prec =>
              forM_ (fun parameter_rec : prec =>
                       match parameter_rec.2 with
                       | [] => ret tt
                       | (top_object, top_keys) :: _ =>
                           ' (parent_object, key) ←
                             get_deepest_key_object top_object top_keys;
                           empty ← new_list [];
                           setitem parent_object key empty
                       end) pr.2) po)
    (fun _ => True).
Proof.
  intros Hpo. eapply safe_forM_; [|exact Hpo].
  intros [p recs] Hrecs. cbn [snd] in *. eapply safe_forM_; [|exact Hrecs].
  intros [[root_object keys] root_list] [_ Hrl]. cbn [snd] in *.
  destruct root_list as [|[top_object top_keys] rest]; [now apply safe_ret|].
  inversion Hrl as [|? ? Htop _]; subst.
  eapply safe_bind; [apply safe_get_deepest_key_object; exact Htop|].
  intros [parent_object key] Hparent. cbn [fst] in Hparent.
  eapply safe_bind; [apply safe_new_list; constructor|].
  intros empty Hempty. now apply safe_setitem.
Qed.

Lemma safe_fill (fuel : nat) (po : index) (map_parameter_column : colmap)
    (data_row : list string) :
  fresh_index n0 po ->
  safe h0
    (forM_ (fun pr : string * list prec =>
              let parameter := pr.1 in
              forM_ (fun parameter_rec : prec =>
                       let '(root_object, keys, root_list) := parameter_rec in
                       let d_array := length root_list in
                       if (d_array =? 0)%nat then
                         replace_parameter_with_data root_object keys parameter data_row
                           (colmap_get parameter map_parameter_column)
                       else
                         let new_root_list := root_list ++ [(root_object, keys)] in
                         match colmap_get parameter map_parameter_column with
                         | Some (BList parameter_column) =>
                             forM_ (fun indexes_column : list Z =>
                                      ' (new_root_object, new_keys) ←
                                        get_root_object fuel new_root_list
                                          (removelast indexes_column);
                                      match last indexes_column with
                                      | None => raise IndexError
                                      | Some col =>
                                          replace_parameter_with_data new_root_object
                                            new_keys parameter data_row (Some (BInt col))
                                      end)
                                   parameter_column
                         | _ => raise TypeError
                         end) pr.2) po)
    (fun _ => True).
Proof.
  intros Hpo. eapply safe_forM_; [|exact Hpo].
  intros [parameter recs] Hrecs. cbn [fst snd] in *.
  eapply safe_forM_; [|exact Hrecs].
  intros [[root_object keys] root_list] [Hroot Hrl]. cbn [fst snd] in *.
  destruct (_ =? _)%nat; [now apply safe_replace_parameter_with_data|].
  destruct (colmap_get parameter map_parameter_column) as [[col|cells]|];
    try apply safe_raise.
  eapply safe_forM_; [|apply Forall_True].
  intros indexes_column _. eapply safe_bind.
  { apply safe_get_root_object. apply Forall_app. split; [exact Hrl|].
    constructor; [exact Hroot|constructor]. }
  intros [new_root_object new_keys] Hnew. cbn [fst] in Hnew.
  destruct (last indexes_column); [|apply safe_raise].
  now apply safe_replace_parameter_with_data.
Qed.

(** A row writes to the objects it allocates and to nothing else, whatever
    its arguments are and however it ends. *)
Lemma safe_create_manifest_from_row fuel root_template required_template
    parameters_object map_parameter_column data_row acl_viewer acl_owner legal_tag :
  safe h0
    (create_manifest_from_row fuel root_template required_template parameters_object
       map_parameter_column data_row acl_viewer acl_owner legal_tag)
    (fun _ => True).
Proof.
  unfold create_manifest_from_row.
  eapply safe_bind; [apply safe_deepcopy|]. intros ldm Hldm.
  eapply safe_bind; [now apply safe_parse_template_parameters|].
  intros new_parameters_object Hnew.
  eapply safe_bind; [apply safe_index_eq|]. intros same _.
  eapply safe_bind; [apply safe_py_assert|]. intros _ _.
  eapply safe_bind; [now apply safe_empty_arrays|]. intros _ _.
  eapply safe_bind; [now apply safe_fill|]. intros _ _.
  eapply safe_bind; [now apply safe_clear_non_filled_parameters|]. intros _ _.
  eapply safe_bind; [now apply safe_remove_special_tags|]. intros _ _.
  eapply safe_bind; [now apply safe_add_required_fields|]. intros _ _.
  eapply (safe_bind h0 _ _ (fun _ => True)).
  { destruct (_ || _); [now apply safe_set_acl_values|now apply safe_ret]. }
  intros _ _.
  eapply (safe_bind h0 _ _ (fun _ => True)).
  { destruct (truthy legal_tag); [now apply safe_set_legal_tag|now apply safe_ret]. }
  intros _ _. now apply safe_ret.
Qed.

End FrameManifest.

(** C9.  Materializing a row leaves the shared inputs as they were: however
    [create_manifest_from_row] ends, with a manifest or with an exception,
    every object that existed before the call (the template tree, the
    required-fields template, the objects the index points to) is in the
    final store exactly as it was, so the template still denotes the same
    document and the index the same occurrences; the row writes to its own
    deep copy only.  The index and the bindings themselves are passed by
    value: the function only reads them. *)
Theorem C9_a_row_leaves_the_shared_inputs_as_they_were {lib : PyLib}
    (fuel : nat) (root_template required_template : val)
    (parameters_object : index) (map_parameter_column : colmap)
    (data_row : list string) (acl_viewer acl_owner legal_tag : option string)
    (h0 h' : heap) :
  ends (create_manifest_from_row fuel root_template required_template
          parameters_object map_parameter_column data_row
          acl_viewer acl_owner legal_tag h0) h' ->
  (forall (a : addr) (o : obj), h0 !! a = Some o -> h' !! a = Some o)
  /\ (forall t, repr h0 root_template t -> repr h' root_template t)
  /\ (forall t, repr h0 required_template t -> repr h' required_template t)
  /\ (forall vpo, repr_index h0 parameters_object vpo ->
        repr_index h' parameters_object vpo).
Proof.
  intros Hend.
  assert (Hk : keeps h0 h').
  { pose proof (safe_create_manifest_from_row h0 fuel root_template required_template
                  parameters_object map_parameter_column data_row
                  acl_viewer acl_owner legal_tag h0 (keeps_refl h0)) as Hs.
    unfold ends in Hend.
    destruct (create_manifest_from_row _ _ _ _ _ _ _ _ _ h0) as [v h1|e h1|];
      [destruct Hs as [Hs _]| |contradiction]; now subst. }
  pose proof (keeps_ext _ _ Hk) as He.
  split; [intros a o; now apply ext_lookup|].
  split; [intros t; now apply repr_ext|].
  split; [intros t; now apply repr_ext|].
  intros vpo. now apply repr_index_ext.
Qed.

Lemma C9_named_row_witness :
  exists h',
    ends (create_manifest_from_row (lib := strict_lib) 8 (VRef 0%nat) VNone named_index
            named_colmap ["a"; "1"]%string None None None named_heap) h'
    /\ h' !! 0%nat = named_heap !! 0%nat
    /\ (length named_heap < length h')%nat.
Proof.
  eexists. split; [vm_compute; reflexivity|]. split; [|vm_compute; lia].
  refine (proj1 (C9_a_row_leaves_the_shared_inputs_as_they_were (lib := strict_lib)
                   8 (VRef 0%nat) VNone named_index named_colmap ["a"; "1"]%string
                   None None None named_heap _ _) 0%nat _ eq_refl).
  vm_compute. reflexivity.
Defined.

(** ** The directives of a template *)

Lemma dict_get_del_ne k k' d : k <> k' -> dict_get k (dict_del k' d) = dict_get k d.
Proof.
  intros Hne. induction d as [|[k1 v1] d IH]; [reflexivity|]. cbn [dict_del dict_get].
  destruct (key_eqb k' k1) eqn:E1.
  - apply key_eqb_eq in E1. subst k1.
    destruct (key_eqb k k') eqn:E2; [apply key_eqb_eq in E2; contradiction|reflexivity].
  - cbn [dict_get]. destruct (key_eqb k k1); [reflexivity|exact IH].
Qed.

Lemma dict_get_None k d : k ∉ d.*1 -> dict_get k d = None.
Proof.
  induction d as [|[k1 v1] d IH]; [reflexivity|]. rewrite fmap_cons. cbn [fst dict_get].
  intros Hn. apply not_elem_of_cons in Hn as [Hne Hn].
  destruct (key_eqb k k1) eqn:E; [apply key_eqb_eq in E; contradiction|now apply IH].
Qed.

Lemma dict_del_keys k d x : x ∈ (dict_del k d).*1 -> x ∈ d.*1.
Proof.
  induction d as [|[k1 v1] d IH]; [easy|]. cbn [dict_del]. rewrite fmap_cons. cbn [fst].
  destruct (key_eqb k k1).
  - intros Hx. now apply elem_of_cons; right.
  - rewrite fmap_cons. cbn [fst]. intros Hx. apply elem_of_cons in Hx as [->|Hx].
    + now apply elem_of_cons; left.
    + apply elem_of_cons; right. now apply IH.
Qed.

Lemma dict_del_NoDup k d : NoDup d.*1 -> NoDup (dict_del k d).*1.
Proof.
  induction d as [|[k1 v1] d IH]; [easy|]. rewrite fmap_cons. cbn [fst dict_del].
  intros Hnd. apply NoDup_cons in Hnd as [Hn Hnd].
  destruct (key_eqb k k1); [exact Hnd|].
  rewrite fmap_cons. cbn [fst]. apply NoDup_cons. split; [|now apply IH].
  intros Hx. apply Hn. eapply dict_del_keys. exact Hx.
Qed.

Lemma dict_get_del_eq k d : NoDup d.*1 -> dict_get k (dict_del k d) = None.
Proof.
  induction d as [|[k1 v1] d IH]; [reflexivity|]. rewrite fmap_cons. cbn [fst dict_del].
  intros Hnd. apply NoDup_cons in Hnd as [Hn Hnd].
  destruct (key_eqb k k1) eqn:E.
  - apply key_eqb_eq in E. subst k1. now apply dict_get_None.
  - cbn [dict_get]. rewrite E. now apply IH.
Qed.

Lemma drop_directive_NoDup tag d : NoDup d.*1 -> NoDup (drop_directive tag d).*1.
Proof.
  intros Hnd. unfold drop_directive.
  destruct (val_is_none _); [exact Hnd|now apply dict_del_NoDup].
Qed.

Lemma drop_directive_same tag d :
  NoDup d.*1 -> directive (drop_directive tag d) tag = VNone.
Proof.
  intros Hnd. unfold drop_directive.
  destruct (val_is_none (directive d tag)) eqn:E.
  - destruct (directive d tag); try discriminate. reflexivity.
  - unfold directive. now rewrite dict_get_del_eq.
Qed.

Lemma drop_directive_other tag k d :
  k <> KStr tag -> dict_get k (drop_directive tag d) = dict_get k d.
Proof.
  intros Hne. unfold drop_directive.
  destruct (val_is_none _); [reflexivity|now apply dict_get_del_ne].
Qed.

(** One directive: [v = root_template.get(tag)], then
    [if v is not None: del root_template[tag]]. *)
Lemma read_directive (a : addr) d tag h :
  h !! a = Some (ODict d) ->
  py_get (VRef a) (KStr tag) h = Ok (directive d tag) h.
Proof.
  intros Ha. unfold py_get. now rewrite (bind_ok _ _ _ _ _ (deref_ok _ _ _ Ha)).
Qed.

Lemma remove_directive (a : addr) d tag h :
  h !! a = Some (ODict d) ->
  (if val_is_none (directive d tag) then ret tt
   else delitem (VRef a) (KStr tag)) h
  = Ok tt (<[a := ODict (drop_directive tag d)]> h).
Proof.
  intros Ha. unfold drop_directive.
  destruct (val_is_none (directive d tag)) eqn:Ev.
  - now rewrite list_insert_id by exact Ha.
  - unfold delitem. rewrite (bind_ok _ _ _ _ _ (deref_ok _ _ _ Ha)).
    unfold directive in Ev. destruct (dict_get (KStr tag) d) as [v|]; [|discriminate].
    unfold store. apply lookup_lt_Some in Ha.
    now destruct (Nat.ltb_spec a (length h)); [|lia].
Qed.

(** Reading a directive and removing it, then the rest. *)
Lemma take_directive {B} (a : addr) d tag h (rest : val -> M B) :
  h !! a = Some (ODict d) ->
  (v ← py_get (VRef a) (KStr tag);
   (if val_is_none v then ret tt else delitem (VRef a) (KStr tag));;
   rest v) h
  = rest (directive d tag) (<[a := ODict (drop_directive tag d)]> h).
Proof.
  intros Ha. rewrite (bind_ok _ _ _ _ _ (read_directive a d tag h Ha)).
  now rewrite (bind_ok _ _ _ _ _ (remove_directive a d tag h Ha)).
Qed.

Lemma directive_drop_other tag tag' d :
  tag <> tag' -> directive (drop_directive tag' d) tag = directive d tag.
Proof.
  intros Hne. unfold directive. rewrite drop_directive_other; [reflexivity|congruence].
Qed.

Lemma without_directives_reads d tag :
  NoDup d.*1 -> tag ∈ removed_tags -> directive (without_directives d) tag = VNone.
Proof.
  intros Hnd Htag. unfold without_directives, removed_tags in *. cbn [foldl].
  pose proof (drop_directive_NoDup tag_schema_id _ Hnd) as H1.
  pose proof (drop_directive_NoDup tag_array_parent _ H1) as H2.
  pose proof (drop_directive_NoDup tag_object_parent _ H2) as H3.
  repeat (apply elem_of_cons in Htag as [->|Htag]).
  - rewrite !directive_drop_other by discriminate. now apply drop_directive_same.
  - rewrite !directive_drop_other by discriminate. now apply drop_directive_same.
  - rewrite !directive_drop_other by discriminate. now apply drop_directive_same.
  - now apply drop_directive_same.
  - now apply not_elem_of_nil in Htag.
Qed.

Lemma without_directives_keeps d k :
  k ∉ KStr <$> removed_tags -> dict_get k (without_directives d) = dict_get k d.
Proof.
  intros Hk. unfold without_directives, removed_tags in *. cbn [foldl].
  rewrite !fmap_cons in Hk.
  apply not_elem_of_cons in Hk as [H1 Hk]. apply not_elem_of_cons in Hk as [H2 Hk].
  apply not_elem_of_cons in Hk as [H3 Hk]. apply not_elem_of_cons in Hk as [H4 _].
  now rewrite !drop_directive_other.
Qed.

Section Directives.

Context {lib : PyLib}.

Variable cfg : config.
Variable a : addr.
Variable d : list (key * val).
Variable h : heap.

Hypothesis template_at : h !! a = Some (ODict d).
Hypothesis no_required_template : directive d tag_required_template = VNone.
Hypothesis no_required_argument : nonempty (required_template cfg) = false.

Lemma extract_directives_ok kind :
  renamed_kind cfg (directive d tag_kind_parent) = Some kind ->
  extract_directives cfg (VRef a) h
  = Ok {| schema_id := directive d tag_schema_id;
          required := VNone;
          output_array_parent :=
            overridden (array_parent cfg) (directive d tag_array_parent);
          output_object_parent :=
            overridden (object_parent cfg) (directive d tag_object_parent);
          output_kind_parent := kind |}
       (<[a := ODict (without_directives d)]> h).
Proof.
  intros Hkind. pose proof (lookup_lt_Some _ _ _ template_at) as Hlt.
  unfold extract_directives, without_directives, removed_tags. cbn [foldl].
  set (d1 := drop_directive tag_schema_id d).
  set (d2 := drop_directive tag_array_parent d1).
  set (d3 := drop_directive tag_object_parent d2).
  rewrite (take_directive a d tag_schema_id h _ template_at). fold d1.
  assert (H1 : <[a := ODict d1]> h !! a = Some (ODict d1))
    by now apply list_lookup_insert_eq.
  rewrite (bind_ok _ _ _ _ _ (read_directive a d1 tag_required_template _ H1)).
  assert (Er : directive d1 tag_required_template = VNone)
    by (unfold d1; now rewrite directive_drop_other by discriminate).
  rewrite Er. cbn [val_is_none]. rewrite bind_ret.
  rewrite no_required_argument. rewrite bind_ret.
  rewrite (take_directive a d1 tag_array_parent _ _ H1). fold d2.
  rewrite list_insert_insert_eq.
  assert (H2 : <[a := ODict d2]> h !! a = Some (ODict d2))
    by now apply list_lookup_insert_eq.
  rewrite (take_directive a d2 tag_object_parent _ _ H2). fold d3.
  rewrite list_insert_insert_eq.
  assert (H3 : <[a := ODict d3]> h !! a = Some (ODict d3))
    by now apply list_lookup_insert_eq.
  rewrite (bind_ok _ _ _ _ _ (read_directive a d3 tag_kind_parent _ H3)).
  assert (Ea : directive d1 tag_array_parent = directive d tag_array_parent)
    by (unfold d1; now rewrite directive_drop_other by discriminate).
  assert (Eo : directive d2 tag_object_parent = directive d tag_object_parent)
    by (unfold d2, d1; now rewrite !directive_drop_other by discriminate).
  assert (Ek : directive d3 tag_kind_parent = directive d tag_kind_parent)
    by (unfold d3, d2, d1; now rewrite !directive_drop_other by discriminate).
  rewrite Ea, Eo. fold (overridden (array_parent cfg) (directive d tag_array_parent)).
  fold (overridden (object_parent cfg) (directive d tag_object_parent)).
  pose proof (remove_directive a d3 tag_kind_parent _ H3) as Hdel.
  rewrite list_insert_insert_eq in Hdel. unfold renamed_kind in Hkind.
  rewrite Ek in *.
  destruct (val_is_none (directive d tag_kind_parent)) eqn:Enone.
  - injection Hkind as <-. rewrite bind_ret.
    unfold drop_directive at 1. rewrite Ek, Enone. reflexivity.
  - unfold bind. rewrite Hdel.
    destruct (nonempty (schema_ns_name cfg)).
    + destruct (directive d tag_kind_parent) as [| | | |s|]; try discriminate.
      destruct (schema_ns_name cfg) as [ns_name|]; [|discriminate].
      destruct (schema_ns_value cfg) as [ns_value|]; [|discriminate].
      injection Hkind as <-. reflexivity.
    + injection Hkind as <-. reflexivity.
Qed.

End Directives.




(** The value of [$required_template] is used as the key to delete: a text
    value removes the key it names (or raises [KeyError]) and an object
    raises [TypeError]; [$required_template] itself stays. *)
Lemma required_template_is_deleted_by_value :
  (exists dv,
     extract_directives (lib := strict_lib) sample_config (VRef 0%nat)
       required_template_heap
     = Ok dv [ODict [(KStr "$required_template", VStr "kind")]]%string)
  /\ raises (extract_directives (lib := strict_lib) sample_config (VRef 1%nat)
               required_fields_heap) TypeError.
Proof. split; [eexists; vm_compute; reflexivity|eexists; vm_compute; reflexivity]. Qed.

(** ** Column binding: what a binding names *)

Lemma index_of_None x l : forall i, index_of x l i = None <-> x ∉ l.
Proof.
  induction l as [|y l IH]; intros i; cbn [index_of].
  - split; [intros _; apply not_elem_of_nil|reflexivity].
  - destruct (String.eqb x y) eqn:E.
    + apply String.eqb_eq in E. subst y. split; [discriminate|].
      intros Hn. exfalso. apply Hn. left.
    + apply String.eqb_neq in E. rewrite IH. rewrite not_elem_of_cons. tauto.
Qed.

Lemma index_of_first x l1 l2 : forall i,
  x ∉ l1 -> index_of x (l1 ++ x :: l2) i = Some (i + length l1)%nat.
Proof.
  induction l1 as [|y l1 IH]; intros i Hn; cbn [index_of app length].
  - rewrite String.eqb_refl. f_equal. lia.
  - apply not_elem_of_cons in Hn as [Hne Hn].
    destruct (String.eqb x y) eqn:E; [apply String.eqb_eq in E; contradiction|].
    rewrite IH by exact Hn. f_equal. lia.
Qed.

Lemma index_of_split x l : forall i j,
  index_of x l i = Some j ->
  exists l1 l2, l = l1 ++ x :: l2 /\ (x ∉ l1) /\ j = (i + length l1)%nat.
Proof.
  induction l as [|y l IH]; intros i j; cbn [index_of]; [discriminate|].
  destruct (String.eqb x y) eqn:E.
  - apply String.eqb_eq in E. subst y. intros [= <-].
    exists [], l. split; [reflexivity|]. split; [apply not_elem_of_nil|cbn; lia].
  - apply String.eqb_neq in E. intros Hj.
    apply IH in Hj as (l1 & l2 & -> & Hn & ->).
    exists (y :: l1), l2. split; [reflexivity|].
    split; [apply not_elem_of_cons; now split|cbn [length]; lia].
Qed.

Lemma later_occurrence (x : string) l1' : forall l2' l1 l2,
  l1' ++ x :: l2' = l1 ++ x :: l2 -> x ∉ l1' -> x ∈ l2 -> x ∈ l2'.
Proof.
  induction l1' as [|y l1' IH]; intros l2' l1 l2 E Hn Hin.
  - destruct l1 as [|z l1]; cbn in E; inversion E; subst; [exact Hin|].
    apply elem_of_app. right. left.
  - apply not_elem_of_cons in Hn as [Hne Hn].
    destruct l1 as [|z l1]; cbn in E; inversion E; subst; [contradiction|].
    eapply IH; eassumption.
Qed.

(** [get_column_index]: -1 for a name that is not in the header, its
    position for a name that is there once, and an exception for a name
    that is there twice or more; the store is not touched. *)
Theorem get_column_index_spec (col_names : list string) (col_name : string) (h : heap) :
  (col_name ∉ col_names -> get_column_index col_names col_name h = Ok (-1) h)
  /\ (forall l1 l2, col_names = l1 ++ col_name :: l2 ->
        col_name ∉ l1 -> col_name ∉ l2 ->
        get_column_index col_names col_name h = Ok (Z.of_nat (length l1)) h)
  /\ (forall l1 l2, col_names = l1 ++ col_name :: l2 ->
        col_name ∈ l2 ->
        get_column_index col_names col_name h
        = Raise (PyException "Duplicate parameter found in csv file:" col_name) h).
Proof.
  assert (Hdrop : forall l1 l2 : list string,
            drop (S (length l1)) (l1 ++ col_name :: l2) = l2).
  { intros l1 l2. change (l1 ++ col_name :: l2) with (l1 ++ [col_name] ++ l2).
    rewrite app_assoc. apply drop_app_length'. rewrite length_app. cbn. lia. }
  unfold get_column_index. split; [|split].
  - intros Hn. apply (index_of_None _ _ 0%nat) in Hn. now rewrite Hn.
  - intros l1 l2 -> Hn1 Hn2. rewrite index_of_first by exact Hn1. cbn [Nat.add].
    rewrite Hdrop. apply (index_of_None _ _ (S (length l1))) in Hn2. now rewrite Hn2.
  - intros l1 l2 E Hin.
    destruct (index_of col_name col_names 0) as [idx|] eqn:Ei.
    + apply index_of_split in Ei as (l1' & l2' & E' & Hn & ->). cbn [Nat.add].
      assert (Hin' : col_name ∈ l2').
      { rewrite E' in E. eapply later_occurrence; eassumption. }
      rewrite E', Hdrop.
      destruct (index_of col_name l2' (S (length l1'))) eqn:El; [reflexivity|].
      apply index_of_None in El. contradiction.
    + apply index_of_None in Ei. exfalso. apply Ei. rewrite E.
      apply elem_of_app. right. left.
Qed.

Lemma get_column_index_spec_witness :
  get_column_index ["n"; "x"]%string "x" [] = Ok 1 []
  /\ get_column_index ["x"; "n"; "x"]%string "x" []
     = Raise (PyException "Duplicate parameter found in csv file:" "x") [].
Proof.
  split.
  - refine (proj1 (proj2 (get_column_index_spec ["n"; "x"]%string "x" []))
              ["n"%string] [] eq_refl _ _).
    + intros Hx. apply elem_of_cons in Hx as [Hx|Hx]; [discriminate|].
      now apply not_elem_of_nil in Hx.
    + apply not_elem_of_nil.
  - refine (proj2 (proj2 (get_column_index_spec ["x"; "n"; "x"]%string "x" []))
              [] ["n"; "x"]%string eq_refl _).
    right. left.
Defined.

Lemma get_column_index_sound names name h c h' :
  get_column_index names name h = Ok c h' ->
  h' = h /\ (c = -1 \/ (0 <= c /\ names !! Z.to_nat c = Some name)).
Proof.
  unfold get_column_index.
  destruct (index_of name names 0) as [idx|] eqn:Ei.
  - destruct (index_of name (drop (S idx) names) (S idx)); [discriminate|].
    intros [= <- <-]. split; [reflexivity|]. right. split; [lia|].
    apply index_of_split in Ei as (l1 & l2 & -> & _ & ->).
    rewrite Nat2Z.id. cbn [Nat.add]. apply list_lookup_middle. reflexivity.
  - intros [= <- <-]. split; [reflexivity|]. now left.
Qed.

Lemma parameter_with_indexes_ext key d : forall ic ic',
  (forall i, (i < d)%nat -> nthZ ic i = nthZ ic' i) ->
  parameter_with_indexes key d ic = parameter_with_indexes key d ic'.
Proof.
  unfold parameter_with_indexes. induction d as [|d IH]; intros ic ic' Hagree.
  - reflexivity.
  - rewrite seq_S, !fold_left_app. cbn [fold_left Nat.add].
    rewrite (IH ic ic') by (intros; apply Hagree; lia).
    rewrite (Hagree d) by lia. reflexivity.
Qed.

Lemma advance_length n d cnt : forall ic done0,
  length (advance n d cnt ic done0).1 = length ic.
Proof.
  induction n as [|n IH]; intros ic done0; cbn [advance]; [reflexivity|].
  destruct (_ <? _).
  - cbn [fst]. now rewrite length_insert, zero_from_length.
  - apply IH.
Qed.

Lemma bind_cells_sound names key d cnt : forall fuel ic cells h r h',
  bind_cells fuel names key d cnt ic cells h = Ok r h' ->
  length ic = S d ->
  Forall (cell_bound names key) cells ->
  h' = h /\ Forall (cell_bound names key) r.
Proof.
  induction fuel as [|fuel IH]; intros ic cells h r h' E Hlen Hcells;
    cbn [bind_cells] in E; [discriminate|].
  apply bind_inv_ok in E as (c & h1 & Ec & E).
  apply get_column_index_sound in Ec as [-> Hc].
  set (ic1 := if c >=? 0 then <[d:=c]> ic else ic) in E.
  set (cells1 := if c >=? 0 then cells ++ [ic1] else cells) in E.
  assert (Hlen1 : length ic1 = S d).
  { unfold ic1. destruct (c >=? 0); [now rewrite length_insert|exact Hlen]. }
  assert (Hcells1 : Forall (cell_bound names key) cells1).
  { unfold cells1. destruct (c >=? 0) eqn:Ege; [|exact Hcells].
    apply Forall_app. split; [exact Hcells|]. constructor; [|constructor].
    destruct Hc as [->|[Hc0 Hname]]; [discriminate|].
    unfold cell_bound. rewrite Hlen1. cbn [Nat.sub]. rewrite Nat.sub_0_r.
    unfold ic1. try rewrite Ege.
    assert (Hd : nthZ (<[d:=c]> ic) d = c) by (apply nthZ_insert_eq; lia).
    rewrite Hd. split; [|split; [exact Hc0|]].
    - intros Hnil. apply (f_equal length) in Hnil.
      rewrite length_insert, Hlen in Hnil. discriminate.
    - rewrite Hname. f_equal. apply parameter_with_indexes_ext.
      intros i Hi. symmetry. apply nthZ_insert_ne. lia. }
  pose proof (advance_length d d cnt ic1 false) as Hadv.
  destruct (advance d d cnt ic1 false) as [ic2 done1]. cbn [fst] in Hadv.
  destruct done1.
  - inversion E; subst. now split.
  - eapply IH; [exact E|congruence|exact Hcells1].
Qed.

Lemma colmap_get_set_ne p q b m :
  p <> q -> colmap_get p (colmap_set q b m) = colmap_get p m.
Proof.
  intros Hne. induction m as [|[p' b'] m IH]; cbn [colmap_set colmap_get].
  - destruct (String.eqb p q) eqn:E; [apply String.eqb_eq in E; contradiction|].
    reflexivity.
  - destruct (String.eqb q p') eqn:E1; cbn [colmap_get].
    + apply String.eqb_eq in E1. subst p'.
      destruct (String.eqb p q) eqn:E2; [apply String.eqb_eq in E2; contradiction|].
      reflexivity.
    + destruct (String.eqb p p'); [reflexivity|exact IH].
Qed.

Lemma colmap_sound_set names p b m :
  binding_sound names p b -> colmap_sound names m ->
  colmap_sound names (colmap_set p b m).
Proof.
  intros Hb Hm q b' Hq. destruct (String.eqb_spec q p) as [->|Hne].
  - rewrite colmap_get_set_eq in Hq. now inversion Hq; subst.
  - rewrite colmap_get_set_ne in Hq by exact Hne. now apply Hm.
Qed.

(** A loop whose body keeps an invariant and the store. *)
Lemma foldM_inv {A B} (f : A -> B -> M A) (I : A -> Prop) :
  (forall acc x h acc' h', I acc -> f acc x h = Ok acc' h' -> h' = h /\ I acc') ->
  forall l acc h r h', I acc -> foldM f l acc h = Ok r h' -> h' = h /\ I r.
Proof.
  intros Hf. induction l as [|x l IH]; intros acc h r h' Hacc E; cbn [foldM] in E.
  - inversion E; subst. now split.
  - apply bind_inv_ok in E as (acc1 & h1 & E1 & E).
    apply (Hf _ _ _ _ _ Hacc) in E1 as [-> Hacc1]. eapply IH; eassumption.
Qed.

Lemma bind_occurrence_sound names parameter m r h m' h' :
  colmap_sound names m ->
  bind_occurrence names parameter (parameter_key_of parameter) m r h = Ok m' h' ->
  h' = h /\ colmap_sound names m'.
Proof.
  intros Hm. unfold bind_occurrence. destruct (_ =? _)%nat.
  - destruct (colmap_get parameter m).
    + intros [= <- <-]. now split.
    + intros E. apply bind_inv_ok in E as (c & h1 & Ec & E).
      apply get_column_index_sound in Ec as [-> Hc].
      destruct (c >=? 0) eqn:Ege; inversion E; subst; (split; [reflexivity|]);
        [|exact Hm].
      apply colmap_sound_set; [|exact Hm].
      destruct Hc as [->|Hc]; [discriminate|exact Hc].
  - destruct (colmap_get parameter m); [discriminate|].
    intros E. apply bind_inv_ok in E as (cells & h1 & Ec & E).
    apply bind_cells_sound in Ec as [-> Hcells];
      [|now rewrite length_app, length_replicate; cbn; lia|constructor].
    inversion E; subst. split; [reflexivity|].
    apply colmap_sound_set; [exact Hcells|].
    apply colmap_sound_set; [constructor|exact Hm].
Qed.

(** Column binding never names a wrong column: a scalar binding is the
    position of the header equal to the parameter's key, and every cell
    [[i1, ..., id, c]] of an array binding has at [c] the header
    [key_(i1+1)_..._(id+1)]; headers are compared stripped and lower-cased.
    The store is left as it was. *)
Theorem bindings_name_their_columns (csv_file : list (list string))
    (parameters_object : index) (h : heap) (m : colmap) (h' : heap) :
  map_csv_column_names_to_parameters csv_file parameters_object h = Ok m h' ->
  h' = h
  /\ forall parameter b, colmap_get parameter m = Some b ->
       binding_sound (header_names csv_file) parameter b.
Proof.
  intros E. change (bind_parameters (header_names csv_file) parameters_object h
                    = Ok m h') in E.
  unfold bind_parameters in E.
  eapply (foldM_inv _ (colmap_sound (header_names csv_file))) in E;
    [exact E| |intros p b; discriminate].
  intros acc [parameter recs] h1 acc' h1' Hacc E1. cbn [fst snd] in E1.
  eapply (foldM_inv _ (colmap_sound (header_names csv_file))); [|exact Hacc|exact E1].
  intros acc2 r h2 acc2' h2' Hacc2 E2.
  eapply bind_occurrence_sound; eassumption.
Qed.

Lemma bindings_name_their_columns_witness :
  binding_sound ["n"; "x_1"; "x_2"]%string "{{ X }}"
    (BList [[0; 1]; [1; 2]]).
Proof.
  refine (proj2 (bindings_name_their_columns
                   [[" N"; "X_1 "; "x_2"]; ["a"; "b"; "c"]]%string
                   [("{{ X }}", [(VNone, [KStr "v"], [(VNone, [KStr "items"])])])]%string
                   [] _ [] _) "{{ X }}"%string _ _).
  - vm_compute. reflexivity.
  - vm_compute. reflexivity.
Defined.

(** *** Parameters outside arrays *)

Lemma bind_occurrence_other names q key m r h m' h' p :
  p <> q ->
  bind_occurrence names q key m r h = Ok m' h' ->
  colmap_get p m' = colmap_get p m.
Proof.
  intros Hne. unfold bind_occurrence. destruct (_ =? _)%nat.
  - destruct (colmap_get q m).
    + now intros [= <- <-].
    + intros E. apply bind_inv_ok in E as (c & h1 & _ & E).
      destruct (c >=? 0); inversion E; subst; [|reflexivity].
      now apply colmap_get_set_ne.
  - destruct (colmap_get q m); [discriminate|].
    intros E. apply bind_inv_ok in E as (cells & h1 & _ & E).
    inversion E; subst. now rewrite !colmap_get_set_ne.
Qed.

Lemma bind_recs_other names q key p : forall recs m h m' h',
  p <> q ->
  foldM (bind_occurrence names q key) recs m h = Ok m' h' ->
  colmap_get p m' = colmap_get p m.
Proof.
  induction recs as [|r recs IH]; intros m h m' h' Hne E; cbn [foldM] in E.
  - now inversion E.
  - apply bind_inv_ok in E as (m1 & h1 & E1 & E).
    rewrite (IH _ _ _ _ Hne E). eapply bind_occurrence_other; eassumption.
Qed.

Lemma bind_parameters_other names p : forall po m h m' h',
  p ∉ po.*1 ->
  foldM (fun m pr =>
           foldM (bind_occurrence names pr.1 (parameter_key_of pr.1)) pr.2 m)
        po m h = Ok m' h' ->
  colmap_get p m' = colmap_get p m.
Proof.
  induction po as [|[q recs] po IH]; intros m h m' h' Hn E; cbn [foldM] in E.
  - now inversion E.
  - rewrite fmap_cons in Hn. apply not_elem_of_cons in Hn as [Hne Hn].
    apply bind_inv_ok in E as (m1 & h1 & E1 & E). cbn [fst snd] in *.
    rewrite (IH _ _ _ _ Hn E). eapply bind_recs_other; eassumption.
Qed.

Lemma bind_scalar_recs names parameter : forall recs m h m' h',
  Forall (fun r : prec => r.2 = []) recs ->
  colmap_get parameter m = None \/ colmap_get parameter m = scalar_binding names parameter ->
  foldM (bind_occurrence names parameter (parameter_key_of parameter)) recs m h
  = Ok m' h' ->
  (recs = [] /\ m' = m) \/ colmap_get parameter m' = scalar_binding names parameter.
Proof.
  induction recs as [|r recs IH]; intros m h m' h' Hrecs Hm E; cbn [foldM] in E.
  - inversion E; subst. now left.
  - right. inversion Hrecs as [|? ? Hr Hrest]; subst.
    apply bind_inv_ok in E as (m1 & h1 & E1 & E).
    assert (H1 : colmap_get parameter m1 = scalar_binding names parameter).
    { unfold bind_occurrence in E1. rewrite Hr in E1. cbn [length Nat.eqb] in E1.
      destruct (colmap_get parameter m) as [b|] eqn:Eb.
      - inversion E1; subst. rewrite Eb. destruct Hm as [Hm|Hm]; [discriminate|exact Hm].
      - apply bind_inv_ok in E1 as (c & h2 & Ec & E1).
        unfold scalar_binding. unfold get_column_index in Ec.
        destruct (index_of (parameter_key_of parameter) names 0) as [j|].
        + destruct (index_of _ (drop (S j) names) (S j)); [discriminate|].
          inversion Ec; subst.
          replace (Z.of_nat j >=? 0) with true in E1 by (symmetry; apply Z.geb_le; lia).
          inversion E1; subst. apply colmap_get_set_eq.
        + inversion Ec; subst. cbn in E1. inversion E1; subst. exact Eb. }
    destruct (IH _ _ _ _ Hrest (or_intror H1) E) as [[_ ->]|H2]; [exact H1|exact H2].
Qed.

(** A parameter that occurs outside arrays only is bound to the position of
    its key in the header, and is left unbound when the key is not a header
    (for a binding that succeeds and an index with one entry per
    parameter). *)
Theorem scalar_parameter_is_bound_to_its_column (csv_file : list (list string))
    (parameters_object : index) (h : heap) (m : colmap) (h' : heap)
    (parameter : string) (recs : list prec) :
  map_csv_column_names_to_parameters csv_file parameters_object h = Ok m h' ->
  NoDup parameters_object.*1 ->
  (parameter, recs) ∈ parameters_object ->
  recs <> [] ->
  Forall (fun r : prec => r.2 = []) recs ->
  colmap_get parameter m = scalar_binding (header_names csv_file) parameter.
Proof.
  intros E Hnd Hin Hne Hrecs.
  change (bind_parameters (header_names csv_file) parameters_object h = Ok m h') in E.
  unfold bind_parameters in E.
  apply list_elem_of_split in Hin as (l1 & l2 & ->).
  rewrite fmap_app, fmap_cons in Hnd. cbn [fst] in Hnd.
  apply NoDup_app in Hnd as (_ & Hdis & Hnd2).
  apply NoDup_cons in Hnd2 as [Hn2 _].
  assert (Hn1 : parameter ∉ l1.*1).
  { intros Hx. apply (Hdis _ Hx). left. }
  rewrite foldM_app in E. apply bind_inv_ok in E as (m1 & h1 & E1 & E).
  cbn [foldM] in E. apply bind_inv_ok in E as (m2 & h2 & E2 & E). cbn [fst snd] in E2.
  rewrite (bind_parameters_other _ _ _ _ _ _ _ Hn2 E).
  apply bind_parameters_other with (p := parameter) in E1; [|exact Hn1].
  destruct (bind_scalar_recs _ _ _ _ _ _ _ Hrecs (or_introl E1) E2) as [[-> _]|H2];
    [contradiction|exact H2].
Qed.

Lemma scalar_parameter_is_bound_to_its_column_witness :
  colmap_get "{{x}}" named_colmap = Some (BInt 1).
Proof.
  refine (scalar_parameter_is_bound_to_its_column [["n"; " X "]]%string named_index []
            named_colmap [] "{{x}}" _ eq_refl _ _ _ _).
  - apply NoDup_cons_2; [|apply NoDup_cons_2; [apply not_elem_of_nil|apply NoDup_nil_2]].
    intros Hx. apply elem_of_cons in Hx as [Hx|Hx]; [discriminate|].
    now apply not_elem_of_nil in Hx.
  - right. left.
  - discriminate.
  - repeat constructor.
Defined.

(** ** The row loop: no row ends the run *)

Section RowAccounting.

Context {lib : PyLib}.
Variables (fuel : nat) (cfg : config) (dv : directives).
Variables (group : option (val * val * string)) (root_template : val).
Variables (parameters_object : index) (map_parameter_column : colmap).

(** One turn of the loop: the row is counted, a blank row is counted as
    blank, names already produced stay, and no exception leaves the turn. *)
Lemma process_row_accounts st rows h :
  match process_row fuel cfg dv group root_template parameters_object
          map_parameter_column st rows h with
  | Ok st' _ =>
      row_count st' = row_count st + 1
      /\ empty_row_count st'
         = empty_row_count st + (if is_blank_row rows then 1 else 0)
      /\ processed st ⊆ processed st'
  | Raise _ _ => False
  | Stuck => True
  end.
Proof.
  unfold process_row. destruct (is_blank_row rows).
  { cbn. repeat split; reflexivity. }
  assert (Hout : forall st1 lm output_file h1,
            row_count st1 = row_count st + 1 ->
            empty_row_count st1 = empty_row_count st ->
            processed st ⊆ processed st1 ->
            match (r ← try_ (row_output fuel dv group st1 lm output_file);
                   match r with
                   | inl e => ret (row_failed st1 e output_file)
                   | inr st' => ret st'
                   end) h1 with
            | Ok st' _ =>
                row_count st' = row_count st + 1
                /\ empty_row_count st' = empty_row_count st + 0
                /\ processed st ⊆ processed st'
            | Raise _ _ => False
            | Stuck => True
            end).
  { intros st1 lm output_file h1 Hrc Hec Hpr. unfold bind, try_.
    destruct (row_output fuel dv group st1 lm output_file h1) as [st2 h2|e h2|] eqn:E;
      [|cbn; repeat split; [exact Hrc|lia|exact Hpr]|exact I].
    cbn. unfold row_output in E.
    apply bind_inv_ok in E as (lm' & h3 & _ & E).
    apply bind_inv_ok in E as (fs & h4 & _ & E).
    inversion E; subst; clear E. cbn.
    repeat split; [exact Hrc|lia|]. set_solver. }
  unfold bind at 1. unfold try_ at 1.
  destruct (row_manifest _ _ _ _ _ _ _ h) as [[lm output_file_name] h1|e h1|];
    [|cbn; repeat split; [lia|reflexivity]|exact I].
  unfold bind at 1. unfold try_ at 1.
  destruct ((if val_is_none output_file_name then ret tt
             else delitem lm (KStr tag_file_name)) h1) as [[] h2|e h2|];
    [|cbn; repeat split; [lia|reflexivity]|exact I].
  cbn [next_row processed processed_lower row_count].
  case_bool_decide.
  - apply Hout; reflexivity.
  - destruct (rename_loop _ _ _ _); [|exact I].
    apply Hout; reflexivity.
Qed.

(** The loop over the data rows never ends in an exception: whatever a row
    raises is confined to that row.  When it returns, every data row has
    been counted (blank rows too), the blank rows have been counted apart,
    and no name produced earlier has been forgotten. *)
Theorem rows_never_abort_the_run (data_rows : list (list string)) (st : run_state)
    (h : heap) :
  match process_rows fuel cfg dv group root_template parameters_object
          map_parameter_column data_rows st h with
  | Ok st' _ =>
      row_count st' = row_count st + Z.of_nat (length data_rows)
      /\ empty_row_count st'
         = empty_row_count st
           + Z.of_nat (length (List.filter is_blank_row data_rows))
      /\ processed st ⊆ processed st'
  | Raise _ _ => False
  | Stuck => True
  end.
Proof.
  unfold process_rows. revert st h.
  induction data_rows as [|rows data_rows IH]; intros st h; cbn [foldM].
  - cbn. repeat split; [lia|lia|reflexivity].
  - unfold bind. pose proof (process_row_accounts st rows h) as Hrow.
    destruct (process_row _ _ _ _ _ _ _ st rows h) as [st1 h1|e h1|];
      [|contradiction|exact I].
    destruct Hrow as (Hrc & Hec & Hpr). specialize (IH st1 h1).
    destruct (foldM _ data_rows st1 h1) as [st2 h2|e h2|]; [|contradiction|exact I].
    destruct IH as (Hrc2 & Hec2 & Hpr2). cbn [length List.filter].
    repeat split.
    + lia.
    + destruct (is_blank_row rows); cbn [length]; lia.
    + set_solver.
Qed.

End RowAccounting.

(** ** File names that differ in case only *)

Lemma str_app_cons (c : ascii) (s t : string) :
  String c s +:+ t = String c (s +:+ t).
Proof. reflexivity. Qed.

Lemma str_app_nil_r (s : string) : s +:+ EmptyString = s.
Proof. induction s as [|c s IH]; [reflexivity|]. now rewrite str_app_cons, IH. Qed.

Lemma str_app_assoc (s t u : string) : (s +:+ t) +:+ u = s +:+ (t +:+ u).
Proof. induction s as [|c s IH]; [reflexivity|]. now rewrite !str_app_cons, IH. Qed.

Lemma str_length_app (s t : string) :
  String.length (s +:+ t) = (String.length s + String.length t)%nat.
Proof.
  induction s as [|c s IH]; [reflexivity|].
  rewrite str_app_cons. cbn [String.length Nat.add]. now rewrite IH.
Qed.

Lemma lower_length (s : string) : String.length (Str.lower s) = String.length s.
Proof.
  induction s as [|c s IH]; [reflexivity|].
  cbn [Str.lower String.length]. now rewrite IH.
Qed.

Lemma rev_acc_app (s acc : string) :
  Str.rev_acc s acc = Str.rev_acc s EmptyString +:+ acc.
Proof.
  revert acc. induction s as [|c s IH]; intros acc; [reflexivity|].
  cbn [Str.rev_acc]. rewrite (IH (String c acc)), (IH (String c EmptyString)).
  now rewrite str_app_assoc.
Qed.

Lemma rev_cons (c : ascii) (s : string) :
  Str.rev (String c s) = Str.rev s +:+ String c EmptyString.
Proof. unfold Str.rev. cbn [Str.rev_acc]. apply rev_acc_app. Qed.

Lemma split_go_cons sep s cur : exists x l, Str.split_go sep s cur = x :: l.
Proof.
  revert cur. induction s as [|c s IH]; intros cur; cbn [Str.split_go].
  - now eexists _, _.
  - destruct (Ascii.eqb c sep); [now eexists _, _|apply IH].
Qed.

Lemma join_cons2 sep (x y : string) l :
  Str.join sep (x :: y :: l) = x +:+ sep +:+ Str.join sep (y :: l).
Proof. reflexivity. Qed.

(** Splitting at a character and joining with it gives the string back. *)
Lemma join_split_go sep s : forall cur,
  Str.join (String sep EmptyString) (Str.split_go sep s cur) = Str.rev cur +:+ s.
Proof.
  induction s as [|c s IH]; intros cur; cbn [Str.split_go].
  - cbn [Str.join]. now rewrite str_app_nil_r.
  - destruct (Ascii.eqb_spec c sep) as [->|Hne].
    + destruct (split_go_cons sep s EmptyString) as (x & l & E).
      rewrite E, join_cons2, <- E, IH. reflexivity.
    + rewrite IH, rev_cons, str_app_assoc. reflexivity.
Qed.

Lemma join_split (s : string) (sep : ascii) :
  Str.join (String sep EmptyString) (Str.split s sep) = s.
Proof. unfold Str.split. now rewrite join_split_go. Qed.

Lemma join_insert_length sep (suffix : string) : forall (l : list string) i x,
  l !! i = Some x ->
  String.length (Str.join sep (<[i := x +:+ suffix]> l))
  = (String.length (Str.join sep l) + String.length suffix)%nat.
Proof.
  induction l as [|y l IH]; intros i x Hi; [discriminate|].
  destruct i as [|i]; cbn in Hi.
  - inversion Hi; subst. cbn [insert list_insert].
    destruct l as [|z l]; [cbn [Str.join]; now rewrite str_length_app|].
    rewrite !join_cons2, !str_length_app. lia.
  - cbn [insert list_insert]. fold (insert i (x +:+ suffix) l).
    specialize (IH i x Hi).
    destruct l as [|z l]; [discriminate|].
    destruct (<[i:=x +:+ suffix]> (z :: l)) as [|z' l'] eqn:E.
    { apply (f_equal length) in E. rewrite length_insert in E. discriminate. }
    rewrite !join_cons2, !str_length_app. lia.
Qed.

(** One turn of the renaming loop gives a longer name. *)
Lemma renamed_is_longer (output_file : string) (count : Z) :
  let name_parts := Str.split output_file "." in
  let n := length name_parts in
  (String.length output_file <
   String.length
     (if (1 <? n)%nat then
        Str.join "."
          (<[(n - 2)%nat :=
               default EmptyString (name_parts !! (n - 2)%nat) +:+ "_"
               +:+ Str.of_Z count]> name_parts)
      else output_file +:+ "_" +:+ Str.of_Z count))%nat.
Proof.
  intros name_parts n. destruct (Nat.ltb_spec 1 n) as [Hn|Hn].
  - destruct (name_parts !! (n - 2)%nat) as [x|] eqn:Ex.
    + cbn [default]. rewrite (join_insert_length _ _ _ _ _ Ex).
      unfold name_parts. rewrite (join_split output_file ".").
      rewrite str_length_app. cbn [String.length]. lia.
    + apply lookup_ge_None in Ex. unfold n in *. lia.
  - rewrite !str_length_app. cbn [String.length]. lia.
Qed.

Lemma rename_loop_ends (pl : gset string) : forall fuel f k,
  (size (filter (fun x => (String.length f <= String.length x)%nat) pl) < fuel)%nat ->
  exists g, rename_loop fuel pl f k = Some g
    /\ (Str.lower g ∉ pl)
    /\ (String.length f <= String.length g)%nat.
Proof.
  induction fuel as [|fuel IH]; intros f k Hsz; [lia|].
  cbn [rename_loop]. case_bool_decide as Hin.
  - pose proof (renamed_is_longer f k) as Hlong. cbv zeta in Hlong.
    set (f' := if (1 <? length (Str.split f "."))%nat then _ else _) in *.
    destruct (IH f' (k + 1)) as (g & Hg & Hfresh & Hlen).
    + enough (size (filter (fun x => (String.length f' <= String.length x)%nat) pl)
              < size (filter (fun x => (String.length f <= String.length x)%nat) pl))%nat
        by lia.
      apply subset_size. split.
      * intros x Hx. apply elem_of_filter in Hx as [Hx Hxin].
        apply elem_of_filter. split; [lia|exact Hxin].
      * intros Hsub. specialize (Hsub (Str.lower f)).
        rewrite !elem_of_filter, lower_length in Hsub.
        destruct Hsub as [Hbad _]; [split; [lia|exact Hin]|]. lia.
    + exists g. split; [exact Hg|]. split; [exact Hfresh|lia].
  - exists f. split; [reflexivity|]. split; [exact Hin|lia].
Qed.

(** The renaming loop comes to an end within one turn more than there are
    names on record, and the name it gives is new whatever its case; a name
    that is already new is given back as it is, and a changed name is
    longer. *)
Theorem renaming_gives_a_new_name (processed_lower : gset string)
    (output_file : string) :
  exists renamed,
    rename_loop (S (size processed_lower)) processed_lower output_file 1 = Some renamed
    /\ (Str.lower renamed ∉ processed_lower)
    /\ (Str.lower output_file ∉ processed_lower -> renamed = output_file)
    /\ (renamed <> output_file ->
        (String.length output_file < String.length renamed)%nat).
Proof.
  destruct (rename_loop_ends processed_lower (S (size processed_lower)) output_file 1)
    as (g & Hg & Hfresh & Hlen).
  { enough (size (filter (fun x => (String.length output_file <= String.length x)%nat)
                    processed_lower) <= size processed_lower)%nat by lia.
    apply subseteq_size.
    intros x Hx. now apply elem_of_filter in Hx as [_ Hx]. }
  exists g. split; [exact Hg|]. split; [exact Hfresh|]. split.
  - intros Hnew. cbn [rename_loop] in Hg.
    rewrite bool_decide_false in Hg by exact Hnew. now inversion Hg.
  - intros Hne. cbn [rename_loop] in Hg. case_bool_decide as Hin.
    + pose proof (renamed_is_longer output_file 1) as Hlong. cbv zeta in Hlong.
      set (f' := if (1 <? length (Str.split output_file "."))%nat then _ else _) in *.
      destruct (rename_loop_ends processed_lower (size processed_lower) f' (1 + 1))
        as (g' & Hg' & _ & Hlen').
      * apply subset_size. split.
        -- intros x Hx. now apply elem_of_filter in Hx as [_ Hx].
        -- intros Hsub. specialize (Hsub (Str.lower output_file) Hin).
           apply elem_of_filter in Hsub as [Hbad _]. rewrite lower_length in Hbad.
           cbv beta in Hbad. lia.
      * rewrite Hg in Hg'. inversion Hg'; subst. lia.
    + inversion Hg; subst. contradiction.
Qed.

(** ** The primitive operations on a known store *)

Lemma alloc_ok (o : obj) (h : heap) : alloc o h = Ok (VRef (length h)) (h ++ [o]).
Proof. reflexivity. Qed.

Lemma store_ok (a : addr) (o o' : obj) (h : heap) :
  h !! a = Some o' -> store a o h = Ok tt (<[a := o]> h).
Proof.
  intros Ha. apply lookup_lt_Some in Ha. unfold store.
  now destruct (Nat.ltb_spec a (length h)); [|lia].
Qed.

Lemma setitem_dict (a : addr) d k x (h : heap) :
  h !! a = Some (ODict d) ->
  setitem (VRef a) k x h = Ok tt (<[a := ODict (dict_set k x d)]> h).
Proof.
  intros Ha. unfold setitem. rewrite (bind_ok _ _ _ _ _ (deref_ok _ _ _ Ha)).
  eapply store_ok. exact Ha.
Qed.

Lemma getitem_dict (a : addr) d k x (h : heap) :
  h !! a = Some (ODict d) -> dict_get k d = Some x ->
  getitem (VRef a) k h = Ok x h.
Proof.
  intros Ha Hk. unfold getitem. rewrite (bind_ok _ _ _ _ _ (deref_ok _ _ _ Ha)).
  now rewrite Hk.
Qed.

Lemma getitem_dict_missing (a : addr) d k (h : heap) :
  h !! a = Some (ODict d) -> dict_get k d = None ->
  getitem (VRef a) k h = Raise KeyError h.
Proof.
  intros Ha Hk. unfold getitem. rewrite (bind_ok _ _ _ _ _ (deref_ok _ _ _ Ha)).
  now rewrite Hk.
Qed.

Lemma py_get_dict (a : addr) d k (h : heap) :
  h !! a = Some (ODict d) ->
  py_get (VRef a) k h = Ok (default VNone (dict_get k d)) h.
Proof.
  intros Ha. unfold py_get. now rewrite (bind_ok _ _ _ _ _ (deref_ok _ _ _ Ha)).
Qed.

Lemma isinstance_dict_dict (a : addr) d (h : heap) :
  h !! a = Some (ODict d) -> isinstance_dict (VRef a) h = Ok true h.
Proof.
  intros Ha. unfold isinstance_dict, type_of, bind.
  now rewrite (deref_ok _ _ _ Ha).
Qed.

Lemma dict_del_absent k d : dict_get k d = None -> dict_del k d = d.
Proof.
  induction d as [|[k' v] d IH]; [reflexivity|]. cbn [dict_get dict_del].
  destruct (key_eqb k k'); [discriminate|]. intros Hk. now rewrite IH.
Qed.

Lemma py_pop_default_dict (a : addr) d k (h : heap) :
  h !! a = Some (ODict d) ->
  py_pop_default (VRef a) k h
  = Ok (default VNone (dict_get k d)) (<[a := ODict (dict_del k d)]> h).
Proof.
  intros Ha. unfold py_pop_default. rewrite (bind_ok _ _ _ _ _ (deref_ok _ _ _ Ha)).
  destruct (dict_get k d) as [x|] eqn:Ek.
  - now rewrite (bind_ok _ _ _ _ _ (store_ok _ _ _ _ Ha)).
  - rewrite dict_del_absent by exact Ek. now rewrite list_insert_id by exact Ha.
Qed.

Lemma dict_get_set_eq k x d : dict_get k (dict_set k x d) = Some x.
Proof.
  induction d as [|[k' v] d IH]; cbn [dict_set dict_get].
  - now rewrite key_eqb_refl.
  - destruct (key_eqb k k') eqn:E; cbn [dict_get]; rewrite E; [reflexivity|exact IH].
Qed.

Lemma dict_get_set_ne k k' x d :
  k <> k' -> dict_get k (dict_set k' x d) = dict_get k d.
Proof.
  intros Hne. induction d as [|[k1 v] d IH]; cbn [dict_set dict_get].
  - destruct (key_eqb k k') eqn:E; [apply key_eqb_eq in E; contradiction|reflexivity].
  - destruct (key_eqb k' k1) eqn:E1; cbn [dict_get].
    + apply key_eqb_eq in E1. subst k1.
      destruct (key_eqb k k') eqn:E; [apply key_eqb_eq in E; contradiction|reflexivity].
    + destruct (key_eqb k k1); [reflexivity|exact IH].
Qed.

(** Looking an address up in a store written as updates and allocations. *)
Ltac heap_len :=
  repeat (rewrite length_app || rewrite length_insert); cbn [length]; lia.

Ltac heap_lookup :=
  repeat first
    [ rewrite list_lookup_insert_eq by heap_len
    | rewrite list_lookup_insert_ne by lia
    | rewrite lookup_app_l by heap_len
    | rewrite (list_lookup_middle _ _ _ _) by heap_len ].

Ltac heap_at :=
  heap_lookup;
  first [ reflexivity | eassumption | apply list_lookup_middle; heap_len ].

Ltac nodup_keys :=
  repeat (apply NoDup_cons_2;
          [let Hx := fresh "Hx" in
           intros Hx;
           repeat (apply elem_of_cons in Hx as [Hx|Hx]; [discriminate|]);
           now apply not_elem_of_nil in Hx|]);
  apply NoDup_nil_2.

(** ** The [acl] and [legal] sections of a manifest *)

Lemma set_list_field (n : addr) fields k items (h : heap) :
  h !! n = Some (ODict fields) ->
  (l ← new_list items; setitem (VRef n) k l) h
  = Ok tt (<[n := ODict (dict_set k (VRef (length h)) fields)]> (h ++ [OList items])).
Proof.
  intros Hn. unfold new_list. rewrite (bind_ok _ _ _ _ _ (alloc_ok _ _)).
  apply setitem_dict. rewrite lookup_app_l; [exact Hn|]. now apply lookup_lt_Some in Hn.
Qed.

(** [set_acl_values] on a dictionary: whatever [acl] section the manifest
    had is dropped, and a new one, holding the viewers and the owners that
    were given and nothing else, is put at the end of the manifest; the
    other keys and all other objects are left as they were. *)
Theorem set_acl_values_builds_the_section (a : addr) (d : list (key * val))
    (acl_viewer acl_owner : option string) (h : heap) :
  h !! a = Some (ODict d) ->
  exists h',
    set_acl_values (VRef a) acl_viewer acl_owner h = Ok tt h'
    /\ h' !! a = Some (ODict (dict_set (KStr "acl") (VRef (length h))
                               (dict_del (KStr "acl") d)))
    /\ repr h' (VRef (length h)) (acl_doc acl_viewer acl_owner)
    /\ (forall (b : addr) (o : obj), b <> a -> h !! b = Some o -> h' !! b = Some o).
Proof.
  intros Ha. pose proof (lookup_lt_Some _ _ _ Ha) as Hlt.
  unfold set_acl_values.
  rewrite (bind_ok _ _ _ _ _ (isinstance_dict_dict _ _ _ Ha)). cbn [negb].
  rewrite (bind_ok _ _ _ _ _ (py_pop_default_dict _ _ (KStr "acl") _ Ha)).
  set (d1 := dict_del (KStr "acl") d).
  unfold new_dict. rewrite (bind_ok _ _ _ _ _ (alloc_ok _ _)).
  rewrite length_insert.
  remember (length h) as n eqn:Hn.
  assert (H2 : (<[a := ODict d1]> h ++ [ODict []]) !! a = Some (ODict d1))
    by (heap_lookup; reflexivity).
  rewrite (bind_ok _ _ _ _ _ (setitem_dict _ _ (KStr "acl") (VRef n) _ H2)).
  set (d2 := dict_set (KStr "acl") (VRef n) d1).
  set (h3 := <[a := ODict d2]> (<[a := ODict d1]> h ++ [ODict []])).
  assert (Hlen3 : length h3 = S n) by (unfold h3; heap_len).
  assert (H3n : h3 !! n = Some (ODict [])).
  { unfold h3. rewrite list_lookup_insert_ne by lia.
    apply list_lookup_middle. now rewrite length_insert. }
  assert (H3a : h3 !! a = Some (ODict d2)) by (unfold h3; heap_lookup; reflexivity).
  assert (H3old : forall (b : addr) o, b <> a -> h !! b = Some o -> h3 !! b = Some o).
  { intros b o Hb Hbo. pose proof (lookup_lt_Some _ _ _ Hbo). unfold h3.
    heap_lookup. exact Hbo. }
  unfold acl_doc.
  destruct (truthy acl_viewer); [|rewrite bind_ret]; destruct (truthy acl_owner).
  - rewrite (bind_ok _ _ _ _ _ (set_list_field n [] (KStr "viewers") _ h3 H3n)).
    rewrite Hlen3. cbn [dict_set].
    set (h4 := <[n := _]> (h3 ++ _)).
    assert (H4n : h4 !! n = Some (ODict [(KStr "viewers", VRef (S n))]))
      by (unfold h4; heap_at).
    assert (H4v : h4 !! S n = Some (OList [VStr (default EmptyString acl_viewer)]))
      by (unfold h4; heap_at).
    assert (Hlen4 : length h4 = S (S n)) by (unfold h4; heap_len).
    rewrite (set_list_field n _ (KStr "owners") _ h4 H4n).
    rewrite Hlen4. cbn [dict_set key_eqb String.eqb Ascii.eqb Bool.eqb].
    eexists. split; [reflexivity|]. split; [|split].
    + heap_lookup. unfold h4. heap_at.
    + eapply repr_dict; [heap_at|cbn; nodup_keys|].
      repeat constructor; cbn [fst snd].
      * eapply repr_list; [heap_at|]. repeat constructor.
      * eapply repr_list; [heap_at|]. repeat constructor.
    + intros b o Hb Hbo. pose proof (lookup_lt_Some _ _ _ Hbo).
      heap_lookup. unfold h4. heap_lookup. now apply H3old.
  - rewrite (bind_ok _ _ _ _ _ (set_list_field n [] (KStr "viewers") _ h3 H3n)).
    rewrite Hlen3. cbn [dict_set].
    eexists. split; [reflexivity|]. split; [|split].
    + heap_at.
    + eapply repr_dict; [heap_at|cbn; nodup_keys|].
      repeat constructor; cbn [fst snd].
      eapply repr_list; [heap_at|]. repeat constructor.
    + intros b o Hb Hbo. pose proof (lookup_lt_Some _ _ _ Hbo).
      heap_lookup. now apply H3old.
  - rewrite (set_list_field n [] (KStr "owners") _ h3 H3n).
    rewrite Hlen3. cbn [dict_set].
    eexists. split; [reflexivity|]. split; [|split].
    + heap_at.
    + eapply repr_dict; [heap_at|cbn; nodup_keys|].
      repeat constructor; cbn [fst snd].
      eapply repr_list; [heap_at|]. repeat constructor.
    + intros b o Hb Hbo. pose proof (lookup_lt_Some _ _ _ Hbo).
      heap_lookup. now apply H3old.
  - eexists. split; [reflexivity|]. split; [exact H3a|]. split; [|exact H3old].
    eapply repr_dict; [exact H3n|constructor|constructor].
Qed.

Lemma set_acl_values_builds_the_section_witness :
  exists h',
    set_acl_values (VRef 0%nat) (Some "viewers@x"%string) None
      [ODict [(KStr "acl", VStr "old"); (KStr "kind", VStr "well")]]%string
    = Ok tt h'
    /\ h' !! 0%nat
       = Some (ODict [(KStr "kind", VStr "well"); (KStr "acl", VRef 1%nat)]%string).
Proof.
  destruct (set_acl_values_builds_the_section 0%nat
              [(KStr "acl", VStr "old"); (KStr "kind", VStr "well")]%string
              (Some "viewers@x"%string) None
              [ODict [(KStr "acl", VStr "old"); (KStr "kind", VStr "well")]]%string
              eq_refl) as (h' & Hrun & Hroot & _).
  exists h'. split; [exact Hrun|exact Hroot].
Defined.

(** [set_legal_tag] on a dictionary with a [legal] section: the section gets
    [legaltags = [tag]] and [otherRelevantDataCountries = ["US"]], its other
    fields and every other object stay; without a [legal] section the call
    raises [TypeError], having allocated the tag list. *)
Theorem set_legal_tag_fills_the_section (a : addr) (d : list (key * val))
    (legal_tag : string) (h : heap) :
  h !! a = Some (ODict d) ->
  (forall (b : addr) (fields : list (key * val)),
     dict_get (KStr "legal") d = Some (VRef b) ->
     h !! b = Some (ODict fields) ->
     exists h',
       set_legal_tag (VRef a) legal_tag h = Ok tt h'
       /\ h' !! b
          = Some (ODict (dict_set (KStr "otherRelevantDataCountries")
                           (VRef (S (length h)))
                           (dict_set (KStr "legaltags") (VRef (length h)) fields)))
       /\ h' !! length h = Some (OList [VStr legal_tag])
       /\ h' !! S (length h) = Some (OList [VStr "US"])
       /\ (forall (c : addr) (o : obj), c <> b -> h !! c = Some o -> h' !! c = Some o))
  /\ (dict_get (KStr "legal") d = None ->
      set_legal_tag (VRef a) legal_tag h
      = Raise TypeError (h ++ [OList [VStr legal_tag]])).
Proof.
  intros Ha. unfold set_legal_tag.
  rewrite (bind_ok _ _ _ _ _ (isinstance_dict_dict _ _ _ Ha)). cbn [negb].
  rewrite (bind_ok _ _ _ _ _ (py_get_dict _ _ (KStr "legal") _ Ha)).
  split.
  - intros b fields Hlegal Hb. rewrite Hlegal. cbn [default]. unfold id.
    pose proof (lookup_lt_Some _ _ _ Hb) as Hlt.
    remember (length h) as n eqn:Hn.
    unfold new_list. rewrite (bind_ok _ _ _ _ _ (alloc_ok _ _)). rewrite <- Hn.
    assert (H0b : (h ++ [OList [VStr legal_tag]]) !! b = Some (ODict fields))
      by heap_at.
    rewrite (bind_ok _ _ _ _ _ (setitem_dict _ _ (KStr "legaltags") (VRef n) _ H0b)).
    set (h1 := <[b := _]> (h ++ _)).
    assert (H1b : h1 !! b
                  = Some (ODict (dict_set (KStr "legaltags") (VRef n) fields)))
      by (unfold h1; heap_at).
    assert (Hlen1 : length h1 = S n) by (unfold h1; heap_len).
    rewrite (bind_ok _ _ _ _ _ (alloc_ok _ _)). rewrite Hlen1.
    assert (H2b : (h1 ++ [OList [VStr "US"]]) !! b
                  = Some (ODict (dict_set (KStr "legaltags") (VRef n) fields)))
      by heap_at.
    rewrite (setitem_dict _ _ (KStr "otherRelevantDataCountries") (VRef (S n)) _ H2b).
    eexists. split; [reflexivity|]. split; [heap_at|]. split; [|split].
    + heap_lookup. unfold h1. heap_at.
    + heap_at.
    + intros c o Hc Hco. pose proof (lookup_lt_Some _ _ _ Hco).
      heap_lookup. unfold h1. heap_lookup. exact Hco.
  - intros Hlegal. rewrite Hlegal. cbn [default].
    unfold new_list. now rewrite (bind_ok _ _ _ _ _ (alloc_ok _ _)).
Qed.

Lemma set_legal_tag_fills_the_section_witness :
  set_legal_tag (VRef 0%nat) "T1" [ODict [(KStr "a", VStr "5")]]%string
  = Raise TypeError [ODict [(KStr "a", VStr "5")]; OList [VStr "T1"]]%string.
Proof.
  exact (proj2 (set_legal_tag_fills_the_section 0%nat [(KStr "a", VStr "5")]%string
                  "T1" [ODict [(KStr "a", VStr "5")]]%string eq_refl) eq_refl).
Defined.

(** ** Key paths *)

Lemma bind_assoc {A B C} (m : M A) (f : A -> M B) (g : B -> M C) h :
  bind (bind m f) g h = bind m (fun x => bind (f x) g) h.
Proof. unfold bind. now destruct (m h). Qed.

Lemma descend_reads ks : forall parent_object k0 h,
  (r ← descend parent_object k0 ks; getitem r.1 r.2) h
  = foldM getitem (k0 :: ks) parent_object h.
Proof.
  induction ks as [|k ks IH]; intros parent_object k0 h; cbn [descend].
  - rewrite bind_ret. cbn [fst snd foldM]. unfold bind.
    now destruct (getitem parent_object k0 h).
  - rewrite bind_assoc. change (foldM getitem (k0 :: k :: ks) parent_object h)
      with (bind (getitem parent_object k0) (fun p => foldM getitem (k :: ks) p) h).
    unfold bind at 1 3. destruct (getitem parent_object k0 h) as [p h1| |];
      [|reflexivity..].
    apply IH.
Qed.

(** Reading through what [get_deepest_key_object] returns reads the value at
    the end of the key path, subscript by subscript, with the exception the
    first failing subscript raises; for an empty path the result is a new
    one-entry dictionary [{0: root_object}], so that reading gives the root
    itself and writing leaves the root alone. *)
Theorem get_deepest_key_object_reads_the_path (root_object : val) (keys : keypath)
    (h : heap) :
  (keys <> [] ->
   (r ← get_deepest_key_object root_object keys; getitem r.1 r.2) h
   = foldM getitem keys root_object h)
  /\ get_deepest_key_object root_object [] h
     = Ok (VRef (length h), KInt 0) (h ++ [ODict [(KInt 0, root_object)]]).
Proof.
  split; [|reflexivity].
  destruct keys as [|k0 ks]; [contradiction|]. intros _.
  cbn [get_deepest_key_object]. apply descend_reads.
Qed.

Lemma get_deepest_key_object_reads_the_path_witness :
  (r ← get_deepest_key_object (VRef 1%nat) [KStr "a"; KInt 0];
   getitem r.1 r.2)
    [OList [VStr "x"]; ODict [(KStr "a", VRef 0%nat)]]%string
  = Ok (VStr "x") [OList [VStr "x"]; ODict [(KStr "a", VRef 0%nat)]]%string.
Proof.
  exact (proj1 (get_deepest_key_object_reads_the_path (VRef 1%nat)
                  [KStr "a"; KInt 0]%string
                  [OList [VStr "x"]; ODict [(KStr "a", VRef 0%nat)]]%string)
           ltac:(discriminate)).
Defined.

(** ** The group document *)

Section Group.

Context {lib : PyLib}.

(** With a group file, an array parent path of three or more components
    cannot be set up: the loop over the components puts every new dictionary
    into the top of the group document but steps down into the one before,
    so the second step subscripts an empty dictionary and raises [KeyError];
    this is outside the row loop and ends the run. *)
Theorem setup_group_fails_on_a_deep_array_parent (cfg : config) (dv : directives)
    (s p1 p2 p3 : string) (rest : list string) (h : heap) :
  nonempty (group_filename cfg) = true ->
  output_array_parent dv = VStr s ->
  Str.split s "." = p1 :: p2 :: p3 :: rest ->
  (output_kind_parent dv = VNone \/ exists kind, output_kind_parent dv = VStr kind) ->
  (exists h', setup_group cfg dv h = Raise KeyError h')
  /\ (forall fuel w h0 root_template,
        json_load (template_file w) h0 = Ok root_template h ->
        extract_directives cfg root_template h = Ok dv h ->
        exists h', create_manifest_from_csv fuel cfg w h0 = Raise KeyError h').
Proof.
  intros Hgroup Harr Hsplit Hkind.
  assert (Hsetup : exists h', setup_group cfg dv h = Raise KeyError h').
  { unfold setup_group. rewrite Hgroup, Harr. cbn [val_is_none].
    rewrite bind_assoc. cbn [py_len]. rewrite !bind_ret.
    unfold new_dict at 1. rewrite (bind_ok _ _ _ _ _ (alloc_ok _ _)).
    remember (length h) as n eqn:Hn.
    assert (Hstart : exists gd h1,
              (has_kind ← not_none_nonempty (output_kind_parent dv);
               (if has_kind
                then setitem (VRef n) (KStr "kind") (output_kind_parent dv)
                else ret tt)) (h ++ [ODict []]) = Ok tt h1
              /\ h1 !! n = Some (ODict gd) /\ length h1 = S n).
    { destruct Hkind as [->|[kind ->]].
      - exists [], (h ++ [ODict []]). split; [reflexivity|].
        split; [heap_at|heap_len].
      - assert (Ek : not_none_nonempty (VStr kind) (h ++ [ODict []])
                     = Ok (0 <? String.length kind)%nat (h ++ [ODict []]))
          by reflexivity.
        rewrite (bind_ok _ _ _ _ _ Ek).
        destruct (0 <? String.length kind)%nat.
        + assert (H0 : (h ++ [ODict []]) !! n = Some (ODict [])) by heap_at.
          rewrite (setitem_dict _ _ (KStr "kind") (VStr kind) _ H0).
          eexists _, _. split; [reflexivity|]. split; [heap_at|heap_len].
        + exists [], (h ++ [ODict []]). split; [reflexivity|].
          split; [heap_at|heap_len]. }
    destruct Hstart as (gd & h1 & Hrun & H1n & Hlen1).
    rewrite <- bind_assoc. rewrite (bind_ok _ _ _ _ _ Hrun).
    unfold py_str_split. rewrite bind_ret, Hsplit.
    change (removelast (p1 :: p2 :: p3 :: rest))
      with (p1 :: p2 :: removelast (p3 :: rest)).
    cbn [foldM]. rewrite !bind_assoc.
    unfold new_dict at 1. rewrite (bind_ok _ _ _ _ _ (alloc_ok _ _)). rewrite Hlen1.
    rewrite bind_assoc.
    assert (H2n : (h1 ++ [ODict []]) !! n = Some (ODict gd)) by heap_at.
    rewrite (bind_ok _ _ _ _ _ (setitem_dict _ _ (KStr (Str.strip p1)) (VRef (S n)) _ H2n)).
    set (h2 := <[n := _]> (h1 ++ _)).
    assert (H2 : h2 !! n = Some (ODict (dict_set (KStr (Str.strip p1)) (VRef (S n)) gd)))
      by (unfold h2; heap_at).
    assert (Hlen2 : length h2 = S (S n)) by (unfold h2; heap_len).
    rewrite (bind_ok _ _ _ _ _ (getitem_dict _ _ _ _ _ H2 (dict_get_set_eq _ _ _))).
    rewrite !bind_assoc.
    unfold new_dict at 1. rewrite (bind_ok _ _ _ _ _ (alloc_ok _ _)). rewrite Hlen2.
    rewrite bind_assoc.
    assert (H3n : (h2 ++ [ODict []]) !! n
                  = Some (ODict (dict_set (KStr (Str.strip p1)) (VRef (S n)) gd)))
      by heap_at.
    rewrite (bind_ok _ _ _ _ _ (setitem_dict _ _ (KStr (Str.strip p2)) (VRef (S (S n))) _ H3n)).
    set (h3 := <[n := _]> (h2 ++ _)).
    assert (H3 : h3 !! S n = Some (ODict [])).
    { unfold h3. heap_lookup. unfold h2. heap_at. }
    rewrite (bind_raise _ _ _ _ _ (getitem_dict_missing _ _ (KStr (Str.strip p2)) _ H3 eq_refl)).
    now eexists. }
  split; [exact Hsetup|].
  intros fuel w h0 root_template Hload Hdir. destruct Hsetup as [h' Hsetup].
  exists h'. unfold create_manifest_from_csv.
  rewrite (bind_ok _ _ _ _ _ Hload), (bind_ok _ _ _ _ _ Hdir).
  now rewrite (bind_raise _ _ _ _ _ Hsetup).
Qed.

End Group.

Lemma setup_group_fails_on_a_deep_array_parent_witness :
  exists h',
    setup_group group_config deep_parent_directives []
    = Raise KeyError h'.
Proof.
  exact (proj1 (setup_group_fails_on_a_deep_array_parent (lib := strict_lib)
                  group_config deep_parent_directives "Data.Wells.Items"
                  "Data" "Wells" "Items" [] [] eq_refl eq_refl eq_refl
                  (or_introl eq_refl))).
Defined.

(** ** Copies and indexes of a document *)

(** [copy.deepcopy] of a value that denotes a document: with a budget of at
    least the depth it returns, the objects of the store are as they were,
    the copy denotes the same document, and the copy is made of new objects
    that refer to new objects only. *)
Theorem deepcopy_gives_an_independent_copy (fuel : nat) (v : val) (t : json) (h : heap) :
  repr h v t -> (depth t <= fuel)%nat ->
  exists v' h',
    deepcopy fuel v h = Ok v' h'
    /\ ext h h'
    /\ repr h' v' t
    /\ fresh_val (length h) v'
    /\ (forall (a : addr) (o : obj),
          (length h <= a)%nat -> h' !! a = Some o -> closed_obj (length h) o).
Proof.
  intros Hr Hd.
  destruct (deepcopy_repr fuel v t h Hr Hd) as (v' & h' & Hcopy & He & Hr').
  exists v', h'. split; [exact Hcopy|]. split; [exact He|]. split; [exact Hr'|].
  pose proof (safe_deepcopy h fuel v h (keeps_refl h)) as Hs.
  rewrite Hcopy in Hs. destruct Hs as [(_ & _ & Hnew) Hfresh].
  split; [exact Hfresh|exact Hnew].
Qed.

Lemma deepcopy_gives_an_independent_copy_witness :
  exists h',
    deepcopy 1 (VRef 0%nat) [ODict [(KStr "a", VStr "{{x}}")]]%string
    = Ok (VRef 1%nat) h'
    /\ repr h' (VRef 1%nat) (JDict [("a", JStr "{{x}}")]%string).
Proof.
  destruct (deepcopy_gives_an_independent_copy 1 (VRef 0%nat)
              (JDict [("a", JStr "{{x}}")]%string)
              [ODict [(KStr "a", VStr "{{x}}")]]%string)
    as (v' & h' & Hcopy & _ & Hr & _).
  - eapply repr_dict; [reflexivity|nodup_keys|].
    constructor; [|constructor]. split; [reflexivity|constructor].
  - cbn. lia.
  - exists h'. vm_compute in Hcopy. inversion Hcopy; subst. split; [reflexivity|exact Hr].
Defined.

(** An invariant of indexes that [index_append] keeps is kept by indexing. *)
Lemma parse_str_go_inv {R} (I : list (string * list R) -> Prop) :
  (forall p r po, I po -> I (index_append p r po)) ->
  forall fuel r s po, I po -> I (parse_str_go fuel r s po).
Proof.
  intros Happ. induction fuel as [|fuel IH]; intros r s po Hpo; cbn [parse_str_go];
    [exact Hpo|].
  destruct (Str.find _ parameter_start_delimiter); [|exact Hpo].
  destruct (Str.find _ parameter_end_delimiter); [|exact Hpo].
  destruct (0 <? String.length (Str.slice _ _ _))%nat;
    destruct (0 <? String.length (Str.drop _ _))%nat; auto.
Qed.

Lemma index_of_items_inv (I : vindex -> Prop) :
  (forall p r po, I po -> I (index_append p r po)) ->
  forall fuel items root keys root_list po,
    I po -> I (index_of_items fuel items root keys root_list po).
Proof.
  intros Happ. induction fuel as [|fuel IH]; intros items root keys root_list po Hpo;
    cbn [index_of_items]; [exact Hpo|].
  revert po Hpo. induction items as [|kt items IHi]; intros po Hpo; cbn [fold_left];
    [exact Hpo|].
  apply IHi. unfold index_of_item.
  destruct kt.2 as [| | | |s|l|d]; try exact Hpo.
  - now apply parse_str_go_inv.
  - destruct l as [|e [|e' l]]; try exact Hpo. now apply IH.
  - now apply IH.
Qed.

Lemma index_append_nonempty {R} p (r : R) po :
  Forall (fun e : string * list R => e.2 <> []) po ->
  Forall (fun e : string * list R => e.2 <> []) (index_append p r po).
Proof.
  induction po as [|[p1 recs] po IH]; intros Hpo; cbn [index_append].
  - constructor; [discriminate|constructor].
  - inversion Hpo as [|? ? H1 Hrest]; subst. destruct (String.eqb p p1).
    + constructor; [|exact Hrest]. cbn. now destruct recs.
    + constructor; [exact H1|now apply IH].
Qed.

Lemma index_append_NoDup {R} p (r : R) po :
  NoDup po.*1 -> NoDup (index_append p r po).*1.
Proof.
  intros Hnd. destruct (index_append_keys p r po) as [->|[Hn ->]]; [exact Hnd|].
  apply NoDup_app. split; [exact Hnd|]. split; [|apply NoDup_singleton].
  intros x Hx Hx'. apply list_elem_of_singleton in Hx'. now subst.
Qed.

Lemma index_rel_keys {R R'} (P : R -> R' -> Prop) po vpo :
  index_rel P po vpo -> po.*1 = vpo.*1.
Proof.
  induction 1 as [|e ve po vpo [Hk _] _ IH]; [reflexivity|].
  rewrite !fmap_cons. now rewrite Hk, IH.
Qed.

Lemma index_rel_nonempty {R R'} (P : R -> R' -> Prop) po vpo :
  index_rel P po vpo ->
  Forall (fun e : string * list R' => e.2 <> []) vpo ->
  Forall (fun e : string * list R => e.2 <> []) po.
Proof.
  induction 1 as [|e ve po vpo [_ Hrecs] _ IH]; intros Hv; [constructor|].
  inversion Hv as [|? ? H1 Hrest]; subst. constructor; [|now apply IH].
  intros Hnil. rewrite Hnil in Hrecs. apply Forall2_nil_inv_l in Hrecs. exact (H1 Hrecs).
Qed.

(** Indexing a template object: with a budget of at least its depth,
    [parse_template_parameters] returns, leaves the objects of the store as
    they were, and gives the index of the document the template denotes:
    one entry for each placeholder text, each with at least one occurrence. *)
Theorem indexing_follows_the_document (fuel : nat) (h : heap) (root_object : val)
    (d : list (string * json)) :
  repr h root_object (JDict d) -> (depth (JDict d) <= fuel)%nat ->
  exists parameters_object h',
    parse_template_parameters fuel root_object [] h = Ok parameters_object h'
    /\ ext h h'
    /\ repr_index h' parameters_object (document_index fuel d)
    /\ NoDup parameters_object.*1
    /\ Forall (fun e : string * list prec => e.2 <> []) parameters_object.
Proof.
  intros Hr Hd.
  destruct (parse_template_repr fuel h root_object d Hr Hd) as (po & h' & Hp & He & Hpo).
  exists po, h'. split; [exact Hp|]. split; [exact He|]. split; [exact Hpo|]. split.
  - rewrite (index_rel_keys _ _ _ Hpo). unfold document_index.
    apply (index_of_items_inv (fun vpo => NoDup vpo.*1)); [|constructor].
    intros p r vpo. apply index_append_NoDup.
  - apply (index_rel_nonempty _ _ _ Hpo). unfold document_index.
    apply (index_of_items_inv (fun vpo => Forall (fun e => e.2 <> []) vpo));
      [|constructor].
    intros p r vpo. apply index_append_nonempty.
Qed.

Lemma indexing_follows_the_document_witness :
  exists h',
    parse_template_parameters 1 (VRef 0%nat) [] named_heap = Ok named_index h'.
Proof.
  destruct (indexing_follows_the_document 1 named_heap (VRef 0%nat)
              [("$filename", JStr "{{n}}.json"); ("v", JStr "{{x}}")]%string)
    as (po & h' & Hp & _).
  - eapply repr_dict; [reflexivity|nodup_keys|].
    repeat constructor.
  - cbn. lia.
  - exists h'. vm_compute in Hp. inversion Hp; subst. reflexivity.
Defined.

(** ** Placeholders of a leaf *)

Lemma drop_length (n : nat) : forall s : string,
  String.length (Str.drop n s) = (String.length s - n)%nat.
Proof.
  induction n as [|n IH]; intros s; [cbn; lia|].
  destruct s as [|c s]; [reflexivity|]. cbn [Str.drop String.length]. rewrite IH. lia.
Qed.

Lemma lstrip_length (s : string) : (String.length (Str.lstrip s) <= String.length s)%nat.
Proof.
  induction s as [|c s IH]; [reflexivity|]. cbn [Str.lstrip].
  destruct (Str.is_space c); cbn [String.length]; lia.
Qed.

Lemma rstrip_length (s : string) : (String.length (Str.rstrip s) <= String.length s)%nat.
Proof.
  induction s as [|c s IH]; [reflexivity|]. cbn [Str.rstrip].
  destruct (Str.rstrip s) as [|c' r]; [destruct (Str.is_space c)|];
    cbn [String.length] in *; lia.
Qed.

Lemma strip_length (s : string) : (String.length (Str.strip s) <= String.length s)%nat.
Proof.
  unfold Str.strip. etransitivity; [apply rstrip_length|apply lstrip_length].
Qed.

(** [parse_str] calls itself on what is left after a closing delimiter,
    which is shorter than the leaf: the recursion ends, and a budget above
    the length of the leaf is never used up. *)
Theorem parse_str_ends {R} (parameter_rec : R) :
  forall (fuel1 fuel2 : nat) (val : string) (po : list (string * list R)),
    (String.length val < fuel1)%nat -> (String.length val < fuel2)%nat ->
    parse_str_go fuel1 parameter_rec val po = parse_str_go fuel2 parameter_rec val po.
Proof.
  induction fuel1 as [|fuel1 IH]; intros fuel2 val po H1 H2; [lia|].
  destruct fuel2 as [|fuel2]; [lia|]. cbn [parse_str_go].
  destruct (Str.find _ parameter_start_delimiter) as [i|]; [|reflexivity].
  destruct (Str.find _ parameter_end_delimiter) as [j|]; [|reflexivity].
  destruct (Nat.ltb_spec 0 (String.length
              (Str.drop (j + String.length parameter_end_delimiter) (Str.strip val))))
    as [Hleft|Hleft]; [|reflexivity].
  rewrite drop_length in Hleft. pose proof (strip_length val).
  apply IH; rewrite drop_length; cbn [parameter_end_delimiter String.length] in *; lia.
Qed.

Lemma parse_str_ends_witness :
  parse_str_go 30 tt "{{a}} of {{b}}" [] = [("{{a}}", [tt]); ("{{b}}", [tt])]%string.
Proof.
  refine (eq_trans (parse_str_ends tt 30 15 "{{a}} of {{b}}" [] _ _) _).
  - cbn. lia.
  - cbn. lia.
  - reflexivity.
Defined.

(** ** Items without content *)

Lemma allM_forallb {A B} (f : A -> M bool) (g : B -> bool) (h : heap) :
  forall xs ts,
    Forall2 (fun x t => f x h = Ok (g t) h) xs ts ->
    allM f xs h = Ok (forallb g ts) h.
Proof.
  induction 1 as [|x t xs ts Hx _ IH]; [reflexivity|].
  cbn [allM forallb]. rewrite (bind_ok _ _ _ _ _ Hx).
  destruct (g t); [exact IH|reflexivity].
Qed.

Lemma is_item_empty_repr (fuel : nat) :
  forall (item : val) (t : json) (h : heap),
    repr h item t -> (depth t < fuel)%nat ->
    is_item_empty fuel item h = Ok (jempty t) h.
Proof.
  induction fuel as [|fuel IH]; intros item t h Hr Hd; [lia|].
  cbn [is_item_empty].
  inversion Hr as [| | | | | a vs ts Ha Hvs | a d ts Ha Hnd Hds]; subst;
    try reflexivity.
  - rewrite (bind_ok _ _ _ _ _ (type_of_list _ _ _ Ha)).
    assert (Hitems : py_list_items (VRef a) h = Ok vs h).
    { unfold py_list_items. now rewrite (bind_ok _ _ _ _ _ (deref_ok _ _ _ Ha)). }
    rewrite (bind_ok _ _ _ _ _ Hitems). cbn [jempty].
    apply allM_forallb.
    assert (Hall : forall x, x ∈ ts -> (depth x < fuel)%nat).
    { intros x Hx. apply depth_list_le in Hx. lia. }
    clear Hd Hr Ha Hitems. induction Hvs as [|v x vs ts Hv _ IHvs]; constructor.
    + apply IH; [exact Hv|]. apply Hall. left.
    + apply IHvs. intros y Hy. apply Hall. now right.
  - rewrite (bind_ok _ _ _ _ _ (type_of_dict _ _ _ Ha)).
    rewrite (bind_ok _ _ _ _ _ (py_items_dict _ _ _ Ha)). cbn [jempty].
    apply allM_forallb.
    assert (Hall : forall kx, kx ∈ ts -> (depth kx.2 < fuel)%nat).
    { intros kx Hkx. apply depth_dict_le in Hkx. lia. }
    clear Hd Hr Ha Hnd. induction Hds as [|kv kx d ts [_ Hv] _ IHds]; constructor.
    + apply IH; [exact Hv|]. apply Hall. left.
    + apply IHds. intros y Hy. apply Hall. now right.
Qed.

(** [is_item_empty] on a value that denotes a document answers whether the
    document has no scalar at any depth ([{}], [[]], [[{}, []]], ... are empty;
    [None], [""], [0] are not), and it only reads. *)
Theorem is_item_empty_tests_for_scalars (fuel : nat) (item : val) (t : json) (h : heap) :
  repr h item t -> (depth t < fuel)%nat ->
  is_item_empty fuel item h = Ok (jempty t) h.
Proof. apply is_item_empty_repr. Qed.

Lemma is_item_empty_tests_for_scalars_witness :
  is_item_empty 3 (VRef 1%nat) [ODict []; OList [VRef 0%nat]]
  = Ok true [ODict []; OList [VRef 0%nat]].
Proof.
  refine (is_item_empty_tests_for_scalars 3 (VRef 1%nat) (JList [JDict []])
            [ODict []; OList [VRef 0%nat]] _ _).
  - eapply repr_list; [reflexivity|]. constructor; [|constructor].
    eapply repr_dict; [reflexivity|constructor|constructor].
  - cbn. lia.
Defined.

(** ** Typed leaves: integers *)

Section IntCoercion.

Context {lib : PyLib}.

Lemma int_leaf_strip (x : string) :
  Str.strip ("int(" +:+ ("{{" +:+ x +:+ "}}") +:+ ")") = "int(" +:+ ("{{" +:+ x +:+ "}}") +:+ ")".
Proof.
  assert (E : "int(" +:+ ("{{" +:+ x +:+ "}}") +:+ ")"
              = "int({{" +:+ ((x +:+ "}}") +:+ ")")) by reflexivity.
  rewrite E. unfold Str.strip.
  assert (L : Str.lstrip ("int({{" +:+ ((x +:+ "}}") +:+ ")"))
              = "int({{" +:+ ((x +:+ "}}") +:+ ")")) by reflexivity.
  rewrite L. apply rstrip_app; [destruct x; discriminate|].
  apply rstrip_app; [discriminate|reflexivity].
Qed.

Lemma int_leaf_typed (x : string) :
  Re.fullmatch_typed ("{{" +:+ x +:+ "}}") ("int(" +:+ ("{{" +:+ x +:+ "}}") +:+ ")") = true.
Proof.
  unfold Re.fullmatch_typed. apply existsb_exists.
  exists "int"%string. split; [simpl; tauto|apply String.eqb_eq; reflexivity].
Qed.


End IntCoercion.


(** ** Wrapping a manifest in its parent document *)

Lemma ext_insert_new (h0 h : heap) (c : addr) (o : obj) :
  ext h0 h -> (length h0 <= c)%nat -> ext h0 (<[c := o]> h).
Proof.
  intros [l ->] Hc. exists (<[(c - length h0)%nat := o]> l).
  now rewrite insert_app_r_alt by exact Hc.
Qed.

Section Wrap.

Variables (h0 : heap) (leaf : val) (tleaf : json) (last_item : string).

Hypothesis leaf_denotes : repr h0 leaf tleaf.

Lemma wrap_loop : forall (items : list string) (c : addr) cd tcd (h : heap),
  ext h0 h -> (length h0 <= c)%nat ->
  h !! c = Some (ODict cd) -> NoDup cd.*1 -> Forall2 (repr_item h0) cd tcd ->
  exists h',
    (lm_parent ← foldM descend_into items (VRef c);
     setitem lm_parent (KStr last_item) leaf) h = Ok tt h'
    /\ ext h0 h'
    /\ repr h' (VRef c) (JDict (nested_members items last_item tleaf tcd))
    /\ (forall b : addr, (b < length h)%nat -> b <> c -> h' !! b = h !! b).
Proof.
  induction items as [|p ps IH]; intros c cd tcd h He Hc Hcd Hnd Hrel.
  - cbn [foldM nested_members]. rewrite bind_ret.
    rewrite (setitem_dict _ _ (KStr last_item) leaf _ Hcd).
    pose proof (lookup_lt_Some _ _ _ Hcd) as Hlt.
    assert (He' : ext h0 (<[c := ODict (dict_set (KStr last_item) leaf cd)]> h))
      by now apply ext_insert_new.
    eexists. split; [reflexivity|]. split; [exact He'|]. split.
    + eapply repr_dict; [now apply list_lookup_insert_eq|now apply dict_set_NoDup|].
      apply dict_set_rel.
      * eapply Forall2_repr_item_ext; [exact He'|exact Hrel].
      * eapply repr_ext; [exact He'|exact leaf_denotes].
    + intros b _ Hb. now rewrite list_lookup_insert_ne by congruence.
  - cbn [foldM nested_members]. rewrite bind_assoc. unfold descend_into at 1.
    rewrite bind_assoc. unfold new_dict at 1.
    rewrite (bind_ok _ _ _ _ _ (alloc_ok _ _)). rewrite bind_assoc.
    pose proof (lookup_lt_Some _ _ _ Hcd) as Hlt.
    remember (length h) as n eqn:Hn.
    assert (H1 : (h ++ [ODict []]) !! c = Some (ODict cd)) by heap_at.
    rewrite (bind_ok _ _ _ _ _ (setitem_dict _ _ (KStr (Str.strip p)) (VRef n) _ H1)).
    set (h2 := <[c := _]> (h ++ _)).
    assert (H2c : h2 !! c = Some (ODict (dict_set (KStr (Str.strip p)) (VRef n) cd)))
      by (unfold h2; heap_at).
    assert (H2n : h2 !! n = Some (ODict [])) by (unfold h2; heap_at).
    assert (Hlen2 : length h2 = S n) by (unfold h2; heap_len).
    rewrite (bind_ok _ _ _ _ _ (getitem_dict _ _ _ _ _ H2c (dict_get_set_eq _ _ _))).
    assert (He2 : ext h0 h2).
    { unfold h2. apply ext_insert_new; [|exact Hc].
      eapply ext_trans; [exact He|apply ext_app]. }
    assert (Hn0 : (length h0 <= n)%nat).
    { destruct He as [l ->]. rewrite length_app in Hn. lia. }
    destruct (IH n [] [] h2 He2 Hn0 H2n ltac:(constructor) ltac:(constructor))
      as (h' & Hrun & He' & Hr & Hframe).
    exists h'. split; [exact Hrun|]. split; [exact He'|]. split.
    + eapply repr_dict.
      * rewrite Hframe by lia. exact H2c.
      * now apply dict_set_NoDup.
      * apply dict_set_rel; [|exact Hr].
        eapply Forall2_repr_item_ext; [exact He'|exact Hrel].
    + intros b Hb Hbc. rewrite Hframe by lia. unfold h2. heap_lookup. reflexivity.
Qed.

End Wrap.

(** [wrap_in_parent] builds, in new objects, the document
    [{kind?, p1: {p2: ... {last: leaf}}}] for the components of the dotted
    path, however many there are, and leaves the store it found as it was;
    the components before the last are stripped, the last is not. *)
Theorem wrap_in_parent_nests_the_path (path : string) (kind leaf : val)
    (tleaf : json) (h : heap) :
  repr h leaf tleaf ->
  (kind = VNone \/ exists k, kind = VStr k) ->
  exists h',
    wrap_in_parent (VStr path) kind leaf h = Ok (VRef (length h)) h'
    /\ ext h h'
    /\ repr h' (VRef (length h)) (wrapped path kind tleaf).
Proof.
  intros Hleaf Hkind. unfold wrap_in_parent, wrapped.
  unfold py_str_split. rewrite bind_ret.
  unfold new_dict at 1. rewrite (bind_ok _ _ _ _ _ (alloc_ok _ _)).
  remember (length h) as n eqn:Hn.
  assert (Hstart : exists gd h1,
            (has_kind ← not_none_nonempty kind;
             (if has_kind then setitem (VRef n) (KStr "kind") kind else ret tt))
              (h ++ [ODict []]) = Ok tt h1
            /\ h1 !! n = Some (ODict gd) /\ ext h h1 /\ NoDup gd.*1
            /\ Forall2 (repr_item h) gd (kind_members kind)).
  { destruct Hkind as [->|[k ->]].
    - exists [], (h ++ [ODict []]). split; [reflexivity|].
      split; [heap_at|]. split; [apply ext_app|]. split; constructor.
    - assert (Ek : not_none_nonempty (VStr k) (h ++ [ODict []])
                   = Ok (0 <? String.length k)%nat (h ++ [ODict []])) by reflexivity.
      rewrite (bind_ok _ _ _ _ _ Ek). cbn [kind_members].
      destruct (0 <? String.length k)%nat.
      + assert (H0 : (h ++ [ODict []]) !! n = Some (ODict [])) by heap_at.
        rewrite (setitem_dict _ _ (KStr "kind") (VStr k) _ H0).
        eexists _, _. split; [reflexivity|]. split; [heap_at|].
        split; [apply ext_insert_new; [apply ext_app|lia]|].
        split; [cbn; nodup_keys|].
        constructor; [|constructor]. split; [reflexivity|constructor].
      + exists [], (h ++ [ODict []]). split; [reflexivity|].
        split; [heap_at|]. split; [apply ext_app|]. split; constructor. }
  destruct Hstart as (gd & h1 & Hrun & H1n & He1 & Hnd & Hgd).
  rewrite <- bind_assoc. rewrite (bind_ok _ _ _ _ _ Hrun).
  destruct (wrap_loop h leaf tleaf (default EmptyString (last (Str.split path ".")))
              Hleaf (removelast (Str.split path ".")) n gd (kind_members kind) h1
              He1 ltac:(lia) H1n Hnd Hgd) as (h' & Hloop & He' & Hr & _).
  exists h'. split; [|split; [exact He'|exact Hr]].
  rewrite <- bind_assoc. now rewrite (bind_ok _ _ _ _ _ Hloop).
Qed.

Lemma wrap_in_parent_nests_the_path_witness :
  exists h',
    wrap_in_parent (VStr "Data. Wells .Items") (VStr "osdu:wells")
      (VInt 1) [] = Ok (VRef 0%nat) h'
    /\ repr h' (VRef 0%nat)
         (JDict [("kind", JStr "osdu:wells");
                 ("Data", JDict [("Wells", JDict [("Items", JInt 1)])])]%string).
Proof.
  destruct (wrap_in_parent_nests_the_path "Data. Wells .Items"
              (VStr "osdu:wells") (VInt 1) (JInt 1) [])
    as (h' & Hrun & _ & Hr).
  - constructor.
  - right. now eexists.
  - exists h'. split; [exact Hrun|exact Hr].
Defined.

(** ** Documents held without sharing: frames *)

#[local] Set Warnings "-clear-no-such-hyp".

Lemma tree_weaken h v t fp fp' : tree h v t fp -> fp ⊆ fp' -> tree h v t fp'.
Proof.
  intros Ht Hsub. destruct Ht; try constructor.
  - eapply tree_list; eauto. set_solver.
  - eapply tree_dict; eauto. set_solver.
Qed.

Lemma trees_weaken h vs ts fp fp' : trees h vs ts fp -> fp ⊆ fp' -> trees h vs ts fp'.
Proof.
  intros Ht Hsub. destruct Ht; [constructor|].
  eapply trees_cons; eauto. set_solver.
Qed.

Lemma members_weaken h d ts fp fp' :
  members h d ts fp -> fp ⊆ fp' -> members h d ts fp'.
Proof.
  intros Ht Hsub. destruct Ht; [constructor|].
  eapply members_cons; eauto. set_solver.
Qed.

(** A store that agrees on the region holds the same document there. *)
Lemma tree_frame h h' :
  forall t v fp, tree h v t fp -> (forall b, b ∈ fp -> h' !! b = h !! b) ->
  tree h' v t fp.
Proof.
  induction t as [| | | | | l IH | d IH] using json_ind'; intros v fp Ht Hsame;
    inversion Ht as [| | | | | a vs ts fpc fp0 Ha Hvs Hn Hsub
                            | a dd ts fpc fp0 Ha Hnd Hds Hn Hsub]; subst;
    try constructor.
  - eapply tree_list; [rewrite Hsame; [exact Ha|set_solver]| |exact Hn|exact Hsub].
    assert (Hsame' : forall b, b ∈ fpc -> h' !! b = h !! b)
      by (intros b Hb; apply Hsame; set_solver).
    clear Ht Ha Hn Hsub Hsame. revert IH.
    induction Hvs as [|v t vs ts fp1 fp2 fpx Hv Hvs IHvs Hdis Hsub]; intros IH;
      [constructor|].
    inversion IH as [|? ? IHt IHl]; subst.
    eapply trees_cons; [| |exact Hdis|exact Hsub].
    + apply IHt; [exact Hv|]. intros b Hb. apply Hsame'. set_solver.
    + apply IHvs; [|exact IHl]. intros b Hb. apply Hsame'. set_solver.
  - eapply tree_dict; [rewrite Hsame; [exact Ha|set_solver]|exact Hnd| |exact Hn|exact Hsub].
    assert (Hsame' : forall b, b ∈ fpc -> h' !! b = h !! b)
      by (intros b Hb; apply Hsame; set_solver).
    clear Ht Ha Hn Hsub Hsame Hnd. revert IH.
    induction Hds as [|k v t dd ts fp1 fp2 fpx Hv Hds IHds Hdis Hsub]; intros IH;
      [constructor|].
    inversion IH as [|? ? IHt IHl]; subst. cbn [snd] in IHt.
    eapply members_cons; [| |exact Hdis|exact Hsub].
    + apply IHt; [exact Hv|]. intros b Hb. apply Hsame'. set_solver.
    + apply IHds; [|exact IHl]. intros b Hb. apply Hsame'. set_solver.
Qed.

Lemma trees_frame h h' vs ts fp :
  trees h vs ts fp -> (forall b, b ∈ fp -> h' !! b = h !! b) -> trees h' vs ts fp.
Proof.
  induction 1 as [|v t vs ts fp1 fp2 fp Hv Hvs IH Hdis Hsub]; intros Hsame;
    [constructor|].
  eapply trees_cons; [| |exact Hdis|exact Hsub].
  - eapply tree_frame; [exact Hv|]. intros b Hb. apply Hsame. set_solver.
  - apply IH. intros b Hb. apply Hsame. set_solver.
Qed.

Lemma members_frame h h' d ts fp :
  members h d ts fp -> (forall b, b ∈ fp -> h' !! b = h !! b) -> members h' d ts fp.
Proof.
  induction 1 as [|k v t d ts fp1 fp2 fp Hv Hds IH Hdis Hsub]; intros Hsame;
    [constructor|].
  eapply members_cons; [| |exact Hdis|exact Hsub].
  - eapply tree_frame; [exact Hv|]. intros b Hb. apply Hsame. set_solver.
  - apply IH. intros b Hb. apply Hsame. set_solver.
Qed.

(** A document held without sharing is a document of the store. *)
Lemma tree_repr h : forall t v fp, tree h v t fp -> repr h v t.
Proof.
  induction t as [| | | | | l IH | d IH] using json_ind'; intros v fp Ht;
    inversion Ht as [| | | | | a vs ts fpc fp0 Ha Hvs Hn Hsub
                            | a dd ts fpc fp0 Ha Hnd Hds Hn Hsub]; subst;
    try constructor.
  - eapply repr_list; [exact Ha|]. clear Ht Ha Hn Hsub. revert IH.
    induction Hvs as [|v t vs ts fp1 fp2 fpx Hv Hvs IHvs Hdis Hsub]; intros IH;
      [constructor|].
    inversion IH; subst. constructor; eauto.
  - eapply repr_dict; [exact Ha|exact Hnd|]. clear Ht Ha Hn Hsub Hnd. revert IH.
    induction Hds as [|k v t dd ts fp1 fp2 fpx Hv Hds IHds Hdis Hsub]; intros IH;
      [constructor|].
    inversion IH; subst. constructor; [split; [reflexivity|]; eauto|eauto].
Qed.

(** ** Clearing a document *)

Lemma jclear_list items :
  jclear (JList items)
  = JList (List.filter (fun x => negb (jempty x))
             (List.filter (fun x => negb (placeholder_leaf x))
                (map cleared_item items))).
Proof. reflexivity. Qed.

Lemma jclear_dict members :
  jclear (JDict members)
  = JDict (List.filter (fun kx : string * json => negb (dropped kx.2))
             (map cleared_member members)).
Proof. reflexivity. Qed.

Lemma max_filter_le {A} (f : A -> nat) (P : A -> bool) (l : list A) :
  (fold_right Nat.max 0 (map f (List.filter P l)) <= fold_right Nat.max 0 (map f l))%nat.
Proof.
  induction l as [|x l IH]; [reflexivity|]. cbn [List.filter map fold_right].
  destruct (P x); cbn [map fold_right]; lia.
Qed.

Lemma max_map_le {A} (f g : A -> nat) (l : list A) :
  Forall (fun x => f x <= g x)%nat l ->
  (fold_right Nat.max 0 (map f l) <= fold_right Nat.max 0 (map g l))%nat.
Proof. induction 1; cbn [map fold_right]; lia. Qed.

Lemma jclear_depth : forall t, (depth (jclear t) <= depth t)%nat.
Proof.
  induction t as [| | | | | l IH | d IH] using json_ind'; try reflexivity.
  - rewrite jclear_list. cbn [depth]. apply le_n_S.
    etransitivity; [apply max_filter_le|]. etransitivity; [apply max_filter_le|].
    rewrite map_map. apply max_map_le.
    eapply Forall_impl; [exact IH|]. intros x Hx. cbv beta in *.
    destruct x; cbn [cleared_item]; try lia; exact Hx.
  - rewrite jclear_dict. cbn [depth]. apply le_n_S.
    etransitivity; [apply (max_filter_le (fun kx : string * json => depth kx.2))|].
    rewrite map_map. apply max_map_le.
    eapply Forall_impl; [exact IH|]. intros [k x] Hx. cbn [cleared_member fst snd] in *.
    destruct x; cbn [cleared_item]; try lia; exact Hx.
Qed.

Lemma cleared_item_depth x : (depth (cleared_item x) <= depth x)%nat.
Proof. destruct x; cbn [cleared_item]; try lia; apply jclear_depth. Qed.

Lemma forallb_filter {A} (P Q : A -> bool) (l : list A) :
  (forall x, In x l -> Q x = true -> P x = true) ->
  forallb P (List.filter Q l) = true.
Proof.
  intros H. apply forallb_forall. intros x Hx. apply filter_In in Hx as [Hin Hq].
  now apply H.
Qed.

(** A cleared list or dictionary holds no text with a placeholder. *)
Lemma jclear_placeholder_free : forall t,
  match t with
  | JList _ | JDict _ => placeholder_free (jclear t) = true
  | _ => True
  end.
Proof.
  induction t as [| | | | | l IH | d IH] using json_ind'; try exact I.
  - rewrite jclear_list. cbn [placeholder_free].
    apply forallb_filter. intros x Hx _. apply filter_In in Hx as [Hin Hq].
    apply in_map_iff in Hin as (x0 & <- & Hin0).
    rewrite Forall_forall in IH. specialize (IH x0 (proj2 (list_elem_of_In _ _) Hin0)).
    destruct x0; cbn [cleared_item placeholder_leaf] in *; try reflexivity;
      try exact IH.
    cbn [placeholder_free]. exact Hq.
  - rewrite jclear_dict. cbn [placeholder_free].
    apply forallb_filter. intros [k x] Hx Hq. apply in_map_iff in Hx as ([k0 x0] & E & Hin0).
    inversion E; subst. cbn [snd] in *.
    rewrite Forall_forall in IH.
    specialize (IH _ (proj2 (list_elem_of_In _ _) Hin0)). cbn [snd] in IH.
    unfold dropped in Hq. apply negb_true_iff, orb_false_iff in Hq as [_ Hq].
    destruct x0; cbn [cleared_item placeholder_leaf] in *; try reflexivity;
      try exact IH.
    cbn [placeholder_free]. now rewrite Hq.
Qed.

(** ** Lists and dictionaries held without sharing *)

#[local] Set Warnings "-clear-no-such-hyp".

Lemma members_keys h d ms fp :
  members h d ms fp -> d.*1 = map (fun kx : string * json => KStr kx.1) ms.
Proof.
  induction 1 as [|k v t d ts fp1 fp2 fpx Hv Hds IH Hdis Hsub]; [reflexivity|].
  rewrite fmap_cons. cbn [fst map]. now rewrite IH.
Qed.

Lemma members_length h d ms fp : members h d ms fp -> length d = length ms.
Proof. induction 1; cbn [length]; congruence. Qed.

Lemma trees_length h vs ts fp : trees h vs ts fp -> length vs = length ts.
Proof. induction 1; cbn [length]; congruence. Qed.

Lemma trees_snoc h vs ts v t fp1 fp2 fp :
  trees h vs ts fp1 -> tree h v t fp2 -> fp1 ## fp2 -> fp1 ∪ fp2 ⊆ fp ->
  trees h (vs ++ [v]) (ts ++ [t]) fp.
Proof.
  intros Hvs. revert fp. induction Hvs as [fpn|v0 t0 vs ts fpa fpb fpx Hv0 Hvs IH Hdis Hsub];
    intros fp Hv Hd Hs; cbn [app].
  - eapply (trees_cons _ _ _ _ _ fp2 ∅); [exact Hv|constructor|set_solver|set_solver].
  - eapply (trees_cons _ _ _ _ _ fpa (fpb ∪ fp2)); [exact Hv0| |set_solver|set_solver].
    apply IH; [exact Hv|set_solver|set_solver].
Qed.

Lemma trees_snoc_inv h vs v : forall ts fp,
  trees h (vs ++ [v]) ts fp ->
  exists ts' t fp1 fp2,
    ts = ts' ++ [t] /\ trees h vs ts' fp1 /\ tree h v t fp2
    /\ fp1 ## fp2 /\ fp1 ∪ fp2 ⊆ fp.
Proof.
  induction vs as [|v0 vs IH]; intros ts fp Ht; cbn [app] in Ht;
    inversion Ht as [|? t0 ? ts0 fpa fpb ? Hv0 Hvs Hdis Hsub]; subst.
  - inversion Hvs; subst. exists [], t0, ∅, fpa.
    split; [reflexivity|]. split; [constructor|]. split; [exact Hv0|].
    split; set_solver.
  - apply IH in Hvs as (ts' & t & fp1 & fp2 & -> & Hvs' & Hv & Hd & Hs).
    exists (t0 :: ts'), t, (fpa ∪ fp1), fp2. split; [reflexivity|].
    split; [eapply trees_cons; [exact Hv0|exact Hvs'|set_solver|set_solver]|].
    split; [exact Hv|]. split; set_solver.
Qed.

(** *** Deleting keys *)

Lemma dict_get_elem k d : k ∈ d.*1 -> is_Some (dict_get k d).
Proof.
  induction d as [|[k' v] d IH]; rewrite ?fmap_cons; cbn [fst dict_get].
  - intros Hk. now apply not_elem_of_nil in Hk.
  - intros Hk. destruct (key_eqb k k') eqn:E; [now eexists|].
    apply elem_of_cons in Hk as [->|Hk]; [now rewrite key_eqb_refl in E|now apply IH].
Qed.

Lemma dict_del_elem_ne k k' d : k' <> k -> k' ∈ d.*1 -> k' ∈ (dict_del k d).*1.
Proof.
  intros Hne. induction d as [|[k1 v] d IH]; rewrite ?fmap_cons; cbn [fst dict_del];
    [easy|].
  intros Hk. destruct (key_eqb k k1) eqn:E.
  - apply key_eqb_eq in E. subst k1.
    apply elem_of_cons in Hk as [->|Hk]; [contradiction|exact Hk].
  - rewrite fmap_cons. cbn [fst]. apply elem_of_cons in Hk as [->|Hk]; [left|right; auto].
Qed.

Lemma delete_keys (a : addr) : forall dels d (h : heap),
  h !! a = Some (ODict d) -> NoDup dels -> (forall k, k ∈ dels -> k ∈ d.*1) ->
  forM_ (fun del_key => delitem (VRef a) del_key) dels h
  = Ok tt (<[a := ODict (fold_left (fun d k => dict_del k d) dels d)]> h).
Proof.
  induction dels as [|k dels IH]; intros d h Ha Hnd Hin; cbn [forM_ fold_left].
  - now rewrite list_insert_id by exact Ha.
  - apply NoDup_cons in Hnd as [Hk Hnd].
    destruct (dict_get_elem k d) as [x Hx]; [apply Hin; left|].
    assert (Hdel : delitem (VRef a) k h = Ok tt (<[a := ODict (dict_del k d)]> h)).
    { unfold delitem. rewrite (bind_ok _ _ _ _ _ (deref_ok _ _ _ Ha)), Hx.
      eapply store_ok. exact Ha. }
    rewrite (bind_ok _ _ _ _ _ Hdel).
    rewrite (IH (dict_del k d)); [now rewrite list_insert_insert_eq| |exact Hnd|].
    + apply list_lookup_insert_eq. now apply lookup_lt_Some in Ha.
    + intros k' Hk'. apply dict_del_elem_ne; [|apply Hin; now right].
      intros ->. contradiction.
Qed.

Lemma fold_del_cons k0 v : forall dels d,
  k0 ∉ dels ->
  fold_left (fun d k => dict_del k d) dels ((k0, v) :: d)
  = (k0, v) :: fold_left (fun d k => dict_del k d) dels d.
Proof.
  induction dels as [|k dels IH]; intros d Hn; [reflexivity|].
  apply not_elem_of_cons in Hn as [Hne Hn]. cbn [fold_left dict_del].
  destruct (key_eqb k k0) eqn:E; [apply key_eqb_eq in E; congruence|].
  now apply IH.
Qed.

(** ** [clear_non_filled_parameters] on a document held without sharing *)

#[local] Set Warnings "-clear-no-such-hyp".

Lemma clear_dict_unfold fuel' d :
  clear_dict (S fuel') d
  = (items ← py_items d;
     to_be_deleted ← foldM (clear_dict_body fuel') items [];
     forM_ (fun del_key => delitem d del_key) to_be_deleted).
Proof. reflexivity. Qed.

Lemma clear_list_unfold fuel' lst :
  clear_list (S fuel') lst
  = (n ← py_len lst;
     forM_ (clear_list_body fuel' lst) (range_down n);;
     n ← py_len lst;
     forM_ (drop_empty_body fuel' lst) (range_down n)).
Proof. reflexivity. Qed.

Lemma dropped_keys_elem ms k :
  k ∈ dropped_keys ms -> k ∈ map (fun kx : string * json => KStr kx.1) ms.
Proof.
  unfold dropped_keys. induction ms as [|kx ms IH]; cbn [List.filter map]; [easy|].
  destruct (dropped kx.2); cbn [map]; intros Hk.
  - apply elem_of_cons in Hk as [->|Hk]; [left|right; auto].
  - right. auto.
Qed.

Lemma dropped_keys_NoDup ms :
  NoDup (map (fun kx : string * json => KStr kx.1) ms) -> NoDup (dropped_keys ms).
Proof.
  unfold dropped_keys. induction ms as [|kx ms IH]; cbn [List.filter map]; [easy|].
  intros Hnd. apply NoDup_cons in Hnd as [Hn Hnd].
  destruct (dropped kx.2); cbn [map]; [|auto].
  apply NoDup_cons. split; [|auto].
  intros Hk. apply Hn. now apply dropped_keys_elem.
Qed.

Lemma fold_del_NoDup : forall dels d,
  NoDup d.*1 -> NoDup (fold_left (fun d k => dict_del k d) dels d).*1.
Proof.
  induction dels as [|k dels IH]; intros d Hnd; [exact Hnd|].
  cbn [fold_left]. apply IH. now apply dict_del_NoDup.
Qed.

Lemma members_delete h : forall d ms fp,
  members h d ms fp -> NoDup d.*1 ->
  members h (fold_left (fun d k => dict_del k d) (dropped_keys ms) d)
    (List.filter (fun kx : string * json => negb (dropped kx.2)) ms) fp.
Proof.
  induction 1 as [fpn|k v t d ts fp1 fp2 fpx Hv Hds IH Hdis Hsub]; intros Hnd;
    [constructor|].
  rewrite fmap_cons in Hnd. cbn [fst] in Hnd. apply NoDup_cons in Hnd as [Hn Hnd].
  unfold dropped_keys. cbn [List.filter snd fst].
  destruct (dropped t) eqn:Ed; cbn [negb map fold_left dict_del fst].
  - rewrite key_eqb_refl. eapply members_weaken; [now apply IH|set_solver].
  - fold (dropped_keys ts). rewrite fold_del_cons.
    + eapply members_cons; [exact Hv|now apply IH|exact Hdis|exact Hsub].
    + intros Hk. apply Hn. apply dropped_keys_elem in Hk.
      now rewrite (members_keys _ _ _ _ Hds).
Qed.

Lemma py_len_dict h (a : addr) d :
  h !! a = Some (ODict d) -> py_len (VRef a) h = Ok (length d) h.
Proof. intros E. unfold py_len, bind, deref. now rewrite E. Qed.

Section ClearStep.

Variable fuel' : nat.

Hypothesis IH : clear_spec fuel'.

(** One member of a dictionary. *)
Lemma clear_member_step k v t fp1 h acc :
  tree h v t fp1 -> (depth t < fuel')%nat ->
  exists h',
    clear_dict_body fuel' acc (KStr k, v) h
    = Ok (if dropped (cleared_item t) then acc ++ [KStr k] else acc) h'
    /\ tree h' v (cleared_item t) fp1
    /\ (forall b : addr, b ∉ fp1 -> h' !! b = h !! b).
Proof.
  intros Ht Hd. pose proof (IH v t fp1 h Ht Hd) as Hc.
  unfold clear_dict_body. cbn [fst snd].
  inversion Ht as [| | | | | a vs ts fpc fp0 Ha Hvs Hn Hsub
                          | a dd ts fpc fp0 Ha Hnd Hds Hn Hsub]; subst;
    try (exists h; split; [reflexivity|]; split; [constructor|reflexivity]).
  - destruct Hc as (h' & Hclear & Ht' & Hframe).
    rewrite (bind_ok _ _ _ _ _ (type_of_list _ _ _ Ha)).
    rewrite (bind_ok _ _ _ _ _ Hclear).
    cbn [cleared_item]. rewrite jclear_list in *.
    set (ts' := List.filter _ _) in *.
    inversion Ht' as [| | | | | a' vs' ts0 fpc' fp0' Ha' Hvs' Hn' Hsub'|]; subst.
    rewrite (bind_ok _ _ _ _ _ (py_len_list _ _ _ Ha')).
    exists h'. split; [|split; [exact Ht'|exact Hframe]].
    apply trees_length in Hvs'. unfold dropped. cbn [placeholder_leaf].
    rewrite orb_false_r. destruct vs', ts'; try discriminate; reflexivity.
  - destruct Hc as (h' & Hclear & Ht' & Hframe).
    rewrite (bind_ok _ _ _ _ _ (type_of_dict _ _ _ Ha)).
    rewrite (bind_ok _ _ _ _ _ Hclear).
    cbn [cleared_item]. rewrite jclear_dict in *.
    set (ts' := List.filter _ _) in *.
    inversion Ht' as [| | | | | |a' d' ts0 fpc' fp0' Ha' Hnd' Hds' Hn' Hsub']; subst.
    rewrite (bind_ok _ _ _ _ _ (py_len_dict _ _ _ Ha')).
    exists h'. split; [|split; [exact Ht'|exact Hframe]].
    apply members_length in Hds'. unfold dropped. cbn [placeholder_leaf].
    rewrite orb_false_r. destruct d', ts'; try discriminate; reflexivity.
Qed.

Lemma clear_members_fold : forall d ms fp h acc,
  members h d ms fp ->
  (forall kx, kx ∈ ms -> depth kx.2 < fuel')%nat ->
  exists h',
    foldM (clear_dict_body fuel') d acc h
    = Ok (acc ++ dropped_keys (map cleared_member ms)) h'
    /\ members h' d (map cleared_member ms) fp
    /\ (forall b : addr, b ∉ fp -> h' !! b = h !! b).
Proof.
  induction d as [|kv d IHd]; intros ms fp h acc Hm Hdepth;
    inversion Hm as [fpn|k v t d0 ts fp1 fp2 fpx Hv Hds Hdis Hsub]; subst.
  - exists h. cbn [foldM map]. unfold dropped_keys. cbn [List.filter map].
    rewrite app_nil_r. split; [reflexivity|]. split; [constructor|reflexivity].
  - destruct (clear_member_step k v t fp1 h acc Hv) as (h1 & Hstep & Hv1 & Hframe1).
    { apply (Hdepth (k, t)). left. }
    assert (Hds1 : members h1 d ts fp2).
    { eapply members_frame; [exact Hds|]. intros b Hb. apply Hframe1. set_solver. }
    destruct (IHd ts fp2 h1 (if dropped (cleared_item t) then acc ++ [KStr k] else acc)
                Hds1) as (h2 & Hfold & Hds2 & Hframe2).
    { intros kx Hkx. apply Hdepth. now right. }
    exists h2. cbn [foldM]. rewrite (bind_ok _ _ _ _ _ Hstep). split; [|split].
    + rewrite Hfold. f_equal. unfold dropped_keys. cbn [map List.filter cleared_member snd fst].
      destruct (dropped (cleared_item t)); cbn [map fst]; [|reflexivity].
      now rewrite <- app_assoc.
    + cbn [map]. unfold cleared_member at 1. cbn [fst snd].
      eapply members_cons; [|exact Hds2|exact Hdis|exact Hsub].
      eapply tree_frame; [exact Hv1|]. intros b Hb. apply Hframe2. set_solver.
    + intros b Hb. rewrite Hframe2 by set_solver. apply Hframe1. set_solver.
Qed.

(** [clear_dict], one level. *)
Lemma clear_dict_step (a : addr) d ms fpc fp h :
  h !! a = Some (ODict d) -> NoDup d.*1 -> members h d ms fpc ->
  a ∉ fpc -> {[a]} ∪ fpc ⊆ fp ->
  (forall kx, kx ∈ ms -> depth kx.2 < fuel')%nat ->
  exists h',
    clear_dict (S fuel') (VRef a) h = Ok tt h'
    /\ tree h' (VRef a) (jclear (JDict ms)) fp
    /\ (forall b : addr, b ∉ fp -> h' !! b = h !! b).
Proof.
  intros Ha Hnd Hm Hn Hsub Hdepth. rewrite clear_dict_unfold.
  rewrite (bind_ok _ _ _ _ _ (py_items_dict _ _ _ Ha)).
  destruct (clear_members_fold d ms fpc h [] Hm Hdepth) as (h1 & Hfold & Hm1 & Hframe1).
  rewrite (bind_ok _ _ _ _ _ Hfold). cbn [app].
  assert (Ha1 : h1 !! a = Some (ODict d)) by (rewrite Hframe1; [exact Ha|exact Hn]).
  pose proof (members_keys _ _ _ _ Hm1) as Hkeys.
  rewrite (delete_keys a _ d h1 Ha1).
  - eexists. split; [reflexivity|]. split.
    + rewrite jclear_dict.
      eapply tree_dict; [apply list_lookup_insert_eq; now apply lookup_lt_Some in Ha1
                        |now apply fold_del_NoDup| |exact Hn|exact Hsub].
      eapply (members_frame h1); [apply members_delete; [exact Hm1|exact Hnd]|].
      intros b Hb. apply list_lookup_insert_ne. intros ->. contradiction.
    + intros b Hb. rewrite list_lookup_insert_ne by set_solver.
      apply Hframe1. set_solver.
  - apply dropped_keys_NoDup. now rewrite <- Hkeys.
  - intros k Hk. rewrite Hkeys. now apply dropped_keys_elem.
Qed.

(** *** Lists: the two passes from the last item to the first *)

Lemma range_down_S n : range_down (S n) = n :: range_down n.
Proof. unfold range_down. rewrite seq_S, rev_app_distr. reflexivity. Qed.

Lemma list_index_nat (n len : nat) :
  (n < len)%nat -> list_index (Z.of_nat n) len = Some n.
Proof.
  intros Hn. unfold list_index.
  destruct (Z.leb_spec 0 (Z.of_nat n)); [|lia].
  destruct (Z.ltb_spec (Z.of_nat n) (Z.of_nat len)); [|lia].
  now rewrite Nat2Z.id.
Qed.

Lemma getitem_list_nat h (a : addr) l (n : nat) x :
  h !! a = Some (OList l) -> l !! n = Some x ->
  getitem (VRef a) (KInt (Z.of_nat n)) h = Ok x h.
Proof.
  intros Ha Hn. unfold getitem. rewrite (bind_ok _ _ _ _ _ (deref_ok _ _ _ Ha)).
  rewrite list_index_nat by (now apply lookup_lt_Some in Hn). now rewrite Hn.
Qed.

Lemma delitem_list_nat h (a : addr) l (n : nat) :
  h !! a = Some (OList l) -> (n < length l)%nat ->
  delitem (VRef a) (KInt (Z.of_nat n)) h = Ok tt (<[a := OList (delete n l)]> h).
Proof.
  intros Ha Hn. unfold delitem. rewrite (bind_ok _ _ _ _ _ (deref_ok _ _ _ Ha)).
  rewrite list_index_nat by exact Hn. eapply store_ok. exact Ha.
Qed.

Lemma cleared_item_no_placeholder t :
  match t with JList _ | JDict _ => True | _ => False end ->
  placeholder_leaf (cleared_item t) = false.
Proof. destruct t; try contradiction; intros _; reflexivity. Qed.

Lemma clear_item_step (a : addr) l (n : nat) v t fpb h :
  h !! a = Some (OList l) -> l !! n = Some v -> tree h v t fpb -> a ∉ fpb ->
  (depth t < fuel')%nat ->
  (placeholder_leaf (cleared_item t) = false
   /\ exists h1,
        clear_list_body fuel' (VRef a) n h = Ok tt h1
        /\ tree h1 v (cleared_item t) fpb
        /\ (forall b : addr, b ∉ fpb -> h1 !! b = h !! b))
  \/ (placeholder_leaf (cleared_item t) = true
      /\ clear_list_body fuel' (VRef a) n h
         = Ok tt (<[a := OList (delete n l)]> h)).
Proof.
  intros Ha Hl Hv Hn Hdt. pose proof (IH v t fpb h Hv Hdt) as Hc.
  unfold clear_list_body.
  rewrite (bind_ok _ _ _ _ _ (getitem_list_nat _ _ _ _ _ Ha Hl)).
  inversion Hv as [| | | | s ? | a0 vs0 ts0 fpc fp0 Ha0 Hvs0 Hn0 Hsub0
                          | a0 dd ts0 fpc fp0 Ha0 Hnd0 Hds0 Hn0 Hsub0]; subst;
    try (left; split; [reflexivity|]; exists h;
         split; [reflexivity|]; split; [constructor|reflexivity]).
  - cbn [type_of]. rewrite bind_ret.
    cbn [cleared_item placeholder_leaf str_has_parameter].
    destruct (has_parameter s) eqn:Es.
    + right. split; [reflexivity|]. eapply delitem_list_nat; [exact Ha|].
      now apply lookup_lt_Some in Hl.
    + left. split; [reflexivity|]. exists h.
      split; [reflexivity|]. split; [constructor|reflexivity].
  - destruct Hc as (h1 & Hclear & Hv1 & Hframe1). left.
    split; [reflexivity|]. exists h1.
    rewrite (bind_ok _ _ _ _ _ (type_of_list _ _ _ Ha0)).
    split; [exact Hclear|]. split; [exact Hv1|exact Hframe1].
  - destruct Hc as (h1 & Hclear & Hv1 & Hframe1). left.
    split; [reflexivity|]. exists h1.
    rewrite (bind_ok _ _ _ _ _ (type_of_dict _ _ _ Ha0)).
    split; [exact Hclear|]. split; [exact Hv1|exact Hframe1].
Qed.

Lemma clear_items_pass (a : addr) : forall vs ts fp1 done h,
  h !! a = Some (OList (vs ++ done)) -> trees h vs ts fp1 -> a ∉ fp1 ->
  (forall x, x ∈ ts -> depth x < fuel')%nat ->
  exists h' vs',
    forM_ (clear_list_body fuel' (VRef a)) (range_down (length vs)) h = Ok tt h'
    /\ h' !! a = Some (OList (vs' ++ done))
    /\ trees h' vs'
         (List.filter (fun x => negb (placeholder_leaf x)) (map cleared_item ts)) fp1
    /\ (forall b : addr, b ∉ {[a]} ∪ fp1 -> h' !! b = h !! b).
Proof.
  induction vs as [|v vs IHvs] using rev_ind; intros ts fp1 done h Ha Hvs Hn Hdepth.
  - inversion Hvs; subst. exists h, []. split; [reflexivity|].
    split; [exact Ha|]. split; [constructor|reflexivity].
  - apply trees_snoc_inv in Hvs as (ts' & t & fpa & fpb & -> & Hvs & Hv & Hdis & Hsub).
    rewrite length_app. cbn [length]. rewrite Nat.add_1_r, range_down_S.
    cbn [forM_].
    assert (Hl : ((vs ++ [v]) ++ done) !! length vs = Some v).
    { rewrite <- app_assoc. now apply list_lookup_middle. }
    assert (Hdt : (depth t < fuel')%nat).
    { apply Hdepth. apply elem_of_app. right. left. }
    assert (Hdts : forall x, x ∈ ts' -> (depth x < fuel')%nat).
    { intros x Hx. apply Hdepth. apply elem_of_app. now left. }
    rewrite map_app, List.filter_app. cbn [map List.filter].
    destruct (clear_item_step a _ _ v t fpb h Ha Hl Hv ltac:(set_solver) Hdt)
      as [[Hleaf (h1 & Hstep & Hv1 & Hframe1)]|[Hleaf Hstep]];
      rewrite (bind_ok _ _ _ _ _ Hstep), Hleaf; cbn [negb].
    + assert (Ha1 : h1 !! a = Some (OList (vs ++ v :: done))).
      { rewrite Hframe1 by set_solver. rewrite Ha. now rewrite <- app_assoc. }
      assert (Hvs1 : trees h1 vs ts' fpa).
      { eapply trees_frame; [exact Hvs|]. intros b Hb. apply Hframe1. set_solver. }
      destruct (IHvs ts' fpa (v :: done) h1 Ha1 Hvs1)
        as (h' & vs' & Hrun & Ha' & Hvs' & Hframe'); [set_solver|exact Hdts|].
      exists h', (vs' ++ [v]). split; [exact Hrun|].
      split; [now rewrite <- app_assoc|]. split.
      * eapply trees_snoc; [exact Hvs'| |exact Hdis|exact Hsub].
        eapply tree_frame; [exact Hv1|]. intros b Hb. apply Hframe'. set_solver.
      * intros b Hb. rewrite Hframe' by set_solver. apply Hframe1. set_solver.
    + rewrite app_nil_r.
      assert (Hdel : delete (length vs) ((vs ++ [v]) ++ done) = vs ++ done).
      { rewrite <- app_assoc. cbn [app]. apply delete_middle. }
      rewrite Hdel.
      set (h1 := <[a := OList (vs ++ done)]> h).
      assert (Ha1 : h1 !! a = Some (OList (vs ++ done))).
      { apply list_lookup_insert_eq. now apply lookup_lt_Some in Ha. }
      assert (Hvs1 : trees h1 vs ts' fpa).
      { eapply trees_frame; [exact Hvs|]. intros b Hb.
        apply list_lookup_insert_ne. set_solver. }
      destruct (IHvs ts' fpa done h1 Ha1 Hvs1)
        as (h' & vs' & Hrun & Ha' & Hvs' & Hframe'); [set_solver|exact Hdts|].
      exists h', vs'. split; [exact Hrun|]. split; [exact Ha'|]. split.
      * eapply trees_weaken; [exact Hvs'|set_solver].
      * intros b Hb. rewrite Hframe' by set_solver.
        apply list_lookup_insert_ne. set_solver.
Qed.

(** The second pass reads the items and deletes those without content. *)
Lemma drop_empty_pass (a : addr) : forall vs ts fp1 done h,
  h !! a = Some (OList (vs ++ done)) -> trees h vs ts fp1 -> a ∉ fp1 ->
  (forall x, x ∈ ts -> depth x < fuel')%nat ->
  exists vs',
    forM_ (drop_empty_body fuel' (VRef a)) (range_down (length vs)) h
    = Ok tt (<[a := OList (vs' ++ done)]> h)
    /\ trees h vs' (List.filter (fun x => negb (jempty x)) ts) fp1.
Proof.
  induction vs as [|v vs IHvs] using rev_ind; intros ts fp1 done h Ha Hvs Hn Hdepth.
  - inversion Hvs; subst. exists []. cbn [forM_ range_down length app].
    split; [now rewrite list_insert_id by exact Ha|constructor].
  - apply trees_snoc_inv in Hvs as (ts' & t & fpa & fpb & -> & Hvs & Hv & Hdis & Hsub).
    rewrite length_app. cbn [length]. rewrite Nat.add_1_r, range_down_S.
    cbn [forM_].
    assert (Hl : ((vs ++ [v]) ++ done) !! length vs = Some v).
    { rewrite <- app_assoc. now apply list_lookup_middle. }
    assert (Hdt : (depth t < fuel')%nat).
    { apply Hdepth. apply elem_of_app. right. left. }
    assert (Hdts : forall x, x ∈ ts' -> (depth x < fuel')%nat).
    { intros x Hx. apply Hdepth. apply elem_of_app. now left. }
    rewrite List.filter_app. cbn [List.filter].
    assert (Hstep : drop_empty_body fuel' (VRef a) (length vs) h
                    = (if jempty t
                       then delitem (VRef a) (KInt (Z.of_nat (length vs)))
                       else ret tt) h).
    { unfold drop_empty_body.
      rewrite (bind_ok _ _ _ _ _ (getitem_list_nat _ _ _ _ _ Ha Hl)).
      now rewrite (bind_ok _ _ _ _ _
                     (is_item_empty_repr fuel' v t h (tree_repr _ _ _ _ Hv) Hdt)). }
    unfold bind at 1. rewrite Hstep. destruct (jempty t); cbn [negb].
    + rewrite (delitem_list_nat h a _ _ Ha)
        by (rewrite !length_app; cbn [length]; lia).
      assert (Hdel : delete (length vs) ((vs ++ [v]) ++ done) = vs ++ done).
      { rewrite <- app_assoc. cbn [app]. apply delete_middle. }
      rewrite Hdel, app_nil_r.
      set (h1 := <[a := OList (vs ++ done)]> h).
      assert (Ha1 : h1 !! a = Some (OList (vs ++ done))).
      { apply list_lookup_insert_eq. now apply lookup_lt_Some in Ha. }
      assert (Hvs1 : trees h1 vs ts' fpa).
      { eapply trees_frame; [exact Hvs|]. intros b Hb.
        apply list_lookup_insert_ne. set_solver. }
      destruct (IHvs ts' fpa done h1 Ha1 Hvs1) as (vs' & Hrun & Hvs');
        [set_solver|exact Hdts|].
      exists vs'. split.
      * rewrite Hrun. unfold h1. now rewrite list_insert_insert_eq.
      * apply (trees_weaken _ _ _ fpa); [|set_solver].
        eapply trees_frame; [exact Hvs'|]. intros b Hb. unfold h1.
        symmetry. apply list_lookup_insert_ne. set_solver.
    + assert (Ha1 : h !! a = Some (OList (vs ++ v :: done))).
      { rewrite Ha. now rewrite <- app_assoc. }
      destruct (IHvs ts' fpa (v :: done) h Ha1 Hvs) as (vs' & Hrun & Hvs');
        [set_solver|exact Hdts|].
      exists (vs' ++ [v]). split.
      * cbn [ret]. rewrite Hrun. now rewrite <- app_assoc.
      * eapply trees_snoc; [exact Hvs'|exact Hv|exact Hdis|exact Hsub].
Qed.

(** [clear_list], one level. *)
Lemma clear_list_step (a : addr) vs ts fpc fp h :
  h !! a = Some (OList vs) -> trees h vs ts fpc ->
  a ∉ fpc -> {[a]} ∪ fpc ⊆ fp ->
  (forall x, x ∈ ts -> depth x < fuel')%nat ->
  exists h',
    clear_list (S fuel') (VRef a) h = Ok tt h'
    /\ tree h' (VRef a) (jclear (JList ts)) fp
    /\ (forall b : addr, b ∉ fp -> h' !! b = h !! b).
Proof.
  intros Ha Hvs Hn Hsub Hdepth. rewrite clear_list_unfold.
  rewrite (bind_ok _ _ _ _ _ (py_len_list _ _ _ Ha)).
  assert (Ha0 : h !! a = Some (OList (vs ++ []))) by now rewrite app_nil_r.
  destruct (clear_items_pass a vs ts fpc [] h Ha0 Hvs Hn Hdepth)
    as (h1 & vs1 & Hrun1 & Ha1 & Hvs1 & Hframe1).
  rewrite (bind_ok _ _ _ _ _ Hrun1).
  pose proof Ha1 as Ha1'. rewrite app_nil_r in Ha1'.
  rewrite (bind_ok _ _ _ _ _ (py_len_list _ _ _ Ha1')).
  destruct (drop_empty_pass a vs1 _ fpc [] h1 Ha1 Hvs1 Hn) as (vs2 & Hrun2 & Hvs2).
  { intros x Hx. apply list_elem_of_In, filter_In in Hx as [Hx _].
    apply in_map_iff in Hx as (x0 & <- & Hx0).
    eapply Nat.le_lt_trans; [apply cleared_item_depth|].
    apply Hdepth. now apply list_elem_of_In. }
  rewrite Hrun2. eexists. split; [reflexivity|]. split.
  - rewrite jclear_list.
    eapply tree_list; [apply list_lookup_insert_eq; now apply lookup_lt_Some in Ha1
                      | |exact Hn|exact Hsub].
    rewrite app_nil_r. eapply (trees_frame h1); [exact Hvs2|].
    intros b Hb. apply list_lookup_insert_ne. intros ->. contradiction.
  - intros b Hb. rewrite list_lookup_insert_ne by set_solver.
    apply Hframe1. set_solver.
Qed.

End ClearStep.

Lemma clear_spec_holds : forall fuel, clear_spec fuel.
Proof.
  induction fuel as [|fuel IH]; intros v t fp h Ht Hd; [lia|].
  inversion Ht as [| | | | | a vs ts fpc fp0 Ha Hvs Hn Hsub
                          | a dd ts fpc fp0 Ha Hnd Hds Hn Hsub]; subst; try exact I.
  - eapply clear_list_step; eauto.
    intros x Hx. apply depth_list_le in Hx. lia.
  - eapply clear_dict_step; eauto.
    intros kx Hkx. apply depth_dict_le in Hkx. lia.
Qed.

(** [clear_non_filled_parameters] on a manifest held without sharing, with a
    budget above its depth: it returns; the manifest then denotes the cleared
    document (texts with a placeholder gone, then the lists and dictionaries
    left empty), in which no text holds a placeholder; and no object outside
    the manifest is touched. *)
Theorem clearing_leaves_no_placeholder (fuel : nat) (ldm : val)
    (members : list (string * json)) (fp : gset addr) (h : heap) :
  tree h ldm (JDict members) fp ->
  (depth (JDict members) < fuel)%nat ->
  exists h',
    clear_non_filled_parameters fuel ldm h = Ok tt h'
    /\ tree h' ldm (jclear (JDict members)) fp
    /\ placeholder_free (jclear (JDict members)) = true
    /\ (forall b : addr, b ∉ fp -> h' !! b = h !! b).
Proof.
  intros Ht Hd.
  destruct (clear_spec_holds fuel ldm (JDict members) fp h Ht Hd)
    as (h' & Hrun & Ht' & Hframe).
  exists h'. split; [exact Hrun|]. split; [exact Ht'|].
  split; [exact (jclear_placeholder_free (JDict members))|exact Hframe].
Qed.

Lemma unfilled_heap_tree :
  tree unfilled_heap (VRef 1%nat) (JDict unfilled_members) ({[1%nat]} ∪ {[0%nat]}).
Proof.
  eapply (tree_dict _ 1%nat _ _ {[0%nat]}); [reflexivity|nodup_keys| |set_solver|set_solver].
  eapply (members_cons _ _ _ _ _ _ ∅ {[0%nat]}); [constructor| |set_solver|set_solver].
  eapply (members_cons _ _ _ _ _ _ {[0%nat]} ∅); [| |set_solver|set_solver].
  - eapply (tree_list _ 0%nat _ _ ∅); [reflexivity| |set_solver|set_solver].
    eapply (trees_cons _ _ _ _ _ ∅ ∅); [constructor| |set_solver|set_solver].
    eapply (trees_cons _ _ _ _ _ ∅ ∅); [constructor|constructor|set_solver|set_solver].
  - eapply (members_cons _ _ _ _ _ _ ∅ ∅); [constructor|constructor|set_solver|set_solver].
Qed.

Lemma clearing_leaves_no_placeholder_witness :
  exists h',
    clear_non_filled_parameters 3 (VRef 1%nat) unfilled_heap = Ok tt h'
    /\ repr h' (VRef 1%nat)
         (JDict [("tags", JList [JStr "x"]); ("b", JStr "5")]%string).
Proof.
  destruct (clearing_leaves_no_placeholder 3 (VRef 1%nat) unfilled_members
              ({[1%nat]} ∪ {[0%nat]}) unfilled_heap unfilled_heap_tree)
    as (h' & Hrun & Ht & _).
  - cbn. lia.
  - exists h'. split; [exact Hrun|]. exact (tree_repr _ _ _ _ Ht).
Defined.

(** ** A deep copy is held without sharing *)

#[local] Set Warnings "-clear-no-such-hyp".

Lemma elem_of_span (a lo hi : nat) : a ∈ span lo hi <-> (lo <= a < hi)%nat.
Proof. unfold span. rewrite elem_of_list_to_set, elem_of_seq. lia. Qed.

Lemma members_snoc h d ts k v t fp1 fp2 fp :
  members h d ts fp1 -> tree h v t fp2 -> fp1 ## fp2 -> fp1 ∪ fp2 ⊆ fp ->
  members h (d ++ [(KStr k, v)]) (ts ++ [(k, t)]) fp.
Proof.
  intros Hd. revert fp.
  induction Hd as [fpn|k0 v0 t0 d ts fpa fpb fpx Hv0 Hd IH Hdis Hsub];
    intros fp Hv Hdj Hs; cbn [app].
  - eapply (members_cons _ _ _ _ _ _ fp2 ∅); [exact Hv|constructor|set_solver|set_solver].
  - eapply (members_cons _ _ _ _ _ _ fpa (fpb ∪ fp2)); [exact Hv0| |set_solver|set_solver].
    apply IH; [exact Hv|set_solver|set_solver].
Qed.

Lemma ext_same h h' (b : addr) : ext h h' -> (b < length h)%nat -> h' !! b = h !! b.
Proof. intros [l ->] Hb. now apply lookup_app_l. Qed.

Lemma ext_length h h' : ext h h' -> (length h <= length h')%nat.
Proof. intros [l ->]. rewrite length_app. lia. Qed.

Section CopyStep.

Variable fuel : nat.

Hypothesis IH : forall v t h, repr h v t -> (depth t <= fuel)%nat ->
  exists v' h', deepcopy fuel v h = Ok v' h' /\ ext h h'
    /\ tree h' v' t (span (length h) (length h')).

Lemma copy_list_fold (n0 : nat) vs : forall ts acc tacc h0,
  Forall2 (repr h0) vs ts ->
  trees h0 acc tacc (span n0 (length h0)) -> (n0 <= length h0)%nat ->
  (forall x, x ∈ ts -> depth x <= fuel)%nat ->
  exists l' h',
    foldM (fun acc x => y ← deepcopy fuel x; ret (acc ++ [y])) vs acc h0 = Ok l' h'
    /\ ext h0 h' /\ trees h' l' (tacc ++ ts) (span n0 (length h')).
Proof.
  induction vs as [|x vs IHvs]; intros ts acc tacc h0 Hvs Hacc Hn0 Hdep;
    inversion Hvs as [|x' t vs' ts' Hx Hvs']; subst.
  - exists acc, h0. rewrite app_nil_r.
    split; [reflexivity|]. split; [apply ext_refl|exact Hacc].
  - destruct (IH x t h0 Hx) as (y & h1 & Hy & He1 & Hty).
    { apply Hdep. left. }
    pose proof (ext_length _ _ He1) as Hlen1.
    destruct (IHvs ts' (acc ++ [y]) (tacc ++ [t]) h1) as (l' & h' & Hl & He & Hr).
    { eapply Forall2_repr_ext; eassumption. }
    { eapply trees_snoc; [|exact Hty| |].
      - eapply trees_frame; [exact Hacc|]. intros b Hb.
        apply elem_of_span in Hb. apply (ext_same _ _ _ He1). lia.
      - intros b Hb1 Hb2. apply elem_of_span in Hb1, Hb2. lia.
      - intros b Hb. apply elem_of_span.
        apply elem_of_union in Hb as [Hb|Hb]; apply elem_of_span in Hb; lia. }
    { lia. }
    { intros z Hz. apply Hdep. now right. }
    exists l', h'. split.
    + cbn [foldM]. rewrite (bind_ok _ _ h0 (acc ++ [y]) h1); [exact Hl|].
      now rewrite (bind_ok _ _ _ _ _ Hy).
    + split; [eapply ext_trans; eassumption|].
      now rewrite <- app_assoc in Hr.
Qed.

Lemma copy_dict_fold (n0 : nat) d : forall ts acc tacc h0,
  Forall2 (repr_item h0) d ts ->
  members h0 acc tacc (span n0 (length h0)) -> (n0 <= length h0)%nat ->
  (forall kx, kx ∈ ts -> depth kx.2 <= fuel)%nat ->
  exists d' h',
    foldM (fun acc (kv : key * val) =>
             x ← deepcopy fuel kv.2; ret (acc ++ [(kv.1, x)])) d acc h0 = Ok d' h'
    /\ ext h0 h' /\ members h' d' (tacc ++ ts) (span n0 (length h'))
    /\ d'.*1 = acc.*1 ++ d.*1.
Proof.
  induction d as [|kv d IHd]; intros ts acc tacc h0 Hd Hacc Hn0 Hdep;
    inversion Hd as [|kv' kt d0 ts' [Hk Hx] Hd']; subst.
  - exists acc, h0. rewrite !app_nil_r.
    split; [reflexivity|]. split; [apply ext_refl|]. split; [exact Hacc|reflexivity].
  - destruct (IH kv.2 kt.2 h0 Hx) as (y & h1 & Hy & He1 & Hty).
    { apply (Hdep kt). left. }
    pose proof (ext_length _ _ He1) as Hlen1.
    destruct kv as [k v], kt as [kn t]. cbn [fst snd] in *. subst k.
    destruct (IHd ts' (acc ++ [(KStr kn, y)]) (tacc ++ [(kn, t)]) h1)
      as (d' & h' & Hl & He & Hr & Hkeys).
    { eapply Forall2_repr_item_ext; eassumption. }
    { eapply members_snoc; [|exact Hty| |].
      - eapply members_frame; [exact Hacc|]. intros b Hb.
        apply elem_of_span in Hb. apply (ext_same _ _ _ He1). lia.
      - intros b Hb1 Hb2. apply elem_of_span in Hb1, Hb2. lia.
      - intros b Hb. apply elem_of_span.
        apply elem_of_union in Hb as [Hb|Hb]; apply elem_of_span in Hb; lia. }
    { lia. }
    { intros z Hz. apply Hdep. now right. }
    exists d', h'. split.
    + cbn [foldM]. rewrite (bind_ok _ _ h0 (acc ++ [(KStr kn, y)]) h1); [exact Hl|].
      now rewrite (bind_ok _ _ _ _ _ Hy).
    + split; [eapply ext_trans; eassumption|].
      split; [now rewrite <- app_assoc in Hr|].
      rewrite Hkeys, fmap_app. cbn. now rewrite <- app_assoc.
Qed.

End CopyStep.

Lemma deepcopy_tree (fuel : nat) :
  forall v t h, repr h v t -> (depth t <= fuel)%nat ->
  exists v' h', deepcopy fuel v h = Ok v' h' /\ ext h h'
    /\ tree h' v' t (span (length h) (length h')).
Proof.
  induction fuel as [|fuel IH]; intros v t h Hr Hd.
  - inversion Hr; subst; simpl in Hd; try lia;
      (eexists _, h; split; [reflexivity|split; [apply ext_refl|constructor]]).
  - inversion Hr as [| | | | | a vs ts Ha Hvs | a d ts Ha Hnd Hds]; subst;
      try (eexists _, h; split; [reflexivity|split; [apply ext_refl|constructor]]).
    + destruct (copy_list_fold fuel IH (length h) vs ts [] [] h Hvs)
        as (l' & h' & Hl & He & Hr'); [constructor|lia| |].
      { intros x Hx. apply depth_list_le in Hx. lia. }
      pose proof (ext_length _ _ He) as Hlen.
      exists (VRef (length h')), (h' ++ [OList l']). split.
      * cbn [deepcopy]. rewrite (bind_ok _ _ _ _ _ (deref_ok _ _ _ Ha)).
        now rewrite (bind_ok _ _ _ _ _ Hl).
      * split; [eapply ext_trans; [exact He|apply ext_app]|].
        eapply (tree_list _ _ _ _ (span (length h) (length h'))).
        -- apply alloc_lookup.
        -- eapply trees_frame; [exact Hr'|]. intros b Hb. apply elem_of_span in Hb.
           apply lookup_app_l. lia.
        -- rewrite elem_of_span. lia.
        -- intros b Hb. apply elem_of_span. rewrite length_app. cbn [length].
           apply elem_of_union in Hb as [Hb|Hb].
           ++ apply elem_of_singleton in Hb. lia.
           ++ apply elem_of_span in Hb. lia.
    + destruct (copy_dict_fold fuel IH (length h) d ts [] [] h Hds)
        as (d' & h' & Hl & He & Hr' & Hkeys); [constructor|lia| |].
      { intros x Hx. apply depth_dict_le in Hx. lia. }
      pose proof (ext_length _ _ He) as Hlen.
      exists (VRef (length h')), (h' ++ [ODict d']). split.
      * cbn [deepcopy]. rewrite (bind_ok _ _ _ _ _ (deref_ok _ _ _ Ha)).
        now rewrite (bind_ok _ _ _ _ _ Hl).
      * split; [eapply ext_trans; [exact He|apply ext_app]|].
        eapply (tree_dict _ _ _ _ (span (length h) (length h'))).
        -- apply alloc_lookup.
        -- now rewrite Hkeys.
        -- eapply members_frame; [exact Hr'|]. intros b Hb. apply elem_of_span in Hb.
           apply lookup_app_l. lia.
        -- rewrite elem_of_span. lia.
        -- intros b Hb. apply elem_of_span. rewrite length_app. cbn [length].
           apply elem_of_union in Hb as [Hb|Hb].
           ++ apply elem_of_singleton in Hb. lia.
           ++ apply elem_of_span in Hb. lia.
Qed.

(** ** Clearing the row's copy of the template *)

Lemma repr_mono h h' :
  (forall (b : addr) o, h !! b = Some o -> h' !! b = Some o) ->
  forall t v, repr h v t -> repr h' v t.
Proof.
  intros He t. induction t as [| | | | | l IH | d IH] using json_ind';
    intros v Hr; inversion Hr as [| | | | | a vs ts Ha Hvs | a dd ts Ha Hnd Hds];
    subst; try constructor.
  - econstructor; [apply He; eassumption|].
    clear Hr Ha. induction Hvs as [|x t vs ts Hx Hvs IHvs]; constructor.
    + inversion IH; subst; auto.
    + inversion IH; subst; auto.
  - econstructor; [apply He; eassumption|assumption|].
    clear Hr Ha Hnd. induction Hds as [|kv kt dd ts [Hk Hx] Hds IHds]; constructor.
    + inversion IH; subst; auto.
    + inversion IH; subst; auto.
Qed.

(** [copy.deepcopy] of the template followed by
    [clear_non_filled_parameters] on the copy, with a budget above the
    template's depth: both return; the copy then denotes the cleared document,
    the template still denotes the document it denoted, and every object that
    existed before the copy is as it was. *)
Theorem clearing_a_copy_spares_the_template (fuel : nat) (template : val)
    (members : list (string * json)) (h : heap) :
  repr h template (JDict members) ->
  (depth (JDict members) < fuel)%nat ->
  exists ldm h1 h2,
    deepcopy fuel template h = Ok ldm h1
    /\ clear_non_filled_parameters fuel ldm h1 = Ok tt h2
    /\ repr h2 ldm (jclear (JDict members))
    /\ repr h2 template (JDict members)
    /\ (forall b : addr, (b < length h)%nat -> h2 !! b = h !! b).
Proof.
  intros Hr Hd.
  destruct (deepcopy_tree fuel template (JDict members) h Hr) as (ldm & h1 & Hc & He & Ht);
    [lia|].
  destruct (clear_spec_holds fuel ldm (JDict members) _ h1 Ht Hd)
    as (h2 & Hrun & Ht2 & Hframe).
  assert (Hsame : forall b : addr, (b < length h)%nat -> h2 !! b = h !! b).
  { intros b Hb. rewrite Hframe; [now apply ext_same|].
    rewrite elem_of_span. lia. }
  exists ldm, h1, h2. split; [exact Hc|]. split; [exact Hrun|].
  split; [exact (tree_repr _ _ _ _ Ht2)|]. split; [|exact Hsame].
  eapply repr_mono; [|exact Hr]. intros b o Hb.
  rewrite Hsame; [exact Hb|]. apply lookup_lt_Some in Hb. exact Hb.
Qed.

Lemma clearing_a_copy_spares_the_template_witness :
  (depth (JDict unfilled_members) < 3)%nat
  /\ exists ldm h1 h2,
    deepcopy 3 (VRef 1%nat) unfilled_heap = Ok ldm h1
    /\ clear_non_filled_parameters 3 ldm h1 = Ok tt h2
    /\ repr h2 ldm (jclear (JDict unfilled_members))
    /\ repr h2 (VRef 1%nat) (JDict unfilled_members)
    /\ (forall b : addr, (b < length unfilled_heap)%nat -> h2 !! b = unfilled_heap !! b).
Proof.
  split; [cbn; lia|].
  apply (clearing_a_copy_spares_the_template 3 (VRef 1%nat) unfilled_members unfilled_heap).
  - exact (tree_repr _ _ _ _ unfilled_heap_tree).
  - cbn. lia.
Defined.

(** ** [remove_special_tags] on a document held without sharing *)

#[local] Set Warnings "-clear-no-such-hyp".

Lemma remove_dict_tags_unfold fuel' d :
  remove_dict_tags (S fuel') d
  = (items ← py_items d;
     to_be_replaced ← foldM (retag_dict_body fuel') items [];
     forM_ (rename_body d) to_be_replaced).
Proof. reflexivity. Qed.

Lemma remove_list_tags_unfold fuel' lst :
  remove_list_tags (S fuel') lst
  = (items ← py_list_items lst; forM_ (retag_list_body fuel') items).
Proof. reflexivity. Qed.

(** *** Popping a key and setting it again under a new name *)

Lemma dict_get_app_mid k v pre rest :
  k ∉ pre.*1 -> dict_get k (pre ++ (k, v) :: rest) = Some v.
Proof.
  induction pre as [|[k1 v1] pre IH]; rewrite ?fmap_cons; cbn [app dict_get fst].
  - intros _. now rewrite key_eqb_refl.
  - intros Hk. apply not_elem_of_cons in Hk as [Hne Hk].
    destruct (key_eqb k k1) eqn:E; [apply key_eqb_eq in E; contradiction|auto].
Qed.

Lemma dict_del_app_mid k v pre rest :
  k ∉ pre.*1 -> dict_del k (pre ++ (k, v) :: rest) = pre ++ rest.
Proof.
  induction pre as [|[k1 v1] pre IH]; rewrite ?fmap_cons; cbn [app dict_del fst].
  - intros _. now rewrite key_eqb_refl.
  - intros Hk. apply not_elem_of_cons in Hk as [Hne Hk].
    destruct (key_eqb k k1) eqn:E; [apply key_eqb_eq in E; contradiction|].
    now rewrite IH.
Qed.

Lemma dict_set_absent k v d : k ∉ d.*1 -> dict_set k v d = d ++ [(k, v)].
Proof.
  induction d as [|[k1 v1] d IH]; rewrite ?fmap_cons; cbn [app dict_set fst];
    [reflexivity|].
  intros Hk. apply not_elem_of_cons in Hk as [Hne Hk].
  destruct (key_eqb k k1) eqn:E; [apply key_eqb_eq in E; contradiction|].
  now rewrite IH.
Qed.

Lemma py_pop_dict h (a : addr) d k x :
  h !! a = Some (ODict d) -> dict_get k d = Some x ->
  py_pop (VRef a) k h = Ok x (<[a := ODict (dict_del k d)]> h).
Proof.
  intros Ha Hk. unfold py_pop. rewrite (bind_ok _ _ _ _ _ (deref_ok _ _ _ Ha)), Hk.
  now rewrite (bind_ok _ _ _ _ _ (store_ok _ _ _ _ Ha)).
Qed.

(** One turn of the renaming loop, for a new name that is not a key. *)
Lemma rename_body_ok h (a : addr) pre k v rest :
  forall new : string,
  h !! a = Some (ODict (pre ++ (KStr k, v) :: rest)) ->
  KStr k ∉ pre.*1 ->
  KStr new ∉ (pre ++ (KStr k, v) :: rest).*1 ->
  rename_body (VRef a) (k, new) h
  = Ok tt (<[a := ODict (pre ++ rest ++ [(KStr new, v)])]> h).
Proof.
  intros new Ha Hk Hnew. unfold rename_body. cbn [fst snd].
  rewrite (bind_ok _ _ _ _ _ (py_get_dict _ _ _ _ Ha)).
  rewrite (dict_get_None _ _ Hnew). cbn [default val_is_none].
  rewrite (bind_ok _ _ _ _ _ (py_pop_dict _ _ _ _ _ Ha (dict_get_app_mid _ _ _ _ Hk))).
  rewrite dict_del_app_mid by exact Hk.
  assert (Hlt : (a < length h)%nat) by (now apply lookup_lt_Some in Ha).
  erewrite setitem_dict; [|now apply list_lookup_insert_eq].
  rewrite list_insert_insert_eq. rewrite dict_set_absent, <- app_assoc; [reflexivity|].
  intros Hin. apply Hnew. rewrite fmap_app, fmap_cons in *.
  apply elem_of_app in Hin as [Hin|Hin]; apply elem_of_app; [now left|right; now right].
Qed.

Lemma filter_keys_elem {X} (P : string * X -> bool) (ms : list (string * X)) k :
  k ∈ map fst (List.filter P ms) -> k ∈ map fst ms.
Proof.
  induction ms as [|kx ms IH]; cbn [List.filter map]; [easy|].
  destruct (P kx); cbn [map]; intros Hk.
  - apply elem_of_cons in Hk as [->|Hk]; [left|right; auto].
  - right. auto.
Qed.

(** The renaming loop: the keys met so far that carry no tag are in [pre],
    the members renamed so far are in [done]. *)
Lemma retag_loop (a : addr) : forall d ms pre done h,
  d.*1 = map (fun kx : string * json => KStr kx.1) ms ->
  h !! a = Some (ODict (pre ++ d ++ done)) ->
  NoDup ((pre ++ d ++ done).*1 ++ map KStr (retagged_names ms)) ->
  forM_ (rename_body (VRef a)) (renames ms) h
  = Ok tt (<[a := ODict (pre
                         ++ List.filter (fun kv : key * val => negb (key_tagged kv.1)) d
                         ++ done
                         ++ map (fun kv : key * val => (key_sub kv.1, kv.2))
                              (List.filter (fun kv : key * val => key_tagged kv.1) d))]> h).
Proof.
  induction d as [|[k0 v] d IH]; intros [|[k t] ms] pre done h Hkeys Ha Hnd;
    try discriminate.
  - cbn [renames List.filter map forM_ app]. rewrite app_nil_r.
    cbn [app] in Ha. now rewrite list_insert_id by exact Ha.
  - rewrite fmap_cons in Hkeys. cbn [map fst] in Hkeys.
    injection Hkeys as -> Hkeys.
    change (((KStr k, v) :: d) ++ done) with ((KStr k, v) :: (d ++ done)) in *.
    unfold renames, retagged_names in *. cbn [List.filter fst snd key_tagged] in *.
    destruct (tagged k) eqn:Et; cbn [negb map forM_ fst snd key_sub] in *.
    + assert (Hk : KStr k ∉ pre.*1).
      { rewrite fmap_app, fmap_cons in Hnd. cbn [fst] in Hnd.
        rewrite <- app_assoc in Hnd. apply NoDup_app in Hnd as (_ & Hdis & _).
        intros Hin. apply (Hdis _ Hin). left. }
      assert (Hnew : KStr (Re.sub_tags k) ∉ (pre ++ (KStr k, v) :: d ++ done).*1).
      { apply NoDup_app in Hnd as (_ & Hdis & _). intros Hin. apply (Hdis _ Hin). left. }
      rewrite (bind_ok _ _ _ _ _
                 (rename_body_ok h a pre k v (d ++ done) (Re.sub_tags k) Ha Hk Hnew)).
      assert (Hlt : (a < length h)%nat) by (now apply lookup_lt_Some in Ha).
      rewrite (IH ms pre (done ++ [(KStr (Re.sub_tags k), v)])); [| exact Hkeys | |].
      * rewrite list_insert_insert_eq. do 3 f_equal.
        rewrite <- !app_assoc. reflexivity.
      * rewrite list_lookup_insert_eq by exact Hlt. now rewrite <- !app_assoc.
      * revert Hnd. repeat rewrite ?fmap_app, ?fmap_cons, ?fmap_nil. cbn [fst].
        rewrite <- ?app_assoc. cbn [app]. rewrite <- ?app_assoc. intros Hnd.
        apply NoDup_app in Hnd as (Hpre & Hdis & Hrest).
        apply NoDup_cons in Hrest as (_ & Hrest).
        apply NoDup_app. split; [exact Hpre|]. split; [|exact Hrest].
        intros x Hx Hin. apply (Hdis x Hx). now right.
    + rewrite (IH ms (pre ++ [(KStr k, v)]) done h Hkeys).
      * now rewrite <- !app_assoc.
      * now rewrite <- !app_assoc.
      * now rewrite <- !app_assoc.
Qed.

(** *** The members after the renaming *)

Lemma members_app h d1 ms1 fp1 :
  members h d1 ms1 fp1 -> forall d2 ms2 fp2 fp,
  members h d2 ms2 fp2 -> fp1 ## fp2 -> fp1 ∪ fp2 ⊆ fp ->
  members h (d1 ++ d2) (ms1 ++ ms2) fp.
Proof.
  induction 1 as [fpn|k v t d ts fpa fpb fpx Hv Hd IH Hdis Hsub];
    intros d2 ms2 fp2 fp H2 Hdj Hs; cbn [app].
  - eapply members_weaken; [exact H2|set_solver].
  - eapply (members_cons _ _ _ _ _ _ fpa (fpb ∪ fp2)); [exact Hv| |set_solver|set_solver].
    eapply IH; [exact H2|set_solver|set_solver].
Qed.

Lemma members_split h d ms fp :
  members h d ms fp ->
  exists fp1 fp2,
    members h (List.filter (fun kv : key * val => negb (key_tagged kv.1)) d)
      (List.filter (fun kx : string * json => negb (tagged kx.1)) ms) fp1
    /\ members h
         (map (fun kv : key * val => (key_sub kv.1, kv.2))
            (List.filter (fun kv : key * val => key_tagged kv.1) d))
         (map (fun kx : string * json => (Re.sub_tags kx.1, kx.2))
            (List.filter (fun kx : string * json => tagged kx.1) ms)) fp2
    /\ fp1 ## fp2 /\ fp1 ∪ fp2 ⊆ fp.
Proof.
  induction 1 as [fpn|k v t d ts fpa fpb fpx Hv Hd IH Hdis Hsub].
  - exists ∅, ∅. split; [constructor|]. split; [constructor|]. split; set_solver.
  - destruct IH as (fp1 & fp2 & H1 & H2 & Hdj & Hs).
    cbn [List.filter fst snd key_tagged]. destruct (tagged k); cbn [negb map fst snd key_sub].
    + exists fp1, (fpa ∪ fp2). split; [exact H1|]. split.
      * eapply members_cons; [exact Hv|exact H2|set_solver|set_solver].
      * split; set_solver.
    + exists (fpa ∪ fp1), fp2. split.
      * eapply members_cons; [exact Hv|exact H1|set_solver|set_solver].
      * split; [exact H2|]. split; set_solver.
Qed.

Lemma members_retag h d ms fp :
  members h d ms fp -> members h (retag_items d) (retag_members ms) fp.
Proof.
  intros Hm. destruct (members_split _ _ _ _ Hm) as (fp1 & fp2 & H1 & H2 & Hdj & Hs).
  exact (members_app _ _ _ _ H1 _ _ _ _ H2 Hdj Hs).
Qed.

Lemma NoDup_map_KStr (l : list string) : NoDup l -> NoDup (map KStr l).
Proof.
  induction 1 as [|x l Hx Hl IH]; cbn [map]; constructor; [|exact IH].
  intros Hin. apply list_elem_of_In, in_map_iff in Hin as (y & Hy & Hin).
  injection Hy as ->. apply Hx. now apply list_elem_of_In.
Qed.

Lemma NoDup_filter_keys {X} (P : string * X -> bool) (ms : list (string * X)) names :
  NoDup (map fst ms ++ names) -> NoDup (map fst (List.filter P ms) ++ names).
Proof.
  induction ms as [|kx ms IH]; cbn [List.filter map app]; [easy|].
  intros Hnd. apply NoDup_cons in Hnd as [Hn Hnd].
  destruct (P kx); cbn [map app]; [|auto].
  apply NoDup_cons. split; [|auto].
  intros Hin. apply Hn. apply elem_of_app in Hin as [Hin|Hin]; apply elem_of_app;
    [left; now apply filter_keys_elem in Hin|now right].
Qed.

Lemma retag_items_NoDup h d ms fp :
  members h d ms fp -> NoDup (map fst ms ++ retagged_names ms) ->
  NoDup (retag_items d).*1.
Proof.
  intros Hm Hnd. rewrite (members_keys _ _ _ _ (members_retag _ _ _ _ Hm)).
  rewrite <- (map_map fst KStr). apply NoDup_map_KStr.
  unfold retag_members. rewrite map_app, map_map. cbn [fst].
  now apply NoDup_filter_keys.
Qed.

Lemma renames_values {X Y} (f : X -> Y) (ms : list (string * X)) :
  List.filter (fun kx : string * Y => tagged kx.1)
    (map (fun kx : string * X => (kx.1, f kx.2)) ms)
  = map (fun kx : string * X => (kx.1, f kx.2))
      (List.filter (fun kx : string * X => tagged kx.1) ms).
Proof.
  induction ms as [|kx ms IH]; [reflexivity|]. cbn [map List.filter fst].
  destruct (tagged kx.1); cbn [map]; now rewrite IH.
Qed.

Lemma renames_retagged (ms : list (string * json)) :
  renames (map (fun kx : string * json => (kx.1, jretag kx.2)) ms) = renames ms.
Proof.
  unfold renames. induction ms as [|kx ms IH]; [reflexivity|].
  cbn [map List.filter fst]. destruct (tagged kx.1); cbn [map fst]; now rewrite IH.
Qed.

Lemma retagged_names_retagged (ms : list (string * json)) :
  retagged_names (map (fun kx : string * json => (kx.1, jretag kx.2)) ms)
  = retagged_names ms.
Proof.
  unfold retagged_names. induction ms as [|kx ms IH]; [reflexivity|].
  cbn [map List.filter fst]. destruct (tagged kx.1); cbn [map fst]; now rewrite IH.
Qed.

Lemma keys_retagged (ms : list (string * json)) :
  map fst (map (fun kx : string * json => (kx.1, jretag kx.2)) ms) = map fst ms.
Proof. rewrite map_map. reflexivity. Qed.

Section RetagStep.

Variable fuel' : nat.

Hypothesis IH : retag_spec fuel'.

(** One member of a dictionary. *)
Lemma retag_member_step k v t fp1 h acc :
  tree h v t fp1 -> (depth t < fuel')%nat -> retaggable t = true ->
  exists h',
    retag_dict_body fuel' acc (KStr k, v) h
    = Ok (if tagged k then acc ++ [(k, Re.sub_tags k)] else acc) h'
    /\ tree h' v (jretag t) fp1
    /\ (forall b : addr, b ∉ fp1 -> h' !! b = h !! b).
Proof.
  intros Ht Hd Hok. pose proof (IH v t fp1 h Ht Hd Hok) as Hc.
  unfold retag_dict_body, tagged. cbn [fst snd]. rewrite bind_ret.
  inversion Ht as [| | | | | a vs ts fpc fp0 Ha Hvs Hn Hsub
                          | a dd ts fpc fp0 Ha Hnd Hds Hn Hsub]; subst;
    try (exists h; split;
         [destruct (String.eqb (Re.sub_tags k) k); reflexivity|];
         split; [constructor|reflexivity]).
  - destruct Hc as (h' & Hrun & Ht' & Hframe).
    rewrite (bind_ok _ _ _ _ _ (type_of_list _ _ _ Ha)).
    rewrite (bind_ok _ _ _ _ _ Hrun).
    exists h'. split; [|split; [exact Ht'|exact Hframe]].
    destruct (String.eqb (Re.sub_tags k) k); reflexivity.
  - destruct Hc as (h' & Hrun & Ht' & Hframe).
    rewrite (bind_ok _ _ _ _ _ (type_of_dict _ _ _ Ha)).
    rewrite (bind_ok _ _ _ _ _ Hrun).
    exists h'. split; [|split; [exact Ht'|exact Hframe]].
    destruct (String.eqb (Re.sub_tags k) k); reflexivity.
Qed.

Lemma retag_members_fold : forall d ms fp h acc,
  members h d ms fp ->
  (forall kx, kx ∈ ms -> depth kx.2 < fuel')%nat ->
  (forall kx, kx ∈ ms -> retaggable kx.2 = true) ->
  exists h',
    foldM (retag_dict_body fuel') d acc h = Ok (acc ++ renames ms) h'
    /\ members h' d (map (fun kx : string * json => (kx.1, jretag kx.2)) ms) fp
    /\ (forall b : addr, b ∉ fp -> h' !! b = h !! b).
Proof.
  induction d as [|kv d IHd]; intros ms fp h acc Hm Hdepth Hok;
    inversion Hm as [fpn|k v t d0 ts fp1 fp2 fpx Hv Hds Hdis Hsub]; subst.
  - exists h. cbn [foldM map renames List.filter]. rewrite app_nil_r.
    split; [reflexivity|]. split; [constructor|reflexivity].
  - destruct (retag_member_step k v t fp1 h acc Hv) as (h1 & Hstep & Hv1 & Hframe1).
    { apply (Hdepth (k, t)). left. }
    { apply (Hok (k, t)). left. }
    assert (Hds1 : members h1 d ts fp2).
    { eapply members_frame; [exact Hds|]. intros b Hb. apply Hframe1. set_solver. }
    destruct (IHd ts fp2 h1 (if tagged k then acc ++ [(k, Re.sub_tags k)] else acc)
                Hds1) as (h2 & Hfold & Hds2 & Hframe2).
    { intros kx Hkx. apply Hdepth. now right. }
    { intros kx Hkx. apply Hok. now right. }
    exists h2. cbn [foldM]. rewrite (bind_ok _ _ _ _ _ Hstep). split; [|split].
    + rewrite Hfold. f_equal. unfold renames. cbn [map List.filter snd fst].
      destruct (tagged k); cbn [map fst]; [|reflexivity].
      now rewrite <- app_assoc.
    + cbn [map fst snd].
      eapply members_cons; [|exact Hds2|exact Hdis|exact Hsub].
      eapply tree_frame; [exact Hv1|]. intros b Hb. apply Hframe2. set_solver.
    + intros b Hb. rewrite Hframe2 by set_solver. apply Hframe1. set_solver.
Qed.

(** One item of a list. *)
Lemma retag_item_step v t fp1 h :
  tree h v t fp1 -> (depth t < fuel')%nat -> retaggable t = true ->
  exists h',
    retag_list_body fuel' v h = Ok tt h'
    /\ tree h' v (jretag t) fp1
    /\ (forall b : addr, b ∉ fp1 -> h' !! b = h !! b).
Proof.
  intros Ht Hd Hok. pose proof (IH v t fp1 h Ht Hd Hok) as Hc.
  unfold retag_list_body.
  inversion Ht as [| | | | | a vs ts fpc fp0 Ha Hvs Hn Hsub
                          | a dd ts fpc fp0 Ha Hnd Hds Hn Hsub]; subst;
    try (exists h; split; [reflexivity|]; split; [constructor|reflexivity]).
  - destruct Hc as (h' & Hrun & Ht' & Hframe).
    rewrite (bind_ok _ _ _ _ _ (type_of_list _ _ _ Ha)).
    exists h'. split; [exact Hrun|split; [exact Ht'|exact Hframe]].
  - destruct Hc as (h' & Hrun & Ht' & Hframe).
    rewrite (bind_ok _ _ _ _ _ (type_of_dict _ _ _ Ha)).
    exists h'. split; [exact Hrun|split; [exact Ht'|exact Hframe]].
Qed.

Lemma retag_items_fold : forall vs ts fp h,
  trees h vs ts fp ->
  (forall x, x ∈ ts -> depth x < fuel')%nat ->
  (forall x, x ∈ ts -> retaggable x = true) ->
  exists h',
    forM_ (retag_list_body fuel') vs h = Ok tt h'
    /\ trees h' vs (map jretag ts) fp
    /\ (forall b : addr, b ∉ fp -> h' !! b = h !! b).
Proof.
  induction vs as [|v vs IHvs]; intros ts fp h Hm Hdepth Hok;
    inversion Hm as [fpn|v0 t vs0 ts0 fp1 fp2 fpx Hv Hvs Hdis Hsub]; subst.
  - exists h. split; [reflexivity|]. split; [constructor|reflexivity].
  - destruct (retag_item_step v t fp1 h Hv) as (h1 & Hstep & Hv1 & Hframe1).
    { apply Hdepth. left. }
    { apply Hok. left. }
    assert (Hvs1 : trees h1 vs ts0 fp2).
    { eapply trees_frame; [exact Hvs|]. intros b Hb. apply Hframe1. set_solver. }
    destruct (IHvs ts0 fp2 h1 Hvs1) as (h2 & Hfold & Hvs2 & Hframe2).
    { intros x Hx. apply Hdepth. now right. }
    { intros x Hx. apply Hok. now right. }
    exists h2. cbn [forM_]. rewrite (bind_ok _ _ _ _ _ Hstep). split; [exact Hfold|split].
    + cbn [map].
      eapply trees_cons; [|exact Hvs2|exact Hdis|exact Hsub].
      eapply tree_frame; [exact Hv1|]. intros b Hb. apply Hframe2. set_solver.
    + intros b Hb. rewrite Hframe2 by set_solver. apply Hframe1. set_solver.
Qed.

(** [remove_dict_tags], one level. *)
Lemma retag_dict_step (a : addr) d ms fpc fp h :
  h !! a = Some (ODict d) -> members h d ms fpc ->
  a ∉ fpc -> {[a]} ∪ fpc ⊆ fp ->
  (forall kx, kx ∈ ms -> depth kx.2 < fuel')%nat ->
  retaggable (JDict ms) = true ->
  exists h',
    remove_dict_tags (S fuel') (VRef a) h = Ok tt h'
    /\ tree h' (VRef a) (jretag (JDict ms)) fp
    /\ (forall b : addr, b ∉ fp -> h' !! b = h !! b).
Proof.
  intros Ha Hm Hn Hsub Hdepth Hok. rewrite remove_dict_tags_unfold.
  cbn [retaggable] in Hok. apply andb_true_iff in Hok as [Hoks Hnd].
  apply bool_decide_eq_true in Hnd.
  rewrite (bind_ok _ _ _ _ _ (py_items_dict _ _ _ Ha)).
  destruct (retag_members_fold d ms fpc h [] Hm Hdepth) as (h1 & Hfold & Hm1 & Hframe1).
  { intros kx Hkx. rewrite forallb_forall in Hoks. apply Hoks.
    now apply list_elem_of_In. }
  rewrite (bind_ok _ _ _ _ _ Hfold). cbn [app].
  assert (Ha1 : h1 !! a = Some (ODict d)) by (rewrite Hframe1; [exact Ha|exact Hn]).
  pose proof (members_keys _ _ _ _ Hm) as Hkeys.
  rewrite (retag_loop a d ms [] [] h1 Hkeys).
  - eexists. split; [reflexivity|]. split.
    + cbn [jretag app]. fold (retag_items d).
      eapply tree_dict; [apply list_lookup_insert_eq; now apply lookup_lt_Some in Ha1
                        | | |exact Hn|exact Hsub].
      * eapply (retag_items_NoDup _ _ _ _ Hm1).
        now rewrite keys_retagged, retagged_names_retagged.
      * eapply (members_frame h1); [apply members_retag; exact Hm1|].
        intros b Hb. apply list_lookup_insert_ne. intros ->. contradiction.
    + intros b Hb. rewrite list_lookup_insert_ne by set_solver.
      apply Hframe1. set_solver.
  - cbn [app]. now rewrite app_nil_r.
  - cbn [app]. rewrite app_nil_r, Hkeys, <- (map_map fst KStr), <- map_app.
    now apply NoDup_map_KStr.
Qed.

(** [remove_list_tags], one level. *)
Lemma retag_list_step (a : addr) vs ts fpc fp h :
  h !! a = Some (OList vs) -> trees h vs ts fpc ->
  a ∉ fpc -> {[a]} ∪ fpc ⊆ fp ->
  (forall x, x ∈ ts -> depth x < fuel')%nat ->
  retaggable (JList ts) = true ->
  exists h',
    remove_list_tags (S fuel') (VRef a) h = Ok tt h'
    /\ tree h' (VRef a) (jretag (JList ts)) fp
    /\ (forall b : addr, b ∉ fp -> h' !! b = h !! b).
Proof.
  intros Ha Hm Hn Hsub Hdepth Hok. rewrite remove_list_tags_unfold.
  cbn [retaggable] in Hok.
  assert (Hitems : py_list_items (VRef a) h = Ok vs h).
  { unfold py_list_items. now rewrite (bind_ok _ _ _ _ _ (deref_ok _ _ _ Ha)). }
  rewrite (bind_ok _ _ _ _ _ Hitems).
  destruct (retag_items_fold vs ts fpc h Hm Hdepth) as (h1 & Hfold & Hm1 & Hframe1).
  { intros x Hx. rewrite forallb_forall in Hok. apply Hok. now apply list_elem_of_In. }
  exists h1. split; [exact Hfold|]. split.
  - cbn [jretag]. eapply tree_list; [|exact Hm1|exact Hn|exact Hsub].
    rewrite Hframe1; [exact Ha|exact Hn].
  - intros b Hb. apply Hframe1. set_solver.
Qed.

End RetagStep.

Lemma retag_spec_holds : forall fuel, retag_spec fuel.
Proof.
  induction fuel as [|fuel IH]; intros v t fp h Ht Hd Hok; [lia|].
  inversion Ht as [| | | | | a vs ts fpc fp0 Ha Hvs Hn Hsub
                          | a dd ts fpc fp0 Ha Hnd Hds Hn Hsub]; subst; try exact I.
  - eapply retag_list_step; eauto.
    intros x Hx. apply depth_list_le in Hx. lia.
  - eapply retag_dict_step; eauto.
    intros kx Hkx. apply depth_dict_le in Hkx. lia.
Qed.

(** [remove_special_tags] on a manifest held without sharing, with a budget
    above its depth, when in every dictionary the new names differ from one
    another and from the keys of the dictionary: it returns; in every
    dictionary, at every depth, the keys without a tag are where they were
    and the tagged ones come last under their new names, all with the values
    they had; and no object outside the manifest is touched. *)
Theorem remove_special_tags_renames_the_tagged_keys (fuel : nat) (ldm : val)
    (members : list (string * json)) (fp : gset addr) (h : heap) :
  tree h ldm (JDict members) fp ->
  (depth (JDict members) < fuel)%nat ->
  retaggable (JDict members) = true ->
  exists h',
    remove_special_tags fuel ldm h = Ok tt h'
    /\ tree h' ldm (jretag (JDict members)) fp
    /\ (forall b : addr, b ∉ fp -> h' !! b = h !! b).
Proof.
  intros Ht Hd Hok.
  exact (retag_spec_holds fuel ldm (JDict members) fp h Ht Hd Hok).
Qed.

Lemma tagged_heap_tree :
  tree tagged_heap (VRef 2%nat) (JDict tagged_members)
    ({[2%nat]} ∪ ({[1%nat]} ∪ {[0%nat]})).
Proof.
  eapply (tree_dict _ 2%nat _ _ ({[1%nat]} ∪ {[0%nat]}));
    [reflexivity|nodup_keys| |set_solver|set_solver].
  eapply (members_cons _ _ _ _ _ _ ∅ ({[1%nat]} ∪ {[0%nat]}));
    [constructor| |set_solver|set_solver].
  eapply (members_cons _ _ _ _ _ _ ({[1%nat]} ∪ {[0%nat]}) ∅);
    [|constructor|set_solver|set_solver].
  eapply (tree_list _ 1%nat _ _ {[0%nat]}); [reflexivity| |set_solver|set_solver].
  eapply (trees_cons _ _ _ _ _ {[0%nat]} ∅); [|constructor|set_solver|set_solver].
  eapply (tree_dict _ 0%nat _ _ ∅); [reflexivity|nodup_keys| |set_solver|set_solver].
  eapply (members_cons _ _ _ _ _ _ ∅ ∅); [constructor|constructor|set_solver|set_solver].
Qed.

Lemma remove_special_tags_renames_the_tagged_keys_witness :
  exists h',
    remove_special_tags 4 (VRef 2%nat) tagged_heap = Ok tt h'
    /\ repr h' (VRef 2%nat)
         (JDict [("items", JList [JDict [("b", JInt 2)]]); ("name", JStr "n")]%string).
Proof.
  destruct (remove_special_tags_renames_the_tagged_keys 4 (VRef 2%nat) tagged_members
              ({[2%nat]} ∪ ({[1%nat]} ∪ {[0%nat]})) tagged_heap tagged_heap_tree)
    as (h' & Hrun & Ht & _).
  - cbn. lia.
  - reflexivity.
  - exists h'. split; [exact Hrun|]. exact (tree_repr _ _ _ _ Ht).
Defined.

(** ** [remove_special_tags]: the duplicate it refuses, the documents it leaves *)

#[local] Set Warnings "-clear-no-such-hyp".

Lemma renames_app_untagged (pre l : list (string * json)) :
  forallb (fun kx : string * json => negb (tagged kx.1)) pre = true ->
  renames (pre ++ l) = renames l.
Proof.
  unfold renames. induction pre as [|kx pre IH]; [reflexivity|].
  cbn [forallb app List.filter]. intros H. apply andb_true_iff in H as [Hk Hpre].
  destruct (tagged kx.1); [discriminate|]. now apply IH.
Qed.

Lemma repr_not_none h v t : repr h v t -> t <> JNull -> v <> VNone.
Proof. intros Hr Ht ->. inversion Hr; subst. contradiction. Qed.

Lemma jretag_not_null t : t <> JNull -> jretag t <> JNull.
Proof. destruct t; cbn [jretag]; congruence. Qed.

(** [remove_special_tags] on a manifest held without sharing whose first
    tagged key would take the name of a member that is not [null]: the
    values are processed, then the function raises
    [Exception('Detected duplicate attributes:', key)] before it renames
    anything; no object outside the manifest is touched. *)
Theorem remove_special_tags_refuses_a_duplicate (fuel : nat) (ldm : val)
    (members pre post : list (string * json)) (k : string) (t t' : json)
    (fp : gset addr) (h : heap) :
  tree h ldm (JDict members) fp ->
  (depth (JDict members) < fuel)%nat ->
  forallb (fun kx : string * json => retaggable kx.2) members = true ->
  members = pre ++ (k, t) :: post ->
  forallb (fun kx : string * json => negb (tagged kx.1)) pre = true ->
  tagged k = true ->
  (Re.sub_tags k, t') ∈ members ->
  t' <> JNull ->
  exists h',
    remove_special_tags fuel ldm h
    = Raise (PyException "Detected duplicate attributes:" k) h'
    /\ (forall b : addr, b ∉ fp -> h' !! b = h !! b).
Proof.
  intros Ht Hd Hok Hms Hpre Hk Hin Hnull.
  destruct fuel as [|fuel']; [lia|].
  inversion Ht as [| | | | | | a d ts fpc fp0 Ha Hnd Hm Hn Hsub]; subst ldm ts fp0.
  unfold remove_special_tags. rewrite remove_dict_tags_unfold.
  rewrite (bind_ok _ _ _ _ _ (py_items_dict _ _ _ Ha)).
  destruct (retag_members_fold fuel' (retag_spec_holds fuel') d members fpc h [] Hm)
    as (h1 & Hfold & Hm1 & Hframe1).
  { intros kx Hkx. apply depth_dict_le in Hkx. lia. }
  { intros kx Hkx. rewrite forallb_forall in Hok. apply Hok. now apply list_elem_of_In. }
  rewrite (bind_ok _ _ _ _ _ Hfold). cbn [app].
  assert (Ha1 : h1 !! a = Some (ODict d)) by (rewrite Hframe1; [exact Ha|exact Hn]).
  assert (Ht1 : tree h1 (VRef a)
                  (JDict (map (fun kx : string * json => (kx.1, jretag kx.2)) members)) fp).
  { eapply tree_dict; [exact Ha1|exact Hnd|exact Hm1|exact Hn|exact Hsub]. }
  apply tree_repr in Ht1.
  inversion Ht1 as [| | | | | | a' d' ts' Ha' Hnd' Hitems]; subst a' ts'.
  rewrite Ha1 in Ha'. injection Ha' as <-.
  destruct (dict_get_repr _ _ _ Hitems Hnd (Re.sub_tags k, jretag t')) as (y & Hy & Hry).
  { apply list_elem_of_In, in_map_iff. exists (Re.sub_tags k, t').
    split; [reflexivity|now apply list_elem_of_In]. }
  cbn [fst snd] in Hy, Hry.
  exists h1. split.
  - rewrite Hms, (renames_app_untagged _ _ Hpre). unfold renames.
    cbn [List.filter fst]. rewrite Hk. cbn [map forM_ fst].
    apply bind_raise. unfold rename_body. cbn [fst snd].
    rewrite (bind_ok _ _ _ _ _ (py_get_dict _ _ _ _ Ha1)), Hy. cbn [default].
    pose proof (repr_not_none _ _ _ Hry (jretag_not_null _ Hnull)) as Hv.
    destruct y; try reflexivity. contradiction.
  - intros b Hb. apply Hframe1. set_solver.
Qed.

Lemma clashing_heap_tree :
  tree clashing_heap (VRef 0%nat) (JDict clashing_members) {[0%nat]}.
Proof.
  eapply (tree_dict _ 0%nat _ _ ∅); [reflexivity|nodup_keys| |set_solver|set_solver].
  eapply (members_cons _ _ _ _ _ _ ∅ ∅); [constructor| |set_solver|set_solver].
  eapply (members_cons _ _ _ _ _ _ ∅ ∅); [constructor| |set_solver|set_solver].
  eapply (members_cons _ _ _ _ _ _ ∅ ∅); [constructor|constructor|set_solver|set_solver].
Qed.

Lemma remove_special_tags_refuses_a_duplicate_witness :
  exists h',
    remove_special_tags 2 (VRef 0%nat) clashing_heap
    = Raise (PyException "Detected duplicate attributes:" "$$_oneOf_1$$name") h'.
Proof.
  destruct (remove_special_tags_refuses_a_duplicate 2 (VRef 0%nat) clashing_members
              [("id", JInt 7)]%string [("name", JStr "m")]%string
              "$$_oneOf_1$$name" (JStr "n") (JStr "m") {[0%nat]} clashing_heap
              clashing_heap_tree)
    as (h' & Hrun & _).
  - cbn. lia.
  - reflexivity.
  - reflexivity.
  - reflexivity.
  - reflexivity.
  - right. right. left.
  - discriminate.
  - exists h'. exact Hrun.
Defined.

(** *** Documents without a tag *)

Section Untouched.

Variable fuel' : nat.

Hypothesis IH : untouched_spec fuel'.

Lemma untouched_members_fold : forall d ms h acc,
  Forall2 (repr_item h) d ms ->
  (forall kx, kx ∈ ms -> depth kx.2 < fuel')%nat ->
  forallb (fun kx : string * json => negb (tagged kx.1) && tag_free kx.2) ms = true ->
  foldM (retag_dict_body fuel') d acc h = Ok acc h.
Proof.
  induction d as [|kv d IHd]; intros ms h acc Hm Hdepth Hok;
    inversion Hm as [|kv' kt d0 ts [Hk Hx] Hd']; subst; [reflexivity|].
  cbn [forallb] in Hok. apply andb_true_iff in Hok as [Hkt Hok].
  apply andb_true_iff in Hkt as [Hkey Hfree].
  destruct kv as [k v], kt as [kn t]. cbn [fst snd] in *. subst k.
  assert (Hstep : retag_dict_body fuel' acc (KStr kn, v) h = Ok acc h).
  { pose proof (IH v t h Hx (Hdepth (kn, t) ltac:(left)) Hfree) as Hc.
    unfold retag_dict_body. cbn [fst snd]. rewrite bind_ret.
    unfold tagged in Hkey. apply negb_true_iff, negb_false_iff in Hkey. rewrite Hkey.
    inversion Hx as [| | | | | a vs ts0 Ha Hvs | a dd ts0 Ha Hnd Hds]; subst;
      try reflexivity.
    - rewrite (bind_ok _ _ _ _ _ (type_of_list _ _ _ Ha)).
      now rewrite (bind_ok _ _ _ _ _ Hc).
    - rewrite (bind_ok _ _ _ _ _ (type_of_dict _ _ _ Ha)).
      now rewrite (bind_ok _ _ _ _ _ Hc). }
  cbn [foldM]. rewrite (bind_ok _ _ _ _ _ Hstep).
  apply (IHd ts); [exact Hd'| |exact Hok].
  intros kx Hkx. apply Hdepth. now right.
Qed.

Lemma untouched_items_fold : forall vs ts h,
  Forall2 (repr h) vs ts ->
  (forall x, x ∈ ts -> depth x < fuel')%nat ->
  forallb tag_free ts = true ->
  forM_ (retag_list_body fuel') vs h = Ok tt h.
Proof.
  induction vs as [|v vs IHvs]; intros ts h Hm Hdepth Hok;
    inversion Hm as [|v' t vs0 ts0 Hx Hvs']; subst; [reflexivity|].
  cbn [forallb] in Hok. apply andb_true_iff in Hok as [Hfree Hok].
  assert (Hstep : retag_list_body fuel' v h = Ok tt h).
  { pose proof (IH v t h Hx (Hdepth t ltac:(left)) Hfree) as Hc.
    unfold retag_list_body.
    inversion Hx as [| | | | | a vs1 ts1 Ha Hvs1 | a dd ts1 Ha Hnd Hds]; subst;
      try reflexivity.
    - now rewrite (bind_ok _ _ _ _ _ (type_of_list _ _ _ Ha)).
    - now rewrite (bind_ok _ _ _ _ _ (type_of_dict _ _ _ Ha)). }
  cbn [forM_]. rewrite (bind_ok _ _ _ _ _ Hstep).
  apply (IHvs ts0); [exact Hvs'| |exact Hok].
  intros x Hx'. apply Hdepth. now right.
Qed.

End Untouched.

Lemma untouched_spec_holds : forall fuel, untouched_spec fuel.
Proof.
  induction fuel as [|fuel IH]; intros v t h Hr Hd Hok; [lia|].
  inversion Hr as [| | | | | a vs ts Ha Hvs | a d ts Ha Hnd Hds]; subst; try exact I.
  - rewrite remove_list_tags_unfold.
    assert (Hitems : py_list_items (VRef a) h = Ok vs h).
    { unfold py_list_items. now rewrite (bind_ok _ _ _ _ _ (deref_ok _ _ _ Ha)). }
    rewrite (bind_ok _ _ _ _ _ Hitems).
    apply (untouched_items_fold fuel IH vs ts); [exact Hvs| |exact Hok].
    intros x Hx. apply depth_list_le in Hx. lia.
  - rewrite remove_dict_tags_unfold.
    rewrite (bind_ok _ _ _ _ _ (py_items_dict _ _ _ Ha)).
    rewrite (bind_ok _ _ _ _ _ (untouched_members_fold fuel IH d ts h [] Hds
               ltac:(intros kx Hkx; apply depth_dict_le in Hkx; lia) Hok)).
    reflexivity.
Qed.

(** [remove_special_tags] on a manifest none of whose keys carries a tag,
    shared parts or not: it returns and writes nothing. *)
Theorem remove_special_tags_leaves_a_document_without_tags (fuel : nat) (ldm : val)
    (members : list (string * json)) (h : heap) :
  repr h ldm (JDict members) ->
  (depth (JDict members) < fuel)%nat ->
  tag_free (JDict members) = true ->
  remove_special_tags fuel ldm h = Ok tt h.
Proof.
  intros Hr Hd Hok. exact (untouched_spec_holds fuel ldm (JDict members) h Hr Hd Hok).
Qed.

Lemma remove_special_tags_leaves_a_document_without_tags_witness :
  remove_special_tags 3 (VRef 1%nat) unfilled_heap = Ok tt unfilled_heap.
Proof.
  apply (remove_special_tags_leaves_a_document_without_tags 3 (VRef 1%nat)
           unfilled_members unfilled_heap).
  - exact (tree_repr _ _ _ _ unfilled_heap_tree).
  - cbn. lia.
  - reflexivity.
Defined.

(** ** [add_required_fields] on a manifest held without sharing *)

#[local] Set Warnings "-clear-no-such-hyp".

Lemma add_fields_dict_unfold fuel' des src :
  add_fields_dict (S fuel') des src
  = (items ← py_items src; forM_ (require_dict_body fuel' des) items).
Proof. reflexivity. Qed.

Lemma add_fields_list_unfold fuel' des src :
  add_fields_list (S fuel') des src
  = (ns ← py_len src;
     nd ← py_len des;
     if ((ns =? 0) || (nd =? 0))%nat then ret tt
     else
       srcs ← py_list_items src;
       forM_ (require_outer_body fuel' des) srcs).
Proof. reflexivity. Qed.

(** *** Regions and allocation *)

#[local] Instance set_unfold_span (b lo hi : nat) :
  SetUnfoldElemOf b (span lo hi) (lo <= b < hi)%nat.
Proof. constructor. apply elem_of_span. Qed.

Ltac regions := unfold allocated in *; set_solver by lia.

Lemma span_mono (lo lo' hi hi' : nat) :
  (lo <= lo')%nat -> (hi' <= hi)%nat -> span lo' hi' ⊆ span lo hi.
Proof. intros H1 H2 b Hb. apply elem_of_span in Hb. apply elem_of_span. lia. Qed.

Lemma span_empty (n : nat) : span n n ⊆ ∅.
Proof. intros b Hb. apply elem_of_span in Hb. lia. Qed.

Lemma allocated_span (h : heap) (fp : gset addr) (lo hi : nat) :
  allocated h fp -> (length h <= lo)%nat -> fp ## span lo hi.
Proof.
  intros Hal Hlo b Hb Hs. apply Hal in Hb. apply elem_of_span in Hs. lia.
Qed.

Lemma allocated_grow (h h' : heap) (fp : gset addr) (lo : nat) :
  allocated h fp -> (length h <= length h')%nat ->
  allocated h' (fp ∪ span lo (length h')).
Proof.
  intros Hal Hlen b Hb. apply elem_of_union in Hb as [Hb|Hb].
  - apply Hal in Hb. lia.
  - apply elem_of_span in Hb. lia.
Qed.

Lemma allocated_sub (h : heap) (fp fp' : gset addr) :
  allocated h fp -> fp' ⊆ fp -> allocated h fp'.
Proof. intros Hal Hsub b Hb. apply Hal. set_solver. Qed.

Lemma allocated_longer (h h' : heap) (fp : gset addr) :
  allocated h fp -> (length h <= length h')%nat -> allocated h' fp.
Proof. intros Hal Hlen b Hb. apply Hal in Hb. lia. Qed.

Lemma span_chain (fp : gset addr) (lo mid hi : nat) :
  (lo <= mid)%nat -> (mid <= hi)%nat ->
  (fp ∪ span lo mid) ∪ span mid hi ⊆ fp ∪ span lo hi.
Proof.
  intros H1 H2 b Hb. apply elem_of_union in Hb as [Hb|Hb].
  - apply elem_of_union in Hb as [Hb|Hb]; [set_solver|].
    apply elem_of_union_r. apply elem_of_span in Hb. apply elem_of_span. lia.
  - apply elem_of_union_r. apply elem_of_span in Hb. apply elem_of_span. lia.
Qed.

(** *** Reading a document held without sharing *)

Lemma tree_type_of h v t fp : tree h v t fp -> type_of v h = Ok (jtype t) h.
Proof.
  intros Ht. inversion Ht as [| | | | | a vs ts fpc fp0 Ha Hvs Hn Hsub
                                   | a dd ts fpc fp0 Ha Hnd Hds Hn Hsub]; subst;
    try reflexivity.
  - exact (type_of_list _ _ _ Ha).
  - exact (type_of_dict _ _ _ Ha).
Qed.

Lemma tree_none h v t fp : tree h v t fp -> val_is_none v = jnull t.
Proof. intros Ht. inversion Ht; reflexivity. Qed.

Lemma tree_scalar h h' v t fp fp' :
  tree h v t fp -> is_container t = false -> tree h' v t fp'.
Proof. intros Ht Hc. inversion Ht; subst; try discriminate; constructor. Qed.

Lemma py_contains_dict h (a : addr) d k :
  h !! a = Some (ODict d) ->
  py_contains (VRef a) k h = Ok (bool_decide (is_Some (dict_get k d))) h.
Proof.
  intros Ha. unfold py_contains. now rewrite (bind_ok _ _ _ _ _ (deref_ok _ _ _ Ha)).
Qed.

Lemma dict_get_absent k d : dict_get k d = None -> k ∉ d.*1.
Proof.
  intros Hk Hin. apply dict_get_elem in Hin as [x Hx]. congruence.
Qed.

(** A member of a dictionary, and what the dictionary denotes once the
    member has changed. *)
Lemma members_get h d ms fp k :
  members h d ms fp ->
  match jget k ms with
  | Some t =>
      exists v fpv fpo,
        dict_get (KStr k) d = Some v /\ tree h v t fpv
        /\ fpv ## fpo /\ fpv ∪ fpo ⊆ fp
        /\ forall h' t' fpv' fp',
             tree h' v t' fpv' -> (forall b : addr, b ∈ fpo -> h' !! b = h !! b) ->
             fpv' ## fpo -> fpv' ∪ fpo ⊆ fp' ->
             members h' d (jset k t' ms) fp'
  | None => dict_get (KStr k) d = None
  end.
Proof.
  induction 1 as [fpn|k0 v0 t0 d ts fp1 fp2 fpx Hv Hd IH Hdis Hsub];
    cbn [jget dict_get key_eqb]; [reflexivity|].
  destruct (String.eqb k k0) eqn:E.
  - apply String.eqb_eq in E. subst k0.
    exists v0, fp1, fp2. split; [reflexivity|]. split; [exact Hv|].
    split; [exact Hdis|]. split; [exact Hsub|].
    intros h' t' fpv' fp' Hv' Hsame Hdj Hs. cbn [jset]. rewrite String.eqb_refl.
    eapply members_cons; [exact Hv'| |exact Hdj|exact Hs].
    eapply members_frame; [exact Hd|exact Hsame].
  - destruct (jget k ts) as [t|]; [|exact IH].
    destruct IH as (v & fpv & fpo & Hget & Hvt & Hdj & Hs & Hset).
    exists v, fpv, (fp1 ∪ fpo). split; [exact Hget|]. split; [exact Hvt|].
    split; [set_solver|]. split; [set_solver|].
    intros h' t' fpv' fp' Hv' Hsame Hdj' Hs'. cbn [jset]. rewrite E.
    eapply (members_cons _ _ _ _ _ _ fp1 (fpv' ∪ fpo)); [| |set_solver|set_solver].
    + eapply tree_frame; [exact Hv|]. intros b Hb. apply Hsame. set_solver.
    + eapply Hset; [exact Hv'| |set_solver|set_solver].
      intros b Hb. apply Hsame. set_solver.
Qed.

(** *** A missing field is added *)

Lemma insert_member h hx (a : addr) d dm fpc k x tx fpx :
  h !! a = Some (ODict d) -> NoDup d.*1 -> members h d dm fpc ->
  a ∉ fpc -> a ∉ fpx -> allocated h fpc ->
  dict_get (KStr k) d = None ->
  ext h hx -> tree hx x tx fpx -> fpc ## fpx ->
  setitem (VRef a) (KStr k) x hx
  = Ok tt (<[a := ODict (d ++ [(KStr k, x)])]> hx)
  /\ NoDup (d ++ [(KStr k, x)]).*1
  /\ members (<[a := ODict (d ++ [(KStr k, x)])]> hx)
       (d ++ [(KStr k, x)]) (dm ++ [(k, tx)]) (fpc ∪ fpx).
Proof.
  intros Ha Hnd Hm Hn Hnx Hal Hget He Hx Hdj.
  pose proof (dict_get_absent _ _ Hget) as Hk.
  pose proof (ext_lookup _ _ _ _ He Ha) as Hax.
  split; [|split].
  - rewrite (setitem_dict _ _ _ _ _ Hax). now rewrite dict_set_absent.
  - rewrite fmap_app. apply NoDup_app. split; [exact Hnd|]. split.
    + intros y Hy Hy'. cbn in Hy'. apply list_elem_of_singleton in Hy'. now subst.
    + apply NoDup_singleton.
  - eapply members_snoc; [| |exact Hdj|reflexivity].
    + eapply members_frame; [exact Hm|]. intros b Hb.
      rewrite list_lookup_insert_ne by (intros ->; contradiction).
      apply (ext_same _ _ _ He). now apply Hal.
    + eapply tree_frame; [exact Hx|]. intros b Hb.
      apply list_lookup_insert_ne. intros ->. contradiction.
Qed.

Lemma require_insert_step h (a : addr) d dm fpc k0 v_src s fps :
  h !! a = Some (ODict d) -> NoDup d.*1 -> members h d dm fpc ->
  a ∉ fpc -> allocated h fpc -> tree h v_src s fps ->
  exists h' d',
    (if negb (bool_decide (is_Some (dict_get (KStr (required_name k0)) d)))
        && negb (Str.startswith k0 tag_optional_field)
     then match jtype s with
          | TyDict => x ← new_dict []; setitem (VRef a) (KStr (required_name k0)) x
          | TyList => x ← new_list []; setitem (VRef a) (KStr (required_name k0)) x
          | _ => setitem (VRef a) (KStr (required_name k0)) v_src
          end
     else ret tt) h = Ok tt h'
    /\ (length h <= length h')%nat
    /\ h' !! a = Some (ODict d') /\ NoDup d'.*1
    /\ members h' d'
         (match jget (required_name k0) dm with
          | Some _ => dm
          | None => if Str.startswith k0 tag_optional_field then dm
                    else dm ++ [(required_name k0, jinit s)]
          end) (fpc ∪ span (length h) (length h'))
    /\ (forall b : addr, (b < length h)%nat -> b <> a -> h' !! b = h !! b).
Proof.
  intros Ha Hnd Hm Hn Hal Hs.
  assert (Hstay : exists h' d', ret tt h = Ok tt h' /\ (length h <= length h')%nat
            /\ h' !! a = Some (ODict d') /\ NoDup d'.*1
            /\ members h' d' dm (fpc ∪ span (length h) (length h'))
            /\ (forall b : addr, (b < length h)%nat -> b <> a -> h' !! b = h !! b)).
  { exists h, d. split; [reflexivity|]. split; [lia|]. split; [exact Ha|].
    split; [exact Hnd|]. split; [|reflexivity].
    eapply members_weaken; [exact Hm|set_solver]. }
  pose proof (members_get h d dm fpc (required_name k0) Hm) as Hg.
  destruct (jget (required_name k0) dm) as [t|].
  - destruct Hg as (v & fpv & fpo & Hget & _). rewrite Hget.
    rewrite bool_decide_eq_true_2 by (now eexists). exact Hstay.
  - rewrite Hg. rewrite bool_decide_eq_false_2 by (apply is_Some_None).
    destruct (Str.startswith k0 tag_optional_field); [exact Hstay|].
    cbn [negb andb]. clear Hstay.
    assert (Hlen : (a < length h)%nat) by (now apply lookup_lt_Some in Ha).
    assert (Hscalar : is_container s = false ->
              exists h' d',
                setitem (VRef a) (KStr (required_name k0)) v_src h = Ok tt h'
                /\ (length h <= length h')%nat
                /\ h' !! a = Some (ODict d') /\ NoDup d'.*1
                /\ members h' d' (dm ++ [(required_name k0, s)])
                     (fpc ∪ span (length h) (length h'))
                /\ (forall b : addr, (b < length h)%nat -> b <> a -> h' !! b = h !! b)).
    { intros Hc.
      assert (Hn0 : a ∉ (∅ : gset addr)) by set_solver.
      assert (Hd0 : fpc ## (∅ : gset addr)) by set_solver.
      destruct (insert_member h h a d dm fpc (required_name k0) v_src s ∅
                  Ha Hnd Hm Hn Hn0 Hal Hg (ext_refl h)
                  (tree_scalar _ _ _ _ _ _ Hs Hc) Hd0)
        as (Hset & Hnd' & Hm').
      eexists _, _. split; [exact Hset|]. rewrite length_insert.
      split; [lia|]. split; [now apply list_lookup_insert_eq|]. split; [exact Hnd'|].
      split; [eapply members_weaken; [exact Hm'|set_solver]|].
      intros b _ Hb. now apply list_lookup_insert_ne. }
    assert (Hnew : forall o tx,
              tree (h ++ [o]) (VRef (length h)) tx {[length h]} ->
              exists h' d',
                setitem (VRef a) (KStr (required_name k0)) (VRef (length h)) (h ++ [o])
                = Ok tt h'
                /\ (length h <= length h')%nat
                /\ h' !! a = Some (ODict d') /\ NoDup d'.*1
                /\ members h' d' (dm ++ [(required_name k0, tx)])
                     (fpc ∪ span (length h) (length h'))
                /\ (forall b : addr, (b < length h)%nat -> b <> a -> h' !! b = h !! b)).
    { intros o tx Hx.
      assert (Hfresh : length h ∉ fpc) by (intros Hin; apply Hal in Hin; lia).
      assert (Hn1 : a ∉ ({[length h]} : gset addr)).
      { intros Hin. apply elem_of_singleton in Hin. lia. }
      assert (Hd1 : fpc ## ({[length h]} : gset addr)) by set_solver.
      destruct (insert_member h (h ++ [o]) a d dm fpc (required_name k0)
                  (VRef (length h)) tx {[length h]}
                  Ha Hnd Hm Hn Hn1 Hal Hg (ext_app h [o]) Hx Hd1)
        as (Hset & Hnd' & Hm').
      eexists _, _. split; [exact Hset|]. rewrite length_insert, length_app.
      cbn [length]. split; [lia|]. split.
      { apply list_lookup_insert_eq. rewrite length_app. cbn [length]. lia. }
      split; [exact Hnd'|]. split.
      - eapply members_weaken; [exact Hm'|].
        intros b Hb. apply elem_of_union in Hb as [Hb|Hb]; [set_solver|].
        apply elem_of_union_r, elem_of_span. apply elem_of_singleton in Hb. lia.
      - intros b Hb Hba. rewrite list_lookup_insert_ne by congruence.
        now apply lookup_app_l. }
    destruct s; cbn [jtype jinit]; try (apply Hscalar; reflexivity).
    + unfold new_list. rewrite (bind_ok _ _ _ _ _ (alloc_ok _ _)).
      apply Hnew. eapply (tree_list _ _ _ _ ∅);
        [apply alloc_lookup|constructor|set_solver|set_solver].
    + unfold new_dict. rewrite (bind_ok _ _ _ _ _ (alloc_ok _ _)).
      apply Hnew. eapply (tree_dict _ _ _ _ ∅);
        [apply alloc_lookup|constructor|constructor|set_solver|set_solver].
Qed.

Section RequireStep.

Variable fuel' : nat.

Hypothesis IH : require_spec fuel'.

(** *** The field is completed from the template *)

Lemma require_descend_step h (a : addr) d dm fpc k v_src s fps :
  h !! a = Some (ODict d) -> members h d dm fpc -> a ∉ fpc -> allocated h fpc ->
  tree h v_src s fps -> fpc ## fps -> allocated h fps -> (depth s < fuel')%nat ->
  exists h',
    (v_des ← py_get (VRef a) (KStr k);
     td ← type_of v_des;
     if negb (val_is_none v_des) && pytype_eqb (jtype s) td then
       match jtype s with
       | TyDict => add_fields_dict fuel' v_des v_src
       | TyList => add_fields_list fuel' v_des v_src
       | _ => ret tt
       end
     else ret tt) h = Ok tt h'
    /\ (length h <= length h')%nat
    /\ members h' d
         (match jget k dm with
          | Some t =>
              if negb (jnull t) && pytype_eqb (jtype s) (jtype t) && is_container s
              then jset k (jrequire s t) dm else dm
          | None => dm
          end) (fpc ∪ span (length h) (length h'))
    /\ (forall b : addr, (b < length h)%nat -> b ∉ fpc -> h' !! b = h !! b).
Proof.
  intros Ha Hm Hn Hal Hs Hdj Hals Hdepth.
  assert (Hstay : exists h', ret tt h = Ok tt h' /\ (length h <= length h')%nat
            /\ members h' d dm (fpc ∪ span (length h) (length h'))
            /\ (forall b : addr, (b < length h)%nat -> b ∉ fpc -> h' !! b = h !! b)).
  { exists h. split; [reflexivity|]. split; [lia|]. split; [|reflexivity].
    eapply members_weaken; [exact Hm|set_solver]. }
  rewrite (bind_ok _ _ _ _ _ (py_get_dict _ _ _ _ Ha)).
  pose proof (members_get h d dm fpc k Hm) as Hg.
  destruct (jget k dm) as [t|].
  - destruct Hg as (v & fpv & fpo & Hget & Hvt & Hdjv & Hsub & Hset).
    rewrite Hget. cbn [default]. unfold id.
    rewrite (bind_ok _ _ _ _ _ (tree_type_of _ _ _ _ Hvt)).
    rewrite (tree_none _ _ _ _ Hvt).
    assert (Halv : allocated h fpv) by (eapply allocated_sub; [exact Hal|set_solver]).
    assert (Hdjs : fpv ## fps) by set_solver.
    pose proof (IH v t fpv v_src s fps h Hvt Hs Hdjs Halv Hals Hdepth) as Hc.
    assert (Hgo : forall h',
              (length h <= length h')%nat ->
              tree h' v (jrequire s t) (fpv ∪ span (length h) (length h')) ->
              (forall b : addr, (b < length h)%nat -> b ∉ fpv -> h' !! b = h !! b) ->
              (length h <= length h')%nat
              /\ members h' d (jset k (jrequire s t) dm)
                   (fpc ∪ span (length h) (length h'))
              /\ (forall b : addr, (b < length h)%nat -> b ∉ fpc -> h' !! b = h !! b)).
    { intros h' Hlen Ht' Hframe. split; [exact Hlen|]. split.
      - eapply Hset; [exact Ht'| | |].
        + intros b Hb. apply Hframe; [apply Hal|]; set_solver.
        + pose proof (allocated_span h fpo (length h) (length h')
                        ltac:(eapply allocated_sub; [exact Hal|set_solver])
                        ltac:(lia)) as Hsp.
          set_solver.
        + set_solver.
      - intros b Hb Hbn. apply Hframe; [exact Hb|set_solver]. }
    destruct (negb (jnull t) && pytype_eqb (jtype s) (jtype t)) eqn:Ec;
      [|exact Hstay].
    destruct s, t; cbn in Ec; try discriminate;
      cbn [jtype is_container andb]; try exact Hstay.
    + destruct Hc as (h' & Hrun & Hlen & Ht' & Hframe).
      exists h'. split; [exact Hrun|]. now apply Hgo.
    + destruct Hc as (h' & Hrun & Hlen & Ht' & Hframe).
      exists h'. split; [exact Hrun|]. now apply Hgo.
  - rewrite Hg. cbn [default]. exact Hstay.
Qed.

(** One member of the template. *)
Lemma require_member_step h (a : addr) d dm fpc k0 v_src s fps :
  h !! a = Some (ODict d) -> NoDup d.*1 -> members h d dm fpc ->
  a ∉ fpc -> a ∉ fps -> allocated h fpc ->
  tree h v_src s fps -> fpc ## fps -> allocated h fps -> (depth s < fuel')%nat ->
  exists h' d',
    require_dict_body fuel' (VRef a) (KStr k0, v_src) h = Ok tt h'
    /\ (length h <= length h')%nat
    /\ h' !! a = Some (ODict d') /\ NoDup d'.*1
    /\ members h' d' (require_member (jrequire s) dm k0 s)
         (fpc ∪ span (length h) (length h'))
    /\ (forall b : addr, (b < length h)%nat -> b ∉ fpc -> b <> a -> h' !! b = h !! b).
Proof.
  intros Ha Hnd Hm Hn Hns Hal Hs Hdj Hals Hdepth.
  assert (Hlt : (a < length h)%nat) by (now apply lookup_lt_Some in Ha).
  unfold require_dict_body. cbn [fst snd]. rewrite bind_ret. cbv zeta.
  change (if Str.startswith k0 tag_optional_field
          then Str.drop (String.length tag_optional_field) k0 else k0)
    with (required_name k0).
  rewrite (bind_ok _ _ _ _ _ (py_contains_dict _ _ _ _ Ha)).
  rewrite (bind_ok _ _ _ _ _ (tree_type_of _ _ _ _ Hs)).
  destruct (require_insert_step h a d dm fpc k0 v_src s fps Ha Hnd Hm Hn Hal Hs)
    as (h1 & d1 & Hins & Hlen1 & Ha1 & Hnd1 & Hm1 & Hframe1).
  rewrite (bind_ok _ _ _ _ _ Hins).
  assert (Hs1 : tree h1 v_src s fps).
  { eapply tree_frame; [exact Hs|]. intros b Hb. apply Hframe1; [now apply Hals|].
    intros ->. contradiction. }
  destruct (require_descend_step h1 a d1 _ (fpc ∪ span (length h) (length h1))
              (required_name k0) v_src s fps Ha1 Hm1)
    as (h2 & Hrun & Hlen2 & Hm2 & Hframe2).
  { intros Hin. apply elem_of_union in Hin as [Hin|Hin]; [contradiction|].
    apply elem_of_span in Hin. lia. }
  { apply (allocated_grow h); [exact Hal|exact Hlen1]. }
  { exact Hs1. }
  { pose proof (allocated_span h fps (length h) (length h1) Hals ltac:(lia)).
    set_solver. }
  { eapply allocated_longer; [exact Hals|exact Hlen1]. }
  { exact Hdepth. }
  exists h2, d1. split; [exact Hrun|]. split; [lia|].
  assert (Hout : forall b : addr, (b < length h)%nat -> b ∉ fpc ->
                   b ∉ fpc ∪ span (length h) (length h1)).
  { intros b Hb Hbn Hin. apply elem_of_union in Hin as [Hin|Hin]; [contradiction|].
    apply elem_of_span in Hin. lia. }
  split; [|split; [exact Hnd1|split]].
  - rewrite Hframe2; [exact Ha1|lia|now apply Hout].
  - eapply members_weaken; [exact Hm2|]. now apply span_chain.
  - intros b Hb Hbn Hba. rewrite Hframe2; [|lia|now apply Hout].
    now apply Hframe1.
Qed.

Lemma require_members_fold (a : addr) : forall items sm fps h d dm fpc,
  members h items sm fps ->
  h !! a = Some (ODict d) -> NoDup d.*1 -> members h d dm fpc ->
  a ∉ fpc -> a ∉ fps -> allocated h fpc -> allocated h fps -> fpc ## fps ->
  (forall kx, kx ∈ sm -> depth kx.2 < fuel')%nat ->
  exists h' d',
    forM_ (require_dict_body fuel' (VRef a)) items h = Ok tt h'
    /\ (length h <= length h')%nat
    /\ h' !! a = Some (ODict d') /\ NoDup d'.*1
    /\ members h' d'
         (fold_left (fun dm (kx : string * json) =>
                       require_member (jrequire kx.2) dm kx.1 kx.2) sm dm)
         (fpc ∪ span (length h) (length h'))
    /\ (forall b : addr, (b < length h)%nat -> b ∉ fpc -> b <> a -> h' !! b = h !! b).
Proof.
  induction items as [|kv items IHi]; intros sm fps h d dm fpc Hsrc Ha Hnd Hm Hn Hns
    Hal Hals Hdj Hdepth;
    inversion Hsrc as [fpn|k0 v s items0 sm0 fp1 fp2 fpx Hv Hrest Hdis Hsub]; subst.
  - exists h, d. split; [reflexivity|]. split; [lia|]. split; [exact Ha|].
    split; [exact Hnd|]. split; [|reflexivity].
    eapply members_weaken; [exact Hm|set_solver].
  - assert (Hlt : (a < length h)%nat) by (now apply lookup_lt_Some in Ha).
    destruct (require_member_step h a d dm fpc k0 v s fp1 Ha Hnd Hm Hn)
      as (h1 & d1 & Hstep & Hlen1 & Ha1 & Hnd1 & Hm1 & Hframe1);
      [regions|exact Hal|exact Hv|regions|regions| |].
    { apply (Hdepth (k0, s)). left. }
    assert (Hrest1 : members h1 items sm0 fp2).
    { eapply members_frame; [exact Hrest|]. intros b Hb.
      apply Hframe1; [regions|regions|]. intros ->. regions. }
    destruct (IHi sm0 fp2 h1 d1 _ (fpc ∪ span (length h) (length h1))
                Hrest1 Ha1 Hnd1 Hm1)
      as (h2 & d2 & Hfold & Hlen2 & Ha2 & Hnd2 & Hm2 & Hframe2);
      [regions|regions|regions|regions|regions| |].
    { intros kx Hkx. apply Hdepth. now right. }
    exists h2, d2. cbn [forM_ fold_left fst snd].
    rewrite (bind_ok _ _ _ _ _ Hstep).
    split; [exact Hfold|]. split; [lia|]. split; [exact Ha2|].
    split; [exact Hnd2|]. split.
    + eapply members_weaken; [exact Hm2|]. now apply span_chain.
    + intros b Hb Hbn Hba. rewrite Hframe2; [|lia|regions|exact Hba].
      now apply Hframe1.
Qed.

(** [add_fields_dict], one level. *)
Lemma require_dict_step h (a asrc : addr) d dm fpc fp items sm fpsc fps :
  h !! a = Some (ODict d) -> NoDup d.*1 -> members h d dm fpc ->
  a ∉ fpc -> {[a]} ∪ fpc ⊆ fp ->
  h !! asrc = Some (ODict items) -> members h items sm fpsc -> fpsc ⊆ fps ->
  fp ## fps -> allocated h fp -> allocated h fps ->
  (forall kx, kx ∈ sm -> depth kx.2 < fuel')%nat ->
  exists h',
    add_fields_dict (S fuel') (VRef a) (VRef asrc) h = Ok tt h'
    /\ (length h <= length h')%nat
    /\ tree h' (VRef a) (jrequire (JDict sm) (JDict dm))
         (fp ∪ span (length h) (length h'))
    /\ (forall b : addr, (b < length h)%nat -> b ∉ fp -> h' !! b = h !! b).
Proof.
  intros Ha Hnd Hm Hn Hsub Has Hsrc Hsubs Hdj Hal Hals Hdepth.
  assert (Hlt : (a < length h)%nat) by (now apply lookup_lt_Some in Ha).
  rewrite add_fields_dict_unfold.
  rewrite (bind_ok _ _ _ _ _ (py_items_dict _ _ _ Has)).
  destruct (require_members_fold a items sm fpsc h d dm fpc Hsrc Ha Hnd Hm Hn)
    as (h' & d' & Hfold & Hlen & Ha' & Hnd' & Hm' & Hframe);
    [regions|regions|regions|regions|exact Hdepth|].
  exists h'. split; [exact Hfold|]. split; [exact Hlen|]. split.
  - cbn [jrequire].
    eapply tree_dict; [exact Ha'|exact Hnd'|exact Hm'|regions|regions].
  - intros b Hb Hbn. apply Hframe; [exact Hb|regions|]. intros ->. regions.
Qed.

(** *** Lists *)

(** One item of the list of the manifest against one item of the template. *)
Lemma require_item_step h v t fp1 v_src s fps :
  tree h v t fp1 -> tree h v_src s fps -> fp1 ## fps ->
  allocated h fp1 -> allocated h fps -> (depth s < fuel')%nat ->
  exists h',
    require_inner_body fuel' v_src v h = Ok tt h'
    /\ (length h <= length h')%nat
    /\ tree h' v (require_item (jrequire s) s t) (fp1 ∪ span (length h) (length h'))
    /\ (forall b : addr, (b < length h)%nat -> b ∉ fp1 -> h' !! b = h !! b).
Proof.
  intros Hv Hs Hdj Hal Hals Hdepth.
  pose proof (IH v t fp1 v_src s fps h Hv Hs Hdj Hal Hals Hdepth) as Hc.
  assert (Hstay : exists h', ret tt h = Ok tt h' /\ (length h <= length h')%nat
            /\ tree h' v t (fp1 ∪ span (length h) (length h'))
            /\ (forall b : addr, (b < length h)%nat -> b ∉ fp1 -> h' !! b = h !! b)).
  { exists h. split; [reflexivity|]. split; [lia|]. split; [|reflexivity].
    eapply tree_weaken; [exact Hv|set_solver]. }
  unfold require_inner_body, require_item.
  rewrite (bind_ok _ _ _ _ _ (tree_type_of _ _ _ _ Hs)).
  rewrite (bind_ok _ _ _ _ _ (tree_type_of _ _ _ _ Hv)).
  destruct (pytype_eqb (jtype s) (jtype t)) eqn:Ec; [|exact Hstay].
  destruct s, t; cbn in Ec; try discriminate;
    cbn [jtype is_container andb]; try exact Hstay; exact Hc.
Qed.

Lemma require_inner_fold v_src s fps : forall vs dl fpc h,
  trees h vs dl fpc -> tree h v_src s fps -> fpc ## fps ->
  allocated h fpc -> allocated h fps -> (depth s < fuel')%nat ->
  exists h',
    forM_ (require_inner_body fuel' v_src) vs h = Ok tt h'
    /\ (length h <= length h')%nat
    /\ trees h' vs (map (require_item (jrequire s) s) dl)
         (fpc ∪ span (length h) (length h'))
    /\ (forall b : addr, (b < length h)%nat -> b ∉ fpc -> h' !! b = h !! b).
Proof.
  induction vs as [|v vs IHvs]; intros dl fpc h Hvs Hs Hdj Hal Hals Hdepth;
    inversion Hvs as [fpn|v0 t vs0 dl0 fp1 fp2 fpx Hv Hrest Hdis Hsub]; subst.
  - exists h. split; [reflexivity|]. split; [lia|]. split; [constructor|reflexivity].
  - destruct (require_item_step h v t fp1 v_src s fps Hv Hs)
      as (h1 & Hstep & Hlen1 & Hv1 & Hframe1); [regions|regions|regions|exact Hdepth|].
    assert (Hrest1 : trees h1 vs dl0 fp2).
    { eapply trees_frame; [exact Hrest|]. intros b Hb. apply Hframe1; regions. }
    assert (Hs1 : tree h1 v_src s fps).
    { eapply tree_frame; [exact Hs|]. intros b Hb. apply Hframe1; regions. }
    destruct (IHvs dl0 fp2 h1 Hrest1 Hs1)
      as (h2 & Hfold & Hlen2 & Hrest2 & Hframe2); [regions|regions|regions|exact Hdepth|].
    exists h2. cbn [forM_ map]. rewrite (bind_ok _ _ _ _ _ Hstep).
    split; [exact Hfold|]. split; [lia|]. split.
    + eapply trees_cons; [|exact Hrest2| |].
      * eapply tree_frame; [exact Hv1|]. intros b Hb. apply Hframe2; regions.
      * regions.
      * regions.
    + intros b Hb Hbn. rewrite Hframe2; [|lia|regions]. apply Hframe1; regions.
Qed.

Lemma require_outer_fold (a : addr) vs : forall srcs sl fps h dl fpc,
  trees h srcs sl fps ->
  h !! a = Some (OList vs) -> trees h vs dl fpc ->
  a ∉ fpc -> a ∉ fps -> allocated h fpc -> allocated h fps -> fpc ## fps ->
  (forall x, x ∈ sl -> depth x < fuel')%nat ->
  exists h',
    forM_ (require_outer_body fuel' (VRef a)) srcs h = Ok tt h'
    /\ (length h <= length h')%nat
    /\ trees h' vs
         (fold_left (fun dl s => map (require_item (jrequire s) s) dl) sl dl)
         (fpc ∪ span (length h) (length h'))
    /\ (forall b : addr, (b < length h)%nat -> b ∉ fpc -> h' !! b = h !! b).
Proof.
  induction srcs as [|v_src srcs IHs]; intros sl fps h dl fpc Hsrc Ha Hvs Hn Hns
    Hal Hals Hdj Hdepth;
    inversion Hsrc as [fpn|v0 s srcs0 sl0 fp1 fp2 fpx Hv Hrest Hdis Hsub]; subst.
  - exists h. split; [reflexivity|]. split; [lia|]. split; [|reflexivity].
    eapply trees_weaken; [exact Hvs|set_solver].
  - assert (Hlt : (a < length h)%nat) by (now apply lookup_lt_Some in Ha).
    assert (Hitems : py_list_items (VRef a) h = Ok vs h).
    { unfold py_list_items. now rewrite (bind_ok _ _ _ _ _ (deref_ok _ _ _ Ha)). }
    destruct (require_inner_fold v_src s fp1 vs dl fpc h Hvs Hv)
      as (h1 & Hstep & Hlen1 & Hvs1 & Hframe1); [regions|regions|regions| |].
    { apply Hdepth. left. }
    assert (Ha1 : h1 !! a = Some (OList vs)).
    { rewrite Hframe1; [exact Ha|exact Hlt|exact Hn]. }
    assert (Hrest1 : trees h1 srcs sl0 fp2).
    { eapply trees_frame; [exact Hrest|]. intros b Hb. apply Hframe1; regions. }
    destruct (IHs sl0 fp2 h1 _ (fpc ∪ span (length h) (length h1)) Hrest1 Ha1 Hvs1)
      as (h2 & Hfold & Hlen2 & Hvs2 & Hframe2);
      [regions|regions|regions|regions|regions| |].
    { intros x Hx. apply Hdepth. now right. }
    assert (Hbody : require_outer_body fuel' (VRef a) v_src h = Ok tt h1).
    { unfold require_outer_body. now rewrite (bind_ok _ _ _ _ _ Hitems). }
    exists h2. cbn [forM_ fold_left]. rewrite (bind_ok _ _ _ _ _ Hbody).
    split; [exact Hfold|]. split; [lia|]. split.
    + eapply trees_weaken; [exact Hvs2|]. now apply span_chain.
    + intros b Hb Hbn. rewrite Hframe2; [|lia|regions]. now apply Hframe1.
Qed.

(** [add_fields_list], one level. *)
Lemma require_list_step h (a asrc : addr) vs dl fpc fp srcs sl fpsc fps :
  h !! a = Some (OList vs) -> trees h vs dl fpc ->
  a ∉ fpc -> {[a]} ∪ fpc ⊆ fp ->
  h !! asrc = Some (OList srcs) -> trees h srcs sl fpsc -> fpsc ⊆ fps ->
  fp ## fps -> allocated h fp -> allocated h fps ->
  (forall x, x ∈ sl -> depth x < fuel')%nat ->
  exists h',
    add_fields_list (S fuel') (VRef a) (VRef asrc) h = Ok tt h'
    /\ (length h <= length h')%nat
    /\ tree h' (VRef a) (jrequire (JList sl) (JList dl))
         (fp ∪ span (length h) (length h'))
    /\ (forall b : addr, (b < length h)%nat -> b ∉ fp -> h' !! b = h !! b).
Proof.
  intros Ha Hvs Hn Hsub Has Hsrc Hsubs Hdj Hal Hals Hdepth.
  assert (Hlt : (a < length h)%nat) by (now apply lookup_lt_Some in Ha).
  rewrite add_fields_list_unfold.
  rewrite (bind_ok _ _ _ _ _ (py_len_list _ _ _ Has)).
  rewrite (bind_ok _ _ _ _ _ (py_len_list _ _ _ Ha)).
  cbn [jrequire].
  rewrite (trees_length _ _ _ _ Hsrc), (trees_length _ _ _ _ Hvs).
  destruct ((length sl =? 0) || (length dl =? 0))%nat.
  - exists h. split; [reflexivity|]. split; [lia|]. split; [|reflexivity].
    eapply tree_list; [exact Ha|exact Hvs|exact Hn|set_solver].
  - assert (Hitems : py_list_items (VRef asrc) h = Ok srcs h).
    { unfold py_list_items. now rewrite (bind_ok _ _ _ _ _ (deref_ok _ _ _ Has)). }
    rewrite (bind_ok _ _ _ _ _ Hitems).
    destruct (require_outer_fold a vs srcs sl fpsc h dl fpc Hsrc Ha Hvs Hn)
      as (h' & Hfold & Hlen & Hvs' & Hframe);
      [regions|regions|regions|regions|exact Hdepth|].
    exists h'. split; [exact Hfold|]. split; [exact Hlen|]. split.
    + eapply tree_list; [|exact Hvs'|regions|regions].
      rewrite Hframe; [exact Ha|exact Hlt|exact Hn].
    + intros b Hb Hbn. apply Hframe; [exact Hb|regions].
Qed.

End RequireStep.

Lemma require_spec_holds : forall fuel, require_spec fuel.
Proof.
  induction fuel as [|fuel IH]; intros des td fp src ts fps h Hd Hs Hdj Hal Hals Hdepth;
    [lia|].
  inversion Hs as [| | | | | asrc srcs sl fpsc fps0 Has Hsrc Hns Hsubs
                          | asrc items sm fpsc fps0 Has Hnds Hsrc Hns Hsubs]; subst;
    try exact I;
    inversion Hd as [| | | | | a vs dl fpc fp0 Ha Hvs Hn Hsub
                            | a d dm fpc fp0 Ha Hnd Hm Hn Hsub]; subst; try exact I.
  - eapply (require_list_step fuel IH); eauto; try set_solver.
    intros x Hx. apply depth_list_le in Hx. lia.
  - eapply (require_dict_step fuel IH); eauto; try set_solver.
    intros kx Hkx. apply depth_dict_le in Hkx. lia.
Qed.

(** ** [add_required_fields]: what the manifest gains and what it keeps *)

#[local] Set Warnings "-clear-no-such-hyp".

Lemma add_required_fields_run (fuel : nat) (ldm required_template : val)
    (dm sm : list (string * json)) (fp fps : gset addr) (h : heap) :
  tree h ldm (JDict dm) fp ->
  tree h required_template (JDict sm) fps ->
  fp ## fps -> allocated h fp -> allocated h fps ->
  (depth (JDict sm) < fuel)%nat ->
  exists h',
    add_required_fields fuel ldm required_template h = Ok tt h'
    /\ tree h' ldm (jrequire (JDict sm) (JDict dm)) (fp ∪ span (length h) (length h'))
    /\ tree h' required_template (JDict sm) fps
    /\ (forall b : addr, (b < length h)%nat -> b ∉ fp -> h' !! b = h !! b).
Proof.
  intros Hd Hs Hdj Hal Hals Hdepth.
  pose proof (require_spec_holds fuel ldm (JDict dm) fp required_template (JDict sm)
                fps h Hd Hs Hdj Hal Hals Hdepth) as Hc.
  inversion Hs as [| | | | | | asrc items sm0 fpsc fps0 Has Hnds Hsrc Hns Hsubs]; subst.
  unfold add_required_fields.
  rewrite (bind_ok _ _ _ _ _ (py_len_dict _ _ _ Has)).
  destruct (length items =? 0)%nat eqn:En.
  - apply Nat.eqb_eq in En. rewrite (members_length _ _ _ _ Hsrc) in En.
    destruct sm; [|discriminate]. exists h. split; [reflexivity|].
    split; [|split; [exact Hs|reflexivity]].
    cbn [jrequire fold_left]. eapply tree_weaken; [exact Hd|set_solver].
  - destruct Hc as (h' & Hrun & Hlen & Ht & Hframe).
    exists h'. split; [exact Hrun|]. split; [exact Ht|]. split; [|exact Hframe].
    eapply tree_frame; [exact Hs|]. intros b Hb. apply Hframe; regions.
Qed.

(** [add_required_fields] with a manifest and a required template that are
    held without sharing, apart from one another, and a budget above the
    depth of the template: it returns; the manifest then denotes the
    manifest completed from the template, in its own objects and in newly
    allocated ones; the template denotes what it denoted, and no other
    object that existed is touched. *)
Theorem add_required_fields_completes_the_manifest (fuel : nat)
    (ldm required_template : val) (dm sm : list (string * json))
    (fp fps : gset addr) (h : heap) :
  tree h ldm (JDict dm) fp ->
  tree h required_template (JDict sm) fps ->
  fp ## fps -> allocated h fp -> allocated h fps ->
  (depth (JDict sm) < fuel)%nat ->
  exists h',
    add_required_fields fuel ldm required_template h = Ok tt h'
    /\ tree h' ldm (jrequire (JDict sm) (JDict dm)) (fp ∪ span (length h) (length h'))
    /\ tree h' required_template (JDict sm) fps
    /\ (forall b : addr, (b < length h)%nat -> b ∉ fp -> h' !! b = h !! b).
Proof. apply add_required_fields_run. Qed.

Lemma require_heap_manifest :
  tree require_heap (VRef 0%nat) (JDict require_manifest) {[0%nat]}.
Proof.
  eapply (tree_dict _ 0%nat _ _ ∅); [reflexivity|nodup_keys| |set_solver|set_solver].
  eapply (members_cons _ _ _ _ _ _ ∅ ∅); [constructor|constructor|set_solver|set_solver].
Qed.

Lemma require_heap_template :
  tree require_heap (VRef 2%nat) (JDict require_template) ({[2%nat]} ∪ {[1%nat]}).
Proof.
  eapply (tree_dict _ 2%nat _ _ {[1%nat]}); [reflexivity|nodup_keys| |set_solver|set_solver].
  eapply (members_cons _ _ _ _ _ _ ∅ {[1%nat]}); [constructor| |set_solver|set_solver].
  eapply (members_cons _ _ _ _ _ _ {[1%nat]} ∅); [| |set_solver|set_solver].
  - eapply (tree_dict _ 1%nat _ _ ∅); [reflexivity|nodup_keys| |set_solver|set_solver].
    eapply (members_cons _ _ _ _ _ _ ∅ ∅); [constructor|constructor|set_solver|set_solver].
  - eapply (members_cons _ _ _ _ _ _ ∅ ∅); [constructor|constructor|set_solver|set_solver].
Qed.

Lemma require_heap_apart : ({[0%nat]} : gset addr) ## {[2%nat]} ∪ {[1%nat]}.
Proof. set_solver. Qed.

Lemma require_heap_allocated_manifest : allocated require_heap {[0%nat]}.
Proof. intros b Hb. apply elem_of_singleton in Hb. subst b. cbn. lia. Qed.

Lemma require_heap_allocated_template :
  allocated require_heap ({[2%nat]} ∪ {[1%nat]}).
Proof.
  intros b Hb. apply elem_of_union in Hb as [Hb|Hb];
    apply elem_of_singleton in Hb; subst b; cbn; lia.
Qed.

Lemma add_required_fields_completes_the_manifest_witness :
  exists h',
    add_required_fields 3 (VRef 0%nat) (VRef 2%nat) require_heap = Ok tt h'
    /\ repr h' (VRef 0%nat)
         (JDict [("a", JInt 1); ("data", JDict [("x", JInt 0)])]%string).
Proof.
  destruct (add_required_fields_completes_the_manifest 3 (VRef 0%nat) (VRef 2%nat)
              require_manifest require_template {[0%nat]} ({[2%nat]} ∪ {[1%nat]})
              require_heap require_heap_manifest require_heap_template
              require_heap_apart require_heap_allocated_manifest
              require_heap_allocated_template)
    as (h' & Hrun & Ht & _).
  - cbn. lia.
  - exists h'. split; [exact Hrun|]. exact (tree_repr _ _ _ _ Ht).
Defined.

(** *** The members of the completed manifest *)

Lemma jget_app_Some k dm l x : jget k dm = Some x -> jget k (dm ++ l) = Some x.
Proof.
  induction dm as [|[k1 x1] dm IH]; cbn [jget app]; [discriminate|].
  destruct (String.eqb k k1); auto.
Qed.

Lemma jget_snoc_None k dm k' x :
  jget k dm = None ->
  jget k (dm ++ [(k', x)]) = if String.eqb k k' then Some x else None.
Proof.
  induction dm as [|[k1 x1] dm IH]; cbn [jget app]; [reflexivity|].
  destruct (String.eqb k k1); [discriminate|auto].
Qed.

Lemma jset_keys k x dm : is_Some (jget k dm) -> map fst (jset k x dm) = map fst dm.
Proof.
  induction dm as [|[k1 x1] dm IH]; cbn [jget jset map fst].
  - intros [y Hy]. discriminate.
  - destruct (String.eqb k k1); cbn [map fst]; [reflexivity|].
    intros Hs. now rewrite IH.
Qed.

Lemma jget_jset_ne k k' x dm : k' <> k -> jget k' (jset k x dm) = jget k' dm.
Proof.
  intros Hne. induction dm as [|[k1 x1] dm IH]; cbn [jget jset].
  - destruct (String.eqb k' k) eqn:E; [apply String.eqb_eq in E; contradiction|reflexivity].
  - destruct (String.eqb k k1) eqn:E1; cbn [jget].
    + apply String.eqb_eq in E1. subst k1.
      destruct (String.eqb k' k) eqn:E; [apply String.eqb_eq in E; contradiction|reflexivity].
    + now rewrite IH.
Qed.

Lemma jget_jset_eq k x dm : jget k (jset k x dm) = Some x.
Proof.
  induction dm as [|[k1 x1] dm IH]; cbn [jget jset].
  - now rewrite String.eqb_refl.
  - destruct (String.eqb k k1) eqn:E; cbn [jget]; now rewrite E.
Qed.

Lemma pytype_eqb_eq t1 t2 : pytype_eqb t1 t2 = true -> t1 = t2.
Proof. destruct t1, t2; cbn; congruence. Qed.

Lemma container_type s d : jtype s = jtype d -> is_container s = is_container d.
Proof. destruct s, d; cbn; congruence. Qed.

Section RequireMember.

Variable rec : json -> json.
Variables (k0 : string) (s : json).

Lemma with_field_keys dm : exists extra, map fst (with_field k0 s dm) = map fst dm ++ extra.
Proof.
  unfold with_field. destruct (jget (required_name k0) dm); [exists []; now rewrite app_nil_r|].
  destruct (Str.startswith _ _); [exists []; now rewrite app_nil_r|].
  eexists. now rewrite map_app.
Qed.

Lemma with_field_get dm k x : jget k dm = Some x -> jget k (with_field k0 s dm) = Some x.
Proof.
  intros Hk. unfold with_field. destruct (jget (required_name k0) dm) eqn:E; [exact Hk|].
  destruct (Str.startswith _ _); [exact Hk|]. now apply jget_app_Some.
Qed.

Lemma require_member_eq dm :
  require_member rec dm k0 s
  = match jget (required_name k0) (with_field k0 s dm) with
    | Some d =>
        if negb (jnull d) && pytype_eqb (jtype s) (jtype d) && is_container s
        then jset (required_name k0) (rec d) (with_field k0 s dm) else with_field k0 s dm
    | None => with_field k0 s dm
    end.
Proof. reflexivity. Qed.

Lemma require_member_keys dm :
  exists extra, map fst (require_member rec dm k0 s) = map fst dm ++ extra.
Proof.
  rewrite require_member_eq. destruct (jget (required_name k0) (with_field k0 s dm)) as [d|] eqn:Eg;
    [|apply with_field_keys].
  destruct (_ && _); [|apply with_field_keys].
  rewrite jset_keys by (eexists; exact Eg). apply with_field_keys.
Qed.

Lemma require_member_get dm k x :
  jget k dm = Some x -> is_container x = false ->
  jget k (require_member rec dm k0 s) = Some x.
Proof.
  intros Hk Hx. apply with_field_get in Hk. rewrite require_member_eq.
  destruct (jget (required_name k0) (with_field k0 s dm)) as [d|] eqn:Eg; [|exact Hk].
  destruct (negb (jnull d) && pytype_eqb (jtype s) (jtype d) && is_container s) eqn:Ec;
    [|exact Hk].
  apply andb_true_iff in Ec as [Ec Hs]. apply andb_true_iff in Ec as [_ Ety].
  apply pytype_eqb_eq, container_type in Ety.
  rewrite jget_jset_ne; [exact Hk|]. intros ->. congruence.
Qed.

Lemma require_member_some dm k :
  is_Some (jget k dm) -> is_Some (jget k (require_member rec dm k0 s)).
Proof.
  intros [x Hk]. apply (with_field_get dm) in Hk. rewrite require_member_eq.
  destruct (jget (required_name k0) (with_field k0 s dm)) as [d|] eqn:Eg;
    [|eexists; exact Hk].
  destruct (_ && _); [|eexists; exact Hk].
  destruct (String.eqb k (required_name k0)) eqn:E.
  - apply String.eqb_eq in E. subst k. rewrite jget_jset_eq. now eexists.
  - rewrite jget_jset_ne; [eexists; exact Hk|]. intros ->.
    now rewrite String.eqb_refl in E.
Qed.

Lemma require_member_new dm :
  Str.startswith k0 tag_optional_field = false ->
  is_Some (jget k0 (require_member rec dm k0 s)).
Proof.
  intros Hopt.
  assert (Hname : required_name k0 = k0) by (unfold required_name; now rewrite Hopt).
  assert (Hw : is_Some (jget k0 (with_field k0 s dm))).
  { unfold with_field. rewrite Hname, Hopt.
    destruct (jget k0 dm) as [x|] eqn:Eg; [exists x; exact Eg|].
    rewrite (jget_snoc_None _ _ _ _ Eg), String.eqb_refl. now eexists. }
  rewrite require_member_eq, Hname. destruct Hw as [d Hd]. rewrite Hd.
  destruct (_ && _); [|eexists; exact Hd]. rewrite jget_jset_eq. now eexists.
Qed.

End RequireMember.

Lemma require_fold_keys sm : forall dm,
  exists extra,
    map fst (fold_left (fun dm (kx : string * json) =>
                          require_member (jrequire kx.2) dm kx.1 kx.2) sm dm)
    = map fst dm ++ extra.
Proof.
  induction sm as [|[k0 s] sm IH]; intros dm; cbn [fold_left fst snd].
  - exists []. now rewrite app_nil_r.
  - destruct (IH (require_member (jrequire s) dm k0 s)) as (e2 & ->).
    destruct (require_member_keys (jrequire s) k0 s dm) as (e1 & ->).
    exists (e1 ++ e2). now rewrite app_assoc.
Qed.

Lemma require_fold_get sm k x : forall dm,
  jget k dm = Some x -> is_container x = false ->
  jget k (fold_left (fun dm (kx : string * json) =>
                       require_member (jrequire kx.2) dm kx.1 kx.2) sm dm) = Some x.
Proof.
  induction sm as [|[k0 s] sm IH]; intros dm Hk Hx; cbn [fold_left fst snd];
    [exact Hk|].
  apply IH; [|exact Hx]. now apply require_member_get.
Qed.

Lemma require_fold_some sm k : forall dm,
  is_Some (jget k dm) ->
  is_Some (jget k (fold_left (fun dm (kx : string * json) =>
                                require_member (jrequire kx.2) dm kx.1 kx.2) sm dm)).
Proof.
  induction sm as [|[k0 s] sm IH]; intros dm Hk; cbn [fold_left fst snd]; [exact Hk|].
  apply IH. now apply require_member_some.
Qed.

Lemma require_fold_new sm k0 s : forall dm,
  (k0, s) ∈ sm -> Str.startswith k0 tag_optional_field = false ->
  is_Some (jget k0 (fold_left (fun dm (kx : string * json) =>
                                 require_member (jrequire kx.2) dm kx.1 kx.2) sm dm)).
Proof.
  induction sm as [|[k1 s1] sm IH]; intros dm Hin Hopt; cbn [fold_left fst snd].
  - now apply not_elem_of_nil in Hin.
  - apply elem_of_cons in Hin as [Heq|Hin].
    + injection Heq as <- <-. apply require_fold_some. now apply require_member_new.
    + now apply IH.
Qed.

(** Under the same conditions, the manifest after [add_required_fields]:
    its keys are the keys it had, in their order, followed by new ones;
    every member that was not a list or a dictionary has the value it had;
    and every key of the template that does not begin with the optional
    mark is a key of the manifest. *)
Theorem add_required_fields_keeps_and_adds (fuel : nat)
    (ldm required_template : val) (dm sm : list (string * json))
    (fp fps : gset addr) (h : heap) :
  tree h ldm (JDict dm) fp ->
  tree h required_template (JDict sm) fps ->
  fp ## fps -> allocated h fp -> allocated h fps ->
  (depth (JDict sm) < fuel)%nat ->
  exists h' rm,
    add_required_fields fuel ldm required_template h = Ok tt h'
    /\ repr h' ldm (JDict rm)
    /\ (exists extra, map fst rm = map fst dm ++ extra)
    /\ (forall k x, jget k dm = Some x -> is_container x = false -> jget k rm = Some x)
    /\ (forall k0 s, (k0, s) ∈ sm -> Str.startswith k0 tag_optional_field = false ->
          is_Some (jget k0 rm)).
Proof.
  intros Hd Hs Hdj Hal Hals Hdepth.
  destruct (add_required_fields_run fuel ldm required_template dm sm fp fps h
              Hd Hs Hdj Hal Hals Hdepth) as (h' & Hrun & Ht & _).
  cbn [jrequire] in Ht. eexists h', _. split; [exact Hrun|].
  split; [exact (tree_repr _ _ _ _ Ht)|]. split; [apply require_fold_keys|].
  split.
  - intros k x. apply require_fold_get.
  - intros k0 s. apply require_fold_new.
Qed.

Lemma add_required_fields_keeps_and_adds_witness :
  exists h' rm,
    add_required_fields 3 (VRef 0%nat) (VRef 2%nat) require_heap = Ok tt h'
    /\ repr h' (VRef 0%nat) (JDict rm)
    /\ jget "a" rm = Some (JInt 1)
    /\ is_Some (jget "data" rm).
Proof.
  destruct (add_required_fields_keeps_and_adds 3 (VRef 0%nat) (VRef 2%nat)
              require_manifest require_template {[0%nat]} ({[2%nat]} ∪ {[1%nat]})
              require_heap require_heap_manifest require_heap_template
              require_heap_apart require_heap_allocated_manifest
              require_heap_allocated_template)
    as (h' & rm & Hrun & Hr & _ & Hkeep & Hadd).
  - cbn. lia.
  - exists h', rm. split; [exact Hrun|]. split; [exact Hr|]. split.
    + apply Hkeep; reflexivity.
    + apply (Hadd "data"%string (JDict [("x", JInt 0)]%string)); [|reflexivity].
      right. left.
Defined.
